(** * Headerless pool allocator (source/lib/allocators/headerless.cpp)

    A shallow embedding of the allocator's bookkeeping: the boundary tags
    written into freed memory, the address-ordered range lists, the
    segregated lists with their bitmap, the statistics, and the
    Allocate / Deallocate / Reset / Validate operations composed from them.

    Data model.  The code is modelled on its 32-bit x86 target: [size_t],
    [uintptr_t], pointers, [uint] and [u32] are all 32 bits wide, so that
    [FreedBlock] consists of five 4-byte fields and
    [sizeof(FreedBlock) = 20].  Unsigned arithmetic wraps modulo [2^32];
    the wrap-around is written out with [wrap] at every operation of the
    source that can overflow.  Memory is a map from byte addresses to
    32-bit words; every access made by the allocator is to a 4-aligned
    address (blocks are 16-aligned and sizes are multiples of 16), so two
    accesses either hit the same word or disjoint ones.

    Effects.  Every operation threads the objects it mutates explicitly and
    returns a [result]: [Ok] with the value and the new state, or [Err]
    when the run stops (a failed [debug_assert], undefined behaviour such
    as a division by zero, or a list walk that exhausts its fuel). *)

From Stdlib Require Import ZArith List Bool Lia.
Import ListNotations.
Local Open Scope Z_scope.

(* ================================================================== *)
(** * Machine model *)

Definition ptr := Z.

(** Unsigned 32-bit wrap-around. *)
Definition wrap (x : Z) : Z := x mod 2 ^ 32.

(** [~x] on a 32-bit unsigned value. *)
Definition not32 (x : Z) : Z := wrap (Z.lnot x).

Definition memory := Z -> Z.

Definition load (h : memory) (a : ptr) : Z := wrap (h a).

Definition store (h : memory) (a : ptr) (v : Z) : memory :=
  fun x => if x =? a then v else h x.

(* ================================================================== *)
(** * Outcomes of a run *)

Inductive error : Type :=
| AssertFailed      (* a debug_assert did not hold *)
| DivisionByZero    (* integer division by zero *)
| OutOfBounds       (* array index past the end of m_rangeLists *)
| ShiftTooWide      (* shift count not below the width of the operand *)
| OutOfFuel.        (* a list walk did not reach the sentinel *)

Inductive result (A : Type) : Type :=
| Ok (a : A)
| Err (e : error).
Arguments Ok {A} a.
Arguments Err {A} e.

Definition bind {A B : Type} (m : result A) (k : A -> result B) : result B :=
  match m with
  | Ok a => k a
  | Err e => Err e
  end.

Declare Scope result_scope.
Delimit Scope result_scope with result.
Notation "x <- m ;; k" := (bind m (fun x => k))
  (at level 61, m at next level, right associativity) : result_scope.
Notation "' pat <- m ;; k" := (bind m (fun x => match x with pat => k end))
  (at level 61, pat pattern, m at next level, right associativity) : result_scope.
Notation "m ;; k" := (bind m (fun _ => k))
  (at level 61, right associativity) : result_scope.
Local Open Scope result_scope.

(** Modelled from the spec: [debug_assert] (lib/debug.h is absent).  A
    failed assertion is a programming error that halts the run. *)
Definition debug_assert (c : bool) : result unit :=
  if c then Ok tt else Err AssertFailed.

(** Modelled from the spec: [ceil_log2] (lib/bits.h is absent): the least
    [l] with [x <= 2^l], so that class [i > 0] holds the sizes in
    [(2^(i-1), 2^i]]. *)
Definition ceil_log2 (x : Z) : Z := Z.log2_up x.

(** Modelled from the spec: [BIT(n)] (lib/bits.h is absent): the word whose
    only set bit is bit [n].  The macro shifts a 32-bit one, which is
    defined for [n < 32] only. *)
Definition BIT (n : Z) : result Z :=
  if (0 <=? n) && (n <? 32) then Ok (2 ^ n) else Err ShiftTooWide.

(** [x << n] on a 32-bit unsigned operand. *)
Definition shl32 (x n : Z) : result Z :=
  if (0 <=? n) && (n <? 32) then Ok (wrap (Z.shiftl x n)) else Err ShiftTooWide.

(** [x / y] on unsigned operands. *)
Definition udiv (x y : Z) : result Z :=
  if y =? 0 then Err DivisionByZero else Ok (x / y).

Definition minAlignment : Z := 16.
Definition performSanityChecks : bool := true.

(* ================================================================== *)
(** * FreedBlock *)

Definition sizeof_FreedBlock : Z := 20.

(** [IsValidSize], with [sizeof(FreedBlock)] as a parameter. *)
Definition IsValidSize_for (sizeofFreedBlock size : Z) : bool :=
  if size <? sizeofFreedBlock then false
  else if negb (size mod minAlignment =? 0) then false
  else true.

Definition IsValidSize (size : Z) : bool :=
  IsValidSize_for sizeof_FreedBlock size.

Module FreedBlock.

Definition s_magic : Z := 0xFF55AA00.

(** Field addresses of the record at [this]. *)
Definition m_magic_at (this : ptr) : ptr := this.
Definition prev_at (this : ptr) : ptr := this + 4.
Definition next_at (this : ptr) : ptr := this + 8.
Definition m_size_at (this : ptr) : ptr := this + 12.
Definition m_id_at (this : ptr) : ptr := this + 16.

Definition m_magic (h : memory) (this : ptr) : Z := load h (m_magic_at this).
Definition prev (h : memory) (this : ptr) : ptr := load h (prev_at this).
Definition next (h : memory) (this : ptr) : ptr := load h (next_at this).
Definition m_size (h : memory) (this : ptr) : Z := load h (m_size_at this).
Definition m_id (h : memory) (this : ptr) : Z := load h (m_id_at this).

Definition set_prev (h : memory) (this v : ptr) : memory := store h (prev_at this) v.
Definition set_next (h : memory) (this v : ptr) : memory := store h (next_at this) v.

(** [new(this) FreedBlock(id, size)]: the link fields are left as they are. *)
Definition construct (h : memory) (this : ptr) (id size : Z) : memory :=
  let h := store h (m_magic_at this) s_magic in
  let h := store h (m_size_at this) size in
  store h (m_id_at this) id.

(** [this->~FreedBlock()]. *)
Definition destroy (h : memory) (this : ptr) : memory :=
  let h := store h (next_at this) 0 in
  let h := store h (prev_at this) 0 in
  let h := store h (m_id_at this) 0 in
  let h := store h (m_size_at this) (not32 0) in
  store h (m_magic_at this) 0.

Definition Size (h : memory) (this : ptr) : Z := m_size h this.

Definition IsFreedBlock (h : memory) (this : ptr) (id : Z) : bool :=
  if negb (m_id h this =? id) then false
  else if negb (m_magic h this =? s_magic) then false
  else true.

Definition Validate (h : memory) (this : ptr) (id : Z) : result unit :=
  if negb performSanityChecks then Ok tt
  else
    debug_assert (IsValidSize (m_size h this)) ;;
    debug_assert (IsFreedBlock h this id).

End FreedBlock.

(* ================================================================== *)
(** * Freelists: address-ordered range lists *)

Module AddressOrder.
Definition ShouldInsertBefore (current successor : ptr) : bool :=
  current <? successor.
End AddressOrder.

Module RangeList.

(** The sentinel is a [FreedBlock] embedded in the list object; it is
    reached through the same pointers as the blocks, so its link fields
    live in [memory] at the address [m_sentinel]. *)
Record t : Type := mk {
  m_sentinel : ptr;
  m_freeBlocks : Z;
  m_freeBytes : Z
}.

Definition Reset (this : t) (h : memory) : t * memory :=
  let h := FreedBlock.set_prev h (m_sentinel this) (m_sentinel this) in
  let h := FreedBlock.set_next h (m_sentinel this) (m_sentinel this) in
  (mk (m_sentinel this) 0 0, h).

(** The [for] loop of [Insert]: the block before which to insert. *)
Fixpoint Insert_loop (fuel : nat) (h : memory) (sentinel freedBlock successor : ptr)
  : result ptr :=
  match fuel with
  | O => Err OutOfFuel
  | S fuel' =>
      if successor =? sentinel then Ok successor
      else if AddressOrder.ShouldInsertBefore freedBlock successor then Ok successor
      else Insert_loop fuel' h sentinel freedBlock (FreedBlock.next h successor)
  end.

Definition Insert (fuel : nat) (this : t) (h : memory) (freedBlock : ptr)
  : result (t * memory) :=
  successor <- Insert_loop fuel h (m_sentinel this) freedBlock
                 (FreedBlock.next h (m_sentinel this)) ;;
  let h := FreedBlock.set_prev h freedBlock (FreedBlock.prev h successor) in
  let h := FreedBlock.set_next h freedBlock successor in
  let h := FreedBlock.set_next h (FreedBlock.prev h successor) freedBlock in
  let h := FreedBlock.set_prev h successor freedBlock in
  Ok (mk (m_sentinel this)
         (wrap (m_freeBlocks this + 1))
         (wrap (m_freeBytes this + FreedBlock.Size h freedBlock)), h).

(** The [for] loop of [Find]: the first block of size [>= minSize]. *)
Fixpoint Find_loop (fuel : nat) (h : memory) (sentinel : ptr) (minSize : Z)
    (freedBlock : ptr) : result (option ptr) :=
  match fuel with
  | O => Err OutOfFuel
  | S fuel' =>
      if freedBlock =? sentinel then Ok None
      else if FreedBlock.Size h freedBlock >=? minSize then Ok (Some freedBlock)
      else Find_loop fuel' h sentinel minSize (FreedBlock.next h freedBlock)
  end.

(** The null pointer stands for "none". *)
Definition Find (fuel : nat) (this : t) (h : memory) (minSize : Z) : result ptr :=
  found <- Find_loop fuel h (m_sentinel this) minSize
             (FreedBlock.next h (m_sentinel this)) ;;
  match found with
  | Some freedBlock => Ok freedBlock
  | None =>
      (* none found, so average block size is less than the desired size *)
      average <- udiv (m_freeBytes this) (m_freeBlocks this) ;;
      debug_assert (average <? minSize) ;;
      Ok 0
  end.

Definition Remove (this : t) (h : memory) (freedBlock : ptr) : result (t * memory) :=
  let h := FreedBlock.set_prev h (FreedBlock.next h freedBlock)
             (FreedBlock.prev h freedBlock) in
  let h := FreedBlock.set_next h (FreedBlock.prev h freedBlock)
             (FreedBlock.next h freedBlock) in
  debug_assert (negb (m_freeBlocks this =? 0)) ;;
  debug_assert (m_freeBytes this >=? FreedBlock.Size h freedBlock) ;;
  Ok (mk (m_sentinel this)
         (wrap (m_freeBlocks this - 1))
         (wrap (m_freeBytes this - FreedBlock.Size h freedBlock)), h).

Definition IsEmpty (this : t) : bool := m_freeBlocks this =? 0.
Definition FreeBlocks (this : t) : Z := m_freeBlocks this.
Definition FreeBytes (this : t) : Z := m_freeBytes this.

(** One traversal of [Validate], along [step] (forward: [next],
    backward: [prev]), accumulating the block count and byte total. *)
Fixpoint Validate_loop (fuel : nat) (h : memory) (step : memory -> ptr -> ptr)
    (sentinel : ptr) (id : Z) (freedBlock : ptr) (freeBlocks freeBytes : Z)
  : result (Z * Z) :=
  match fuel with
  | O => Err OutOfFuel
  | S fuel' =>
      if freedBlock =? sentinel then Ok (freeBlocks, freeBytes)
      else
        FreedBlock.Validate h freedBlock id ;;
        Validate_loop fuel' h step sentinel id (step h freedBlock)
          (wrap (freeBlocks + 1)) (wrap (freeBytes + FreedBlock.Size h freedBlock))
  end.

Definition Validate (fuel : nat) (this : t) (h : memory) (id : Z) : result unit :=
  if negb performSanityChecks then Ok tt
  else
    let sentinel := m_sentinel this in
    '(freeBlocks, freeBytes) <-
       Validate_loop fuel h FreedBlock.next sentinel id (FreedBlock.next h sentinel) 0 0 ;;
    '(freeBlocks, freeBytes) <-
       Validate_loop fuel h FreedBlock.prev sentinel id (FreedBlock.prev h sentinel)
         freeBlocks freeBytes ;;
    (* our idea of the number and size of free blocks is correct *)
    debug_assert ((freeBlocks =? wrap (m_freeBlocks this * 2))
                  && (freeBytes =? wrap (m_freeBytes this * 2))) ;;
    (* if empty, state must be as established by Reset *)
    debug_assert (negb (IsEmpty this)
                  || ((FreedBlock.next h sentinel =? sentinel)
                      && (FreedBlock.prev h sentinel =? sentinel))).

End RangeList.

(* ================================================================== *)
(** * Segregated range lists *)

Module SegregatedRangeLists.

(** [sizeof(uintptr_t)*CHAR_BIT] *)
Definition numRangeLists : Z := 32.

Record t : Type := mk {
  m_rangeLists : Z -> RangeList.t;   (* indices 0 .. numRangeLists-1 *)
  m_bitmap : Z
}.

(** [m_rangeLists[i]]; indexing past the array is undefined. *)
Definition rangeList (this : t) (i : Z) : result RangeList.t :=
  if (0 <=? i) && (i <? numRangeLists) then Ok (m_rangeLists this i)
  else Err OutOfBounds.

Definition set_rangeList (this : t) (i : Z) (l : RangeList.t) : t :=
  mk (fun j => if j =? i then l else m_rangeLists this j) (m_bitmap this).

Definition set_bitmap (this : t) (b : Z) : t :=
  mk (m_rangeLists this) b.

Definition SizeClass (size : Z) : Z := ceil_log2 (wrap size).

Definition ValueOfLeastSignificantOneBit (x : Z) : Z :=
  Z.land x (wrap (- x)).

(** The indices [0, 1, ..., numRangeLists-1] of the [for] loops. *)
Definition indices : list Z := map Z.of_nat (seq 0 (Z.to_nat numRangeLists)).

Definition Reset (this : t) (h : memory) : t * memory :=
  fold_left
    (fun (acc : t * memory) (i : Z) =>
       let '(l, h) := RangeList.Reset (m_rangeLists (fst acc) i) (snd acc) in
       (set_rangeList (fst acc) i l, h))
    indices (set_bitmap this 0, h).

Definition Insert (fuel : nat) (this : t) (h : memory) (freedBlock : ptr)
  : result (t * memory) :=
  let sizeClass := SizeClass (FreedBlock.Size h freedBlock) in
  l <- rangeList this sizeClass ;;
  '(l, h) <- RangeList.Insert fuel l h freedBlock ;;
  bit <- BIT sizeClass ;;
  Ok (set_bitmap (set_rangeList this sizeClass l) (Z.lor (m_bitmap this) bit), h).

(** The [while(sizeClassBits)] loop of [Find].  Every iteration clears
    one bit of a 32-bit word, so [Find] runs it with 32 rounds. *)
Fixpoint Find_loop (rounds : nat) (fuel : nat) (this : t) (h : memory)
    (minSize sizeClassBits : Z) : result (option ptr) :=
  if sizeClassBits =? 0 then Ok None
  else
    match rounds with
    | O => Err OutOfFuel
    | S rounds' =>
        let size := ValueOfLeastSignificantOneBit sizeClassBits in
        let sizeClassBits := Z.land sizeClassBits (not32 size) in
        let sizeClass := SizeClass size in
        l <- rangeList this sizeClass ;;
        freedBlock <- RangeList.Find fuel l h minSize ;;
        if negb (freedBlock =? 0) then Ok (Some freedBlock)
        else Find_loop rounds' fuel this h minSize sizeClassBits
    end.

Definition Find (fuel : nat) (this : t) (h : memory) (minSize : Z) : result ptr :=
  (* iterate over all large enough, non-empty size classes *)
  let minSizeClass := SizeClass minSize in
  mask <- shl32 (not32 0) minSizeClass ;;
  let sizeClassBits := Z.land (m_bitmap this) mask in
  found <- Find_loop 32 fuel this h minSize sizeClassBits ;;
  match found with
  | Some freedBlock => Ok freedBlock
  | None =>
      (* apparently all classes above minSizeClass are empty,
         or the above would have succeeded. *)
      bit <- BIT (minSizeClass + 1) ;;
      debug_assert (m_bitmap this <? bit) ;;
      Ok 0
  end.

Definition Remove (this : t) (h : memory) (freedBlock : ptr) : result (t * memory) :=
  let sizeClass := SizeClass (FreedBlock.Size h freedBlock) in
  l <- rangeList this sizeClass ;;
  '(l, h) <- RangeList.Remove l h freedBlock ;;
  let this := set_rangeList this sizeClass l in
  if RangeList.IsEmpty l then
    bit <- BIT sizeClass ;;
    Ok (set_bitmap this (Z.land (m_bitmap this) (not32 bit)), h)
  else Ok (this, h).

Fixpoint Validate_loop (fuel : nat) (this : t) (h : memory) (id : Z) (classes : list Z)
  : result unit :=
  match classes with
  | [] => Ok tt
  | i :: classes' =>
      RangeList.Validate fuel (m_rangeLists this i) h id ;;
      (* both bitmap and list must agree on whether they are empty *)
      bit <- BIT i ;;
      debug_assert (Bool.eqb (Z.land (m_bitmap this) bit =? 0)
                             (RangeList.IsEmpty (m_rangeLists this i))) ;;
      Validate_loop fuel this h id classes'
  end.

Definition Validate (fuel : nat) (this : t) (h : memory) (id : Z) : result unit :=
  Validate_loop fuel this h id indices.

Definition FreeBlocks (this : t) : Z :=
  fold_left (fun freeBlocks i => wrap (freeBlocks + RangeList.FreeBlocks (m_rangeLists this i)))
    indices 0.

Definition FreeBytes (this : t) : Z :=
  fold_left (fun freeBytes i => wrap (freeBytes + RangeList.FreeBytes (m_rangeLists this i)))
    indices 0.

End SegregatedRangeLists.

(* ================================================================== *)
(** * Coalescing: boundary tags *)

Module BoundaryTagManager.

Definition s_headerId : Z := 0x111E8E6F.
Definition s_footerId : Z := 0x4D745342.

Record t : Type := mk {
  m_freeBlocks : Z;
  m_freeBytes : Z
}.

Definition construct : t := mk 0 0.

Definition Footer (h : memory) (freedBlock : ptr) : ptr :=
  wrap (freedBlock + FreedBlock.Size h freedBlock - sizeof_FreedBlock).

Definition Validate (this : t) (h : memory) (freedBlock : ptr) : result unit :=
  if negb performSanityChecks then Ok tt
  else
    (* the existence of freedBlock means our bookkeeping better have
       records of at least that much memory. *)
    debug_assert (negb (m_freeBlocks this =? 0)) ;;
    debug_assert (m_freeBytes this >=? FreedBlock.Size h freedBlock) ;;
    FreedBlock.Validate h freedBlock s_headerId ;;
    FreedBlock.Validate h (Footer h freedBlock) s_footerId.

Definition WriteTags (this : t) (h : memory) (p : ptr) (size : Z)
  : result (ptr * t * memory) :=
  let freedBlock := p in
  let h := FreedBlock.construct h freedBlock s_headerId size in
  let h := FreedBlock.construct h (Footer h freedBlock) s_footerId size in
  let this := mk (wrap (m_freeBlocks this + 1)) (wrap (m_freeBytes this + size)) in
  Validate this h freedBlock ;;
  Ok (freedBlock, this, h).

Definition RemoveTags (this : t) (h : memory) (freedBlock : ptr) : result (t * memory) :=
  Validate this h freedBlock ;;
  debug_assert (negb (m_freeBlocks this =? 0)) ;;
  debug_assert (m_freeBytes this >=? FreedBlock.Size h freedBlock) ;;
  let this := mk (wrap (m_freeBlocks this - 1))
                 (wrap (m_freeBytes this - FreedBlock.Size h freedBlock)) in
  let footer := Footer h freedBlock in
  let h := FreedBlock.destroy h freedBlock in
  let h := FreedBlock.destroy h footer in
  Ok (this, h).

Definition PrecedingBlock (this : t) (h : memory) (p beginningOfPool : ptr) : result ptr :=
  if p =? beginningOfPool then Ok 0     (* avoid accessing invalid memory *)
  else
    let footer := wrap (p - sizeof_FreedBlock) in
    if negb (FreedBlock.IsFreedBlock h footer s_footerId) then Ok 0
    else
      FreedBlock.Validate h footer s_footerId ;;
      let precedingBlock := wrap (p - FreedBlock.Size h footer) in
      Validate this h precedingBlock ;;
      Ok precedingBlock.

Definition FollowingBlock (this : t) (h : memory) (p : ptr) (size : Z) (endOfPool : ptr)
  : result ptr :=
  if wrap (p + size) =? endOfPool then Ok 0   (* avoid accessing invalid memory *)
  else
    let followingBlock := wrap (p + size) in
    if negb (FreedBlock.IsFreedBlock h followingBlock s_headerId) then Ok 0
    else
      Validate this h followingBlock ;;
      Ok followingBlock.

Definition FreeBlocks (this : t) : Z := m_freeBlocks this.
Definition FreeBytes (this : t) : Z := m_freeBytes this.

End BoundaryTagManager.

(* ================================================================== *)
(** * Statistics *)

Module Stats.

Record t : Type := mk {
  m_totalAllocatedBlocks : Z;   m_totalAllocatedBytes : Z;
  m_totalDeallocatedBlocks : Z; m_totalDeallocatedBytes : Z;
  m_currentExtantBlocks : Z;    m_currentExtantBytes : Z;
  m_currentFreeBlocks : Z;      m_currentFreeBytes : Z
}.

Definition OnReset (this : t) : t :=
  if negb performSanityChecks then this
  else mk 0 0 0 0 0 0 0 0.

Definition OnAllocate (this : t) (size : Z) : t :=
  if negb performSanityChecks then this
  else
    mk (wrap (m_totalAllocatedBlocks this + 1)) (wrap (m_totalAllocatedBytes this + size))
       (m_totalDeallocatedBlocks this) (m_totalDeallocatedBytes this)
       (wrap (m_currentExtantBlocks this + 1)) (wrap (m_currentExtantBytes this + size))
       (m_currentFreeBlocks this) (m_currentFreeBytes this).

Definition OnDeallocate (this : t) (size : Z) : result t :=
  if negb performSanityChecks then Ok this
  else
    let totalDeallocatedBlocks := wrap (m_totalDeallocatedBlocks this + 1) in
    let totalDeallocatedBytes := wrap (m_totalDeallocatedBytes this + size) in
    debug_assert (totalDeallocatedBlocks <=? m_totalAllocatedBlocks this) ;;
    debug_assert (totalDeallocatedBytes <=? totalDeallocatedBytes) ;;
    debug_assert (negb (m_currentExtantBlocks this =? 0)) ;;
    debug_assert (m_currentExtantBytes this >=? size) ;;
    Ok (mk (m_totalAllocatedBlocks this) (m_totalAllocatedBytes this)
           totalDeallocatedBlocks totalDeallocatedBytes
           (wrap (m_currentExtantBlocks this - 1)) (wrap (m_currentExtantBytes this - size))
           (m_currentFreeBlocks this) (m_currentFreeBytes this)).

Definition OnAddToFreelist (this : t) (size : Z) : t :=
  mk (m_totalAllocatedBlocks this) (m_totalAllocatedBytes this)
     (m_totalDeallocatedBlocks this) (m_totalDeallocatedBytes this)
     (m_currentExtantBlocks this) (m_currentExtantBytes this)
     (wrap (m_currentFreeBlocks this + 1)) (wrap (m_currentFreeBytes this + size)).

Definition OnRemoveFromFreelist (this : t) (size : Z) : result t :=
  if negb performSanityChecks then Ok this
  else
    debug_assert (negb (m_currentFreeBlocks this =? 0)) ;;
    debug_assert (m_currentFreeBytes this >=? size) ;;
    Ok (mk (m_totalAllocatedBlocks this) (m_totalAllocatedBytes this)
           (m_totalDeallocatedBlocks this) (m_totalDeallocatedBytes this)
           (m_currentExtantBlocks this) (m_currentExtantBytes this)
           (wrap (m_currentFreeBlocks this - 1)) (wrap (m_currentFreeBytes this - size))).

Definition Validate (this : t) : result unit :=
  if negb performSanityChecks then Ok tt
  else
    debug_assert (m_totalDeallocatedBlocks this <=? m_totalAllocatedBlocks this) ;;
    debug_assert (m_totalDeallocatedBytes this <=? m_totalAllocatedBytes this) ;;
    debug_assert (m_currentExtantBlocks this
                  =? wrap (m_totalAllocatedBlocks this - m_totalDeallocatedBlocks this)) ;;
    debug_assert (m_currentExtantBytes this
                  =? wrap (m_totalAllocatedBytes this - m_totalDeallocatedBytes this)).

Definition FreeBlocks (this : t) : Z := m_currentFreeBlocks this.
Definition FreeBytes (this : t) : Z := m_currentFreeBytes this.

End Stats.

(* ================================================================== *)
(** * The pool (external collaborator) *)

Module Pool.

(** The inspectable fields of the pool: [da.base], [da.pos], and the
    capacity it was created with. *)
Record t : Type := mk {
  base : ptr;
  pos : Z;
  max_size : Z
}.

(** Modelled from the spec: [pool_create] (pool.cpp is absent): contiguous
    storage of the given capacity, here located at [at_base]. *)
Definition pool_create (at_base : ptr) (capacity : Z) : t := mk at_base 0 capacity.

(** Modelled from the spec: [pool_alloc] (pool.cpp is absent):
    bump-allocate from the end of the pool, null when the capacity is
    exhausted. *)
Definition pool_alloc (p : t) (size : Z) : ptr * t :=
  if pos p + size <=? max_size p
  then (base p + pos p, mk (base p) (pos p + size) (max_size p))
  else (0, p).

(** Modelled from the spec: [pool_free_all] (pool.cpp is absent): resets
    the bump pointer. *)
Definition pool_free_all (p : t) : t := mk (base p) 0 (max_size p).

(** Modelled from the spec: [pool_contains] (pool.cpp is absent): whether
    the pointer lies in [[base, base+pos)]. *)
Definition pool_contains (p : t) (el : ptr) : bool :=
  (base p <=? el) && (el <? base p + pos p).

End Pool.

(* ================================================================== *)
(** * HeaderlessAllocator::Impl *)

Definition AssertEqual (x1 x2 x3 : Z) : result unit :=
  debug_assert ((x1 =? x2) && (x2 =? x3)).

Module Impl.

Record t : Type := mk {
  heap : memory;
  m_pool : Pool.t;
  m_segregatedRangeLists : SegregatedRangeLists.t;
  m_boundaryTagManager : BoundaryTagManager.t;
  m_stats : Stats.t
}.

Definition Validate (fuel : nat) (this : t) : result unit :=
  if negb performSanityChecks then Ok tt
  else
    SegregatedRangeLists.Validate fuel (m_segregatedRangeLists this) (heap this)
      BoundaryTagManager.s_headerId ;;
    Stats.Validate (m_stats this) ;;
    AssertEqual (Stats.FreeBlocks (m_stats this))
                (SegregatedRangeLists.FreeBlocks (m_segregatedRangeLists this))
                (BoundaryTagManager.FreeBlocks (m_boundaryTagManager this)) ;;
    AssertEqual (Stats.FreeBytes (m_stats this))
                (SegregatedRangeLists.FreeBytes (m_segregatedRangeLists this))
                (BoundaryTagManager.FreeBytes (m_boundaryTagManager this)).

(** The three statements of [Reset] that precede its [Validate]. *)
Definition Reset_body (this : t) : t :=
  let pool := Pool.pool_free_all (m_pool this) in
  let '(lists, h) := SegregatedRangeLists.Reset (m_segregatedRangeLists this) (heap this) in
  let stats := Stats.OnReset (m_stats this) in
  mk h pool lists (m_boundaryTagManager this) stats.

Definition Reset (fuel : nat) (this : t) : result t :=
  let this := Reset_body this in
  Validate fuel this ;;
  Ok this.

Definition AddToFreelist (fuel : nat) (this : t) (p : ptr) (size : Z) : result t :=
  '(freedBlock, tags, h) <-
     BoundaryTagManager.WriteTags (m_boundaryTagManager this) (heap this) p size ;;
  '(lists, h) <-
     SegregatedRangeLists.Insert fuel (m_segregatedRangeLists this) h freedBlock ;;
  let stats := Stats.OnAddToFreelist (m_stats this) size in
  Ok (mk h (m_pool this) lists tags stats).

Definition RemoveFromFreelist (this : t) (freedBlock : ptr) : result t :=
  stats <- Stats.OnRemoveFromFreelist (m_stats this)
             (FreedBlock.Size (heap this) freedBlock) ;;
  '(lists, h) <-
     SegregatedRangeLists.Remove (m_segregatedRangeLists this) (heap this) freedBlock ;;
  '(tags, h) <-
     BoundaryTagManager.RemoveTags (m_boundaryTagManager this) h freedBlock ;;
  Ok (mk h (m_pool this) lists tags stats).

(** First half of [Coalesce]: merge with the preceding free block. *)
Definition Coalesce_preceding (this : t) (p : ptr) (size : Z) : result (ptr * Z * t) :=
  precedingBlock <-
    BoundaryTagManager.PrecedingBlock (m_boundaryTagManager this) (heap this) p
      (Pool.base (m_pool this)) ;;
  if negb (precedingBlock =? 0) then
    let p := wrap (p - FreedBlock.Size (heap this) precedingBlock) in
    let size := wrap (size + FreedBlock.Size (heap this) precedingBlock) in
    this <- RemoveFromFreelist this precedingBlock ;;
    Ok (p, size, this)
  else Ok (p, size, this).

(** Second half of [Coalesce]: merge with the following free block. *)
Definition Coalesce_following (this : t) (p : ptr) (size : Z) : result (ptr * Z * t) :=
  followingBlock <-
    BoundaryTagManager.FollowingBlock (m_boundaryTagManager this) (heap this) p size
      (wrap (Pool.base (m_pool this) + Pool.pos (m_pool this))) ;;
  if negb (followingBlock =? 0) then
    let size := wrap (size + FreedBlock.Size (heap this) followingBlock) in
    this <- RemoveFromFreelist this followingBlock ;;
    Ok (p, size, this)
  else Ok (p, size, this).

(** [Coalesce(p, size)]: both arguments are references, returned here. *)
Definition Coalesce (this : t) (p : ptr) (size : Z) : result (ptr * Z * t) :=
  '(p, size, this) <- Coalesce_preceding this p size ;;
  Coalesce_following this p size.

Definition TakeAndSplitFreeBlock (fuel : nat) (this : t) (size : Z) : result (ptr * t) :=
  freedBlock <-
    SegregatedRangeLists.Find fuel (m_segregatedRangeLists this) (heap this) size ;;
  if freedBlock =? 0 then Ok (0, this)
  else
    let p := freedBlock in
    let leftoverSize := wrap (FreedBlock.Size (heap this) freedBlock - size) in
    this <- RemoveFromFreelist this freedBlock ;;
    if IsValidSize leftoverSize then
      this <- AddToFreelist fuel this (wrap (p + size)) leftoverSize ;;
      Ok (p, this)
    else Ok (p, this).

Definition Allocate (fuel : nat) (this : t) (size : Z) : result (ptr * t) :=
  debug_assert (IsValidSize size) ;;
  Validate fuel this ;;
  '(p, this1) <- TakeAndSplitFreeBlock fuel this size ;;
  '(p, this2) <-
     (if p =? 0 then
        let '(p, pool) := Pool.pool_alloc (m_pool this1) size in
        Ok (p, mk (heap this1) pool (m_segregatedRangeLists this1)
                  (m_boundaryTagManager this1) (m_stats this1))
      else Ok (p, this1)) ;;
  if p =? 0 then
    (* both failed; don't throw bad_alloc because
       this often happens with the file cache. *)
    Ok (0, this2)
  else
    (* (NB: we must not update the statistics if allocation failed) *)
    let this3 := mk (heap this2) (m_pool this2) (m_segregatedRangeLists this2)
                    (m_boundaryTagManager this2) (Stats.OnAllocate (m_stats this2) size) in
    Validate fuel this3 ;;
    Ok (p, this3).

Definition Deallocate (fuel : nat) (this : t) (p : ptr) (size : Z) : result t :=
  debug_assert (p mod minAlignment =? 0) ;;
  debug_assert (IsValidSize size) ;;
  debug_assert (Pool.pool_contains (m_pool this) p) ;;
  debug_assert (Pool.pool_contains (m_pool this) (wrap (p + size - 1))) ;;
  Validate fuel this ;;
  stats <- Stats.OnDeallocate (m_stats this) size ;;
  let this := mk (heap this) (m_pool this) (m_segregatedRangeLists this)
                 (m_boundaryTagManager this) stats in
  '(p, size, this) <- Coalesce this p size ;;
  this <- AddToFreelist fuel this p size ;;
  Validate fuel this ;;
  Ok this.

(** [Impl(poolSize)].  The constructor's environment is explicit: the
    memory [h] it runs in, the address [at_base] of the pool's storage,
    and the address [lists_at] of the [m_rangeLists] array within the
    object (whose elements are [sizeof(RangeList) = 28] bytes apart).
    The members are default-constructed before the body runs [Reset];
    [Stats] has no constructor, so its initial fields are indeterminate
    ([stats0]). *)
Definition sizeof_RangeList : Z := 28.

Definition construct (fuel : nat) (h : memory) (at_base lists_at : ptr)
    (stats0 : Stats.t) (poolSize : Z) : result t :=
  let lists0 := SegregatedRangeLists.mk
                  (fun i => RangeList.mk (lists_at + i * sizeof_RangeList) 0 0) 0 in
  let '(lists, h) := SegregatedRangeLists.Reset lists0 h in
  Reset fuel (mk h (Pool.pool_create at_base poolSize) lists
                 BoundaryTagManager.construct stats0).

End Impl.

(** The operations are unfolded on demand only. *)
Arguments wrap : simpl never.
Arguments load : simpl never.
Arguments store : simpl never.
Arguments IsValidSize : simpl never.
Arguments RangeList.Insert : simpl never.
Arguments RangeList.Find : simpl never.
Arguments RangeList.Remove : simpl never.
Arguments RangeList.Validate : simpl never.
Arguments SegregatedRangeLists.Reset : simpl never.
Arguments SegregatedRangeLists.Insert : simpl never.
Arguments SegregatedRangeLists.Find : simpl never.
Arguments SegregatedRangeLists.Remove : simpl never.
Arguments SegregatedRangeLists.Validate : simpl never.
Arguments SegregatedRangeLists.FreeBlocks : simpl never.
Arguments SegregatedRangeLists.FreeBytes : simpl never.
Arguments BoundaryTagManager.Validate : simpl never.
Arguments BoundaryTagManager.WriteTags : simpl never.
Arguments BoundaryTagManager.RemoveTags : simpl never.
Arguments BoundaryTagManager.PrecedingBlock : simpl never.
Arguments BoundaryTagManager.FollowingBlock : simpl never.
Arguments Stats.Validate : simpl never.
Arguments Impl.Validate : simpl never.

(* ================================================================== *)
(** * A concrete allocator: pool of 4096 bytes

    The environment of the runs used below: zeroed memory, the pool's
    storage at [0x10000], the [m_rangeLists] array at [0x1000]. *)

Module Scenario.

Definition fuel : nat := 64.
Definition pool_at : ptr := 0x10000.
Definition lists_at : ptr := 0x1000.

Definition create : result Impl.t :=
  Impl.construct fuel (fun _ => 0) pool_at lists_at (Stats.mk 0 0 0 0 0 0 0 0) 4096.

(** The three tallies of free blocks and free bytes:
    Stats, SegregatedRangeLists, BoundaryTagManager. *)
Definition tallies (s : Impl.t) : (Z * Z) * (Z * Z) * (Z * Z) :=
  ((Stats.FreeBlocks (Impl.m_stats s), Stats.FreeBytes (Impl.m_stats s)),
   (SegregatedRangeLists.FreeBlocks (Impl.m_segregatedRangeLists s),
    SegregatedRangeLists.FreeBytes (Impl.m_segregatedRangeLists s)),
   (BoundaryTagManager.FreeBlocks (Impl.m_boundaryTagManager s),
    BoundaryTagManager.FreeBytes (Impl.m_boundaryTagManager s))).

(** The value of a run that is known to succeed. *)
Definition value {A : Type} (default : A) (r : result A) : A :=
  match r with
  | Ok a => a
  | Err _ => default
  end.

Definition succeeds {A : Type} (r : result A) : bool :=
  match r with
  | Ok _ => true
  | Err _ => false
  end.

(** The error that stopped a run, if any. *)
Definition failure {A : Type} (r : result A) : option error :=
  match r with
  | Ok _ => None
  | Err e => Some e
  end.

Definition blank : Impl.t :=
  Impl.mk (fun _ => 0) (Pool.mk 0 0 0)
    (SegregatedRangeLists.mk (fun _ => RangeList.mk 0 0 0) 0)
    (BoundaryTagManager.mk 0 0) (Stats.mk 0 0 0 0 0 0 0 0).

(** [Allocate(64) -> p; Deallocate(p, 64)] on a fresh allocator. *)
Definition one_freed : result Impl.t :=
  s <- create ;;
  '(p, s) <- Impl.Allocate fuel s 64 ;;
  Impl.Deallocate fuel s p 64.

(** [Allocate(128) -> a, b, c; Deallocate(a); Deallocate(c)]: the block
    [b] at [pool_at + 128] lies between two free blocks. *)
Definition two_freed : result Impl.t :=
  s <- create ;;
  '(a, s) <- Impl.Allocate fuel s 128 ;;
  '(b, s) <- Impl.Allocate fuel s 128 ;;
  '(c, s) <- Impl.Allocate fuel s 128 ;;
  s <- Impl.Deallocate fuel s a 128 ;;
  Impl.Deallocate fuel s c 128.

End Scenario.

(* ================================================================== *)
(** * Arithmetic and memory lemmas *)

Definition is_size_t (x : Z) : Prop := 0 <= x < 2 ^ 32.

Lemma wrap_range x : is_size_t (wrap x).
Proof. unfold is_size_t, wrap. apply Z.mod_pos_bound. lia. Qed.

Lemma wrap_small x : is_size_t x -> wrap x = x.
Proof. unfold is_size_t, wrap. intros. apply Z.mod_small. lia. Qed.

Lemma wrap_wrap x : wrap (wrap x) = wrap x.
Proof. apply wrap_small, wrap_range. Qed.

Lemma wrap_add_l x y : wrap (wrap x + y) = wrap (x + y).
Proof. unfold wrap. apply Z.add_mod_idemp_l. lia. Qed.

Lemma wrap_add_r x y : wrap (x + wrap y) = wrap (x + y).
Proof. unfold wrap. apply Z.add_mod_idemp_r. lia. Qed.

Lemma wrap_sub_l x y : wrap (wrap x - y) = wrap (x - y).
Proof. unfold wrap. apply Zminus_mod_idemp_l. Qed.

Lemma wrap_sub_r x y : wrap (x - wrap y) = wrap (x - y).
Proof. unfold wrap. apply Zminus_mod_idemp_r. Qed.

Lemma not32_0 : not32 0 = 2 ^ 32 - 1.
Proof. reflexivity. Qed.

Lemma load_range h a : is_size_t (load h a).
Proof. apply wrap_range. Qed.

Lemma load_store_same h a v : load (store h a v) a = wrap v.
Proof. unfold load, store. now rewrite Z.eqb_refl. Qed.

Lemma load_store_other h a b v : a <> b -> load (store h b v) a = load h a.
Proof.
  unfold load, store. intros Hab.
  destruct (Z.eqb_spec a b); [contradiction | reflexivity].
Qed.

Lemma bind_Ok {A B : Type} (m : result A) (k : A -> result B) (b : B) :
  bind m k = Ok b -> exists a, m = Ok a /\ k a = Ok b.
Proof. destruct m as [a | e]; simpl; [eauto | discriminate]. Qed.

Lemma debug_assert_Ok c : debug_assert c = Ok tt <-> c = true.
Proof. destruct c; simpl; split; auto; discriminate. Qed.

Lemma debug_assert_inv c u : debug_assert c = Ok u -> c = true.
Proof. destruct c; simpl; [auto | discriminate]. Qed.

(** Invert a successful run: split binds, turn passed assertions into
    boolean facts. *)
Ltac inv_run :=
  repeat match goal with
         | H : bind _ _ = Ok _ |- _ =>
             let a := fresh "a" in
             let Ha := fresh "Hrun" in
             apply bind_Ok in H; destruct H as [a [Ha H]]
         | H : debug_assert _ = Ok _ |- _ => apply debug_assert_inv in H
         | H : Ok _ = Ok _ |- _ => injection H as H
         | H : (_, _) = (_, _) |- _ => injection H as H
         | H : (match ?x with (_, _) => _ end) = Ok _ |- _ => destruct x
         end.

Lemma IsValidSize_for_spec S size :
  IsValidSize_for S size = true <-> S <= size /\ size mod 16 = 0.
Proof.
  unfold IsValidSize_for, minAlignment.
  destruct (Z.ltb_spec size S); [ split; [discriminate | lia] | ].
  destruct (Z.eqb_spec (size mod 16) 0); simpl; split; try tauto; try discriminate.
Qed.

Lemma IsValidSize_spec size :
  IsValidSize size = true <-> 20 <= size /\ size mod 16 = 0.
Proof. apply IsValidSize_for_spec. Qed.

Lemma value_Ok {A : Type} (d : A) (r : result A) :
  Scenario.succeeds r = true -> r = Ok (Scenario.value d r).
Proof. destruct r; simpl; [reflexivity | discriminate]. Qed.
(* ================================================================== *)
(** * Reset *)

Lemma Reset_body_keeps_tag_manager s :
  Impl.m_boundaryTagManager (Impl.Reset_body s) = Impl.m_boundaryTagManager s.
Proof.
  unfold Impl.Reset_body.
  destruct (SegregatedRangeLists.Reset _ _) as [lists h]. reflexivity.
Qed.

Lemma Reset_body_clears_stats s :
  Stats.FreeBlocks (Impl.m_stats (Impl.Reset_body s)) = 0
  /\ Stats.FreeBytes (Impl.m_stats (Impl.Reset_body s)) = 0.
Proof.
  unfold Impl.Reset_body.
  destruct (SegregatedRangeLists.Reset _ _) as [lists h]. split; reflexivity.
Qed.

(** C1.  [Reset] after [Allocate(64) -> p; Deallocate(p, 64)] on a fresh
    4096-byte allocator: before the call all three tallies report one free
    block of 64 bytes; the statements of [Reset] zero the tallies of Stats
    and of the segregated lists but leave the BoundaryTagManager's at one
    block and 64 bytes, and the [Validate] that ends [Reset] then fails its
    [AssertEqual]. *)
Theorem Reset_after_free_keeps_tag_tallies :
  (s <- Scenario.one_freed ;;
   Ok (Scenario.tallies s,
       Scenario.tallies (Impl.Reset_body s),
       Scenario.failure (Impl.Reset Scenario.fuel s)))
  = Ok (((1, 64), (1, 64), (1, 64)),
        ((0, 0), (0, 0), (1, 64)),
        Some AssertFailed).
Proof. vm_compute. reflexivity. Qed.

(* ================================================================== *)
(** * IsValidSize *)

(** C2.  [IsValidSize(32)] holds although [32 < 2 * sizeof(FreedBlock)]:
    the test compares against one record, not two.  A block of that size
    cannot hold both tags: on [Allocate(32) -> p; Deallocate(p, 32)] the
    footer written by [WriteTags] overlaps the header, and the validation
    inside [WriteTags] fails. *)
Theorem IsValidSize_accepts_less_than_two_records :
  IsValidSize 32 = true
  /\ sizeof_FreedBlock <= 32 < 2 * sizeof_FreedBlock
  /\ (s <- Scenario.create ;;
      '(p, s) <- Impl.Allocate Scenario.fuel s 32 ;;
      Impl.Deallocate Scenario.fuel s p 32) = Err AssertFailed.
Proof.
  split; [reflexivity | split; [unfold sizeof_FreedBlock; lia | vm_compute; reflexivity]].
Qed.

(* ================================================================== *)
(** * Allocate: the failure path *)

Lemma Impl_eta (s : Impl.t) :
  Impl.mk (Impl.heap s) (Impl.m_pool s) (Impl.m_segregatedRangeLists s)
          (Impl.m_boundaryTagManager s) (Impl.m_stats s) = s.
Proof. destruct s; reflexivity. Qed.

Lemma pool_alloc_exhausted (p : Pool.t) size :
  Pool.max_size p < Pool.pos p + size -> Pool.pool_alloc p size = (0, p).
Proof.
  intros H. unfold Pool.pool_alloc.
  destruct (Z.leb_spec (Pool.pos p + size) (Pool.max_size p)); [lia | reflexivity].
Qed.

(** C4.  When the free structure finds no block for [size]
    ([SegregatedRangeLists::Find] returns null) and the pool cannot supply
    [size] more bytes, [Allocate(size)] returns null without stopping, and
    the allocator (statistics, lists, tags, pool and memory) is exactly as
    it was. *)
Theorem Allocate_failure_leaves_state (fuel : nat) (this : Impl.t) (size : Z) :
  IsValidSize size = true ->
  Impl.Validate fuel this = Ok tt ->
  SegregatedRangeLists.Find fuel (Impl.m_segregatedRangeLists this) (Impl.heap this) size
    = Ok 0 ->
  Pool.max_size (Impl.m_pool this) < Pool.pos (Impl.m_pool this) + size ->
  Impl.Allocate fuel this size = Ok (0, this).
Proof.
  intros Hsize Hvalid Hfind Hpool.
  unfold Impl.Allocate, Impl.TakeAndSplitFreeBlock.
  rewrite Hsize, Hvalid, Hfind. cbn.
  rewrite (pool_alloc_exhausted _ _ Hpool). cbn.
  now rewrite Impl_eta.
Qed.

(* ================================================================== *)
(** * Coalesce *)

Lemma RemoveFromFreelist_pool this b this' :
  Impl.RemoveFromFreelist this b = Ok this' -> Impl.m_pool this' = Impl.m_pool this.
Proof.
  unfold Impl.RemoveFromFreelist. intros H. inv_run. now subst.
Qed.

Lemma FollowingBlock_depends_on_end tags h p size p' size' e :
  wrap (p' + size') = wrap (p + size) ->
  BoundaryTagManager.FollowingBlock tags h p' size' e
  = BoundaryTagManager.FollowingBlock tags h p size e.
Proof. unfold BoundaryTagManager.FollowingBlock. now intros ->. Qed.

(** C5.  Whatever the first half of [Coalesce] does to [p] and [size]
    (nothing, or [p -= n; size += n] for the size [n] of the preceding
    free block), the address [p + size] handed to [FollowingBlock] is the
    incoming one, the pool's [base] and [pos] it is compared with are the
    unmodified ones, and so the probe is the one the incoming [p] and
    [size] would have made. *)
Theorem Coalesce_probes_incoming_end (this : Impl.t) (p size p' size' : Z) (this' : Impl.t) :
  Impl.Coalesce_preceding this p size = Ok (p', size', this') ->
  wrap (p' + size') = wrap (p + size)
  /\ Impl.m_pool this' = Impl.m_pool this
  /\ Impl.Coalesce this p size = Impl.Coalesce_following this' p' size'
  /\ Impl.Coalesce_following this' p' size'
     = (followingBlock <-
          BoundaryTagManager.FollowingBlock (Impl.m_boundaryTagManager this')
            (Impl.heap this') p size
            (wrap (Pool.base (Impl.m_pool this) + Pool.pos (Impl.m_pool this))) ;;
        if negb (followingBlock =? 0) then
          let size'' := wrap (size' + FreedBlock.Size (Impl.heap this') followingBlock) in
          this'' <- Impl.RemoveFromFreelist this' followingBlock ;;
          Ok (p', size'', this'')
        else Ok (p', size', this')).
Proof.
  intros H.
  assert (Hsum : wrap (p' + size') = wrap (p + size) /\ Impl.m_pool this' = Impl.m_pool this).
  { unfold Impl.Coalesce_preceding in H.
    apply bind_Ok in H. destruct H as [prec [_ H]].
    destruct (negb (prec =? 0)).
    - apply bind_Ok in H. destruct H as [t [Hrm H]].
      injection H as <- <- <-. split.
      + rewrite wrap_add_l, wrap_add_r. f_equal. lia.
      + eapply RemoveFromFreelist_pool; eauto.
    - injection H as <- <- <-. auto. }
  destruct Hsum as [Hsum Hpool].
  repeat split; auto.
  - unfold Impl.Coalesce. now rewrite H.
  - unfold Impl.Coalesce_following. rewrite Hpool.
    now rewrite (FollowingBlock_depends_on_end _ _ p size p' size' _ Hsum).
Qed.

(** In the run [Scenario.two_freed] the block at [pool_at + 128] has a free
    predecessor: the first half of [Coalesce] moves [p] down to [pool_at]
    and grows [size] to 256. *)
Lemma Coalesce_probes_incoming_end_witness :
  let s := Scenario.value Scenario.blank Scenario.two_freed in
  let r := Scenario.value (0, 0, s)
             (Impl.Coalesce_preceding s (Scenario.pool_at + 128) 128) in
  (fst (fst r) = Scenario.pool_at /\ snd (fst r) = 256)
  /\ wrap (fst (fst r) + snd (fst r)) = wrap (Scenario.pool_at + 128 + 128).
Proof.
  cbv zeta. split.
  - split; vm_compute; reflexivity.
  - refine (proj1 (Coalesce_probes_incoming_end
                     (Scenario.value Scenario.blank Scenario.two_freed)
                     (Scenario.pool_at + 128) 128 _ _ _ _)).
    rewrite <- !surjective_pairing.
    apply value_Ok. vm_compute. reflexivity.
Defined.

(* ================================================================== *)
(** * Boundary tags *)

(** Unfold the field accessors down to [load] and [store]. *)
Ltac unfold_fields :=
  unfold FreedBlock.Size, FreedBlock.m_magic, FreedBlock.prev, FreedBlock.next,
    FreedBlock.m_size, FreedBlock.m_id, FreedBlock.set_prev, FreedBlock.set_next,
    FreedBlock.construct, FreedBlock.destroy,
    FreedBlock.m_magic_at, FreedBlock.prev_at, FreedBlock.next_at,
    FreedBlock.m_size_at, FreedBlock.m_id_at in *.

(** Resolve reads against the writes that precede them. *)
Ltac mem_simpl :=
  repeat (rewrite load_store_same || rewrite load_store_other by lia).

(** Linear arithmetic with [wrap] expanded into its quotient and remainder. *)
Ltac wrap_lia :=
  unfold is_size_t, wrap in *;
  change (2 ^ 32) with 4294967296 in *;
  Z.to_euclidean_division_equations; lia.

Lemma FreedBlock_Validate_inv h b id u :
  FreedBlock.Validate h b id = Ok u ->
  20 <= FreedBlock.Size h b
  /\ FreedBlock.Size h b mod 16 = 0
  /\ FreedBlock.m_id h b = id
  /\ FreedBlock.m_magic h b = FreedBlock.s_magic.
Proof.
  unfold FreedBlock.Validate, FreedBlock.IsFreedBlock. simpl. intros H. inv_run.
  apply IsValidSize_spec in Hrun.
  destruct (Z.eqb_spec (FreedBlock.m_id h b) id); simpl in H; [ | discriminate].
  destruct (Z.eqb_spec (FreedBlock.m_magic h b) FreedBlock.s_magic); simpl in H;
    [ | discriminate].
  unfold FreedBlock.Size. tauto.
Qed.

Lemma FreedBlock_Validate_intro h b id :
  20 <= FreedBlock.Size h b ->
  FreedBlock.Size h b mod 16 = 0 ->
  FreedBlock.m_id h b = id ->
  FreedBlock.m_magic h b = FreedBlock.s_magic ->
  FreedBlock.Validate h b id = Ok tt.
Proof.
  intros H1 H2 H3 H4. unfold FreedBlock.Validate, FreedBlock.IsFreedBlock. simpl.
  assert (Hv : IsValidSize (FreedBlock.m_size h b) = true)
    by (apply IsValidSize_spec; auto).
  rewrite Hv, H3, H4, !Z.eqb_refl. reflexivity.
Qed.

Lemma BoundaryTagManager_Validate_inv this h b u :
  BoundaryTagManager.Validate this h b = Ok u ->
  BoundaryTagManager.m_freeBlocks this <> 0
  /\ FreedBlock.Size h b <= BoundaryTagManager.m_freeBytes this
  /\ FreedBlock.Validate h b BoundaryTagManager.s_headerId = Ok tt
  /\ FreedBlock.Validate h (BoundaryTagManager.Footer h b) BoundaryTagManager.s_footerId
     = Ok tt.
Proof.
  unfold BoundaryTagManager.Validate. simpl. intros H. inv_run.
  destruct a1, u.
  repeat split; auto.
  - intros E. rewrite E in Hrun. discriminate.
  - lia.
Qed.

(** Tags that pass validation do not overlap: the footer starts at least
    one record after the header, or wraps around to below it. *)
Lemma valid_tags_apart this h b u :
  is_size_t b ->
  BoundaryTagManager.Validate this h b = Ok u ->
  let footer := BoundaryTagManager.Footer h b in
  b + 20 <= footer \/ footer + 20 <= b.
Proof.
  intros Hb H. apply BoundaryTagManager_Validate_inv in H.
  destruct H as (_ & _ & Hhead & Hfoot).
  apply FreedBlock_Validate_inv in Hhead. apply FreedBlock_Validate_inv in Hfoot.
  destruct Hhead as (Hs1 & Hs2 & _ & _). destruct Hfoot as (_ & _ & _ & Hmagic).
  cbv zeta. unfold BoundaryTagManager.Footer, sizeof_FreedBlock in *.
  pose proof (load_range h (b + 12)) as Hr.
  unfold_fields.
  set (sz := load h (b + 12)) in *.
  destruct (Z.eq_dec sz 32) as [E | E].
  - (* a footer 12 bytes after the header: its magic would be the header's size *)
    destruct (Z_lt_dec (b + 12) (2 ^ 32)) as [Hlt | Hge].
    + exfalso. rewrite E in Hmagic.
      replace (wrap (b + 32 - 20)) with (b + 12) in Hmagic by (symmetry; wrap_lia).
      fold sz in Hmagic. rewrite E in Hmagic. discriminate.
    + right. rewrite E. wrap_lia.
  - wrap_lia.
Qed.

(** C9.  [RemoveTags(block)] returns only if both tags validate (the header
    with the header id, the footer with the footer id, each with the magic
    and a valid size); it then lowers the tag manager's counters by one
    block and by the block's size, and leaves every field of the header
    record and of the footer record poisoned: [prev], [next], [id] and
    [magic] zero, [size] all-ones. *)
Theorem RemoveTags_validates_and_poisons
    (this : BoundaryTagManager.t) (h : memory) (b : ptr)
    (this' : BoundaryTagManager.t) (h' : memory) :
  is_size_t b ->
  is_size_t (BoundaryTagManager.m_freeBlocks this) ->
  is_size_t (BoundaryTagManager.m_freeBytes this) ->
  BoundaryTagManager.RemoveTags this h b = Ok (this', h') ->
  let footer := BoundaryTagManager.Footer h b in
  (FreedBlock.Validate h b BoundaryTagManager.s_headerId = Ok tt
   /\ FreedBlock.Validate h footer BoundaryTagManager.s_footerId = Ok tt)
  /\ BoundaryTagManager.m_freeBlocks this' = BoundaryTagManager.m_freeBlocks this - 1
  /\ BoundaryTagManager.m_freeBytes this'
     = BoundaryTagManager.m_freeBytes this - FreedBlock.Size h b
  /\ forall r, r = b \/ r = footer ->
       FreedBlock.prev h' r = 0 /\ FreedBlock.next h' r = 0
       /\ FreedBlock.m_id h' r = 0 /\ FreedBlock.m_magic h' r = 0
       /\ FreedBlock.m_size h' r = 2 ^ 32 - 1.
Proof.
  intros Hb Hblocks Hbytes H. cbv zeta.
  unfold BoundaryTagManager.RemoveTags in H.
  apply bind_Ok in H. destruct H as [u [Hvalid H]].
  pose proof (valid_tags_apart _ _ _ _ Hb Hvalid) as Hapart. cbv zeta in Hapart.
  apply BoundaryTagManager_Validate_inv in Hvalid.
  destruct Hvalid as (Hne & Hle & Hhead & Hfoot).
  inv_run. subst this' h'.
  pose proof (load_range h (b + 12)) as Hsz.
  split; [auto | ]. split; [ | split].
  - simpl. wrap_lia.
  - simpl. unfold FreedBlock.Size, FreedBlock.m_size, FreedBlock.m_size_at in *. wrap_lia.
  - set (f := BoundaryTagManager.Footer h b) in *.
    intros r [-> | ->]; unfold_fields; mem_simpl; repeat split; reflexivity.
Qed.

(** [performSanityChecks] is a constant of the source: take the branch of
    the checks. *)
Ltac sanity :=
  change (negb performSanityChecks) with false in *; cbv iota in *.

(** Decide [is_size_t] of a closed term by evaluation. *)
Ltac size_t_eval :=
  unfold is_size_t; split; [apply Z.leb_le | apply Z.ltb_lt]; vm_compute; reflexivity.

(** The 64-byte free block of [Scenario.one_freed], at the pool's base. *)
Lemma RemoveTags_validates_and_poisons_witness :
  let s := Scenario.value Scenario.blank Scenario.one_freed in
  let tags := Impl.m_boundaryTagManager s in
  let r := Scenario.value (tags, Impl.heap s)
             (BoundaryTagManager.RemoveTags tags (Impl.heap s) Scenario.pool_at) in
  BoundaryTagManager.m_freeBlocks tags = 1
  /\ BoundaryTagManager.m_freeBlocks (fst r) = BoundaryTagManager.m_freeBlocks tags - 1.
Proof.
  cbv zeta.
  set (s := Scenario.value Scenario.blank Scenario.one_freed).
  set (tags := Impl.m_boundaryTagManager s).
  set (r := Scenario.value _ _).
  assert (Hrun : BoundaryTagManager.RemoveTags tags (Impl.heap s) Scenario.pool_at
                 = Ok (fst r, snd r)).
  { rewrite <- surjective_pairing. apply value_Ok. vm_compute. reflexivity. }
  assert (Hb : is_size_t Scenario.pool_at) by size_t_eval.
  assert (Hblocks : is_size_t (BoundaryTagManager.m_freeBlocks tags)) by size_t_eval.
  assert (Hbytes : is_size_t (BoundaryTagManager.m_freeBytes tags)) by size_t_eval.
  split; [vm_compute; reflexivity | ].
  exact (proj1 (proj2 (RemoveTags_validates_and_poisons
                         tags (Impl.heap s) Scenario.pool_at (fst r) (snd r)
                         Hb Hblocks Hbytes Hrun))).
Defined.

(* ================================================================== *)
(** * Deallocate: the tallies *)

Lemma Impl_Validate_tallies fuel s u :
  Impl.Validate fuel s = Ok u ->
  Stats.FreeBlocks (Impl.m_stats s)
    = SegregatedRangeLists.FreeBlocks (Impl.m_segregatedRangeLists s)
  /\ SegregatedRangeLists.FreeBlocks (Impl.m_segregatedRangeLists s)
    = BoundaryTagManager.FreeBlocks (Impl.m_boundaryTagManager s)
  /\ Stats.FreeBytes (Impl.m_stats s)
    = SegregatedRangeLists.FreeBytes (Impl.m_segregatedRangeLists s)
  /\ SegregatedRangeLists.FreeBytes (Impl.m_segregatedRangeLists s)
    = BoundaryTagManager.FreeBytes (Impl.m_boundaryTagManager s).
Proof.
  unfold Impl.Validate, AssertEqual. sanity. intros H. inv_run.
  apply andb_true_iff in Hrun1, H. lia.
Qed.

Lemma RemoveFromFreelist_stats this b this' :
  Impl.RemoveFromFreelist this b = Ok this' ->
  let sz := FreedBlock.Size (Impl.heap this) b in
  Stats.FreeBlocks (Impl.m_stats this) <> 0
  /\ sz <= Stats.FreeBytes (Impl.m_stats this)
  /\ Stats.FreeBlocks (Impl.m_stats this') = wrap (Stats.FreeBlocks (Impl.m_stats this) - 1)
  /\ Stats.FreeBytes (Impl.m_stats this') = wrap (Stats.FreeBytes (Impl.m_stats this) - sz).
Proof.
  unfold Impl.RemoveFromFreelist, Stats.OnRemoveFromFreelist. sanity. intros H. inv_run.
  subst. unfold Stats.FreeBlocks, Stats.FreeBytes.
  cbn [Impl.m_stats Stats.m_currentFreeBlocks Stats.m_currentFreeBytes].
  repeat split; try reflexivity; lia.
Qed.

Lemma AddToFreelist_stats fuel this p size this' :
  Impl.AddToFreelist fuel this p size = Ok this' ->
  Stats.FreeBlocks (Impl.m_stats this') = wrap (Stats.FreeBlocks (Impl.m_stats this) + 1)
  /\ Stats.FreeBytes (Impl.m_stats this') = wrap (Stats.FreeBytes (Impl.m_stats this) + size).
Proof.
  unfold Impl.AddToFreelist. intros H. inv_run. subst this'. split; reflexivity.
Qed.

(** 1 if the probe found a free neighbour, 0 if it returned null. *)
Definition found (neighbour : ptr) : Z := if neighbour =? 0 then 0 else 1.

(** A [Deallocate(p, size)] that returns has run the two probes of
    [Coalesce] for the incoming block; with [n] the number of probes that
    found a free neighbour, the free-block count of each of the three
    tallies ends [1 - n] above its value before the call and the free-byte
    total ends [size] above it. *)
Lemma Deallocate_tallies_of_run (fuel : nat) (this : Impl.t) (p size : Z) (this' : Impl.t) :
  is_size_t size ->
  is_size_t (Stats.FreeBlocks (Impl.m_stats this)) ->
  is_size_t (Stats.FreeBytes (Impl.m_stats this)) ->
  Stats.FreeBlocks (Impl.m_stats this) + 1 < 2 ^ 32 ->
  Stats.FreeBytes (Impl.m_stats this) + size < 2 ^ 32 ->
  Impl.Deallocate fuel this p size = Ok this' ->
  exists (stats1 : Stats.t) (preceding following p1 size1 : Z) (this1 : Impl.t),
    Stats.OnDeallocate (Impl.m_stats this) size = Ok stats1
    /\ BoundaryTagManager.PrecedingBlock (Impl.m_boundaryTagManager this) (Impl.heap this) p
         (Pool.base (Impl.m_pool this)) = Ok preceding
    /\ Impl.Coalesce_preceding
         (Impl.mk (Impl.heap this) (Impl.m_pool this) (Impl.m_segregatedRangeLists this)
                  (Impl.m_boundaryTagManager this) stats1) p size
       = Ok (p1, size1, this1)
    /\ BoundaryTagManager.FollowingBlock (Impl.m_boundaryTagManager this1) (Impl.heap this1)
         p size (wrap (Pool.base (Impl.m_pool this) + Pool.pos (Impl.m_pool this)))
       = Ok following
    /\ let n := found preceding + found following in
       (Stats.FreeBlocks (Impl.m_stats this')
          = Stats.FreeBlocks (Impl.m_stats this) + 1 - n
        /\ Stats.FreeBytes (Impl.m_stats this')
          = Stats.FreeBytes (Impl.m_stats this) + size)
       /\ (SegregatedRangeLists.FreeBlocks (Impl.m_segregatedRangeLists this')
             = SegregatedRangeLists.FreeBlocks (Impl.m_segregatedRangeLists this) + 1 - n
           /\ SegregatedRangeLists.FreeBytes (Impl.m_segregatedRangeLists this')
             = SegregatedRangeLists.FreeBytes (Impl.m_segregatedRangeLists this) + size)
       /\ (BoundaryTagManager.FreeBlocks (Impl.m_boundaryTagManager this')
             = BoundaryTagManager.FreeBlocks (Impl.m_boundaryTagManager this) + 1 - n
           /\ BoundaryTagManager.FreeBytes (Impl.m_boundaryTagManager this')
             = BoundaryTagManager.FreeBytes (Impl.m_boundaryTagManager this) + size).
Proof.
  intros Hsize Hc Hb Hc1 Hb1 H.
  unfold Impl.Deallocate in H.
  apply bind_Ok in H; destruct H as [? [_ H]].
  apply bind_Ok in H; destruct H as [? [_ H]].
  apply bind_Ok in H; destruct H as [? [_ H]].
  apply bind_Ok in H; destruct H as [? [_ H]].
  apply bind_Ok in H; destruct H as [? [Hvalid H]].
  apply bind_Ok in H; destruct H as [stats1 [Hdealloc H]].
  apply bind_Ok in H; destruct H as [[[p2 size2] this2] [Hcoalesce H]].
  apply bind_Ok in H; destruct H as [this3 [Hadd H]].
  apply bind_Ok in H; destruct H as [? [Hvalid' H]].
  injection H as <-.
  set (this0 := Impl.mk (Impl.heap this) (Impl.m_pool this)
                  (Impl.m_segregatedRangeLists this)
                  (Impl.m_boundaryTagManager this) stats1) in *.
  assert (Hstats1 : Stats.FreeBlocks stats1 = Stats.FreeBlocks (Impl.m_stats this)
                    /\ Stats.FreeBytes stats1 = Stats.FreeBytes (Impl.m_stats this)).
  { unfold Stats.OnDeallocate in Hdealloc. sanity. inv_run.
    subst stats1. split; reflexivity. }
  destruct Hstats1 as [Hs1c Hs1b].
  unfold Impl.Coalesce in Hcoalesce.
  apply bind_Ok in Hcoalesce. destruct Hcoalesce as [[[p1 size1] this1] [Hprec Hfoll]].
  destruct (Coalesce_probes_incoming_end _ _ _ _ _ _ Hprec) as (_ & Hpool & _ & Hfoll').
  rewrite Hfoll' in Hfoll. clear Hfoll'.
  (* the preceding probe *)
  pose proof Hprec as Hprec0.
  unfold Impl.Coalesce_preceding in Hprec.
  apply bind_Ok in Hprec. destruct Hprec as [preceding [Hprobe1 Hprec]].
  (* the following probe *)
  apply bind_Ok in Hfoll. destruct Hfoll as [following [Hprobe2 Hfoll]].
  exists stats1, preceding, following, p1, size1, this1.
  split; [exact Hdealloc | ]. split; [exact Hprobe1 | ].
  split; [exact Hprec0 | ]. split; [exact Hprobe2 | ].
  cbv zeta.
  apply Impl_Validate_tallies in Hvalid, Hvalid'.
  apply AddToFreelist_stats in Hadd. destruct Hadd as [Haddc Haddb].
  assert (Hstats :
    Stats.FreeBlocks (Impl.m_stats this3)
      = Stats.FreeBlocks (Impl.m_stats this) + 1 - (found preceding + found following)
    /\ Stats.FreeBytes (Impl.m_stats this3) = Stats.FreeBytes (Impl.m_stats this) + size).
  { rewrite Haddc, Haddb. clear Haddc Haddb Hvalid Hvalid'.
    subst this0.
    cbn [Impl.heap Impl.m_stats] in *.
    rename Hs1c into H0c, Hs1b into H0b.
    unfold found.
    destruct (Z.eqb_spec preceding 0) as [E1 | E1]; simpl in Hprec.
    - injection Hprec as <- <- <-.
      destruct (Z.eqb_spec following 0) as [E2 | E2]; simpl in Hfoll.
      + injection Hfoll as <- <- <-.
        cbn [Impl.heap Impl.m_stats] in *. rewrite H0c, H0b. split; wrap_lia.
      + apply bind_Ok in Hfoll. destruct Hfoll as [t [Hrm Hfoll]].
        injection Hfoll as <- <- <-.
        apply RemoveFromFreelist_stats in Hrm. cbv zeta in Hrm.
        destruct Hrm as (Hne & Hle & -> & ->).
        pose proof (load_range (Impl.heap this) (following + 12)) as Hr.
        unfold FreedBlock.Size, FreedBlock.m_size, FreedBlock.m_size_at in *.
        cbn [Impl.heap Impl.m_stats] in *. rewrite H0c, H0b in *. split; wrap_lia.
    - apply bind_Ok in Hprec. destruct Hprec as [t [Hrm1 Hprec]].
      injection Hprec as <- <- <-.
      apply RemoveFromFreelist_stats in Hrm1. cbv zeta in Hrm1.
      destruct Hrm1 as (Hne1 & Hle1 & Hc1' & Hb1').
      pose proof (load_range (Impl.heap this) (preceding + 12)) as Hr1.
      destruct (Z.eqb_spec following 0) as [E2 | E2]; simpl in Hfoll.
      + injection Hfoll as <- <- <-.
        unfold FreedBlock.Size, FreedBlock.m_size, FreedBlock.m_size_at in *.
        cbn [Impl.heap Impl.m_stats] in *.
        rewrite Hc1', Hb1', H0c, H0b in *. split; wrap_lia.
      + apply bind_Ok in Hfoll. destruct Hfoll as [t' [Hrm2 Hfoll]].
        injection Hfoll as <- <- <-.
        apply RemoveFromFreelist_stats in Hrm2. cbv zeta in Hrm2.
        destruct Hrm2 as (Hne2 & Hle2 & -> & ->).
        pose proof (load_range (Impl.heap t) (following + 12)) as Hr2.
        unfold FreedBlock.Size, FreedBlock.m_size, FreedBlock.m_size_at in *.
        cbn [Impl.heap Impl.m_stats] in *.
        rewrite Hc1', Hb1', H0c, H0b in *. split; wrap_lia. }
  destruct Hstats as [Hsc Hsb].
  destruct Hvalid as (V1 & V2 & V3 & V4). destruct Hvalid' as (V1' & V2' & V3' & V4').
  repeat split; lia.
Qed.

(** The free structure finds nothing of 4096 bytes in [Scenario.two_freed]
    (two free blocks of 128 bytes), and the pool has 3712 bytes left. *)
Lemma Allocate_failure_leaves_state_witness :
  let s := Scenario.value Scenario.blank Scenario.two_freed in
  Impl.Allocate Scenario.fuel s 4096 = Ok (0, s).
Proof.
  cbv zeta.
  set (s := Scenario.value Scenario.blank Scenario.two_freed).
  assert (Hsize : IsValidSize 4096 = true) by (vm_compute; reflexivity).
  assert (Hvalid : Impl.Validate Scenario.fuel s = Ok tt) by (vm_compute; reflexivity).
  assert (Hfind : SegregatedRangeLists.Find Scenario.fuel (Impl.m_segregatedRangeLists s)
                    (Impl.heap s) 4096 = Ok 0) by (vm_compute; reflexivity).
  assert (Hpool : Pool.max_size (Impl.m_pool s) < Pool.pos (Impl.m_pool s) + 4096)
    by (apply Z.ltb_lt; vm_compute; reflexivity).
  exact (Allocate_failure_leaves_state Scenario.fuel s 4096 Hsize Hvalid Hfind Hpool).
Defined.

(* ================================================================== *)
(** * Range lists as doubly-linked lists in memory *)

(** Two records that do not overlap. *)
Definition apart (x y : ptr) : Prop :=
  x + sizeof_FreedBlock <= y \/ y + sizeof_FreedBlock <= x.

Fixpoint pairwise_apart (l : list ptr) : Prop :=
  match l with
  | [] => True
  | x :: l' => Forall (apart x) l' /\ pairwise_apart l'
  end.

(** Strictly ascending addresses. *)
Fixpoint ascending (l : list ptr) : Prop :=
  match l with
  | [] => True
  | x :: l' => Forall (fun y => x < y) l' /\ ascending l'
  end.

(** [seg h x bs y]: from the record [x], the [next] links lead through the
    blocks [bs] to the record [y], and the [prev] links lead back. *)
Fixpoint seg (h : memory) (x : ptr) (bs : list ptr) (y : ptr) : Prop :=
  match bs with
  | [] => FreedBlock.next h x = y /\ FreedBlock.prev h y = x
  | b :: bs' => FreedBlock.next h x = b /\ FreedBlock.prev h b = x /\ seg h b bs' y
  end.

(** The list of a [RangeList]: a cycle through its sentinel. *)
Definition is_list (h : memory) (sentinel : ptr) (bs : list ptr) : Prop :=
  seg h sentinel bs sentinel.

Lemma apart_sym x y : apart x y -> apart y x.
Proof. unfold apart. tauto. Qed.

Lemma apart_neq x y : apart x y -> x <> y.
Proof. unfold apart, sizeof_FreedBlock. lia. Qed.

Lemma pairwise_apart_app_inv l1 l2 :
  pairwise_apart (l1 ++ l2) ->
  pairwise_apart l1 /\ pairwise_apart l2
  /\ forall x y, In x l1 -> In y l2 -> apart x y.
Proof.
  induction l1 as [ | a l1 IH]; simpl.
  - intros H. repeat split; auto. intros x y [].
  - intros [Ha H]. apply IH in H. destruct H as (H1 & H2 & H12).
    apply Forall_app in Ha. destruct Ha as [Ha1 Ha2].
    repeat split; auto.
    intros x y [<- | Hx] Hy; [ | auto].
    rewrite Forall_forall in Ha2. auto.
Qed.

Lemma pairwise_apart_In l x y :
  pairwise_apart l -> In x l -> In y l -> x = y \/ apart x y.
Proof.
  induction l as [ | a l IH]; simpl; [tauto | ].
  intros [Ha Hl] [<- | Hx] [<- | Hy]; auto.
  - right. rewrite Forall_forall in Ha. auto.
  - right. apply apart_sym. rewrite Forall_forall in Ha. auto.
Qed.

Lemma ascending_app_inv l1 l2 :
  ascending (l1 ++ l2) ->
  ascending l1 /\ ascending l2 /\ forall x y, In x l1 -> In y l2 -> x < y.
Proof.
  induction l1 as [ | a l1 IH]; simpl.
  - intros H. repeat split; auto. intros x y [].
  - intros [Ha H]. apply IH in H. destruct H as (H1 & H2 & H12).
    apply Forall_app in Ha. destruct Ha as [Ha1 Ha2].
    repeat split; auto.
    intros x y [<- | Hx] Hy; [ | auto].
    rewrite Forall_forall in Ha2. auto.
Qed.

Lemma ascending_app l1 l2 :
  ascending l1 -> ascending l2 -> (forall x y, In x l1 -> In y l2 -> x < y) ->
  ascending (l1 ++ l2).
Proof.
  induction l1 as [ | a l1 IH]; simpl; [auto | ].
  intros [Ha H1] H2 H12. split.
  - apply Forall_app. split; [exact Ha | ].
    apply Forall_forall. intros y Hy. apply H12; auto.
  - apply IH; auto.
Qed.

(** Changing memory outside the link fields of a segment keeps it. *)
Lemma seg_frame h h' bs : forall x y,
  (forall z, In z (x :: bs) -> FreedBlock.next h' z = FreedBlock.next h z) ->
  (forall z, In z (bs ++ [y]) -> FreedBlock.prev h' z = FreedBlock.prev h z) ->
  seg h x bs y -> seg h' x bs y.
Proof.
  induction bs as [ | b bs IH]; simpl; intros x y Hn Hp.
  - intros [H1 H2]. rewrite Hn, Hp; auto.
  - intros (H1 & H2 & H3). rewrite Hn, Hp by auto.
    split; [exact H1 | split; [exact H2 | ]].
    apply IH; [ | | exact H3]; intros z Hz; [apply Hn | apply Hp]; simpl; auto.
Qed.

Lemma last_cons (l : list ptr) (a d : ptr) : last (a :: l) d = last l a.
Proof.
  revert a d. induction l as [ | c l IH]; intros a d; [reflexivity | ].
  change (last (a :: c :: l) d) with (last (c :: l) d).
  now rewrite (IH c d), (IH c a).
Qed.

Lemma last_In (l : list ptr) (d : ptr) : In (last l d) (d :: l).
Proof.
  revert d. induction l as [ | a l IH]; intros d; [simpl; auto | ].
  rewrite last_cons. right. apply IH.
Qed.

(** The two links between the parts of a segment. *)
Lemma seg_middle h bs1 bs2 : forall x y,
  seg h x (bs1 ++ bs2) y ->
  FreedBlock.next h (last bs1 x) = hd y bs2
  /\ FreedBlock.prev h (hd y bs2) = last bs1 x.
Proof.
  induction bs1 as [ | a bs1 IH]; intros x y H.
  - destruct bs2; simpl in *; tauto.
  - simpl app in H. destruct H as (_ & _ & H). apply IH in H.
    now rewrite last_cons.
Qed.

Lemma hd_In (l : list ptr) (d : ptr) : In (hd d l) (l ++ [d]).
Proof. destruct l; simpl; auto. Qed.

(** Two records that are the same one or do not overlap. *)
Definition sep (x y : ptr) : Prop := x = y \/ apart x y.

Definition separated (l : list ptr) : Prop :=
  forall u v, In u l -> In v l -> sep u v.

Lemma separated_incl l l' : incl l' l -> separated l -> separated l'.
Proof. unfold separated, incl. auto. Qed.

(** The four writes of [Insert], with [pred] the block before [succ]. *)
Definition link (h : memory) (b pred succ : ptr) : memory :=
  let h := FreedBlock.set_prev h b pred in
  let h := FreedBlock.set_next h b succ in
  let h := FreedBlock.set_next h pred b in
  FreedBlock.set_prev h succ b.

(** The two writes of [Remove], for a block between [pred] and [succ]. *)
Definition unlink (h : memory) (pred succ : ptr) : memory :=
  let h := FreedBlock.set_prev h succ pred in
  FreedBlock.set_next h pred succ.

Ltac sep_lia := unfold sep, apart, sizeof_FreedBlock in *; lia.

Section Link.
Variables (h : memory) (b pred succ : ptr).
Hypothesis Hb : is_size_t b.
Hypothesis Hpred : is_size_t pred.
Hypothesis Hsucc : is_size_t succ.
Hypothesis Hbp : apart b pred.
Hypothesis Hbs : apart b succ.
Hypothesis Hps : sep pred succ.

Lemma link_next_pred : FreedBlock.next (link h b pred succ) pred = b.
Proof.
  unfold link. unfold_fields.
  rewrite load_store_other by sep_lia. rewrite load_store_same. now apply wrap_small.
Qed.

Lemma link_prev_succ : FreedBlock.prev (link h b pred succ) succ = b.
Proof. unfold link. unfold_fields. rewrite load_store_same. now apply wrap_small. Qed.

Lemma link_next_b : FreedBlock.next (link h b pred succ) b = succ.
Proof.
  unfold link. unfold_fields.
  do 2 rewrite load_store_other by sep_lia. rewrite load_store_same. now apply wrap_small.
Qed.

Lemma link_prev_b : FreedBlock.prev (link h b pred succ) b = pred.
Proof.
  unfold link. unfold_fields.
  do 3 rewrite load_store_other by sep_lia. rewrite load_store_same. now apply wrap_small.
Qed.

Lemma link_next_other z :
  z <> pred -> sep z pred -> sep z succ -> apart z b ->
  FreedBlock.next (link h b pred succ) z = FreedBlock.next h z.
Proof.
  intros. unfold link. unfold_fields. now do 4 rewrite load_store_other by sep_lia.
Qed.

Lemma link_prev_other z :
  z <> succ -> sep z pred -> sep z succ -> apart z b ->
  FreedBlock.prev (link h b pred succ) z = FreedBlock.prev h z.
Proof.
  intros. unfold link. unfold_fields. now do 4 rewrite load_store_other by sep_lia.
Qed.

Lemma link_size_other z :
  sep z pred -> sep z succ -> apart z b ->
  FreedBlock.Size (link h b pred succ) z = FreedBlock.Size h z.
Proof.
  intros. unfold link. unfold_fields. now do 4 rewrite load_store_other by sep_lia.
Qed.

Lemma link_size_b : FreedBlock.Size (link h b pred succ) b = FreedBlock.Size h b.
Proof.
  unfold link. unfold_fields. now do 4 rewrite load_store_other by sep_lia.
Qed.

End Link.

Section Unlink.
Variables (h : memory) (pred succ : ptr).
Hypothesis Hpred : is_size_t pred.
Hypothesis Hsucc : is_size_t succ.
Hypothesis Hps : sep pred succ.

Lemma unlink_next_pred : FreedBlock.next (unlink h pred succ) pred = succ.
Proof. unfold unlink. unfold_fields. rewrite load_store_same. now apply wrap_small. Qed.

Lemma unlink_prev_succ : FreedBlock.prev (unlink h pred succ) succ = pred.
Proof.
  unfold unlink. unfold_fields.
  rewrite load_store_other by sep_lia. rewrite load_store_same. now apply wrap_small.
Qed.

Lemma unlink_next_other z :
  z <> pred -> sep z pred -> sep z succ ->
  FreedBlock.next (unlink h pred succ) z = FreedBlock.next h z.
Proof.
  intros. unfold unlink. unfold_fields. now do 2 rewrite load_store_other by sep_lia.
Qed.

Lemma unlink_prev_other z :
  z <> succ -> sep z pred -> sep z succ ->
  FreedBlock.prev (unlink h pred succ) z = FreedBlock.prev h z.
Proof.
  intros. unfold unlink. unfold_fields. now do 2 rewrite load_store_other by sep_lia.
Qed.

Lemma unlink_size z :
  sep z pred -> sep z succ ->
  FreedBlock.Size (unlink h pred succ) z = FreedBlock.Size h z.
Proof.
  intros. unfold unlink. unfold_fields. now do 2 rewrite load_store_other by sep_lia.
Qed.

End Unlink.

(** Membership in the node lists at hand. *)
Ltac in_solve := simpl in *; rewrite ?in_app_iff in *; simpl in *; tauto.

(** Separation and range side conditions, from facts about all nodes. *)
Ltac node_side :=
  first
    [ assumption
    | match goal with
      | H : forall z, In z _ -> apart ?b z |- apart ?b _ => apply H; in_solve
      | H : forall z, In z _ -> apart ?b z |- apart _ ?b => apply apart_sym, H; in_solve
      | H : separated _ |- sep _ _ => apply H; in_solve
      | H : forall z, In z _ -> is_size_t z |- is_size_t _ => apply H; in_solve
      end ].

(** Linking [b] between the two parts of a segment. *)
Lemma insert_seg h b y bs2 : forall bs1 x,
  seg h x (bs1 ++ bs2) y ->
  NoDup (x :: bs1 ++ bs2) ->
  ~ In y (bs1 ++ bs2) ->
  separated (x :: y :: bs1 ++ bs2) ->
  Forall (apart b) (x :: y :: bs1 ++ bs2) ->
  Forall is_size_t (b :: x :: y :: bs1 ++ bs2) ->
  seg (link h b (last bs1 x) (hd y bs2)) x (bs1 ++ b :: bs2) y.
Proof.
  induction bs1 as [ | a bs1 IH]; intros x Hseg Hnd Hy Hsep Hb Hrange.
  - (* insertion right after [x] *)
    simpl app in *. simpl last.
    rewrite Forall_forall in Hb, Hrange.
    assert (Hsx : In (hd y bs2) (y :: bs2)) by (destruct bs2; simpl; auto).
    simpl seg. split; [apply link_next_pred; node_side | ].
    split; [apply link_prev_b; node_side | ].
    destruct bs2 as [ | c bs2]; simpl hd in *.
    + simpl. split; [apply link_next_b; node_side | apply link_prev_succ; node_side].
    + simpl in Hseg. destruct Hseg as (_ & _ & Hseg).
      simpl. split; [apply link_next_b; node_side | ].
      split; [apply link_prev_succ; node_side | ].
      apply NoDup_cons_iff in Hnd. destruct Hnd as [Hx Hnd'].
      apply NoDup_cons_iff in Hnd'. destruct Hnd' as [Hc _].
      apply seg_frame with (h := h); [ | | exact Hseg].
      * intros z Hz. apply link_next_other; try solve [node_side].
        intros E. apply Hx. rewrite <- E. exact Hz.
      * intros z Hz. apply link_prev_other; try solve [node_side].
        intros E. rewrite E in Hz. apply in_app_or in Hz.
        destruct Hz as [Hz | [Hz | []]]; [exact (Hc Hz) | ].
        apply Hy. rewrite Hz. simpl. auto.
  - (* insertion further down: the links of [x] and [a] are not touched *)
    simpl app in *. rewrite last_cons.
    simpl in Hseg. destruct Hseg as (Hxa & Hax & Hseg).
    apply NoDup_cons_iff in Hnd. destruct Hnd as [Hx Hnd'].
    assert (Hpred : In (last bs1 a) (a :: bs1)) by apply last_In.
    assert (Hsucc : In (hd y bs2) (bs2 ++ [y])) by apply hd_In.
    simpl seg. split; [ | split].
    + rewrite Forall_forall in Hb, Hrange.
      rewrite link_next_other; try solve [node_side].
      intros E. apply Hx. rewrite E. in_solve.
    + rewrite Forall_forall in Hb, Hrange.
      rewrite link_prev_other; try solve [node_side].
      intros E. rewrite <- E in Hsucc. apply in_app_or in Hsucc.
      destruct Hsucc as [Hs | [Hs | []]].
      * apply NoDup_cons_iff in Hnd'. destruct Hnd' as [Ha _]. apply Ha.
        apply in_or_app. auto.
      * apply Hy. rewrite Hs. simpl. auto.
    + apply IH; auto.
      * intros Hin. apply Hy. simpl. auto.
      * eapply separated_incl; [ | exact Hsep]. intros z Hz. in_solve.
      * rewrite Forall_forall in *. intros z Hz. apply Hb. in_solve.
      * rewrite Forall_forall in *. intros z Hz. apply Hrange. in_solve.
Qed.

(** Unlinking [b] from between the two parts of a segment. *)
Lemma remove_seg h b y bs2 : forall bs1 x,
  seg h x (bs1 ++ b :: bs2) y ->
  NoDup (x :: bs1 ++ b :: bs2) ->
  ~ In y (bs1 ++ b :: bs2) ->
  separated (x :: y :: bs1 ++ b :: bs2) ->
  Forall is_size_t (x :: y :: bs1 ++ b :: bs2) ->
  seg (unlink h (last bs1 x) (hd y bs2)) x (bs1 ++ bs2) y.
Proof.
  induction bs1 as [ | a bs1 IH]; intros x Hseg Hnd Hy Hsep Hrange.
  - simpl app in *. simpl last.
    rewrite Forall_forall in Hrange.
    assert (Hsx : In (hd y bs2) (y :: bs2)) by (destruct bs2; simpl; auto).
    simpl in Hseg. destruct Hseg as (_ & _ & Hseg).
    apply NoDup_cons_iff in Hnd. destruct Hnd as [Hx Hnd].
    apply NoDup_cons_iff in Hnd. destruct Hnd as [Hb Hnd].
    destruct bs2 as [ | c bs2]; simpl hd in *.
    + simpl. split; [apply unlink_next_pred; node_side | apply unlink_prev_succ; node_side].
    + simpl in Hseg. destruct Hseg as (_ & _ & Hseg).
      apply NoDup_cons_iff in Hnd. destruct Hnd as [Hc Hnd].
      simpl. split; [apply unlink_next_pred; node_side | ].
      split; [apply unlink_prev_succ; node_side | ].
      apply seg_frame with (h := h); [ | | exact Hseg].
      * intros z Hz. apply unlink_next_other; try solve [node_side].
        intros E. apply Hx. rewrite <- E. in_solve.
      * intros z Hz. apply unlink_prev_other; try solve [node_side].
        intros E. rewrite E in Hz. apply in_app_or in Hz.
        destruct Hz as [Hz | [Hz | []]]; [exact (Hc Hz) | ].
        apply Hy. rewrite Hz. simpl. auto.
  - simpl app in *. rewrite last_cons.
    simpl in Hseg. destruct Hseg as (Hxa & Hax & Hseg).
    apply NoDup_cons_iff in Hnd. destruct Hnd as [Hx Hnd'].
    assert (Hpred : In (last bs1 a) (a :: bs1)) by apply last_In.
    assert (Hsucc : In (hd y bs2) (bs2 ++ [y])) by apply hd_In.
    simpl seg. split; [ | split].
    + rewrite Forall_forall in Hrange.
      rewrite unlink_next_other; try solve [node_side].
      intros E. apply Hx. rewrite E. in_solve.
    + rewrite Forall_forall in Hrange.
      rewrite unlink_prev_other; try solve [node_side].
      intros E. rewrite <- E in Hsucc. apply in_app_or in Hsucc.
      destruct Hsucc as [Hs | [Hs | []]].
      * apply NoDup_cons_iff in Hnd'. destruct Hnd' as [Ha _]. apply Ha.
        apply in_or_app. simpl. auto.
      * apply Hy. rewrite Hs. simpl. auto.
    + apply IH; auto.
      * intros Hin. apply Hy. simpl. auto.
      * eapply separated_incl; [ | exact Hsep]. intros z Hz. in_solve.
      * rewrite Forall_forall in *. intros z Hz. apply Hrange. in_solve.
Qed.

Lemma pairwise_apart_NoDup l : pairwise_apart l -> NoDup l.
Proof.
  induction l as [ | a l IH]; simpl; intros H; constructor.
  - destruct H as [Ha _]. rewrite Forall_forall in Ha.
    intros Hin. apply Ha in Hin. now apply apart_neq in Hin.
  - apply IH. tauto.
Qed.

Lemma pairwise_apart_separated l : pairwise_apart l -> separated l.
Proof. intros H u v Hu Hv. unfold sep. eapply pairwise_apart_In; eauto. Qed.

(** The loop of [Insert] stops at the first block above [b], or at the
    sentinel. *)
Lemma Insert_loop_spec h s b bs : forall x fuel,
  seg h x bs s -> ~ In s bs -> (length bs < fuel)%nat ->
  exists bs1 bs2,
    bs = bs1 ++ bs2
    /\ Forall (fun z => z <= b) bs1
    /\ (bs2 = [] \/ b < hd s bs2)
    /\ RangeList.Insert_loop fuel h s b (FreedBlock.next h x) = Ok (hd s bs2).
Proof.
  induction bs as [ | c bs IH]; intros x fuel Hseg Hs Hfuel.
  - exists [], []. simpl in Hseg. destruct Hseg as [-> _].
    destruct fuel as [ | fuel]; [simpl in Hfuel; lia | ].
    simpl. rewrite Z.eqb_refl. auto.
  - simpl in Hseg. destruct Hseg as (-> & _ & Hseg).
    destruct fuel as [ | fuel]; [simpl in Hfuel; lia | ].
    simpl RangeList.Insert_loop.
    destruct (Z.eqb_spec c s) as [E | E]; [exfalso; apply Hs; simpl; auto | ].
    unfold AddressOrder.ShouldInsertBefore.
    destruct (Z.ltb_spec b c) as [Hlt | Hge].
    + exists [], (c :: bs). simpl. auto.
    + destruct (IH c fuel Hseg) as (bs1 & bs2 & -> & H1 & H2 & H3).
      * intros Hin. apply Hs. simpl. auto.
      * simpl in Hfuel. lia.
      * exists (c :: bs1), bs2. simpl. repeat split; auto.
Qed.

(** [Insert] is [link] at the position found by its loop. *)
Lemma RangeList_Insert_run fuel this h b bs :
  let s := RangeList.m_sentinel this in
  is_list h s bs ->
  pairwise_apart (b :: s :: bs) ->
  Forall is_size_t (b :: s :: bs) ->
  (length bs < fuel)%nat ->
  exists bs1 bs2,
    bs = bs1 ++ bs2
    /\ Forall (fun z => z < b) bs1
    /\ (bs2 = [] \/ b < hd s bs2)
    /\ RangeList.Insert fuel this h b
       = Ok (RangeList.mk s
               (wrap (RangeList.m_freeBlocks this + 1))
               (wrap (RangeList.m_freeBytes this + FreedBlock.Size h b)),
             link h b (last bs1 s) (hd s bs2))
    /\ is_list (link h b (last bs1 s) (hd s bs2)) s (bs1 ++ b :: bs2).
Proof.
  intros s Hlist Hapart Hrange Hfuel.
  assert (Hnd : NoDup (b :: s :: bs)) by now apply pairwise_apart_NoDup.
  assert (Hsep : separated (b :: s :: bs)) by now apply pairwise_apart_separated.
  simpl in Hapart. destruct Hapart as (Hb & Hs & Hbs).
  apply NoDup_cons_iff in Hnd. destruct Hnd as [Hbn Hnd].
  pose proof Hnd as Hnd'. apply NoDup_cons_iff in Hnd'. destruct Hnd' as [Hsn _].
  destruct (Insert_loop_spec h s b bs s fuel Hlist Hsn Hfuel)
    as (bs1 & bs2 & -> & Hle & Hhd & Hloop).
  exists bs1, bs2.
  pose proof (seg_middle h bs1 bs2 s s Hlist) as [Hnext Hprev].
  assert (Hpred : In (last bs1 s) (s :: bs1)) by apply last_In.
  assert (Hsucc : In (hd s bs2) (bs2 ++ [s])) by apply hd_In.
  rewrite Forall_forall in Hb, Hrange.
  assert (Abp : apart b (last bs1 s)) by (apply Hb; in_solve).
  assert (Abs : apart b (hd s bs2)) by (apply Hb; in_solve).
  split; [reflexivity | ]. split; [ | split; [exact Hhd | split]].
  - apply Forall_forall. intros z Hz. rewrite Forall_forall in Hle.
    assert (z <= b) by auto.
    assert (apart b z) by (apply Hb; in_solve).
    sep_lia.
  - unfold RangeList.Insert. fold s. rewrite Hloop. cbn [bind].
    assert (Hw : forall v, FreedBlock.prev
                   (FreedBlock.set_next (FreedBlock.set_prev h b v) b (hd s bs2))
                   (hd s bs2) = last bs1 s).
    { intros v. rewrite <- Hprev. unfold_fields.
      now do 2 rewrite load_store_other by sep_lia. }
    rewrite Hw, Hprev. fold (link h b (last bs1 s) (hd s bs2)).
    rewrite link_size_b; auto.
    apply Hsep; in_solve.
  - apply insert_seg; auto.
    + eapply separated_incl; [ | exact Hsep]. intros z Hz. in_solve.
    + apply Forall_forall. intros z Hz. apply Hb. in_solve.
    + apply Forall_forall. intros z Hz. apply Hrange. in_solve.
Qed.

(** [Remove] is [unlink] between the neighbours of the block. *)
Lemma RangeList_Remove_run this h b bs1 bs2 :
  let s := RangeList.m_sentinel this in
  is_list h s (bs1 ++ b :: bs2) ->
  pairwise_apart (s :: bs1 ++ b :: bs2) ->
  Forall is_size_t (s :: bs1 ++ b :: bs2) ->
  RangeList.m_freeBlocks this <> 0 ->
  FreedBlock.Size h b <= RangeList.m_freeBytes this ->
  RangeList.Remove this h b
  = Ok (RangeList.mk s
          (wrap (RangeList.m_freeBlocks this - 1))
          (wrap (RangeList.m_freeBytes this - FreedBlock.Size h b)),
        unlink h (last bs1 s) (hd s bs2))
  /\ is_list (unlink h (last bs1 s) (hd s bs2)) s (bs1 ++ bs2).
Proof.
  intros s Hlist Hapart Hrange Hblocks Hbytes.
  assert (Hnd : NoDup (s :: bs1 ++ b :: bs2)) by now apply pairwise_apart_NoDup.
  assert (Hsep : separated (s :: bs1 ++ b :: bs2)) by now apply pairwise_apart_separated.
  pose proof (seg_middle h bs1 (b :: bs2) s s Hlist) as [_ Hprev]. simpl hd in Hprev.
  assert (Hlist' : seg h s ((bs1 ++ [b]) ++ bs2) s)
    by (rewrite <- app_assoc; exact Hlist).
  pose proof (seg_middle h (bs1 ++ [b]) bs2 s s Hlist') as [Hnext _].
  rewrite last_last in Hnext. clear Hlist'.
  assert (Hpred : In (last bs1 s) (s :: bs1)) by apply last_In.
  assert (Hsucc : In (hd s bs2) (bs2 ++ [s])) by apply hd_In.
  assert (Hb : In b (s :: bs1 ++ b :: bs2)) by in_solve.
  assert (Hbp : b <> last bs1 s).
  { intros E. rewrite <- E in Hpred. destruct Hpred as [Hp | Hp].
    - apply NoDup_cons_iff in Hnd. destruct Hnd as [Hs _]. apply Hs. rewrite Hp. in_solve.
    - apply NoDup_cons_iff in Hnd. destruct Hnd as [_ Hnd].
      apply NoDup_remove_2 in Hnd. apply Hnd. in_solve. }
  assert (Hbs : b <> hd s bs2).
  { intros E. rewrite <- E in Hsucc. apply in_app_or in Hsucc.
    destruct Hsucc as [Hp | [Hp | []]].
    - apply NoDup_cons_iff in Hnd. destruct Hnd as [_ Hnd].
      apply NoDup_remove_2 in Hnd. apply Hnd. in_solve.
    - apply NoDup_cons_iff in Hnd. destruct Hnd as [Hs _]. apply Hs. rewrite Hp. in_solve. }
  assert (Sbp : sep b (last bs1 s)) by (apply Hsep; in_solve).
  assert (Sbs : sep b (hd s bs2)) by (apply Hsep; in_solve).
  assert (Sps : sep (last bs1 s) (hd s bs2)) by (apply Hsep; in_solve).
  rewrite Forall_forall in Hrange.
  split.
  - unfold RangeList.Remove. fold s.
    assert (Hw1 : FreedBlock.prev
                    (FreedBlock.set_prev h (FreedBlock.next h b) (FreedBlock.prev h b)) b
                  = last bs1 s).
    { rewrite Hnext, Hprev. rewrite <- Hprev at 2. unfold_fields.
      now rewrite load_store_other by sep_lia. }
    assert (Hw2 : FreedBlock.next
                    (FreedBlock.set_prev h (FreedBlock.next h b) (FreedBlock.prev h b)) b
                  = hd s bs2).
    { rewrite Hnext, Hprev. rewrite <- Hnext at 2. unfold_fields.
      now rewrite load_store_other by sep_lia. }
    rewrite Hw1, Hw2, Hnext, Hprev. fold (unlink h (last bs1 s) (hd s bs2)).
    rewrite unlink_size by assumption.
    destruct (Z.eqb_spec (RangeList.m_freeBlocks this) 0) as [E | _]; [contradiction | ].
    destruct (Z.geb_spec (RangeList.m_freeBytes this) (FreedBlock.Size h b)); [ | lia].
    reflexivity.
  - apply remove_seg with (b := b); auto.
    + apply NoDup_cons_iff in Hnd. destruct Hnd as [Hs _]. exact Hs.
    + eapply separated_incl; [ | exact Hsep]. intros z Hz. in_solve.
    + apply Forall_forall. intros z Hz. apply Hrange. in_solve.
Qed.

Lemma ascending_insert bs1 bs2 b d :
  ascending (bs1 ++ bs2) ->
  Forall (fun z => z < b) bs1 ->
  bs2 = [] \/ b < hd d bs2 ->
  Forall (fun z => b < z) bs2 /\ ascending (bs1 ++ b :: bs2).
Proof.
  intros Hasc Hlt Hhd.
  apply ascending_app_inv in Hasc. destruct Hasc as (H1 & H2 & H12).
  assert (Hgt : Forall (fun z => b < z) bs2).
  { destruct Hhd as [-> | Hhd]; [constructor | ].
    destruct bs2 as [ | c bs2]; [constructor | ].
    simpl in Hhd, H2. destruct H2 as [Hc _].
    constructor; [exact Hhd | ].
    eapply Forall_impl; [ | exact Hc]. simpl. intros. lia. }
  split; [exact Hgt | ].
  apply ascending_app; auto.
  - simpl. auto.
  - rewrite Forall_forall in Hlt, Hgt.
    intros x y Hx [<- | Hy]; [auto | ].
    specialize (Hlt x Hx). specialize (Hgt y Hy). lia.
Qed.

Lemma ascending_remove bs1 bs2 (b : ptr) :
  ascending (bs1 ++ b :: bs2) -> ascending (bs1 ++ bs2).
Proof.
  intros Hasc. apply ascending_app_inv in Hasc. destruct Hasc as (H1 & H2 & H12).
  simpl in H2. apply ascending_app; try tauto.
  intros x y Hx Hy. apply H12; simpl; auto.
Qed.

(** C8.  [Insert] puts the block immediately before the first successor
    whose address is greater (after every block of a smaller address, the
    sentinel standing for the end), and [Remove] unlinks its block; both
    return and leave a well-formed cycle through the sentinel, and if the
    blocks were in ascending address order they still are. *)
Theorem RangeList_keeps_address_order :
  (forall (fuel : nat) (this : RangeList.t) (h : memory) (b : ptr) (bs : list ptr),
     let s := RangeList.m_sentinel this in
     is_list h s bs ->
     pairwise_apart (b :: s :: bs) ->
     Forall is_size_t (b :: s :: bs) ->
     (length bs < fuel)%nat ->
     exists bs1 bs2 this' h',
       bs = bs1 ++ bs2
       /\ Forall (fun z => z < b) bs1
       /\ (bs2 = [] \/ b < hd s bs2)
       /\ RangeList.Insert fuel this h b = Ok (this', h')
       /\ RangeList.m_sentinel this' = s
       /\ is_list h' s (bs1 ++ b :: bs2)
       /\ (ascending bs -> ascending (bs1 ++ b :: bs2)))
  /\
  (forall (this : RangeList.t) (h : memory) (b : ptr) (bs : list ptr),
     let s := RangeList.m_sentinel this in
     is_list h s bs ->
     In b bs ->
     pairwise_apart (s :: bs) ->
     Forall is_size_t (s :: bs) ->
     RangeList.m_freeBlocks this <> 0 ->
     FreedBlock.Size h b <= RangeList.m_freeBytes this ->
     exists bs1 bs2 this' h',
       bs = bs1 ++ b :: bs2
       /\ RangeList.Remove this h b = Ok (this', h')
       /\ RangeList.m_sentinel this' = s
       /\ is_list h' s (bs1 ++ bs2)
       /\ (ascending bs -> ascending (bs1 ++ bs2))).
Proof.
  split.
  - intros fuel this h b bs s Hlist Hapart Hrange Hfuel.
    destruct (RangeList_Insert_run fuel this h b bs Hlist Hapart Hrange Hfuel)
      as (bs1 & bs2 & E & Hlt & Hhd & Hrun & Hlist').
    eexists bs1, bs2, _, _.
    split; [exact E | ]. split; [exact Hlt | ]. split; [exact Hhd | ].
    split; [exact Hrun | ]. split; [reflexivity | ]. split; [exact Hlist' | ].
    intros Hasc. subst bs. eapply ascending_insert; eauto.
  - intros this h b bs s Hlist Hin Hapart Hrange Hblocks Hbytes.
    apply in_split in Hin. destruct Hin as (bs1 & bs2 & ->).
    destruct (RangeList_Remove_run this h b bs1 bs2 Hlist Hapart Hrange Hblocks Hbytes)
      as [Hrun Hlist'].
    eexists bs1, bs2, _, _.
    split; [reflexivity | ]. split; [exact Hrun | ]. split; [reflexivity | ].
    split; [exact Hlist' | ]. apply ascending_remove.
Qed.

(** In [Scenario.two_freed] the list of class 7 holds the free blocks at
    [pool_at] and [pool_at + 256]; inserting the record at [pool_at + 128]
    puts it between them. *)
Lemma RangeList_keeps_address_order_witness :
  let st := Scenario.value Scenario.blank Scenario.two_freed in
  let l := SegregatedRangeLists.m_rangeLists (Impl.m_segregatedRangeLists st) 7 in
  let b := Scenario.pool_at + 128 in
  exists bs1 bs2 this' h',
    [Scenario.pool_at; Scenario.pool_at + 256] = bs1 ++ bs2
    /\ Forall (fun z => z < b) bs1
    /\ (bs2 = [] \/ b < hd (RangeList.m_sentinel l) bs2)
    /\ RangeList.Insert Scenario.fuel l (Impl.heap st) b = Ok (this', h')
    /\ RangeList.m_sentinel this' = RangeList.m_sentinel l
    /\ is_list h' (RangeList.m_sentinel l) (bs1 ++ b :: bs2)
    /\ (ascending [Scenario.pool_at; Scenario.pool_at + 256] -> ascending (bs1 ++ b :: bs2)).
Proof.
  cbv zeta.
  set (st := Scenario.value Scenario.blank Scenario.two_freed).
  set (l := SegregatedRangeLists.m_rangeLists (Impl.m_segregatedRangeLists st) 7).
  assert (Hs : RangeList.m_sentinel l = 4292) by (vm_compute; reflexivity).
  apply (proj1 RangeList_keeps_address_order Scenario.fuel l (Impl.heap st)
           (Scenario.pool_at + 128) [Scenario.pool_at; Scenario.pool_at + 256]).
  - rewrite Hs. cbv [is_list seg]. repeat split; vm_compute; reflexivity.
  - rewrite Hs. cbv [pairwise_apart Scenario.pool_at apart sizeof_FreedBlock].
    repeat first [lia | exact I | apply Forall_nil | apply Forall_cons | split].
  - rewrite Hs. cbv [Scenario.pool_at is_size_t].
    repeat first [lia | apply Forall_nil | apply Forall_cons | split].
  - cbv [Scenario.fuel length]. lia.
Defined.

(* ================================================================== *)
(** * RangeList::Find *)

(** The byte total of a list of blocks. *)
Fixpoint total_size (h : memory) (bs : list ptr) : Z :=
  match bs with
  | [] => 0
  | b :: bs' => FreedBlock.Size h b + total_size h bs'
  end.

Lemma Find_loop_hit h s minSize b bs2 : forall bs1 x fuel,
  seg h x (bs1 ++ b :: bs2) s ->
  ~ In s (bs1 ++ b :: bs2) ->
  (length (bs1 ++ b :: bs2) < fuel)%nat ->
  Forall (fun z => FreedBlock.Size h z < minSize) bs1 ->
  minSize <= FreedBlock.Size h b ->
  RangeList.Find_loop fuel h s minSize (FreedBlock.next h x) = Ok (Some b).
Proof.
  induction bs1 as [ | a bs1 IH]; intros x fuel Hseg Hs Hfuel Hsmall Hfit;
    simpl app in *; simpl in Hseg; destruct Hseg as (-> & _ & Hseg);
    (destruct fuel as [ | fuel]; [simpl in Hfuel; lia | ]);
    cbn [RangeList.Find_loop].
  - destruct (Z.eqb_spec b s) as [E | _]; [exfalso; apply Hs; simpl; auto | ].
    destruct (Z.geb_spec (FreedBlock.Size h b) minSize); [reflexivity | lia].
  - destruct (Z.eqb_spec a s) as [E | _]; [exfalso; apply Hs; simpl; auto | ].
    apply Forall_cons_iff in Hsmall. destruct Hsmall as [Ha Hsmall].
    destruct (Z.geb_spec (FreedBlock.Size h a) minSize); [lia | ].
    apply IH; auto.
    + intros Hin. apply Hs. simpl. auto.
    + simpl in Hfuel. lia.
Qed.

Lemma Find_loop_miss h s minSize : forall bs x fuel,
  seg h x bs s ->
  ~ In s bs ->
  (length bs < fuel)%nat ->
  Forall (fun z => FreedBlock.Size h z < minSize) bs ->
  RangeList.Find_loop fuel h s minSize (FreedBlock.next h x) = Ok None.
Proof.
  induction bs as [ | a bs IH]; intros x fuel Hseg Hs Hfuel Hsmall;
    (destruct fuel as [ | fuel]; [simpl in Hfuel; lia | ]);
    cbn [RangeList.Find_loop]; simpl in Hseg.
  - destruct Hseg as [-> _]. now rewrite Z.eqb_refl.
  - destruct Hseg as (-> & _ & Hseg).
    destruct (Z.eqb_spec a s) as [E | _]; [exfalso; apply Hs; simpl; auto | ].
    apply Forall_cons_iff in Hsmall. destruct Hsmall as [Ha Hsmall].
    destruct (Z.geb_spec (FreedBlock.Size h a) minSize); [lia | ].
    apply IH; auto.
    + intros Hin. apply Hs. simpl. auto.
    + simpl in Hfuel. lia.
Qed.

(** The walk of [Find] stops by lack of fuel only. *)
Lemma Find_loop_error h s minSize e : forall fuel x,
  RangeList.Find_loop fuel h s minSize x = Err e -> e = OutOfFuel.
Proof.
  induction fuel as [ | fuel IH]; intros x; cbn [RangeList.Find_loop].
  - now intros [= <-].
  - destruct (x =? s); [discriminate | ].
    destruct (FreedBlock.Size h x >=? minSize); [discriminate | apply IH].
Qed.

Lemma total_size_small h minSize bs :
  Forall (fun z => FreedBlock.Size h z < minSize) bs ->
  total_size h bs <= Z.of_nat (length bs) * (minSize - 1).
Proof.
  induction 1 as [ | b bs Hb _ IH]; [simpl; lia | ].
  cbn [total_size length]. rewrite Nat2Z.inj_succ. nia.
Qed.

(** Either some block fits, and there is a first one, or none does. *)
Lemma first_fit_cases h minSize bs :
  (exists bs1 b bs2,
     bs = bs1 ++ b :: bs2
     /\ Forall (fun z => FreedBlock.Size h z < minSize) bs1
     /\ minSize <= FreedBlock.Size h b)
  \/ Forall (fun z => FreedBlock.Size h z < minSize) bs.
Proof.
  induction bs as [ | a bs IH]; [right; constructor | ].
  destruct (Z_lt_dec (FreedBlock.Size h a) minSize) as [Hlt | Hge].
  - destruct IH as [(bs1 & b & bs2 & -> & H1 & H2) | IH].
    + left. exists (a :: bs1), b, bs2. repeat split; auto.
    + right. constructor; auto.
  - left. exists [], a, bs. repeat split; auto. lia.
Qed.

Lemma RangeList_Find_hit fuel this h minSize bs1 b bs2 :
  let s := RangeList.m_sentinel this in
  is_list h s (bs1 ++ b :: bs2) ->
  ~ In s (bs1 ++ b :: bs2) ->
  (length (bs1 ++ b :: bs2) < fuel)%nat ->
  Forall (fun z => FreedBlock.Size h z < minSize) bs1 ->
  minSize <= FreedBlock.Size h b ->
  RangeList.Find fuel this h minSize = Ok b.
Proof.
  intros s Hlist Hs Hfuel Hsmall Hfit. unfold RangeList.Find. fold s.
  now rewrite (Find_loop_hit h s minSize b bs2 bs1 s fuel Hlist Hs Hfuel Hsmall Hfit).
Qed.

Lemma RangeList_Find_miss fuel this h minSize bs :
  let s := RangeList.m_sentinel this in
  is_list h s bs ->
  ~ In s bs ->
  (length bs < fuel)%nat ->
  Forall (fun z => FreedBlock.Size h z < minSize) bs ->
  bs <> [] ->
  RangeList.m_freeBlocks this = Z.of_nat (length bs) ->
  RangeList.m_freeBytes this = total_size h bs ->
  RangeList.m_freeBytes this / RangeList.m_freeBlocks this < minSize
  /\ RangeList.Find fuel this h minSize = Ok 0.
Proof.
  intros s Hlist Hs Hfuel Hsmall Hne Hblocks Hbytes.
  assert (Hn : 0 < RangeList.m_freeBlocks this).
  { rewrite Hblocks. destruct bs; [contradiction | simpl length; lia]. }
  assert (Havg : RangeList.m_freeBytes this / RangeList.m_freeBlocks this < minSize).
  { apply Z.div_lt_upper_bound; [exact Hn | ].
    pose proof (total_size_small h minSize bs Hsmall). rewrite Hbytes, Hblocks in *. nia. }
  split; [exact Havg | ].
  unfold RangeList.Find. fold s.
  rewrite (Find_loop_miss h s minSize bs s fuel Hlist Hs Hfuel Hsmall). cbn [bind].
  unfold udiv. destruct (Z.eqb_spec (RangeList.m_freeBlocks this) 0); [lia | ]. cbn [bind].
  destruct (Z.ltb_spec (RangeList.m_freeBytes this / RangeList.m_freeBlocks this) minSize);
    [reflexivity | lia].
Qed.

Lemma RangeList_Find_divisor fuel this h minSize :
  RangeList.m_freeBlocks this <> 0 ->
  RangeList.Find fuel this h minSize <> Err DivisionByZero.
Proof.
  intros Hne. unfold RangeList.Find.
  destruct (RangeList.Find_loop _ _ _ _ _) as [[b | ] | e] eqn:E; cbn [bind].
  - discriminate.
  - unfold udiv. destruct (Z.eqb_spec (RangeList.m_freeBlocks this) 0); [contradiction | ].
    cbn [bind]. destruct (_ <? _); cbn; discriminate.
  - apply Find_loop_error in E. subst e. discriminate.
Qed.

(* ================================================================== *)
(** * Bit arithmetic of the size-class bitmap *)

(** Number of trailing zero bits. *)
Fixpoint ctz (p : positive) : Z :=
  match p with
  | xO q => 1 + ctz q
  | _ => 0
  end.

Definition lowest_bit (x : Z) : Z :=
  match x with
  | Zpos p => ctz p
  | _ => 0
  end.

Lemma ctz_nonneg p : 0 <= ctz p.
Proof. induction p; cbn [ctz]; lia. Qed.

Lemma land_neg_pos p : Z.land (Zpos p) (- Zpos p) = 2 ^ ctz p.
Proof.
  induction p as [q IH | q IH | ].
  - apply Z.bits_inj'. intros i Hi.
    rewrite Z.land_spec.
    replace (- Z.pos q~1) with (Z.lnot (2 * Z.pos q)) by (unfold Z.lnot; lia).
    rewrite Z.lnot_spec by lia.
    change (Z.pos q~1) with (2 * Z.pos q + 1).
    cbn [ctz].
    destruct (Z.eq_dec i 0) as [-> | Hne].
    + rewrite Z.testbit_odd_0, Z.testbit_even_0. reflexivity.
    + replace i with (Z.succ (i - 1)) by lia.
      rewrite Z.testbit_odd_succ, Z.testbit_even_succ by lia.
      rewrite andb_negb_r. symmetry. apply Z.pow2_bits_false. lia.
  - change (Z.pos q~0) with (2 * Z.pos q).
    replace (- (2 * Z.pos q)) with (2 * (- Z.pos q)) by lia.
    cbn [ctz]. rewrite Z.pow_add_r by (pose proof (ctz_nonneg q); lia).
    rewrite <- IH. change (2 ^ 1) with 2.
    apply Z.bits_inj'. intros i Hi.
    rewrite Z.land_spec.
    destruct (Z.eq_dec i 0) as [-> | Hne].
    + rewrite !Z.testbit_even_0. reflexivity.
    + replace i with (Z.succ (i - 1)) by lia.
      rewrite !Z.testbit_even_succ by lia. now rewrite Z.land_spec.
  - reflexivity.
Qed.

Lemma ctz_bits p :
  Z.testbit (Zpos p) (ctz p) = true
  /\ forall j, 0 <= j < ctz p -> Z.testbit (Zpos p) j = false.
Proof.
  induction p as [q IH | q IH | ]; cbn [ctz].
  - split; [reflexivity | lia].
  - destruct IH as [IH1 IH2]. pose proof (ctz_nonneg q).
    change (Z.pos q~0) with (2 * Z.pos q). split.
    + replace (1 + ctz q) with (Z.succ (ctz q)) by lia.
      now rewrite Z.testbit_even_succ.
    + intros j Hj. destruct (Z.eq_dec j 0) as [-> | Hne].
      * apply Z.testbit_even_0.
      * replace j with (Z.succ (j - 1)) by lia.
        rewrite Z.testbit_even_succ by lia. apply IH2. lia.
  - split; [reflexivity | lia].
Qed.

Lemma wrap_land_ones x : wrap x = Z.land x (Z.ones 32).
Proof. unfold wrap. symmetry. apply Z.land_ones. lia. Qed.

Lemma wrap_bits x i :
  0 <= i -> Z.testbit (wrap x) i = (i <? 32) && Z.testbit x i.
Proof.
  intros Hi. unfold wrap.
  destruct (Z.ltb_spec i 32).
  - now rewrite Z.mod_pow2_bits_low by lia.
  - now rewrite Z.mod_pow2_bits_high by lia.
Qed.

Lemma size_t_bits_high x i : is_size_t x -> 32 <= i -> Z.testbit x i = false.
Proof.
  intros Hx Hi. rewrite <- (wrap_small x Hx). rewrite wrap_bits by lia.
  destruct (Z.ltb_spec i 32); [lia | reflexivity].
Qed.

Lemma land_wrap x y : is_size_t x -> Z.land x (wrap y) = Z.land x y.
Proof.
  intros Hx. apply Z.bits_inj'. intros i Hi.
  rewrite !Z.land_spec, wrap_bits by lia.
  destruct (Z.ltb_spec i 32); [reflexivity | ].
  rewrite (size_t_bits_high x i Hx) by lia. reflexivity.
Qed.

(** A non-negative number whose bits from [n] on are zero is below [2^n]. *)
Lemma bits_below x n :
  0 <= x -> 0 <= n ->
  (forall i, n <= i -> Z.testbit x i = false) -> x < 2 ^ n.
Proof.
  intros Hx Hn Hbits.
  assert (E : x mod 2 ^ n = x).
  { apply Z.bits_inj'. intros i Hi.
    destruct (Z_lt_dec i n).
    - now rewrite Z.mod_pow2_bits_low by lia.
    - rewrite Z.mod_pow2_bits_high by lia. symmetry. apply Hbits. lia. }
  rewrite <- E. apply Z.mod_pos_bound. apply Z.pow_pos_nonneg; lia.
Qed.

Lemma land_size_t x y : is_size_t x -> is_size_t (Z.land x y).
Proof.
  intros Hx. unfold is_size_t. split.
  - apply Z.land_nonneg. left. apply Hx.
  - apply bits_below; [apply Z.land_nonneg; left; apply Hx | lia | ].
    intros i Hi. rewrite Z.land_spec, (size_t_bits_high x i Hx) by lia. reflexivity.
Qed.

(** [x & -x] is the lowest set bit of [x]. *)
Lemma ValueOfLeastSignificantOneBit_spec x :
  is_size_t x -> x <> 0 ->
  let k := lowest_bit x in
  0 <= k < 32
  /\ SegregatedRangeLists.ValueOfLeastSignificantOneBit x = 2 ^ k
  /\ Z.testbit x k = true
  /\ forall j, 0 <= j < k -> Z.testbit x j = false.
Proof.
  intros Hx Hne. cbv zeta.
  destruct x as [ | p | p]; [contradiction | | unfold is_size_t in Hx; lia].
  cbn [lowest_bit]. destruct (ctz_bits p) as [Hk Hlow].
  pose proof (ctz_nonneg p) as Hk0.
  assert (Hk32 : ctz p < 32).
  { destruct (Z_lt_dec (ctz p) 32); [assumption | ].
    rewrite (size_t_bits_high _ (ctz p) Hx) in Hk by lia. discriminate. }
  repeat split; auto.
  unfold SegregatedRangeLists.ValueOfLeastSignificantOneBit.
  rewrite land_wrap by assumption. apply land_neg_pos.
Qed.

Lemma SizeClass_pow2 k :
  0 <= k < 32 -> SegregatedRangeLists.SizeClass (2 ^ k) = k.
Proof.
  intros Hk. unfold SegregatedRangeLists.SizeClass, ceil_log2.
  rewrite wrap_small.
  - apply Z.log2_up_pow2. lia.
  - unfold is_size_t. split; [apply Z.pow_nonneg; lia | ].
    apply Z.pow_lt_mono_r; lia.
Qed.

(** [x & ~bit]: the word [x] with bit [k] cleared. *)
Lemma clear_bit_spec x k :
  is_size_t x -> 0 <= k < 32 ->
  let x' := Z.land x (not32 (2 ^ k)) in
  is_size_t x'
  /\ forall i, 0 <= i -> Z.testbit x' i = Z.testbit x i && negb (i =? k).
Proof.
  intros Hx Hk. cbv zeta. split; [now apply land_size_t | ].
  intros i Hi. unfold not32. rewrite land_wrap by assumption.
  rewrite Z.land_spec, Z.lnot_spec by lia. f_equal. f_equal.
  destruct (Z.eqb_spec i k) as [-> | Hne].
  - apply Z.pow2_bits_true. lia.
  - apply Z.pow2_bits_false. lia.
Qed.

(** [m_bitmap & (~0u << c)]: the bits of the bitmap from [c] on. *)
Lemma class_mask_spec bitmap c :
  is_size_t bitmap -> 0 <= c < 32 ->
  exists mask,
    shl32 (not32 0) c = Ok mask
    /\ is_size_t (Z.land bitmap mask)
    /\ forall i, 0 <= i ->
         Z.testbit (Z.land bitmap mask) i = Z.testbit bitmap i && (c <=? i).
Proof.
  intros Hb Hc. unfold shl32.
  destruct (Z.leb_spec 0 c); [ | lia]. destruct (Z.ltb_spec c 32); [ | lia]. cbn [andb].
  eexists. split; [reflexivity | ]. split; [now apply land_size_t | ].
  intros i Hi. rewrite land_wrap by assumption.
  rewrite Z.land_spec, Z.shiftl_spec by lia.
  destruct (Z.leb_spec c i) as [Hci | Hci].
  - destruct (Z_lt_dec i 32) as [Hlt | Hge].
    + f_equal. rewrite not32_0. change (2 ^ 32 - 1) with (Z.ones 32).
      apply Z.ones_spec_low. lia.
    + rewrite (size_t_bits_high bitmap i Hb) by lia. reflexivity.
  - rewrite (Z.testbit_neg_r (not32 0) (i - c)) by lia. reflexivity.
Qed.

(* ================================================================== *)
(** * SegregatedRangeLists::Find *)

(** Every bit of [x] is a bit of [y]. *)
Definition bits_of (x y : Z) : Prop :=
  forall i, 0 <= i -> Z.testbit x i = true -> Z.testbit y i = true.

(** A set bit of the bitmap stands for a list with a non-zero count. *)
Definition bitmap_counts (lists : SegregatedRangeLists.t) : Prop :=
  forall i, 0 <= i < 32 ->
    Z.testbit (SegregatedRangeLists.m_bitmap lists) i = true ->
    RangeList.m_freeBlocks (SegregatedRangeLists.m_rangeLists lists i) <> 0.

Lemma rangeList_in_range lists i :
  0 <= i < 32 ->
  SegregatedRangeLists.rangeList lists i = Ok (SegregatedRangeLists.m_rangeLists lists i).
Proof.
  intros Hi. unfold SegregatedRangeLists.rangeList, SegregatedRangeLists.numRangeLists.
  destruct (Z.leb_spec 0 i); [ | lia]. destruct (Z.ltb_spec i 32); [ | lia]. reflexivity.
Qed.

Lemma Seg_Find_loop_divisor fuel lists h minSize : forall rounds bits,
  is_size_t bits ->
  bits_of bits (SegregatedRangeLists.m_bitmap lists) ->
  bitmap_counts lists ->
  SegregatedRangeLists.Find_loop rounds fuel lists h minSize bits <> Err DivisionByZero.
Proof.
  induction rounds as [ | rounds IH]; intros bits Hbits Hsub Hcounts;
    cbn [SegregatedRangeLists.Find_loop];
    destruct (Z.eqb_spec bits 0) as [E | Hne]; try discriminate.
  destruct (ValueOfLeastSignificantOneBit_spec bits Hbits Hne) as (Hk & -> & Hset & _).
  set (k := lowest_bit bits) in *.
  rewrite SizeClass_pow2, rangeList_in_range by assumption. cbn [bind].
  pose proof (RangeList_Find_divisor fuel (SegregatedRangeLists.m_rangeLists lists k)
                h minSize (Hcounts k Hk (Hsub k (proj1 Hk) Hset))) as Hdiv.
  destruct (RangeList.Find _ _ _ _) as [b | e]; cbn [bind].
  - destruct (negb (b =? 0)); [discriminate | ].
    destruct (clear_bit_spec bits k Hbits Hk) as [Hr Hb].
    apply IH; auto.
    intros i Hi Hset'. rewrite Hb in Hset' by assumption.
    apply andb_true_iff in Hset'. apply Hsub; tauto.
  - intros [= ->]. now apply Hdiv.
Qed.

Lemma SizeClass_nonneg size : 0 <= SegregatedRangeLists.SizeClass size.
Proof. apply Z.log2_up_nonneg. Qed.

Lemma Seg_Find_divisor fuel lists h minSize :
  is_size_t (SegregatedRangeLists.m_bitmap lists) ->
  bitmap_counts lists ->
  SegregatedRangeLists.Find fuel lists h minSize <> Err DivisionByZero.
Proof.
  intros Hb Hcounts. unfold SegregatedRangeLists.Find.
  pose proof (SizeClass_nonneg minSize) as Hc.
  destruct (Z_lt_dec (SegregatedRangeLists.SizeClass minSize) 32) as [Hlt | Hge].
  - destruct (class_mask_spec _ _ Hb (conj Hc Hlt)) as (mask & -> & Hr & Hbits).
    cbn [bind].
    pose proof (Seg_Find_loop_divisor fuel lists h minSize 32
                  (Z.land (SegregatedRangeLists.m_bitmap lists) mask) Hr) as Hloop.
    destruct (SegregatedRangeLists.Find_loop _ _ _ _ _ _) as [[b | ] | e]; cbn [bind].
    + discriminate.
    + unfold BIT. destruct (_ && _); cbn [bind]; [ | discriminate].
      destruct (_ <? _); cbn; discriminate.
    + intros [= ->]. apply Hloop; auto.
      intros i Hi Hset. rewrite Hbits in Hset by assumption.
      apply andb_true_iff in Hset. tauto.
  - unfold shl32. destruct (Z.ltb_spec (SegregatedRangeLists.SizeClass minSize) 32); [lia | ].
    rewrite andb_false_r. cbn [bind]. discriminate.
Qed.

(** C7.  On the list of a [RangeList], [Find(minSize)] returns the first
    block in list order whose size is at least [minSize], which on an
    ascending list is the one of the lowest address among those that fit.
    When no block fits and the list is not empty (with the counters holding
    its length and byte total), the quotient [m_freeBytes / m_freeBlocks]
    is below [minSize], so the assertion passes and [Find] returns null.
    And [SegregatedRangeLists::Find] never divides by zero when every set
    bit of the bitmap stands for a list with a non-zero block count: it
    consults the lists of set bits only. *)
Theorem RangeList_Find_first_fit :
  (forall (fuel : nat) (this : RangeList.t) (h : memory) (minSize : Z) (bs1 : list ptr)
          (b : ptr) (bs2 : list ptr),
     let s := RangeList.m_sentinel this in
     is_list h s (bs1 ++ b :: bs2) ->
     ~ In s (bs1 ++ b :: bs2) ->
     (length (bs1 ++ b :: bs2) < fuel)%nat ->
     Forall (fun z => FreedBlock.Size h z < minSize) bs1 ->
     minSize <= FreedBlock.Size h b ->
     RangeList.Find fuel this h minSize = Ok b
     /\ (ascending (bs1 ++ b :: bs2) ->
         forall b', In b' (bs1 ++ b :: bs2) -> minSize <= FreedBlock.Size h b' -> b <= b'))
  /\
  (forall (fuel : nat) (this : RangeList.t) (h : memory) (minSize : Z) (bs : list ptr),
     let s := RangeList.m_sentinel this in
     is_list h s bs ->
     ~ In s bs ->
     (length bs < fuel)%nat ->
     Forall (fun z => FreedBlock.Size h z < minSize) bs ->
     bs <> [] ->
     RangeList.m_freeBlocks this = Z.of_nat (length bs) ->
     RangeList.m_freeBytes this = total_size h bs ->
     RangeList.m_freeBytes this / RangeList.m_freeBlocks this < minSize
     /\ RangeList.Find fuel this h minSize = Ok 0)
  /\
  (forall (fuel : nat) (lists : SegregatedRangeLists.t) (h : memory) (minSize : Z),
     is_size_t (SegregatedRangeLists.m_bitmap lists) ->
     bitmap_counts lists ->
     SegregatedRangeLists.Find fuel lists h minSize <> Err DivisionByZero).
Proof.
  split; [ | split].
  - intros fuel this h minSize bs1 b bs2 s Hlist Hs Hfuel Hsmall Hfit.
    split; [now apply RangeList_Find_hit with (bs1 := bs1) (bs2 := bs2) | ].
    intros Hasc b' Hin Hfit'.
    apply ascending_app_inv in Hasc. destruct Hasc as (_ & H2 & _).
    apply in_app_or in Hin. destruct Hin as [Hin | [<- | Hin]].
    + rewrite Forall_forall in Hsmall. specialize (Hsmall b' Hin). lia.
    + lia.
    + simpl in H2. destruct H2 as [H2 _]. rewrite Forall_forall in H2.
      specialize (H2 b' Hin). lia.
  - intros fuel this h minSize bs s. now apply RangeList_Find_miss.
  - intros fuel lists h minSize. apply Seg_Find_divisor.
Qed.

(** In [Scenario.two_freed], [Find(128)] on the list of class 7 returns its
    first block, at the pool's base. *)
Lemma RangeList_Find_first_fit_witness :
  let st := Scenario.value Scenario.blank Scenario.two_freed in
  let l := SegregatedRangeLists.m_rangeLists (Impl.m_segregatedRangeLists st) 7 in
  RangeList.Find Scenario.fuel l (Impl.heap st) 128 = Ok Scenario.pool_at.
Proof.
  cbv zeta.
  set (st := Scenario.value Scenario.blank Scenario.two_freed).
  set (l := SegregatedRangeLists.m_rangeLists (Impl.m_segregatedRangeLists st) 7).
  assert (Hs : RangeList.m_sentinel l = 4292) by (vm_compute; reflexivity).
  refine (proj1 (proj1 RangeList_Find_first_fit Scenario.fuel l (Impl.heap st) 128
                   [] Scenario.pool_at [Scenario.pool_at + 256] _ _ _ _ _)).
  - rewrite Hs. cbv [is_list seg app]. repeat split; vm_compute; reflexivity.
  - rewrite Hs. cbv [Scenario.pool_at app In]. lia.
  - cbv [Scenario.fuel length app]. lia.
  - constructor.
  - apply Z.leb_le. vm_compute. reflexivity.
Defined.

(** The segregated lists are well formed over memory [h], with
    [blocks i] the blocks of class [i] in list order. *)
Record lists_ok (fuel : nat) (lists : SegregatedRangeLists.t) (h : memory)
    (blocks : Z -> list ptr) : Prop := {
  ok_bitmap : is_size_t (SegregatedRangeLists.m_bitmap lists);
  ok_list : forall i, 0 <= i < 32 ->
    is_list h (RangeList.m_sentinel (SegregatedRangeLists.m_rangeLists lists i)) (blocks i);
  ok_sentinel : forall i, 0 <= i < 32 ->
    ~ In (RangeList.m_sentinel (SegregatedRangeLists.m_rangeLists lists i)) (blocks i);
  ok_fuel : forall i, 0 <= i < 32 -> (length (blocks i) < fuel)%nat;
  ok_nonnull : forall i, 0 <= i < 32 -> ~ In 0 (blocks i);
  ok_class : forall i b, 0 <= i < 32 -> In b (blocks i) ->
    SegregatedRangeLists.SizeClass (FreedBlock.Size h b) = i;
  ok_blocks : forall i, 0 <= i < 32 ->
    RangeList.m_freeBlocks (SegregatedRangeLists.m_rangeLists lists i)
    = Z.of_nat (length (blocks i));
  ok_bytes : forall i, 0 <= i < 32 ->
    RangeList.m_freeBytes (SegregatedRangeLists.m_rangeLists lists i)
    = total_size h (blocks i);
  ok_bit : forall i, 0 <= i < 32 ->
    (Z.testbit (SegregatedRangeLists.m_bitmap lists) i = true <-> blocks i <> [])
}.

Lemma SizeClass_above s n :
  is_size_t s -> is_size_t n ->
  SegregatedRangeLists.SizeClass n < SegregatedRangeLists.SizeClass s -> n <= s.
Proof.
  unfold SegregatedRangeLists.SizeClass, ceil_log2. intros Hs Hn.
  rewrite !wrap_small by assumption. intros Hlt.
  destruct (Z_le_dec n s) as [ | Hgt]; [assumption | ].
  assert (Z.log2_up s <= Z.log2_up n) by (apply Z.log2_up_le_mono; lia). lia.
Qed.

(** One round of the loop of [Find]. *)
Lemma Seg_Find_loop_step rounds fuel lists h minSize bits :
  SegregatedRangeLists.Find_loop (S rounds) fuel lists h minSize bits
  = if bits =? 0 then Ok None
    else
      l <- SegregatedRangeLists.rangeList lists
             (SegregatedRangeLists.SizeClass
                (SegregatedRangeLists.ValueOfLeastSignificantOneBit bits)) ;;
      freedBlock <- RangeList.Find fuel l h minSize ;;
      if negb (freedBlock =? 0) then Ok (Some freedBlock)
      else SegregatedRangeLists.Find_loop rounds fuel lists h minSize
             (Z.land bits (not32 (SegregatedRangeLists.ValueOfLeastSignificantOneBit bits))).
Proof. reflexivity. Qed.

Lemma Seg_Find_loop_zero rounds fuel lists h minSize :
  SegregatedRangeLists.Find_loop rounds fuel lists h minSize 0 = Ok None.
Proof. destruct rounds; reflexivity. Qed.

Section SegFind.
Variables (fuel : nat) (lists : SegregatedRangeLists.t) (h : memory)
          (blocks : Z -> list ptr) (minSize : Z).
Hypothesis Hok : lists_ok fuel lists h blocks.
Hypothesis HminSize : is_size_t minSize.

Let c := SegregatedRangeLists.SizeClass minSize.

(** A non-empty class above the class of [minSize] yields its first block. *)
Lemma Seg_Find_loop_above rounds bits :
  is_size_t bits -> bits <> 0 ->
  bits_of bits (SegregatedRangeLists.m_bitmap lists) ->
  c < lowest_bit bits ->
  exists b,
    SegregatedRangeLists.Find_loop (S rounds) fuel lists h minSize bits = Ok (Some b)
    /\ b <> 0
    /\ In b (blocks (lowest_bit bits))
    /\ minSize <= FreedBlock.Size h b.
Proof.
  intros Hbits Hne Hsub Hc.
  destruct (ValueOfLeastSignificantOneBit_spec bits Hbits Hne) as (Hk & Hv & Hset & _).
  set (k := lowest_bit bits) in *.
  assert (Hnonempty : blocks k <> [])
    by (apply (ok_bit _ _ _ _ Hok k Hk); apply Hsub; [lia | exact Hset]).
  destruct (blocks k) as [ | b rest] eqn:Eblocks; [contradiction | ].
  assert (Hin : In b (blocks k)) by (rewrite Eblocks; simpl; auto).
  assert (Hfit : minSize <= FreedBlock.Size h b).
  { apply SizeClass_above; [apply load_range | assumption | ].
    rewrite (ok_class _ _ _ _ Hok k b Hk Hin). exact Hc. }
  assert (Hb0 : b <> 0).
  { intros ->. now apply (ok_nonnull _ _ _ _ Hok k Hk). }
  exists b. split; [ | rewrite <- Eblocks; auto].
  cbn [SegregatedRangeLists.Find_loop].
  destruct (Z.eqb_spec bits 0); [contradiction | ].
  rewrite Hv, SizeClass_pow2, rangeList_in_range by assumption. cbn [bind].
  rewrite (RangeList_Find_hit fuel (SegregatedRangeLists.m_rangeLists lists k) h minSize
             [] b rest).
  - cbn [bind]. destruct (Z.eqb_spec b 0); [contradiction | reflexivity].
  - simpl app. rewrite <- Eblocks. now apply (ok_list _ _ _ _ Hok).
  - simpl app. rewrite <- Eblocks. now apply (ok_sentinel _ _ _ _ Hok).
  - simpl app. rewrite <- Eblocks. now apply (ok_fuel _ _ _ _ Hok).
  - constructor.
  - exact Hfit.
Qed.

(** The loop over the classes from [c] on: a block that fits, or nothing
    and then no class above [c] has its bit set. *)
Lemma Seg_Find_loop_spec rounds bits :
  is_size_t bits ->
  (forall i, 0 <= i ->
     Z.testbit bits i = Z.testbit (SegregatedRangeLists.m_bitmap lists) i && (c <=? i)) ->
  exists found,
    SegregatedRangeLists.Find_loop (S (S rounds)) fuel lists h minSize bits = Ok found
    /\ match found with
       | Some b => b <> 0 /\ minSize <= FreedBlock.Size h b
                   /\ exists i, c <= i < 32 /\ In b (blocks i)
       | None => forall i, c < i ->
                   Z.testbit (SegregatedRangeLists.m_bitmap lists) i = false
       end.
Proof.
  intros Hbits Hmask.
  assert (Hsub : bits_of bits (SegregatedRangeLists.m_bitmap lists)).
  { intros i Hi Hset. rewrite Hmask in Hset by assumption.
    apply andb_true_iff in Hset. tauto. }
  assert (Hhigh : forall i, 32 <= i ->
            Z.testbit (SegregatedRangeLists.m_bitmap lists) i = false).
  { intros i Hi. apply size_t_bits_high; [apply (ok_bitmap _ _ _ _ Hok) | assumption]. }
  pose proof (SizeClass_nonneg minSize) as Hc0. fold c in Hc0.
  destruct (Z.eq_dec bits 0) as [E | Hne].
  - (* no class from [c] on is occupied *)
    exists None. split; [subst bits; apply Seg_Find_loop_zero | ].
    intros i Hi. specialize (Hmask i ltac:(lia)). rewrite E, Z.bits_0 in Hmask.
    destruct (Z.leb_spec c i); [ | lia]. now rewrite andb_true_r in Hmask.
  - destruct (ValueOfLeastSignificantOneBit_spec bits Hbits Hne) as (Hk & Hv & Hset & Hlow).
    set (k := lowest_bit bits) in *.
    assert (Hck : c <= k).
    { rewrite Hmask in Hset by lia. apply andb_true_iff in Hset.
      destruct Hset as [_ Hset]. now apply Z.leb_le. }
    destruct (Z.eq_dec k c) as [Ekc | Hkc].
    + (* the class of [minSize] itself: scan it *)
      pose proof (Seg_Find_loop_step (S rounds) fuel lists h minSize bits) as Hstep.
      destruct (Z.eqb_spec bits 0); [contradiction | ].
      rewrite Hv, SizeClass_pow2, rangeList_in_range in Hstep by assumption.
      cbn [bind] in Hstep.
      assert (Hnonempty : blocks k <> [])
        by (apply (ok_bit _ _ _ _ Hok k Hk); apply Hsub; [lia | exact Hset]).
      destruct (first_fit_cases h minSize (blocks k))
        as [(bs1 & b & bs2 & Eblocks & Hsmall & Hfit) | Hsmall].
      * (* a block of this class fits *)
        assert (Hin : In b (blocks k)) by (rewrite Eblocks; apply in_elt).
        assert (Hb0 : b <> 0).
        { intros ->. now apply (ok_nonnull _ _ _ _ Hok k Hk). }
        rewrite (RangeList_Find_hit fuel (SegregatedRangeLists.m_rangeLists lists k) h
                   minSize bs1 b bs2) in Hstep; auto.
        -- cbn [bind] in Hstep. destruct (Z.eqb_spec b 0); [contradiction | ].
           cbn [negb] in Hstep.
           exists (Some b). split; [exact Hstep | ].
           split; [exact Hb0 | ]. split; [exact Hfit | ]. exists k. split; [lia | exact Hin].
        -- rewrite <- Eblocks. now apply (ok_list _ _ _ _ Hok).
        -- rewrite <- Eblocks. now apply (ok_sentinel _ _ _ _ Hok).
        -- rewrite <- Eblocks. now apply (ok_fuel _ _ _ _ Hok).
      * (* none fits: the assertion of RangeList::Find passes, on to the next class *)
        destruct (RangeList_Find_miss fuel (SegregatedRangeLists.m_rangeLists lists k) h
                    minSize (blocks k)) as [_ Hmiss]; auto;
          try (now apply Hok).
        rewrite Hmiss in Hstep. cbn [bind] in Hstep.
        rewrite Z.eqb_refl in Hstep. cbn [negb] in Hstep.
        destruct (clear_bit_spec bits k Hbits Hk) as [Hr' Hb'].
        set (bits' := Z.land bits (not32 (2 ^ k))) in *.
        destruct (Z.eq_dec bits' 0) as [E' | Hne'].
        -- exists None. split.
           { rewrite Hstep, E'. apply Seg_Find_loop_zero. }
           intros i Hi.
           destruct (Z_lt_dec i 32) as [Hi32 | ]; [ | apply Hhigh; lia].
           specialize (Hb' i ltac:(lia)). rewrite E', Z.bits_0, Hmask in Hb' by lia.
           destruct (Z.leb_spec c i); [ | lia]. destruct (Z.eqb_spec i k); [lia | ].
           now rewrite !andb_true_r in Hb'.
        -- destruct (ValueOfLeastSignificantOneBit_spec bits' Hr' Hne')
             as (Hk' & _ & Hset' & _).
           assert (Hck' : c < lowest_bit bits').
           { rewrite Hb', Hmask in Hset' by lia.
             apply andb_true_iff in Hset'. destruct Hset' as [Hset' Hnk].
             apply andb_true_iff in Hset'. destruct Hset' as [_ Hci].
             apply Z.leb_le in Hci. apply negb_true_iff, Z.eqb_neq in Hnk. lia. }
           destruct (Seg_Find_loop_above rounds bits' Hr' Hne') as (b & Hrun & Hb0 & Hin & Hfit).
           ++ intros i Hi Hs. rewrite Hb' in Hs by assumption.
              apply andb_true_iff in Hs. apply Hsub; tauto.
           ++ exact Hck'.
           ++ exists (Some b). split; [rewrite Hstep; exact Hrun | ].
              split; [exact Hb0 | ]. split; [exact Hfit | ].
              exists (lowest_bit bits'). split; [lia | exact Hin].
    + (* the lowest occupied class is above [c]: its first block fits *)
      destruct (Seg_Find_loop_above (S rounds) bits Hbits Hne Hsub) as (b & Hrun & Hb0 & Hin & Hfit).
      * fold k. lia.
      * exists (Some b). split; [exact Hrun | ].
        split; [exact Hb0 | ]. split; [exact Hfit | ].
        exists k. split; [lia | exact Hin].
Qed.

End SegFind.

Lemma SizeClass_le_30 minSize :
  is_size_t minSize -> minSize <= 2 ^ 30 -> SegregatedRangeLists.SizeClass minSize <= 30.
Proof.
  intros Hr Hle. unfold SegregatedRangeLists.SizeClass, ceil_log2.
  rewrite wrap_small by assumption.
  change 30 with (Z.log2_up (2 ^ 30)). now apply Z.log2_up_le_mono.
Qed.

(** C6.  A size of a strictly greater class is at least as large:
    [SizeClass(s) > SizeClass(n)] implies [s >= n].  Consequently, on
    well-formed segregated lists, [Find(minSize)] (for [minSize <= 2^30],
    so that [BIT(minSizeClass+1)] is a defined shift) returns without
    failing an assertion; when it returns null, every class strictly above
    [SizeClass(minSize)] is empty and [m_bitmap < BIT(minSizeClass+1)]
    holds; when it returns a block, the block is in a list of a class from
    [SizeClass(minSize)] on and is large enough. *)
Theorem SegregatedRangeLists_Find_miss :
  (forall s n : Z,
     is_size_t s -> is_size_t n ->
     SegregatedRangeLists.SizeClass s > SegregatedRangeLists.SizeClass n -> s >= n)
  /\
  (forall (fuel : nat) (lists : SegregatedRangeLists.t) (h : memory)
          (blocks : Z -> list ptr) (minSize : Z),
     lists_ok fuel lists h blocks ->
     is_size_t minSize ->
     minSize <= 2 ^ 30 ->
     let minSizeClass := SegregatedRangeLists.SizeClass minSize in
     exists r,
       SegregatedRangeLists.Find fuel lists h minSize = Ok r
       /\ (r = 0 ->
           (forall i, minSizeClass < i < 32 -> blocks i = [])
           /\ BIT (minSizeClass + 1) = Ok (2 ^ (minSizeClass + 1))
           /\ SegregatedRangeLists.m_bitmap lists < 2 ^ (minSizeClass + 1))
       /\ (r <> 0 ->
           minSize <= FreedBlock.Size h r
           /\ exists i, minSizeClass <= i < 32 /\ In r (blocks i))).
Proof.
  split.
  - intros s n Hs Hn Hgt. apply Z.le_ge. apply SizeClass_above; auto. lia.
  - intros fuel lists h blocks minSize Hok Hr Hle c.
    pose proof (SizeClass_nonneg minSize) as Hc0. fold c in Hc0.
    pose proof (SizeClass_le_30 minSize Hr Hle) as Hc30. fold c in Hc30.
    pose proof (ok_bitmap _ _ _ _ Hok) as Hbitmap.
    destruct (class_mask_spec _ c Hbitmap ltac:(lia)) as (mask & Hmask & Hbits & Hspec).
    destruct (Seg_Find_loop_spec fuel lists h blocks minSize Hok Hr 30%nat _ Hbits Hspec)
      as (found & Hloop & Hfound).
    assert (Hbit : BIT (c + 1) = Ok (2 ^ (c + 1))).
    { unfold BIT. destruct (Z.leb_spec 0 (c + 1)); [ | lia].
      destruct (Z.ltb_spec (c + 1) 32); [reflexivity | lia]. }
    unfold SegregatedRangeLists.Find. fold c. rewrite Hmask. cbn [bind].
    rewrite Hloop. cbn [bind].
    destruct found as [b | ].
    + destruct Hfound as (Hb0 & Hfit & i & Hi & Hin).
      exists b. split; [reflexivity | ]. split; [contradiction | ].
      intros _. split; [exact Hfit | ]. exists i. auto.
    + assert (Hlt : SegregatedRangeLists.m_bitmap lists < 2 ^ (c + 1)).
      { apply bits_below; [apply Hbitmap | lia | ]. intros i Hi. apply Hfound. lia. }
      exists 0. rewrite Hbit. cbn [bind].
      destruct (Z.ltb_spec (SegregatedRangeLists.m_bitmap lists) (2 ^ (c + 1))); [ | lia].
      cbn [debug_assert bind].
      split; [reflexivity | ]. split; [ | contradiction].
      intros _. split; [ | split; [reflexivity | exact Hlt]].
      intros i Hi.
      destruct (blocks i) as [ | b rest] eqn:E; [reflexivity | exfalso].
      assert (Hset : Z.testbit (SegregatedRangeLists.m_bitmap lists) i = true)
        by (apply (ok_bit _ _ _ _ Hok i); [lia | rewrite E; discriminate]).
      rewrite Hfound in Hset by lia. discriminate.
Qed.

Lemma class_cases i : 0 <= i < 32 -> In i SegregatedRangeLists.indices.
Proof.
  intros Hi. change SegregatedRangeLists.indices with
    [0; 1; 2; 3; 4; 5; 6; 7; 8; 9; 10; 11; 12; 13; 14; 15; 16; 17; 18; 19; 20; 21; 22;
     23; 24; 25; 26; 27; 28; 29; 30; 31].
  cbn [In]. lia.
Qed.

(** ** A checker for [lists_ok] *)

Fixpoint seg_b (h : memory) (x : ptr) (bs : list ptr) (y : ptr) : bool :=
  match bs with
  | [] => (FreedBlock.next h x =? y) && (FreedBlock.prev h y =? x)
  | b :: bs' =>
      (FreedBlock.next h x =? b) && (FreedBlock.prev h b =? x) && seg_b h b bs' y
  end.

Definition class_ok_b (fuel : nat) (lists : SegregatedRangeLists.t) (h : memory)
    (blocks : Z -> list ptr) (i : Z) : bool :=
  let l := SegregatedRangeLists.m_rangeLists lists i in
  let s := RangeList.m_sentinel l in
  let bs := blocks i in
  seg_b h s bs s
  && forallb (fun b => negb (b =? s) && negb (b =? 0)
                       && (SegregatedRangeLists.SizeClass (FreedBlock.Size h b) =? i)) bs
  && Nat.ltb (length bs) fuel
  && (RangeList.m_freeBlocks l =? Z.of_nat (length bs))
  && (RangeList.m_freeBytes l =? total_size h bs)
  && Bool.eqb (Z.testbit (SegregatedRangeLists.m_bitmap lists) i)
              (match bs with [] => false | _ => true end).

Definition lists_ok_b (fuel : nat) (lists : SegregatedRangeLists.t) (h : memory)
    (blocks : Z -> list ptr) : bool :=
  (0 <=? SegregatedRangeLists.m_bitmap lists)
  && (SegregatedRangeLists.m_bitmap lists <? 2 ^ 32)
  && forallb (class_ok_b fuel lists h blocks) SegregatedRangeLists.indices.

Lemma seg_b_sound h bs : forall x y, seg_b h x bs y = true -> seg h x bs y.
Proof.
  induction bs as [ | b bs IH]; intros x y H; cbn [seg_b seg] in *.
  - apply andb_true_iff in H. destruct H as [H1 H2].
    apply Z.eqb_eq in H1, H2. auto.
  - apply andb_true_iff in H. destruct H as [H H3].
    apply andb_true_iff in H. destruct H as [H1 H2].
    apply Z.eqb_eq in H1, H2. auto.
Qed.

Lemma lists_ok_b_sound fuel lists h blocks :
  lists_ok_b fuel lists h blocks = true -> lists_ok fuel lists h blocks.
Proof.
  unfold lists_ok_b. intros H.
  apply andb_true_iff in H. destruct H as [H Hall].
  apply andb_true_iff in H. destruct H as [Hlo Hhi].
  apply Z.leb_le in Hlo. apply Z.ltb_lt in Hhi.
  assert (Hclass : forall i, 0 <= i < 32 -> class_ok_b fuel lists h blocks i = true).
  { intros i Hi. rewrite forallb_forall in Hall. apply Hall. now apply class_cases. }
  clear Hall.
  assert (Hparts : forall i, 0 <= i < 32 ->
    let l := SegregatedRangeLists.m_rangeLists lists i in
    seg_b h (RangeList.m_sentinel l) (blocks i) (RangeList.m_sentinel l) = true
    /\ (forall b, In b (blocks i) ->
          b <> RangeList.m_sentinel l /\ b <> 0
          /\ SegregatedRangeLists.SizeClass (FreedBlock.Size h b) = i)
    /\ (length (blocks i) < fuel)%nat
    /\ RangeList.m_freeBlocks l = Z.of_nat (length (blocks i))
    /\ RangeList.m_freeBytes l = total_size h (blocks i)
    /\ (Z.testbit (SegregatedRangeLists.m_bitmap lists) i = true <-> blocks i <> [])).
  { intros i Hi. specialize (Hclass i Hi). unfold class_ok_b in Hclass. cbv zeta in *.
    repeat (apply andb_true_iff in Hclass; destruct Hclass as [Hclass ?]).
    repeat split.
    - assumption.
    - rewrite forallb_forall in *.
      match goal with Hf : forall x, In x (blocks i) -> _ = true |- _ =>
        specialize (Hf b H4) end. lia.
    - rewrite forallb_forall in *.
      match goal with Hf : forall x, In x (blocks i) -> _ = true |- _ =>
        specialize (Hf b H4) end. lia.
    - rewrite forallb_forall in *.
      match goal with Hf : forall x, In x (blocks i) -> _ = true |- _ =>
        specialize (Hf b H4) end. lia.
    - now apply Nat.ltb_lt.
    - lia.
    - lia.
    - intros Hbit. rewrite Hbit in *. destruct (blocks i); [discriminate | discriminate].
    - intros Hne. destruct (blocks i); [contradiction | ].
      destruct (Z.testbit _ _); [reflexivity | discriminate]. }
  constructor.
  - unfold is_size_t. lia.
  - intros i Hi. apply seg_b_sound. apply (Hparts i Hi).
  - intros i Hi Hin. destruct (Hparts i Hi) as (_ & Hb & _).
    destruct (Hb _ Hin) as [Hs _]. now apply Hs.
  - intros i Hi. apply (Hparts i Hi).
  - intros i Hi Hin. destruct (Hparts i Hi) as (_ & Hb & _).
    destruct (Hb _ Hin) as (_ & H0 & _). now apply H0.
  - intros i b Hi Hin. destruct (Hparts i Hi) as (_ & Hb & _). now apply Hb.
  - intros i Hi. apply (Hparts i Hi).
  - intros i Hi. apply (Hparts i Hi).
  - intros i Hi. apply (Hparts i Hi).
Qed.

(** The two free blocks of [Scenario.two_freed], both of class 7. *)
Definition two_freed_blocks (i : Z) : list ptr :=
  if i =? 7 then [Scenario.pool_at; Scenario.pool_at + 256] else [].

Lemma two_freed_lists_ok :
  let st := Scenario.value Scenario.blank Scenario.two_freed in
  lists_ok Scenario.fuel (Impl.m_segregatedRangeLists st) (Impl.heap st) two_freed_blocks.
Proof. cbv zeta. apply lists_ok_b_sound. vm_compute. reflexivity. Qed.

(** In [Scenario.two_freed], [Find(4096)] finds nothing: the bitmap has
    bit 7 only, below [BIT(13)]. *)
Lemma SegregatedRangeLists_Find_miss_witness :
  let st := Scenario.value Scenario.blank Scenario.two_freed in
  exists r,
    SegregatedRangeLists.Find Scenario.fuel (Impl.m_segregatedRangeLists st) (Impl.heap st)
      4096 = Ok r
    /\ (r = 0 ->
        (forall i, SegregatedRangeLists.SizeClass 4096 < i < 32 -> two_freed_blocks i = [])
        /\ BIT (SegregatedRangeLists.SizeClass 4096 + 1)
           = Ok (2 ^ (SegregatedRangeLists.SizeClass 4096 + 1))
        /\ SegregatedRangeLists.m_bitmap (Impl.m_segregatedRangeLists st)
           < 2 ^ (SegregatedRangeLists.SizeClass 4096 + 1))
    /\ (r <> 0 ->
        4096 <= FreedBlock.Size (Impl.heap st) r
        /\ exists i, SegregatedRangeLists.SizeClass 4096 <= i < 32
                     /\ In r (two_freed_blocks i)).
Proof.
  cbv zeta.
  assert (Hr : is_size_t 4096) by (unfold is_size_t; lia).
  assert (Hle : 4096 <= 2 ^ 30) by lia.
  exact (proj2 SegregatedRangeLists_Find_miss Scenario.fuel _ _ two_freed_blocks 4096
           two_freed_lists_ok Hr Hle).
Defined.

(* ================================================================== *)
(** * Further properties of the segregated lists *)

(** X1.  [ValueOfLeastSignificantOneBit(x)], the source's [x & -x], is the
    power of two of the lowest set bit of a non-zero 32-bit [x]: it is
    [2^k] for the least [k] with bit [k] of [x] set. *)
Theorem ValueOfLeastSignificantOneBit_isolates (x : Z) :
  is_size_t x -> x <> 0 ->
  exists k,
    0 <= k < 32
    /\ SegregatedRangeLists.ValueOfLeastSignificantOneBit x = 2 ^ k
    /\ Z.testbit x k = true
    /\ forall j, 0 <= j < k -> Z.testbit x j = false.
Proof.
  intros Hx Hne. exists (lowest_bit x).
  exact (ValueOfLeastSignificantOneBit_spec x Hx Hne).
Qed.

(** The bitmap [0b10100000] (classes 5 and 7 occupied) gives class 5. *)
Lemma ValueOfLeastSignificantOneBit_isolates_witness :
  exists k,
    0 <= k < 32
    /\ SegregatedRangeLists.ValueOfLeastSignificantOneBit 160 = 2 ^ k
    /\ Z.testbit 160 k = true
    /\ forall j, 0 <= j < k -> Z.testbit 160 j = false.
Proof.
  apply ValueOfLeastSignificantOneBit_isolates.
  - unfold is_size_t. lia.
  - lia.
Defined.

Lemma bind_Err {A B : Type} (m : result A) (k : A -> result B) (e : error) :
  bind m k = Err e -> m = Err e \/ exists a, m = Ok a /\ k a = Err e.
Proof. destruct m as [a | e']; cbn [bind]; [eauto | intros [= ->]; auto]. Qed.

(** The [while] loop of [Find] with [j] low bits of the word already
    cleared needs at most [32 - j] rounds. *)
Lemma Seg_Find_loop_rounds fuel lists h minSize : forall rounds bits j,
  is_size_t bits ->
  0 <= j ->
  32 <= Z.of_nat rounds + j ->
  (forall i, 0 <= i < j -> Z.testbit bits i = false) ->
  SegregatedRangeLists.Find_loop rounds fuel lists h minSize bits = Err OutOfFuel ->
  exists i, 0 <= i < 32
    /\ RangeList.Find fuel (SegregatedRangeLists.m_rangeLists lists i) h minSize
       = Err OutOfFuel.
Proof.
  induction rounds as [ | rounds IH]; intros bits j Hbits Hj Hrounds Hlow Hrun.
  - (* no round left: the word is zero *)
    assert (E : bits = 0).
    { apply Z.bits_inj'. intros i Hi. rewrite Z.bits_0.
      destruct (Z_lt_dec i 32); [apply Hlow; simpl in Hrounds; lia | ].
      apply size_t_bits_high; [assumption | lia]. }
    subst bits. rewrite Seg_Find_loop_zero in Hrun. discriminate.
  - rewrite Seg_Find_loop_step in Hrun.
    destruct (Z.eqb_spec bits 0) as [ | Hne]; [discriminate | ].
    destruct (ValueOfLeastSignificantOneBit_spec bits Hbits Hne) as (Hk & Hv & Hset & Hlowest).
    set (k := lowest_bit bits) in *.
    assert (Hjk : j <= k).
    { destruct (Z_le_dec j k); [assumption | ].
      rewrite Hlow in Hset by lia. discriminate. }
    rewrite Hv, SizeClass_pow2, rangeList_in_range in Hrun by assumption.
    cbn [bind] in Hrun.
    destruct (RangeList.Find fuel (SegregatedRangeLists.m_rangeLists lists k) h minSize)
      as [b | e] eqn:Efind; cbn [bind] in Hrun.
    + destruct (negb (b =? 0)); [discriminate | ].
      destruct (clear_bit_spec bits k Hbits Hk) as [Hr' Hb'].
      apply (IH _ (k + 1) Hr'); auto; try lia.
      intros i Hi. rewrite Hb' by lia.
      destruct (Z.eq_dec i k) as [-> | Hik].
      * rewrite Z.eqb_refl. apply andb_false_r.
      * rewrite Hlowest by lia. reflexivity.
    + injection Hrun as ->. exists k. auto.
Qed.

(** X2.  The loop [while(sizeClassBits)] of [SegregatedRangeLists::Find]
    ends within 32 iterations, one per bit of the word: when [Find] stops
    for lack of fuel, it is the walk of one of the range lists that did not
    reach its sentinel, never the loop over the classes. *)
Theorem Find_class_loop_terminates
    (fuel : nat) (lists : SegregatedRangeLists.t) (h : memory) (minSize : Z) :
  is_size_t (SegregatedRangeLists.m_bitmap lists) ->
  SegregatedRangeLists.Find fuel lists h minSize = Err OutOfFuel ->
  exists i, 0 <= i < 32
    /\ RangeList.Find fuel (SegregatedRangeLists.m_rangeLists lists i) h minSize
       = Err OutOfFuel.
Proof.
  intros Hb Hrun. unfold SegregatedRangeLists.Find in Hrun.
  apply bind_Err in Hrun. destruct Hrun as [Hrun | (mask & Hmask & Hrun)].
  - unfold shl32 in Hrun. destruct (_ && _); discriminate.
  - apply bind_Err in Hrun. destruct Hrun as [Hrun | (found & Hloop & Hrun)].
    + apply (Seg_Find_loop_rounds fuel lists h minSize 32 _ 0) in Hrun; auto; try lia.
      now apply land_size_t.
    + destruct found as [b | ]; [discriminate | ].
      apply bind_Err in Hrun. destruct Hrun as [Hrun | (bit & _ & Hrun)].
      * unfold BIT in Hrun. destruct (_ && _); discriminate.
      * apply bind_Err in Hrun. destruct Hrun as [Hrun | (u & _ & Hrun)]; [ | discriminate].
        unfold debug_assert in Hrun. destruct (_ <? _); discriminate.
Qed.

(** With no fuel at all, the walk of the occupied class 7 of
    [Scenario.two_freed] cannot start. *)
Lemma Find_class_loop_terminates_witness :
  let st := Scenario.value Scenario.blank Scenario.two_freed in
  exists i, 0 <= i < 32
    /\ RangeList.Find 0 (SegregatedRangeLists.m_rangeLists (Impl.m_segregatedRangeLists st) i)
         (Impl.heap st) 128 = Err OutOfFuel.
Proof.
  cbv zeta.
  set (st := Scenario.value Scenario.blank Scenario.two_freed).
  assert (Hb : is_size_t (SegregatedRangeLists.m_bitmap (Impl.m_segregatedRangeLists st)))
    by size_t_eval.
  assert (Hrun : SegregatedRangeLists.Find 0 (Impl.m_segregatedRangeLists st) (Impl.heap st)
                   128 = Err OutOfFuel) by (vm_compute; reflexivity).
  exact (Find_class_loop_terminates 0 (Impl.m_segregatedRangeLists st) (Impl.heap st) 128
           Hb Hrun).
Defined.

(* ================================================================== *)
(** * Further properties of the tag records *)

(** X3.  A record written by the [FreedBlock(id, size)] constructor is
    recognised under its id and carries its size; once its destructor has
    run it is recognised under no id, and validating it fails: the poison
    values cannot be taken for a tag. *)
Theorem destroyed_record_is_no_tag (h : memory) (this : ptr) (id size id' : Z) :
  let h1 := FreedBlock.construct h this id size in
  let h2 := FreedBlock.destroy h1 this in
  FreedBlock.IsFreedBlock h1 this (wrap id) = true
  /\ FreedBlock.Size h1 this = wrap size
  /\ FreedBlock.IsFreedBlock h2 this id' = false
  /\ FreedBlock.Validate h2 this id' = Err AssertFailed.
Proof.
  cbv zeta. unfold FreedBlock.Validate, FreedBlock.IsFreedBlock. sanity.
  unfold_fields. mem_simpl.
  rewrite Z.eqb_refl. repeat split.
  - destruct (wrap 0 =? id'); reflexivity.
Qed.

(* ================================================================== *)
(** * Statistics *)

(** The counters hold values of [size_t]. *)
Definition stats_in_range (this : Stats.t) : Prop :=
  is_size_t (Stats.m_totalAllocatedBlocks this)
  /\ is_size_t (Stats.m_totalAllocatedBytes this)
  /\ is_size_t (Stats.m_totalDeallocatedBlocks this)
  /\ is_size_t (Stats.m_totalDeallocatedBytes this)
  /\ is_size_t (Stats.m_currentExtantBlocks this)
  /\ is_size_t (Stats.m_currentExtantBytes this)
  /\ is_size_t (Stats.m_currentFreeBlocks this)
  /\ is_size_t (Stats.m_currentFreeBytes this).

Lemma Stats_Validate_spec this :
  Stats.Validate this = Ok tt <->
  Stats.m_totalDeallocatedBlocks this <= Stats.m_totalAllocatedBlocks this
  /\ Stats.m_totalDeallocatedBytes this <= Stats.m_totalAllocatedBytes this
  /\ Stats.m_currentExtantBlocks this
     = wrap (Stats.m_totalAllocatedBlocks this - Stats.m_totalDeallocatedBlocks this)
  /\ Stats.m_currentExtantBytes this
     = wrap (Stats.m_totalAllocatedBytes this - Stats.m_totalDeallocatedBytes this).
Proof.
  unfold Stats.Validate. sanity. split.
  - intros H. inv_run. lia.
  - intros (H1 & H2 & H3 & H4).
    apply Z.leb_le in H1, H2. apply Z.eqb_eq in H3, H4.
    now rewrite H1, H2, H3, H4.
Qed.

Lemma Stats_OnAllocate_valid this size :
  stats_in_range this -> is_size_t size ->
  Stats.m_totalAllocatedBlocks this + 1 < 2 ^ 32 ->
  Stats.m_totalAllocatedBytes this + size < 2 ^ 32 ->
  Stats.Validate this = Ok tt ->
  Stats.Validate (Stats.OnAllocate this size) = Ok tt.
Proof.
  intros (R1 & R2 & R3 & R4 & R5 & R6 & _) Hsize Hblocks Hbytes Hvalid.
  apply Stats_Validate_spec in Hvalid. destruct Hvalid as (H1 & H2 & H3 & H4).
  apply Stats_Validate_spec. unfold Stats.OnAllocate. sanity.
  cbn [Stats.m_totalAllocatedBlocks Stats.m_totalAllocatedBytes
       Stats.m_totalDeallocatedBlocks Stats.m_totalDeallocatedBytes
       Stats.m_currentExtantBlocks Stats.m_currentExtantBytes].
  rewrite H3, H4. repeat split; wrap_lia.
Qed.

Lemma Stats_OnDeallocate_valid this size this' :
  stats_in_range this -> is_size_t size ->
  Stats.Validate this = Ok tt ->
  Stats.OnDeallocate this size = Ok this' ->
  Stats.Validate this' = Ok tt
  /\ Stats.m_totalDeallocatedBytes this' = Stats.m_totalDeallocatedBytes this + size
  /\ Stats.m_currentExtantBlocks this' = Stats.m_currentExtantBlocks this - 1
  /\ Stats.m_currentExtantBytes this' = Stats.m_currentExtantBytes this - size.
Proof.
  intros (R1 & R2 & R3 & R4 & R5 & R6 & _) Hsize Hvalid Hrun.
  apply Stats_Validate_spec in Hvalid. destruct Hvalid as (H1 & H2 & H3 & H4).
  unfold Stats.OnDeallocate in Hrun. sanity. inv_run. subst this'.
  rewrite Stats_Validate_spec.
  cbn [Stats.m_totalAllocatedBlocks Stats.m_totalAllocatedBytes
       Stats.m_totalDeallocatedBlocks Stats.m_totalDeallocatedBytes
       Stats.m_currentExtantBlocks Stats.m_currentExtantBytes].
  assert (E0 : Stats.m_currentExtantBlocks this <> 0) by lia.
  assert (E1 : size <= Stats.m_currentExtantBytes this) by lia.
  rewrite H3, H4 in *. repeat split; wrap_lia.
Qed.

(** X4.  [Stats::Validate] is kept by the two event handlers that touch the
    totals: by [OnAllocate] while the totals do not overflow, and by every
    [OnDeallocate] that passes its assertions.  After such an
    [OnDeallocate] the deallocated bytes do not exceed the allocated bytes,
    although the handler's own assertion compares the deallocated bytes
    with themselves.  An [OnAllocate(size)] followed by [OnDeallocate(size)]
    passes and returns the extant counts to their values. *)
Theorem Stats_handlers_keep_Validate (this : Stats.t) (size : Z) :
  stats_in_range this -> is_size_t size ->
  Stats.Validate this = Ok tt ->
  (Stats.m_totalAllocatedBlocks this + 1 < 2 ^ 32 ->
   Stats.m_totalAllocatedBytes this + size < 2 ^ 32 ->
   Stats.Validate (Stats.OnAllocate this size) = Ok tt
   /\ exists this',
        Stats.OnDeallocate (Stats.OnAllocate this size) size = Ok this'
        /\ Stats.m_currentExtantBlocks this' = Stats.m_currentExtantBlocks this
        /\ Stats.m_currentExtantBytes this' = Stats.m_currentExtantBytes this)
  /\ (forall this',
        Stats.OnDeallocate this size = Ok this' ->
        Stats.Validate this' = Ok tt
        /\ Stats.m_totalDeallocatedBytes this' <= Stats.m_totalAllocatedBytes this').
Proof.
  intros Hrange Hsize Hvalid. split.
  - intros Hblocks Hbytes.
    split; [now apply Stats_OnAllocate_valid | ].
    destruct Hrange as (R1 & R2 & R3 & R4 & R5 & R6 & _).
    apply Stats_Validate_spec in Hvalid. destruct Hvalid as (H1 & H2 & H3 & H4).
    unfold Stats.OnDeallocate, Stats.OnAllocate. sanity.
    cbn [Stats.m_totalAllocatedBlocks Stats.m_totalAllocatedBytes
         Stats.m_totalDeallocatedBlocks Stats.m_totalDeallocatedBytes
         Stats.m_currentExtantBlocks Stats.m_currentExtantBytes
         Stats.m_currentFreeBlocks Stats.m_currentFreeBytes].
    rewrite H3, H4.
    assert (A1 : (wrap (Stats.m_totalDeallocatedBlocks this + 1)
                  <=? wrap (Stats.m_totalAllocatedBlocks this + 1)) = true)
      by (apply Z.leb_le; wrap_lia).
    assert (A2 : negb (wrap (wrap (Stats.m_totalAllocatedBlocks this
                                   - Stats.m_totalDeallocatedBlocks this) + 1) =? 0) = true)
      by (apply negb_true_iff, Z.eqb_neq; wrap_lia).
    assert (A3 : (wrap (wrap (Stats.m_totalAllocatedBytes this
                              - Stats.m_totalDeallocatedBytes this) + size) >=? size) = true)
      by (apply Z.geb_le; wrap_lia).
    rewrite A1, A2, A3, Z.leb_refl. cbn [debug_assert bind].
    eexists. split; [reflexivity | ].
    cbn [Stats.m_currentExtantBlocks Stats.m_currentExtantBytes].
    split; wrap_lia.
  - intros this' Hrun.
    pose proof (Stats_OnDeallocate_valid this size this' Hrange Hsize Hvalid Hrun)
      as (Hv & _).
    split; [exact Hv | ]. apply Stats_Validate_spec in Hv. tauto.
Qed.

(** The statistics of [Scenario.two_freed]: three blocks allocated, two
    freed. *)
Lemma Stats_handlers_keep_Validate_witness :
  let stats := Impl.m_stats (Scenario.value Scenario.blank Scenario.two_freed) in
  let stats' := Scenario.value stats (Stats.OnDeallocate stats 128) in
  Stats.Validate stats' = Ok tt
  /\ Stats.m_totalDeallocatedBytes stats' <= Stats.m_totalAllocatedBytes stats'.
Proof.
  cbv zeta.
  set (stats := Impl.m_stats (Scenario.value Scenario.blank Scenario.two_freed)).
  set (stats' := Scenario.value stats (Stats.OnDeallocate stats 128)).
  assert (Hrange : stats_in_range stats) by (repeat split; apply Z.leb_le || apply Z.ltb_lt;
                                             vm_compute; reflexivity).
  assert (Hsize : is_size_t 128) by (unfold is_size_t; lia).
  assert (Hvalid : Stats.Validate stats = Ok tt) by (vm_compute; reflexivity).
  assert (Hrun : Stats.OnDeallocate stats 128 = Ok stats')
    by (apply value_Ok; vm_compute; reflexivity).
  exact (proj2 (Stats_handlers_keep_Validate stats 128 Hrange Hsize Hvalid) stats' Hrun).
Defined.

(* ================================================================== *)
(** * Allocate and Deallocate: entry checks and the pool path *)

Lemma debug_assert_false_bind {B : Type} (c : bool) (k : unit -> result B) :
  c = false -> bind (debug_assert c) k = Err AssertFailed.
Proof. now intros ->. Qed.

Lemma debug_assert_true_bind {B : Type} (c : bool) (k : unit -> result B) :
  c = true -> bind (debug_assert c) k = k tt.
Proof. now intros ->. Qed.

(** X5.  A caller that breaks the contract is stopped by the entry
    assertions: [Allocate] of an invalid size, and [Deallocate] of a
    pointer that is not 16-aligned, of an invalid size, or of a block whose
    first or last byte is not in the pool, fail an assertion. *)
Theorem contract_violations_stop (fuel : nat) (this : Impl.t) (p size : Z) :
  (IsValidSize size = false -> Impl.Allocate fuel this size = Err AssertFailed)
  /\ (p mod minAlignment <> 0
      \/ IsValidSize size = false
      \/ Pool.pool_contains (Impl.m_pool this) p = false
      \/ Pool.pool_contains (Impl.m_pool this) (wrap (p + size - 1)) = false ->
      Impl.Deallocate fuel this p size = Err AssertFailed).
Proof.
  split.
  - intros H. unfold Impl.Allocate. now rewrite H.
  - intros H. unfold Impl.Deallocate.
    destruct (Z.eqb_spec (p mod minAlignment) 0) as [E | E]; [ | reflexivity].
    cbn [debug_assert bind].
    destruct (IsValidSize size); [ | reflexivity]. cbn [debug_assert bind].
    destruct (Pool.pool_contains (Impl.m_pool this) p); [ | reflexivity].
    cbn [debug_assert bind].
    destruct (Pool.pool_contains (Impl.m_pool this) (wrap (p + size - 1)));
      [ | reflexivity].
    exfalso. destruct H as [H | [H | [H | H]]]; congruence.
Qed.

(** In [Scenario.one_freed], 8 bytes into the pool is no block address and
    24 is no size. *)
Lemma contract_violations_stop_witness :
  let st := Scenario.value Scenario.blank Scenario.one_freed in
  Impl.Allocate Scenario.fuel st 24 = Err AssertFailed
  /\ Impl.Deallocate Scenario.fuel st (Scenario.pool_at + 8) 64 = Err AssertFailed.
Proof.
  cbv zeta.
  set (st := Scenario.value Scenario.blank Scenario.one_freed).
  pose proof (contract_violations_stop Scenario.fuel st (Scenario.pool_at + 8) 24) as [HA _].
  pose proof (contract_violations_stop Scenario.fuel st (Scenario.pool_at + 8) 64) as [_ HD].
  split.
  - apply HA. reflexivity.
  - apply HD. left. unfold Scenario.pool_at, minAlignment.
    change ((65536 + 8) mod 16) with 8. lia.
Defined.

(** X6.  [Deallocate] never returns when the statistics count no extant
    block, or fewer extant bytes than are being freed: freeing what was
    not allocated (a second free of the only block, for one) is caught. *)
Theorem Deallocate_without_extant_block (fuel : nat) (this : Impl.t) (p size : Z) :
  Stats.m_currentExtantBlocks (Impl.m_stats this) = 0
  \/ Stats.m_currentExtantBytes (Impl.m_stats this) < size ->
  forall this', Impl.Deallocate fuel this p size <> Ok this'.
Proof.
  intros H this' Hrun. unfold Impl.Deallocate in Hrun.
  apply bind_Ok in Hrun; destruct Hrun as [? [_ Hrun]].
  apply bind_Ok in Hrun; destruct Hrun as [? [_ Hrun]].
  apply bind_Ok in Hrun; destruct Hrun as [? [_ Hrun]].
  apply bind_Ok in Hrun; destruct Hrun as [? [_ Hrun]].
  apply bind_Ok in Hrun; destruct Hrun as [? [_ Hrun]].
  apply bind_Ok in Hrun; destruct Hrun as [stats [Hstats _]].
  unfold Stats.OnDeallocate in Hstats. sanity. inv_run. lia.
Qed.

(** The only block of [Scenario.one_freed] has been freed: a second
    [Deallocate] of it does not return. *)
Lemma Deallocate_without_extant_block_witness :
  let st := Scenario.value Scenario.blank Scenario.one_freed in
  Stats.m_currentExtantBlocks (Impl.m_stats st) = 0
  /\ Scenario.succeeds (Impl.Deallocate Scenario.fuel st Scenario.pool_at 64) = false.
Proof.
  cbv zeta.
  set (st := Scenario.value Scenario.blank Scenario.one_freed).
  assert (Hextant : Stats.m_currentExtantBlocks (Impl.m_stats st) = 0)
    by (vm_compute; reflexivity).
  split; [exact Hextant | ].
  pose proof (Deallocate_without_extant_block Scenario.fuel st Scenario.pool_at 64
                (or_introl Hextant)) as Hnever.
  destruct (Impl.Deallocate Scenario.fuel st Scenario.pool_at 64) as [st' | e].
  - exfalso. now apply (Hnever st').
  - reflexivity.
Defined.

Lemma Impl_Validate_spec fuel s :
  Impl.Validate fuel s = Ok tt <->
  SegregatedRangeLists.Validate fuel (Impl.m_segregatedRangeLists s) (Impl.heap s)
    BoundaryTagManager.s_headerId = Ok tt
  /\ Stats.Validate (Impl.m_stats s) = Ok tt
  /\ Stats.FreeBlocks (Impl.m_stats s)
     = SegregatedRangeLists.FreeBlocks (Impl.m_segregatedRangeLists s)
  /\ SegregatedRangeLists.FreeBlocks (Impl.m_segregatedRangeLists s)
     = BoundaryTagManager.FreeBlocks (Impl.m_boundaryTagManager s)
  /\ Stats.FreeBytes (Impl.m_stats s)
     = SegregatedRangeLists.FreeBytes (Impl.m_segregatedRangeLists s)
  /\ SegregatedRangeLists.FreeBytes (Impl.m_segregatedRangeLists s)
     = BoundaryTagManager.FreeBytes (Impl.m_boundaryTagManager s).
Proof.
  unfold Impl.Validate, AssertEqual. sanity. split.
  - intros H.
    apply bind_Ok in H; destruct H as [[] [H1 H]].
    apply bind_Ok in H; destruct H as [[] [H2 H]].
    apply bind_Ok in H; destruct H as [[] [H3 H]].
    apply debug_assert_inv in H3, H. apply andb_true_iff in H3, H.
    repeat split; auto; lia.
  - intros (H1 & H2 & H3 & H4 & H5 & H6).
    rewrite H1, H2. cbn [bind]. rewrite H3, H4, H5, H6, !Z.eqb_refl. reflexivity.
Qed.

(** X7.  The pool path of [Allocate]: when the free structure has nothing
    for a valid [size] and the pool can supply it, [Allocate] returns the
    pool's bump address [base + pos], advances [pos] by [size], counts the
    allocation in the statistics, and changes nothing else (memory, lists
    and tags are as before). *)
Theorem Allocate_from_pool (fuel : nat) (this : Impl.t) (size : Z) :
  IsValidSize size = true ->
  Impl.Validate fuel this = Ok tt ->
  SegregatedRangeLists.Find fuel (Impl.m_segregatedRangeLists this) (Impl.heap this) size
    = Ok 0 ->
  Pool.pos (Impl.m_pool this) + size <= Pool.max_size (Impl.m_pool this) ->
  Pool.base (Impl.m_pool this) + Pool.pos (Impl.m_pool this) <> 0 ->
  stats_in_range (Impl.m_stats this) ->
  Stats.m_totalAllocatedBlocks (Impl.m_stats this) + 1 < 2 ^ 32 ->
  Stats.m_totalAllocatedBytes (Impl.m_stats this) + size < 2 ^ 32 ->
  Impl.Allocate fuel this size
  = Ok (Pool.base (Impl.m_pool this) + Pool.pos (Impl.m_pool this),
        Impl.mk (Impl.heap this)
          (Pool.mk (Pool.base (Impl.m_pool this))
                   (Pool.pos (Impl.m_pool this) + size)
                   (Pool.max_size (Impl.m_pool this)))
          (Impl.m_segregatedRangeLists this)
          (Impl.m_boundaryTagManager this)
          (Stats.OnAllocate (Impl.m_stats this) size)).
Proof.
  intros Hsize Hvalid Hfind Hpool Hnull Hrange Hblocks Hbytes.
  assert (Hsz : is_size_t size).
  { apply IsValidSize_spec in Hsize. destruct Hrange as (_ & R2 & _).
    unfold is_size_t in *. lia. }
  unfold Impl.Allocate, Impl.TakeAndSplitFreeBlock.
  rewrite Hsize, Hvalid, Hfind. cbn [debug_assert bind]. rewrite Z.eqb_refl.
  cbn [bind]. rewrite Z.eqb_refl. unfold Pool.pool_alloc.
  destruct (Z.leb_spec (Pool.pos (Impl.m_pool this) + size)
              (Pool.max_size (Impl.m_pool this))); [ | lia].
  cbn [bind].
  destruct (Z.eqb_spec (Pool.base (Impl.m_pool this) + Pool.pos (Impl.m_pool this)) 0);
    [contradiction | ].
  cbn [Impl.heap Impl.m_pool Impl.m_segregatedRangeLists Impl.m_boundaryTagManager
       Impl.m_stats].
  match goal with
  | |- bind (Impl.Validate fuel ?s) _ = _ =>
      assert (Hvalid' : Impl.Validate fuel s = Ok tt)
  end.
  { apply Impl_Validate_spec in Hvalid. apply Impl_Validate_spec.
    cbn [Impl.heap Impl.m_pool Impl.m_segregatedRangeLists Impl.m_boundaryTagManager
         Impl.m_stats].
    destruct Hvalid as (H1 & H2 & H3 & H4 & H5 & H6).
    split; [exact H1 | ]. split; [now apply Stats_OnAllocate_valid | ].
    unfold Stats.OnAllocate. sanity. auto. }
  rewrite Hvalid'. reflexivity.
Qed.

(** The first [Allocate(64)] of a fresh allocator is served at the pool's
    base. *)
Lemma Allocate_from_pool_witness :
  let st := Scenario.value Scenario.blank Scenario.create in
  Impl.Allocate Scenario.fuel st 64
  = Ok (Pool.base (Impl.m_pool st) + Pool.pos (Impl.m_pool st),
        Impl.mk (Impl.heap st)
          (Pool.mk (Pool.base (Impl.m_pool st)) (Pool.pos (Impl.m_pool st) + 64)
                   (Pool.max_size (Impl.m_pool st)))
          (Impl.m_segregatedRangeLists st)
          (Impl.m_boundaryTagManager st)
          (Stats.OnAllocate (Impl.m_stats st) 64))
  /\ Pool.base (Impl.m_pool st) + Pool.pos (Impl.m_pool st) = Scenario.pool_at.
Proof.
  cbv zeta.
  set (st := Scenario.value Scenario.blank Scenario.create).
  assert (Hsize : IsValidSize 64 = true) by (vm_compute; reflexivity).
  assert (Hvalid : Impl.Validate Scenario.fuel st = Ok tt) by (vm_compute; reflexivity).
  assert (Hfind : SegregatedRangeLists.Find Scenario.fuel (Impl.m_segregatedRangeLists st)
                    (Impl.heap st) 64 = Ok 0) by (vm_compute; reflexivity).
  assert (Hpool : Pool.pos (Impl.m_pool st) + 64 <= Pool.max_size (Impl.m_pool st))
    by (apply Z.leb_le; vm_compute; reflexivity).
  assert (Hnull : Pool.base (Impl.m_pool st) + Pool.pos (Impl.m_pool st) <> 0)
    by (apply Z.eqb_neq; vm_compute; reflexivity).
  assert (Hrange : stats_in_range (Impl.m_stats st))
    by (repeat split; apply Z.leb_le || apply Z.ltb_lt; vm_compute; reflexivity).
  assert (Hblocks : Stats.m_totalAllocatedBlocks (Impl.m_stats st) + 1 < 2 ^ 32)
    by (apply Z.ltb_lt; vm_compute; reflexivity).
  assert (Hbytes : Stats.m_totalAllocatedBytes (Impl.m_stats st) + 64 < 2 ^ 32)
    by (apply Z.ltb_lt; vm_compute; reflexivity).
  split.
  - exact (Allocate_from_pool Scenario.fuel st 64 Hsize Hvalid Hfind Hpool Hnull Hrange
             Hblocks Hbytes).
  - vm_compute. reflexivity.
Defined.

(* ================================================================== *)
(** * Boundary tags: writing, probing, removing *)

Section Tags.
Variables (this : BoundaryTagManager.t) (h : memory) (p size : Z).
Hypothesis Hp : is_size_t p.
Hypothesis Hsize : 2 * sizeof_FreedBlock <= size.
Hypothesis Hmod : size mod 16 = 0.
Hypothesis Hend : p + size <= 2 ^ 32.
Hypothesis Hblocks : 0 <= BoundaryTagManager.m_freeBlocks this
                     /\ BoundaryTagManager.m_freeBlocks this + 1 < 2 ^ 32.
Hypothesis Hbytes : 0 <= BoundaryTagManager.m_freeBytes this
                    /\ BoundaryTagManager.m_freeBytes this + size < 2 ^ 32.

(** The memory and the counters after [WriteTags(p, size)]. *)
Definition tagged_memory : memory :=
  FreedBlock.construct
    (FreedBlock.construct h p BoundaryTagManager.s_headerId size)
    (p + size - sizeof_FreedBlock) BoundaryTagManager.s_footerId size.

Definition tagged_counters : BoundaryTagManager.t :=
  BoundaryTagManager.mk (BoundaryTagManager.m_freeBlocks this + 1)
                        (BoundaryTagManager.m_freeBytes this + size).

Lemma tagged_header :
  FreedBlock.m_magic tagged_memory p = FreedBlock.s_magic
  /\ FreedBlock.Size tagged_memory p = size
  /\ FreedBlock.m_id tagged_memory p = BoundaryTagManager.s_headerId.
Proof.
  unfold tagged_memory, sizeof_FreedBlock in *. unfold_fields.
  repeat split; mem_simpl; apply wrap_small; unfold is_size_t in *;
    unfold FreedBlock.s_magic, BoundaryTagManager.s_headerId; lia.
Qed.

Lemma tagged_footer :
  let footer := p + size - sizeof_FreedBlock in
  FreedBlock.m_magic tagged_memory footer = FreedBlock.s_magic
  /\ FreedBlock.Size tagged_memory footer = size
  /\ FreedBlock.m_id tagged_memory footer = BoundaryTagManager.s_footerId.
Proof.
  cbv zeta. unfold tagged_memory, sizeof_FreedBlock in *. unfold_fields.
  repeat split; mem_simpl; apply wrap_small; unfold is_size_t in *;
    unfold FreedBlock.s_magic, BoundaryTagManager.s_footerId; lia.
Qed.

Lemma tagged_Footer :
  BoundaryTagManager.Footer tagged_memory p = p + size - sizeof_FreedBlock.
Proof.
  unfold BoundaryTagManager.Footer. destruct tagged_header as (_ & -> & _).
  apply wrap_small. unfold is_size_t, sizeof_FreedBlock in *. lia.
Qed.

Lemma tagged_Validate :
  BoundaryTagManager.Validate tagged_counters tagged_memory p = Ok tt.
Proof.
  unfold BoundaryTagManager.Validate. sanity.
  rewrite tagged_Footer.
  destruct tagged_header as (Hm & Hs & Hi). destruct tagged_footer as (Fm & Fs & Fi).
  rewrite !FreedBlock_Validate_intro; auto;
    try (rewrite ?Hs, ?Fs; unfold sizeof_FreedBlock in *; lia).
  rewrite Hs. unfold tagged_counters.
  cbn [BoundaryTagManager.m_freeBlocks BoundaryTagManager.m_freeBytes].
  destruct (Z.eqb_spec (BoundaryTagManager.m_freeBlocks this + 1) 0); [lia | ].
  destruct (Z.geb_spec (BoundaryTagManager.m_freeBytes this + size) size); [ | lia].
  reflexivity.
Qed.

Lemma WriteTags_run :
  BoundaryTagManager.WriteTags this h p size = Ok (p, tagged_counters, tagged_memory).
Proof.
  unfold BoundaryTagManager.WriteTags.
  assert (E : BoundaryTagManager.Footer
                (FreedBlock.construct h p BoundaryTagManager.s_headerId size) p
              = p + size - sizeof_FreedBlock).
  { unfold BoundaryTagManager.Footer. unfold_fields. mem_simpl.
    rewrite (wrap_small size) by (unfold is_size_t, sizeof_FreedBlock in *; lia).
    apply wrap_small. unfold is_size_t, sizeof_FreedBlock in *. lia. }
  assert (Ec : BoundaryTagManager.mk (wrap (BoundaryTagManager.m_freeBlocks this + 1))
                 (wrap (BoundaryTagManager.m_freeBytes this + size)) = tagged_counters).
  { unfold tagged_counters.
    now rewrite !wrap_small by (unfold is_size_t, sizeof_FreedBlock in *; lia). }
  cbv zeta. rewrite E, Ec. fold tagged_memory. now rewrite tagged_Validate.
Qed.

Lemma tagged_FollowingBlock q n e :
  wrap (q + n) = p -> p <> e ->
  BoundaryTagManager.FollowingBlock tagged_counters tagged_memory q n e = Ok p.
Proof.
  intros Hq He. unfold BoundaryTagManager.FollowingBlock, FreedBlock.IsFreedBlock.
  rewrite Hq. destruct (Z.eqb_spec p e); [contradiction | ].
  destruct tagged_header as (-> & _ & ->). rewrite !Z.eqb_refl. cbn [negb].
  now rewrite tagged_Validate.
Qed.

Lemma tagged_PrecedingBlock base :
  p + size < 2 ^ 32 -> p + size <> base ->
  BoundaryTagManager.PrecedingBlock tagged_counters tagged_memory (p + size) base = Ok p.
Proof.
  intros Hlt Hbase. unfold BoundaryTagManager.PrecedingBlock, FreedBlock.IsFreedBlock.
  destruct (Z.eqb_spec (p + size) base); [contradiction | ].
  rewrite (wrap_small (p + size - sizeof_FreedBlock))
    by (unfold is_size_t, sizeof_FreedBlock in *; lia).
  destruct tagged_footer as (Fm & Fs & Fi). rewrite Fm, Fi, Fs, !Z.eqb_refl. cbn [negb].
  rewrite FreedBlock_Validate_intro; auto;
    try (rewrite ?Fs; unfold sizeof_FreedBlock in *; lia).
  cbn [bind]. replace (p + size - size) with p by lia.
  rewrite (wrap_small p Hp). now rewrite tagged_Validate.
Qed.

Lemma tagged_RemoveTags :
  BoundaryTagManager.RemoveTags tagged_counters tagged_memory p
  = Ok (BoundaryTagManager.mk (BoundaryTagManager.m_freeBlocks this)
                              (BoundaryTagManager.m_freeBytes this),
        FreedBlock.destroy (FreedBlock.destroy tagged_memory p)
          (p + size - sizeof_FreedBlock)).
Proof.
  unfold BoundaryTagManager.RemoveTags. rewrite tagged_Validate, tagged_Footer.
  cbn [bind]. destruct tagged_header as (_ & -> & _).
  unfold tagged_counters.
  cbn [BoundaryTagManager.m_freeBlocks BoundaryTagManager.m_freeBytes].
  destruct (Z.eqb_spec (BoundaryTagManager.m_freeBlocks this + 1) 0); [lia | ].
  destruct (Z.geb_spec (BoundaryTagManager.m_freeBytes this + size) size); [ | lia].
  cbn [negb debug_assert bind].
  replace (BoundaryTagManager.m_freeBlocks this + 1 - 1)
    with (BoundaryTagManager.m_freeBlocks this) by lia.
  replace (BoundaryTagManager.m_freeBytes this + size - size)
    with (BoundaryTagManager.m_freeBytes this) by lia.
  rewrite !wrap_small by (unfold is_size_t, sizeof_FreedBlock in *; lia). reflexivity.
Qed.

End Tags.

(** X8.  The tags of a block of at least two records ([size >= 40], a
    multiple of 16, not wrapping around the address space):
    [WriteTags(p, size)] returns [p], counts one block and [size] bytes
    more, and from then on the probes find the block: [FollowingBlock] of
    any block ending at [p] returns [p], and [PrecedingBlock] of [p + size]
    returns [p].  A [RemoveTags(p)] right after it returns the counters to
    their values. *)
Theorem tags_written_are_found
    (this : BoundaryTagManager.t) (h : memory) (p size : Z) :
  is_size_t p ->
  2 * sizeof_FreedBlock <= size ->
  size mod 16 = 0 ->
  p + size < 2 ^ 32 ->
  0 <= BoundaryTagManager.m_freeBlocks this /\
    BoundaryTagManager.m_freeBlocks this + 1 < 2 ^ 32 ->
  0 <= BoundaryTagManager.m_freeBytes this /\
    BoundaryTagManager.m_freeBytes this + size < 2 ^ 32 ->
  exists this' h',
    BoundaryTagManager.WriteTags this h p size = Ok (p, this', h')
    /\ BoundaryTagManager.FreeBlocks this' = BoundaryTagManager.FreeBlocks this + 1
    /\ BoundaryTagManager.FreeBytes this' = BoundaryTagManager.FreeBytes this + size
    /\ (forall q n e, wrap (q + n) = p -> p <> e ->
          BoundaryTagManager.FollowingBlock this' h' q n e = Ok p)
    /\ (forall base, p + size <> base ->
          BoundaryTagManager.PrecedingBlock this' h' (p + size) base = Ok p)
    /\ exists this'' h'',
         BoundaryTagManager.RemoveTags this' h' p = Ok (this'', h'')
         /\ BoundaryTagManager.FreeBlocks this'' = BoundaryTagManager.FreeBlocks this
         /\ BoundaryTagManager.FreeBytes this'' = BoundaryTagManager.FreeBytes this.
Proof.
  intros Hp Hsize Hmod Hend Hblocks Hbytes.
  assert (Hend' : p + size <= 2 ^ 32) by lia.
  exists (tagged_counters this size), (tagged_memory h p size).
  split; [now apply WriteTags_run | ].
  split; [reflexivity | ]. split; [reflexivity | ].
  split; [intros; now apply tagged_FollowingBlock | ].
  split; [intros; now apply tagged_PrecedingBlock | ].
  eexists _, _. split; [now apply tagged_RemoveTags | ].
  split; reflexivity.
Qed.

(** A block of 64 bytes at [0x10000], in zeroed memory, with no block
    counted yet. *)
Lemma tags_written_are_found_witness :
  exists this' h',
    BoundaryTagManager.WriteTags (BoundaryTagManager.mk 0 0) (fun _ => 0) 65536 64
      = Ok (65536, this', h')
    /\ BoundaryTagManager.FreeBlocks this' = 1
    /\ BoundaryTagManager.PrecedingBlock this' h' (65536 + 64) 65536 = Ok 65536.
Proof.
  assert (Hp : is_size_t 65536) by (unfold is_size_t; lia).
  assert (Hsize : 2 * sizeof_FreedBlock <= 64) by (unfold sizeof_FreedBlock; lia).
  assert (Hmod : 64 mod 16 = 0) by reflexivity.
  assert (Hend : 65536 + 64 < 2 ^ 32) by lia.
  assert (Hblocks : 0 <= BoundaryTagManager.m_freeBlocks (BoundaryTagManager.mk 0 0) /\
                    BoundaryTagManager.m_freeBlocks (BoundaryTagManager.mk 0 0) + 1 < 2 ^ 32)
    by (cbn [BoundaryTagManager.m_freeBlocks]; lia).
  assert (Hbytes : 0 <= BoundaryTagManager.m_freeBytes (BoundaryTagManager.mk 0 0) /\
                   BoundaryTagManager.m_freeBytes (BoundaryTagManager.mk 0 0) + 64 < 2 ^ 32)
    by (cbn [BoundaryTagManager.m_freeBytes]; lia).
  destruct (tags_written_are_found (BoundaryTagManager.mk 0 0) (fun _ => 0) 65536 64
              Hp Hsize Hmod Hend Hblocks Hbytes)
    as (this' & h' & Hrun & Hcount & _ & _ & Hprev & _).
  exists this', h'. split; [exact Hrun | ]. split; [exact Hcount | ].
  apply Hprev. lia.
Defined.

(* ================================================================== *)
(** * Validate on a range list *)

(** [chain step h x bs y]: following [step] from [x] leads through [bs]
    to [y]. *)
Fixpoint chain (step : memory -> ptr -> ptr) (h : memory) (x : ptr) (bs : list ptr)
    (y : ptr) : Prop :=
  match bs with
  | [] => step h x = y
  | b :: bs' => step h x = b /\ chain step h b bs' y
  end.

Lemma seg_chain_next h bs : forall x y,
  seg h x bs y -> chain FreedBlock.next h x bs y.
Proof.
  induction bs as [ | b bs IH]; intros x y; simpl; [tauto | ].
  intros (H1 & _ & H3). auto.
Qed.

Lemma chain_snoc step h b z : forall bs x,
  chain step h x bs b -> step h b = z -> chain step h x (bs ++ [b]) z.
Proof.
  induction bs as [ | a bs IH]; intros x; simpl.
  - intros -> ->. auto.
  - intros [-> H] Hz. split; [reflexivity | ]. now apply IH.
Qed.

Lemma seg_chain_prev h bs : forall x y,
  seg h x bs y -> chain FreedBlock.prev h y (rev bs) x.
Proof.
  induction bs as [ | b bs IH]; intros x y; simpl; [tauto | ].
  intros (_ & H2 & H3). apply chain_snoc; auto.
Qed.

Lemma total_size_app h bs1 bs2 :
  total_size h (bs1 ++ bs2) = total_size h bs1 + total_size h bs2.
Proof. induction bs1 as [ | b bs1 IH]; cbn [app total_size]; lia. Qed.

Lemma total_size_rev h bs : total_size h (rev bs) = total_size h bs.
Proof.
  induction bs as [ | b bs IH]; [reflexivity | ].
  cbn [rev]. rewrite total_size_app, IH. cbn [total_size]. lia.
Qed.

(** One traversal of [Validate] over a chain of valid blocks counts them. *)
Lemma Validate_loop_chain step h s id : forall bs x fuel freeBlocks freeBytes,
  chain step h x bs s ->
  ~ In s bs ->
  (length bs < fuel)%nat ->
  (forall z, In z bs -> FreedBlock.Validate h z id = Ok tt) ->
  is_size_t freeBlocks -> is_size_t freeBytes ->
  RangeList.Validate_loop fuel h step s id (step h x) freeBlocks freeBytes
  = Ok (wrap (freeBlocks + Z.of_nat (length bs)), wrap (freeBytes + total_size h bs)).
Proof.
  induction bs as [ | b bs IH]; intros x fuel c t Hchain Hs Hfuel Hvalid Hc Ht;
    (destruct fuel as [ | fuel]; [simpl in Hfuel; lia | ]);
    cbn [RangeList.Validate_loop]; simpl in Hchain.
  - rewrite Hchain, Z.eqb_refl. cbn [length total_size].
    now rewrite !Z.add_0_r, !wrap_small.
  - destruct Hchain as [-> Hchain].
    destruct (Z.eqb_spec b s) as [E | _]; [exfalso; apply Hs; simpl; auto | ].
    rewrite Hvalid by (simpl; auto). cbn [bind].
    rewrite IH; auto.
    + cbn [length total_size]. rewrite Nat2Z.inj_succ, !wrap_add_l.
      f_equal; f_equal; f_equal; lia.
    + intros Hin. apply Hs. simpl. auto.
    + simpl in Hfuel. lia.
    + intros z Hz. apply Hvalid. simpl. auto.
    + apply wrap_range.
    + apply wrap_range.
Qed.

(** X9.  [RangeList::Validate] accepts every well-formed list: when the
    links form a cycle through the sentinel, every block passes
    [FreedBlock::Validate], and the counters hold the number of blocks and
    their byte total, the forward and the backward traversal both count
    the list and all assertions pass. *)
Theorem RangeList_Validate_accepts
    (fuel : nat) (this : RangeList.t) (h : memory) (id : Z) (bs : list ptr) :
  let s := RangeList.m_sentinel this in
  is_list h s bs ->
  ~ In s bs ->
  (length bs < fuel)%nat ->
  (forall z, In z bs -> FreedBlock.Validate h z id = Ok tt) ->
  RangeList.m_freeBlocks this = Z.of_nat (length bs) ->
  RangeList.m_freeBytes this = total_size h bs ->
  RangeList.Validate fuel this h id = Ok tt.
Proof.
  intros s Hlist Hs Hfuel Hvalid Hblocks Hbytes.
  unfold RangeList.Validate. sanity. fold s. cbv zeta.
  assert (R0 : is_size_t 0) by (unfold is_size_t; lia).
  rewrite (Validate_loop_chain FreedBlock.next h s id bs s fuel 0 0); auto;
    [ | now apply seg_chain_next].
  cbn [bind].
  rewrite (Validate_loop_chain FreedBlock.prev h s id (rev bs) s fuel); auto.
  - cbn [bind]. rewrite length_rev, total_size_rev, !Z.add_0_l, !wrap_add_l.
    rewrite Hblocks, Hbytes.
    replace (Z.of_nat (length bs) + Z.of_nat (length bs)) with (Z.of_nat (length bs) * 2)
      by lia.
    replace (total_size h bs + total_size h bs) with (total_size h bs * 2) by lia.
    rewrite !Z.eqb_refl. cbn [andb debug_assert bind].
    unfold RangeList.IsEmpty. rewrite Hblocks.
    destruct bs as [ | b bs].
    + simpl in Hlist. destruct Hlist as [-> ->]. now rewrite !Z.eqb_refl.
    + destruct (Z.eqb_spec (Z.of_nat (length (b :: bs))) 0) as [E | _];
        [simpl length in E; lia | reflexivity].
  - now apply seg_chain_prev.
  - rewrite <- in_rev. exact Hs.
  - now rewrite length_rev.
  - intros z Hz. apply Hvalid. now apply in_rev.
  - apply wrap_range.
  - apply wrap_range.
Qed.

(** The list of class 7 of [Scenario.two_freed], validated with the header
    id. *)
Lemma RangeList_Validate_accepts_witness :
  let st := Scenario.value Scenario.blank Scenario.two_freed in
  let l := SegregatedRangeLists.m_rangeLists (Impl.m_segregatedRangeLists st) 7 in
  RangeList.Validate Scenario.fuel l (Impl.heap st) BoundaryTagManager.s_headerId = Ok tt.
Proof.
  cbv zeta.
  set (st := Scenario.value Scenario.blank Scenario.two_freed).
  set (l := SegregatedRangeLists.m_rangeLists (Impl.m_segregatedRangeLists st) 7).
  assert (Hs : RangeList.m_sentinel l = 4292) by (vm_compute; reflexivity).
  apply (RangeList_Validate_accepts Scenario.fuel l (Impl.heap st)
           BoundaryTagManager.s_headerId [Scenario.pool_at; Scenario.pool_at + 256]).
  - rewrite Hs. cbv [is_list seg]. repeat split; vm_compute; reflexivity.
  - rewrite Hs. cbv [Scenario.pool_at In]. lia.
  - cbv [Scenario.fuel length]. lia.
  - intros z [<- | [<- | []]]; vm_compute; reflexivity.
  - vm_compute. reflexivity.
  - vm_compute. reflexivity.
Defined.

(* ================================================================== *)
(** * Validate and Reset on the segregated lists *)

Lemma land_pow2_eqb bitmap i :
  0 <= i -> (Z.land bitmap (2 ^ i) =? 0) = negb (Z.testbit bitmap i).
Proof.
  intros Hi. destruct (Z.testbit bitmap i) eqn:Ebit; cbn [negb].
  - apply Z.eqb_neq. intros E.
    assert (Hset : Z.testbit (Z.land bitmap (2 ^ i)) i = true)
      by (rewrite Z.land_spec, Ebit, Z.pow2_bits_true; auto).
    rewrite E, Z.bits_0 in Hset. discriminate.
  - apply Z.eqb_eq. apply Z.bits_inj'. intros j Hj.
    rewrite Z.land_spec, Z.bits_0.
    destruct (Z.eq_dec i j) as [<- | Hne].
    + now rewrite Ebit.
    + rewrite Z.pow2_bits_false by assumption. apply andb_false_r.
Qed.

Lemma BIT_in_range i : 0 <= i < 32 -> BIT i = Ok (2 ^ i).
Proof.
  intros Hi. unfold BIT.
  destruct (Z.leb_spec 0 i); [ | lia]. destruct (Z.ltb_spec i 32); [reflexivity | lia].
Qed.

Lemma Seg_Validate_loop_accepts fuel lists h id blocks :
  lists_ok fuel lists h blocks ->
  (forall i b, 0 <= i < 32 -> In b (blocks i) -> FreedBlock.Validate h b id = Ok tt) ->
  forall classes,
    (forall i, In i classes -> 0 <= i < 32) ->
    SegregatedRangeLists.Validate_loop fuel lists h id classes = Ok tt.
Proof.
  intros Hok Hvalid. induction classes as [ | i classes IH]; intros Hrange;
    cbn [SegregatedRangeLists.Validate_loop]; [reflexivity | ].
  assert (Hi : 0 <= i < 32) by (apply Hrange; simpl; auto).
  rewrite (RangeList_Validate_accepts fuel _ h id (blocks i)); try (now apply Hok).
  - cbn [bind]. rewrite BIT_in_range by assumption. cbn [bind].
    rewrite land_pow2_eqb by lia. unfold RangeList.IsEmpty.
    rewrite (ok_blocks _ _ _ _ Hok i Hi).
    pose proof (ok_bit _ _ _ _ Hok i Hi) as Hbit.
    assert (Hagree : Bool.eqb (negb (Z.testbit (SegregatedRangeLists.m_bitmap lists) i))
                       (Z.of_nat (length (blocks i)) =? 0) = true).
    { destruct (blocks i) as [ | b bs].
      - destruct (Z.testbit _ i); [ | reflexivity].
        exfalso. now apply (proj1 Hbit).
      - rewrite (proj2 Hbit) by discriminate. reflexivity. }
    rewrite Hagree. cbn [debug_assert bind]. apply IH.
    intros j Hj. apply Hrange. simpl. auto.
  - intros z Hz. now apply (Hvalid i).
Qed.

(** X10.  [SegregatedRangeLists::Validate] accepts well-formed lists: when
    every class list is a cycle through its sentinel with consistent
    counters, every block passes [FreedBlock::Validate], and the bitmap
    has exactly the bits of the non-empty classes, no assertion fails. *)
Theorem SegregatedRangeLists_Validate_accepts
    (fuel : nat) (lists : SegregatedRangeLists.t) (h : memory) (id : Z)
    (blocks : Z -> list ptr) :
  lists_ok fuel lists h blocks ->
  (forall i b, 0 <= i < 32 -> In b (blocks i) -> FreedBlock.Validate h b id = Ok tt) ->
  SegregatedRangeLists.Validate fuel lists h id = Ok tt.
Proof.
  intros Hok Hvalid. unfold SegregatedRangeLists.Validate.
  apply (Seg_Validate_loop_accepts fuel lists h id blocks Hok Hvalid).
  intros i Hi.
  change SegregatedRangeLists.indices with
    [0; 1; 2; 3; 4; 5; 6; 7; 8; 9; 10; 11; 12; 13; 14; 15; 16; 17; 18; 19; 20; 21; 22;
     23; 24; 25; 26; 27; 28; 29; 30; 31] in Hi.
  cbn [In] in Hi. lia.
Qed.

(** The lists of [Scenario.two_freed]. *)
Lemma SegregatedRangeLists_Validate_accepts_witness :
  let st := Scenario.value Scenario.blank Scenario.two_freed in
  SegregatedRangeLists.Validate Scenario.fuel (Impl.m_segregatedRangeLists st) (Impl.heap st)
    BoundaryTagManager.s_headerId = Ok tt.
Proof.
  cbv zeta.
  apply (SegregatedRangeLists_Validate_accepts Scenario.fuel _ _ _ two_freed_blocks).
  - exact two_freed_lists_ok.
  - intros i b Hi Hin. unfold two_freed_blocks in Hin.
    destruct (i =? 7); [ | contradiction].
    destruct Hin as [<- | [<- | []]]; vm_compute; reflexivity.
Defined.

(* ================================================================== *)
(** * The segregated lists as a whole *)

Definition sentinel (lists : SegregatedRangeLists.t) (i : Z) : ptr :=
  RangeList.m_sentinel (SegregatedRangeLists.m_rangeLists lists i).

(** The records of class [i]: the sentinel of its list and its blocks. *)
Definition records (lists : SegregatedRangeLists.t) (blocks : Z -> list ptr) (i : Z)
  : list ptr :=
  sentinel lists i :: blocks i.

(** The records of all lists are 32-bit addresses of non-overlapping
    [FreedBlock]s, and the counters are 32-bit values. *)
Record records_ok (lists : SegregatedRangeLists.t) (blocks : Z -> list ptr) : Prop := {
  rec_range : forall i, 0 <= i < 32 -> Forall is_size_t (records lists blocks i);
  rec_within : forall i, 0 <= i < 32 -> pairwise_apart (records lists blocks i);
  rec_across : forall i j u v, 0 <= i < 32 -> 0 <= j < 32 -> i <> j ->
    In u (records lists blocks i) -> In v (records lists blocks j) -> apart u v;
  rec_counters : forall i, 0 <= i < 32 ->
    is_size_t (RangeList.m_freeBlocks (SegregatedRangeLists.m_rangeLists lists i))
    /\ is_size_t (RangeList.m_freeBytes (SegregatedRangeLists.m_rangeLists lists i))
}.

Lemma records_sep lists blocks i j u v :
  records_ok lists blocks -> 0 <= i < 32 -> 0 <= j < 32 ->
  In u (records lists blocks i) -> In v (records lists blocks j) -> sep u v.
Proof.
  intros Hrec Hi Hj Hu Hv. destruct (Z.eq_dec i j) as [<- | Hne].
  - apply (pairwise_apart_separated _ (rec_within _ _ Hrec i Hi)); assumption.
  - right. now apply (rec_across _ _ Hrec i j).
Qed.

Lemma pairwise_apart_app l1 l2 :
  pairwise_apart l1 -> pairwise_apart l2 ->
  (forall x y, In x l1 -> In y l2 -> apart x y) ->
  pairwise_apart (l1 ++ l2).
Proof.
  induction l1 as [ | a l1 IH]; simpl; [auto | ].
  intros [Ha H1] H2 H12. split.
  - apply Forall_app. split; [exact Ha | ].
    apply Forall_forall. intros y Hy. apply H12; auto.
  - apply IH; auto.
Qed.

Lemma lor_size_t a b : is_size_t a -> is_size_t b -> is_size_t (Z.lor a b).
Proof.
  intros Ha Hb. unfold is_size_t in *.
  assert (H0 : 0 <= Z.lor a b) by (apply Z.lor_nonneg; lia).
  split; [exact H0 | ].
  apply bits_below; [exact H0 | lia | ].
  intros i Hi. rewrite Z.lor_spec.
  rewrite (size_t_bits_high a i), (size_t_bits_high b i); auto.
Qed.

Lemma pow2_size_t k : 0 <= k < 32 -> is_size_t (2 ^ k).
Proof.
  intros Hk. unfold is_size_t. split; [apply Z.pow_nonneg; lia | ].
  apply Z.pow_lt_mono_r; lia.
Qed.

Lemma total_size_frame h h' bs :
  (forall z, In z bs -> FreedBlock.Size h' z = FreedBlock.Size h z) ->
  total_size h' bs = total_size h bs.
Proof.
  induction bs as [ | b bs IH]; intros H; cbn [total_size]; [reflexivity | ].
  rewrite H by (simpl; auto). rewrite IH; [reflexivity | ].
  intros z Hz. apply H. simpl. auto.
Qed.

Lemma total_size_nonneg h bs : 0 <= total_size h bs.
Proof.
  induction bs as [ | b bs IH]; cbn [total_size]; [lia | ].
  pose proof (load_range h (FreedBlock.m_size_at b)) as Hr.
  unfold FreedBlock.Size, FreedBlock.m_size, is_size_t in *. lia.
Qed.

(** [SegregatedRangeLists::Insert] on well-formed lists: the run, the
    memory it leaves, and the lists afterwards. *)
Lemma Seg_Insert_run
    (fuel : nat) (lists : SegregatedRangeLists.t) (h : memory) (blocks : Z -> list ptr)
    (b : ptr) :
  let c := SegregatedRangeLists.SizeClass (FreedBlock.Size h b) in
  lists_ok fuel lists h blocks ->
  records_ok lists blocks ->
  c < 32 ->
  is_size_t b -> b <> 0 ->
  (forall i u, 0 <= i < 32 -> In u (records lists blocks i) -> apart b u) ->
  (S (length (blocks c)) < fuel)%nat ->
  Z.of_nat (length (blocks c)) + 1 < 2 ^ 32 ->
  total_size h (blocks c) + FreedBlock.Size h b < 2 ^ 32 ->
  exists bs1 bs2 pred succ lists',
    blocks c = bs1 ++ bs2
    /\ In pred (records lists blocks c)
    /\ In succ (records lists blocks c)
    /\ SegregatedRangeLists.Insert fuel lists h b = Ok (lists', link h b pred succ)
    /\ (forall i, sentinel lists' i = sentinel lists i)
    /\ lists_ok fuel lists' (link h b pred succ)
         (fun i => if i =? c then bs1 ++ b :: bs2 else blocks i)
    /\ records_ok lists' (fun i => if i =? c then bs1 ++ b :: bs2 else blocks i)
    /\ FreedBlock.Size (link h b pred succ) b = FreedBlock.Size h b.
Proof.
  intros c Hok Hrec Hc Hb Hb0 Hfresh Hfuel Hlen Hbytes.
  assert (Hc' : 0 <= c < 32) by (split; [apply SizeClass_nonneg | exact Hc]).
  set (l := SegregatedRangeLists.m_rangeLists lists c) in *.
  set (s := RangeList.m_sentinel l) in *.
  assert (Hwithin := rec_within _ _ Hrec c Hc').
  assert (Hrange := rec_range _ _ Hrec c Hc').
  unfold records, sentinel in Hwithin, Hrange. fold l s in Hwithin, Hrange.
  destruct (RangeList_Insert_run fuel l h b (blocks c))
    as (bs1 & bs2 & Ebs & _ & _ & Hrun & Hlist').
  { apply (ok_list _ _ _ _ Hok c Hc'). }
  { cbn [pairwise_apart]. split; [ | exact Hwithin].
    apply Forall_forall. intros u Hu. apply (Hfresh c); [exact Hc' | exact Hu]. }
  { constructor; assumption. }
  { lia. }
  fold s in Hrun, Hlist'.
  set (pred := last bs1 s) in *. set (succ := hd s bs2) in *.
  set (h' := link h b pred succ) in *.
  set (l' := RangeList.mk s (wrap (RangeList.m_freeBlocks l + 1))
               (wrap (RangeList.m_freeBytes l + FreedBlock.Size h b))) in *.
  set (lists' := SegregatedRangeLists.set_bitmap
                   (SegregatedRangeLists.set_rangeList lists c l')
                   (Z.lor (SegregatedRangeLists.m_bitmap lists) (2 ^ c))).
  set (blocks' := fun i => if i =? c then bs1 ++ b :: bs2 else blocks i).
  exists bs1, bs2, pred, succ, lists'. fold h'.
  (* the records next to the new block *)
  assert (Hpred : In pred (records lists blocks c)).
  { unfold records, sentinel. fold l s. rewrite Ebs.
    pose proof (last_In bs1 s) as Hin. fold pred in Hin. in_solve. }
  assert (Hsucc : In succ (records lists blocks c)).
  { unfold records, sentinel. fold l s. rewrite Ebs.
    pose proof (hd_In bs2 s) as Hin. fold succ in Hin. in_solve. }
  assert (Rpred : is_size_t pred).
  { pose proof (rec_range _ _ Hrec c Hc') as H. rewrite Forall_forall in H. auto. }
  assert (Rsucc : is_size_t succ).
  { pose proof (rec_range _ _ Hrec c Hc') as H. rewrite Forall_forall in H. auto. }
  assert (Abp : apart b pred) by (apply (Hfresh c); assumption).
  assert (Abs : apart b succ) by (apply (Hfresh c); assumption).
  assert (Sps : sep pred succ) by (apply (records_sep lists blocks c c); assumption).
  assert (Hsent : forall i, sentinel lists' i = sentinel lists i).
  { intros i. unfold sentinel, lists', SegregatedRangeLists.set_bitmap,
      SegregatedRangeLists.set_rangeList. cbn [SegregatedRangeLists.m_rangeLists].
    destruct (Z.eqb_spec i c) as [-> | Hne]; reflexivity. }
  assert (Hl' : forall i, SegregatedRangeLists.m_rangeLists lists' i
                          = if i =? c then l' else SegregatedRangeLists.m_rangeLists lists i)
    by reflexivity.
  assert (Hsize : forall i z, 0 <= i < 32 -> In z (records lists blocks i) ->
                    FreedBlock.Size h' z = FreedBlock.Size h z).
  { intros i z Hi Hz. apply link_size_other; try assumption.
    - apply (records_sep lists blocks i c); assumption.
    - apply (records_sep lists blocks i c); assumption.
    - apply apart_sym. apply (Hfresh i); assumption. }
  assert (Hsize_b : FreedBlock.Size h' b = FreedBlock.Size h b)
    by (apply link_size_b; assumption).
  assert (Hrecs' : forall i z, 0 <= i < 32 -> In z (records lists' blocks' i) ->
                     b = z \/ In z (records lists blocks i)).
  { intros i z Hi Hz. unfold records in *. rewrite Hsent in Hz. unfold blocks' in Hz.
    destruct (Z.eqb_spec i c) as [-> | Hne]; [ | auto].
    rewrite Ebs. in_solve. }
  assert (Hsizes' : forall i z, 0 <= i < 32 -> In z (records lists' blocks' i) ->
                      FreedBlock.Size h' z = FreedBlock.Size h z).
  { intros i z Hi Hz. destruct (Hrecs' i z Hi Hz) as [<- | Hin]; [exact Hsize_b | ].
    now apply (Hsize i). }
  assert (Hcount := rec_counters _ _ Hrec c Hc'). fold l in Hcount.
  assert (Hblocks := ok_blocks _ _ _ _ Hok c Hc'). fold l in Hblocks.
  assert (Hbytes' := ok_bytes _ _ _ _ Hok c Hc'). fold l in Hbytes'.
  assert (Hsb : 0 <= FreedBlock.Size h b).
  { pose proof (load_range h (FreedBlock.m_size_at b)) as Hr.
    unfold FreedBlock.Size, FreedBlock.m_size, is_size_t in *. lia. }
  assert (Hw1 : wrap (RangeList.m_freeBlocks l + 1) = RangeList.m_freeBlocks l + 1)
    by (apply wrap_small; unfold is_size_t in *; lia).
  assert (Hw2 : wrap (RangeList.m_freeBytes l + FreedBlock.Size h b)
                = RangeList.m_freeBytes l + FreedBlock.Size h b).
  { apply wrap_small. pose proof (total_size_nonneg h (blocks c)).
    unfold is_size_t in *. lia. }
  split; [exact Ebs | ]. split; [exact Hpred | ]. split; [exact Hsucc | ].
  split; [ | split; [exact Hsent | split; [ | split; [ | exact Hsize_b]]]].
  - unfold SegregatedRangeLists.Insert. cbv zeta.
    change (SegregatedRangeLists.SizeClass (FreedBlock.Size h b)) with c.
    rewrite rangeList_in_range by assumption. cbn [bind]. fold l.
    rewrite Hrun. cbn [bind]. rewrite BIT_in_range by assumption. reflexivity.
  - constructor.
    + apply lor_size_t; [apply Hok | now apply pow2_size_t].
    + intros i Hi. change (is_list h' (sentinel lists' i) (blocks' i)).
      rewrite Hsent. unfold blocks'.
      destruct (Z.eqb_spec i c) as [-> | Hne]; [exact Hlist' | ].
      apply seg_frame with (h := h); [ | | apply (ok_list _ _ _ _ Hok i Hi)].
      * intros z Hz. apply link_next_other; try assumption.
        -- apply apart_neq. apply (rec_across _ _ Hrec i c); assumption.
        -- apply (records_sep lists blocks i c); assumption.
        -- apply (records_sep lists blocks i c); assumption.
        -- apply apart_sym. apply (Hfresh i); assumption.
      * intros z Hz.
        assert (Hz' : In z (records lists blocks i)) by (unfold records; in_solve).
        apply link_prev_other; try assumption.
        -- apply apart_neq. apply (rec_across _ _ Hrec i c); assumption.
        -- apply (records_sep lists blocks i c); assumption.
        -- apply (records_sep lists blocks i c); assumption.
        -- apply apart_sym. apply (Hfresh i); assumption.
    + intros i Hi. change (~ In (sentinel lists' i) (blocks' i)).
      rewrite Hsent. unfold blocks'.
      destruct (Z.eqb_spec i c) as [-> | Hne]; [ | apply (ok_sentinel _ _ _ _ Hok i Hi)].
      intros Hin. apply in_app_or in Hin.
      pose proof (ok_sentinel _ _ _ _ Hok c Hc') as Hs. rewrite Ebs in Hs.
      destruct Hin as [Hin | [E | Hin]].
      * apply Hs. apply in_or_app. auto.
      * assert (A : apart b (sentinel lists c))
          by (apply (Hfresh c); [exact Hc' | unfold records; simpl; auto]).
        apply apart_neq in A. congruence.
      * apply Hs. apply in_or_app. auto.
    + intros i Hi. unfold blocks'.
      destruct (Z.eqb_spec i c) as [-> | Hne]; [ | apply (ok_fuel _ _ _ _ Hok i Hi)].
      rewrite Ebs in Hfuel. rewrite length_app in *. cbn [length]. lia.
    + intros i Hi. unfold blocks'.
      destruct (Z.eqb_spec i c) as [-> | Hne]; [ | apply (ok_nonnull _ _ _ _ Hok i Hi)].
      intros Hin. apply in_app_or in Hin.
      pose proof (ok_nonnull _ _ _ _ Hok c Hc') as Hs. rewrite Ebs in Hs.
      destruct Hin as [Hin | [E | Hin]].
      * apply Hs. apply in_or_app. auto.
      * congruence.
      * apply Hs. apply in_or_app. auto.
    + intros i z Hi Hz.
      rewrite (Hsizes' i z Hi) by (unfold records; simpl; auto).
      unfold blocks' in Hz.
      destruct (Z.eqb_spec i c) as [-> | Hne];
        [ | apply (ok_class _ _ _ _ Hok i z Hi Hz)].
      apply in_app_or in Hz. destruct Hz as [Hz | [<- | Hz]].
      * apply (ok_class _ _ _ _ Hok c z Hc'). rewrite Ebs. apply in_or_app. auto.
      * reflexivity.
      * apply (ok_class _ _ _ _ Hok c z Hc'). rewrite Ebs. apply in_or_app. auto.
    + intros i Hi. rewrite Hl'. unfold blocks'.
      destruct (Z.eqb_spec i c) as [-> | Hne]; [ | apply (ok_blocks _ _ _ _ Hok i Hi)].
      cbn [RangeList.m_freeBlocks l']. rewrite Hw1, Hblocks, Ebs.
      rewrite !length_app. cbn [length]. lia.
    + intros i Hi. rewrite Hl'.
      rewrite (total_size_frame h h').
      * unfold blocks'.
        destruct (Z.eqb_spec i c) as [-> | Hne]; [ | apply (ok_bytes _ _ _ _ Hok i Hi)].
        cbn [RangeList.m_freeBytes l']. rewrite Hw2, Hbytes', Ebs.
        rewrite !total_size_app. cbn [total_size]. lia.
      * intros z Hz. apply (Hsizes' i z Hi). unfold records. simpl. auto.
    + intros i Hi. unfold lists', SegregatedRangeLists.set_bitmap.
      cbn [SegregatedRangeLists.m_bitmap]. rewrite Z.lor_spec.
      rewrite Z.pow2_bits_eqb by lia. unfold blocks'. rewrite (Z.eqb_sym c i).
      destruct (Z.eqb_spec i c) as [-> | Hne].
      * rewrite orb_true_r. split; [intros _ | reflexivity].
        destruct bs1; discriminate.
      * rewrite orb_false_r. apply (ok_bit _ _ _ _ Hok i Hi).
  - constructor.
    + intros i Hi. apply Forall_forall. intros z Hz.
      destruct (Hrecs' i z Hi Hz) as [<- | Hin]; [exact Hb | ].
      pose proof (rec_range _ _ Hrec i Hi) as H. rewrite Forall_forall in H. auto.
    + intros i Hi. unfold records. rewrite Hsent. unfold blocks'.
      destruct (Z.eqb_spec i c) as [-> | Hne]; [ | apply (rec_within _ _ Hrec i Hi)].
      fold (sentinel lists c) in Hwithin. change s with (sentinel lists c) in Hwithin.
      rewrite Ebs in Hwithin.
      change (pairwise_apart ((sentinel lists c :: bs1) ++ b :: bs2)).
      change (pairwise_apart ((sentinel lists c :: bs1) ++ bs2)) in Hwithin.
      apply pairwise_apart_app_inv in Hwithin. destruct Hwithin as (H1 & H2 & H12).
      assert (Hfb : forall u, In u (records lists blocks c) -> apart b u)
        by (intros u Hu; now apply (Hfresh c)).
      unfold records in Hfb. rewrite Ebs in Hfb.
      apply pairwise_apart_app.
      * exact H1.
      * cbn [pairwise_apart]. split; [ | exact H2].
        apply Forall_forall. intros u Hu. apply Hfb. in_solve.
      * intros x y Hx [<- | Hy]; [ | now apply H12].
        apply apart_sym. apply Hfb. in_solve.
    + intros i j u v Hi Hj Hne Hu Hv.
      destruct (Hrecs' i u Hi Hu) as [<- | Hu'];
        destruct (Hrecs' j v Hj Hv) as [<- | Hv'].
      * exfalso.
        assert (Ei : i = c).
        { unfold records, blocks' in Hu. rewrite Hsent in Hu.
          destruct (Z.eqb_spec i c) as [E | E]; [exact E | exfalso].
          apply (apart_neq b b); [ | reflexivity]. now apply (Hfresh i). }
        assert (Ej : j = c).
        { unfold records, blocks' in Hv. rewrite Hsent in Hv.
          destruct (Z.eqb_spec j c) as [E | E]; [exact E | exfalso].
          apply (apart_neq b b); [ | reflexivity]. now apply (Hfresh j). }
        congruence.
      * now apply (Hfresh j).
      * apply apart_sym. now apply (Hfresh i).
      * now apply (rec_across _ _ Hrec i j).
    + intros i Hi. rewrite Hl'.
      destruct (Z.eqb_spec i c) as [-> | Hne]; [ | apply (rec_counters _ _ Hrec i Hi)].
      cbn [RangeList.m_freeBlocks RangeList.m_freeBytes l']. split; apply wrap_range.
Qed.

(** X11.  [SegregatedRangeLists::Insert] keeps the lists well formed.  On
    well-formed lists of non-overlapping records, inserting a block whose
    size is of a class below 32, that overlaps no record of the lists, and
    that does not overflow the counters of its class, returns; the block
    has joined the list of [SizeClass(size)], all other lists have the
    blocks they had, and counters and bitmap agree with the lists again. *)
Theorem SegregatedRangeLists_Insert_keeps_lists
    (fuel : nat) (lists : SegregatedRangeLists.t) (h : memory) (blocks : Z -> list ptr)
    (b : ptr) :
  let c := SegregatedRangeLists.SizeClass (FreedBlock.Size h b) in
  lists_ok fuel lists h blocks ->
  records_ok lists blocks ->
  c < 32 ->
  is_size_t b -> b <> 0 ->
  (forall i u, 0 <= i < 32 -> In u (records lists blocks i) -> apart b u) ->
  (S (length (blocks c)) < fuel)%nat ->
  Z.of_nat (length (blocks c)) + 1 < 2 ^ 32 ->
  total_size h (blocks c) + FreedBlock.Size h b < 2 ^ 32 ->
  exists bs1 bs2 lists' h',
    blocks c = bs1 ++ bs2
    /\ SegregatedRangeLists.Insert fuel lists h b = Ok (lists', h')
    /\ lists_ok fuel lists' h' (fun i => if i =? c then bs1 ++ b :: bs2 else blocks i)
    /\ records_ok lists' (fun i => if i =? c then bs1 ++ b :: bs2 else blocks i)
    /\ FreedBlock.Size h' b = FreedBlock.Size h b.
Proof.
  intros c Hok Hrec Hc Hb Hb0 Hfresh Hfuel Hlen Hbytes.
  destruct (Seg_Insert_run fuel lists h blocks b Hok Hrec Hc Hb Hb0 Hfresh Hfuel Hlen Hbytes)
    as (bs1 & bs2 & pred & succ & lists' & Ebs & _ & _ & Hrun & _ & Hok' & Hrec' & Hsz).
  exists bs1, bs2, lists', (link h b pred succ).
  split; [exact Ebs | split; [exact Hrun | split; [exact Hok' | split; [exact Hrec' | ]]]].
  exact Hsz.
Qed.

(** ** A checker for [records_ok] *)

Definition apart_b (x y : ptr) : bool :=
  (x + sizeof_FreedBlock <=? y) || (y + sizeof_FreedBlock <=? x).

Fixpoint pairwise_apart_b (l : list ptr) : bool :=
  match l with
  | [] => true
  | x :: l' => forallb (apart_b x) l' && pairwise_apart_b l'
  end.

Definition size_t_b (x : Z) : bool := (0 <=? x) && (x <? 2 ^ 32).

Definition class_records_b (lists : SegregatedRangeLists.t) (blocks : Z -> list ptr)
    (i : Z) : bool :=
  let l := SegregatedRangeLists.m_rangeLists lists i in
  forallb size_t_b (records lists blocks i)
  && pairwise_apart_b (records lists blocks i)
  && size_t_b (RangeList.m_freeBlocks l)
  && size_t_b (RangeList.m_freeBytes l)
  && forallb (fun j => (i =? j)
                       || forallb (fun u => forallb (apart_b u) (records lists blocks j))
                            (records lists blocks i))
       SegregatedRangeLists.indices.

Definition records_ok_b (lists : SegregatedRangeLists.t) (blocks : Z -> list ptr) : bool :=
  forallb (class_records_b lists blocks) SegregatedRangeLists.indices.

(** The block [b] overlaps no record of the lists. *)
Definition fresh_b (lists : SegregatedRangeLists.t) (blocks : Z -> list ptr) (b : ptr)
  : bool :=
  forallb (fun i => forallb (apart_b b) (records lists blocks i))
    SegregatedRangeLists.indices.

Lemma apart_b_sound x y : apart_b x y = true -> apart x y.
Proof. unfold apart_b, apart. intros H. apply orb_true_iff in H. lia. Qed.

Lemma size_t_b_sound x : size_t_b x = true -> is_size_t x.
Proof. unfold size_t_b, is_size_t. intros H. apply andb_true_iff in H. lia. Qed.

Lemma pairwise_apart_b_sound l : pairwise_apart_b l = true -> pairwise_apart l.
Proof.
  induction l as [ | x l IH]; cbn [pairwise_apart_b pairwise_apart]; [auto | ].
  intros H. apply andb_true_iff in H. destruct H as [H1 H2]. split; [ | auto].
  apply Forall_forall. intros y Hy. rewrite forallb_forall in H1.
  apply apart_b_sound. auto.
Qed.

Lemma records_ok_b_sound lists blocks :
  records_ok_b lists blocks = true -> records_ok lists blocks.
Proof.
  unfold records_ok_b. intros Hall.
  assert (Hclass : forall i, 0 <= i < 32 -> class_records_b lists blocks i = true).
  { intros i Hi. rewrite forallb_forall in Hall. apply Hall. now apply class_cases. }
  clear Hall.
  assert (Hparts : forall i, 0 <= i < 32 ->
    forallb size_t_b (records lists blocks i) = true
    /\ pairwise_apart_b (records lists blocks i) = true
    /\ size_t_b (RangeList.m_freeBlocks (SegregatedRangeLists.m_rangeLists lists i)) = true
    /\ size_t_b (RangeList.m_freeBytes (SegregatedRangeLists.m_rangeLists lists i)) = true
    /\ forallb (fun j => (i =? j)
                       || forallb (fun u => forallb (apart_b u) (records lists blocks j))
                            (records lists blocks i))
         SegregatedRangeLists.indices = true).
  { intros i Hi. specialize (Hclass i Hi). unfold class_records_b in Hclass.
    cbv zeta in Hclass.
    do 4 (apply andb_true_iff in Hclass; destruct Hclass as [Hclass ?]).
    repeat split; assumption. }
  constructor.
  - intros i Hi. destruct (Hparts i Hi) as (H & _).
    apply Forall_forall. intros z Hz. rewrite forallb_forall in H.
    apply size_t_b_sound. auto.
  - intros i Hi. apply pairwise_apart_b_sound. apply (Hparts i Hi).
  - intros i j u v Hi Hj Hne Hu Hv. destruct (Hparts i Hi) as (_ & _ & _ & _ & H).
    rewrite forallb_forall in H. specialize (H j (class_cases j Hj)).
    apply orb_true_iff in H. destruct H as [H | H]; [apply Z.eqb_eq in H; lia | ].
    rewrite forallb_forall in H. specialize (H u Hu).
    rewrite forallb_forall in H. apply apart_b_sound. auto.
  - intros i Hi. destruct (Hparts i Hi) as (_ & _ & H1 & H2 & _).
    split; now apply size_t_b_sound.
Qed.

Lemma fresh_b_sound lists blocks b :
  fresh_b lists blocks b = true ->
  forall i u, 0 <= i < 32 -> In u (records lists blocks i) -> apart b u.
Proof.
  unfold fresh_b. intros H i u Hi Hu. rewrite forallb_forall in H.
  specialize (H i (class_cases i Hi)). rewrite forallb_forall in H.
  apply apart_b_sound. auto.
Qed.

(** In [Scenario.two_freed], the live block at [pool_at + 128] is turned
    into a [FreedBlock] of 128 bytes and inserted between the two free
    blocks of class 7. *)
Lemma SegregatedRangeLists_Insert_keeps_lists_witness :
  let st := Scenario.value Scenario.blank Scenario.two_freed in
  let lists := Impl.m_segregatedRangeLists st in
  let b := Scenario.pool_at + 128 in
  let h := FreedBlock.construct (Impl.heap st) b BoundaryTagManager.s_headerId 128 in
  let c := SegregatedRangeLists.SizeClass (FreedBlock.Size h b) in
  exists bs1 bs2 lists' h',
    two_freed_blocks c = bs1 ++ bs2
    /\ SegregatedRangeLists.Insert Scenario.fuel lists h b = Ok (lists', h')
    /\ lists_ok Scenario.fuel lists' h'
         (fun i => if i =? c then bs1 ++ b :: bs2 else two_freed_blocks i)
    /\ records_ok lists' (fun i => if i =? c then bs1 ++ b :: bs2 else two_freed_blocks i)
    /\ FreedBlock.Size h' b = FreedBlock.Size h b.
Proof.
  cbv zeta.
  set (st := Scenario.value Scenario.blank Scenario.two_freed).
  set (lists := Impl.m_segregatedRangeLists st).
  set (b := Scenario.pool_at + 128).
  set (h := FreedBlock.construct (Impl.heap st) b BoundaryTagManager.s_headerId 128).
  assert (Hok : lists_ok Scenario.fuel lists h two_freed_blocks)
    by (apply lists_ok_b_sound; vm_compute; reflexivity).
  assert (Hrec : records_ok lists two_freed_blocks)
    by (apply records_ok_b_sound; vm_compute; reflexivity).
  assert (Hc : SegregatedRangeLists.SizeClass (FreedBlock.Size h b) < 32)
    by (vm_compute; reflexivity).
  assert (Hb : is_size_t b) by size_t_eval.
  assert (Hb0 : b <> 0) by (vm_compute; discriminate).
  assert (Hfresh : forall i u, 0 <= i < 32 -> In u (records lists two_freed_blocks i) ->
                     apart b u)
    by (apply fresh_b_sound; vm_compute; reflexivity).
  assert (Hfuel : (S (length (two_freed_blocks
                     (SegregatedRangeLists.SizeClass (FreedBlock.Size h b))))
                   < Scenario.fuel)%nat)
    by (apply Nat.ltb_lt; vm_compute; reflexivity).
  assert (Hlen : Z.of_nat (length (two_freed_blocks
                     (SegregatedRangeLists.SizeClass (FreedBlock.Size h b)))) + 1 < 2 ^ 32)
    by (apply Z.ltb_lt; vm_compute; reflexivity).
  assert (Hbytes : total_size h (two_freed_blocks
                     (SegregatedRangeLists.SizeClass (FreedBlock.Size h b)))
                   + FreedBlock.Size h b < 2 ^ 32)
    by (apply Z.ltb_lt; vm_compute; reflexivity).
  exact (SegregatedRangeLists_Insert_keeps_lists Scenario.fuel lists h two_freed_blocks b
           Hok Hrec Hc Hb Hb0 Hfresh Hfuel Hlen Hbytes).
Defined.

Lemma pairwise_apart_remove l1 l2 (b : ptr) :
  pairwise_apart (l1 ++ b :: l2) -> pairwise_apart (l1 ++ l2).
Proof.
  intros H. apply pairwise_apart_app_inv in H. destruct H as (H1 & H2 & H12).
  cbn [pairwise_apart] in H2. apply pairwise_apart_app; try tauto.
  intros x y Hx Hy. apply H12; simpl; auto.
Qed.

(** [SegregatedRangeLists::Remove] on well-formed lists: the run, the
    memory it leaves, and the lists afterwards. *)
Lemma Seg_Remove_run
    (fuel : nat) (lists : SegregatedRangeLists.t) (h : memory) (blocks : Z -> list ptr)
    (c : Z) (b : ptr) :
  lists_ok fuel lists h blocks ->
  records_ok lists blocks ->
  0 <= c < 32 -> In b (blocks c) ->
  exists bs1 bs2 pred succ lists',
    blocks c = bs1 ++ b :: bs2
    /\ In pred (records lists blocks c)
    /\ In succ (records lists blocks c)
    /\ SegregatedRangeLists.Remove lists h b = Ok (lists', unlink h pred succ)
    /\ (forall i, sentinel lists' i = sentinel lists i)
    /\ lists_ok fuel lists' (unlink h pred succ)
         (fun i => if i =? c then bs1 ++ bs2 else blocks i)
    /\ records_ok lists' (fun i => if i =? c then bs1 ++ bs2 else blocks i)
    /\ FreedBlock.Size (unlink h pred succ) b = FreedBlock.Size h b
    /\ pred <> b /\ succ <> b.
Proof.
  intros Hok Hrec Hc' Hin.
  assert (Eclass : SegregatedRangeLists.SizeClass (FreedBlock.Size h b) = c)
    by (apply (ok_class _ _ _ _ Hok c b Hc' Hin)).
  destruct (in_split _ _ Hin) as (bs1 & bs2 & Ebs).
  set (l := SegregatedRangeLists.m_rangeLists lists c) in *.
  set (s := RangeList.m_sentinel l) in *.
  assert (Hwithin := rec_within _ _ Hrec c Hc').
  assert (Hrange := rec_range _ _ Hrec c Hc').
  unfold records, sentinel in Hwithin, Hrange. fold l s in Hwithin, Hrange.
  assert (Hcount := rec_counters _ _ Hrec c Hc'). fold l in Hcount.
  assert (Hblocks := ok_blocks _ _ _ _ Hok c Hc'). fold l in Hblocks.
  assert (Hbytes := ok_bytes _ _ _ _ Hok c Hc'). fold l in Hbytes.
  assert (Hlist := ok_list _ _ _ _ Hok c Hc'). fold l s in Hlist.
  rewrite Ebs in Hwithin, Hrange, Hblocks, Hbytes, Hlist.
  assert (Hsb : 0 <= FreedBlock.Size h b).
  { pose proof (load_range h (FreedBlock.m_size_at b)) as Hr.
    unfold FreedBlock.Size, FreedBlock.m_size, is_size_t in *. lia. }
  assert (Hlen : RangeList.m_freeBlocks l = Z.of_nat (length (bs1 ++ bs2)) + 1).
  { rewrite Hblocks, !length_app. cbn [length]. lia. }
  assert (Htotal : RangeList.m_freeBytes l
                   = total_size h (bs1 ++ bs2) + FreedBlock.Size h b).
  { rewrite Hbytes, !total_size_app. cbn [total_size]. lia. }
  pose proof (total_size_nonneg h (bs1 ++ bs2)) as Hnonneg.
  destruct (RangeList_Remove_run l h b bs1 bs2) as (Hrun & Hlist'); try assumption.
  { lia. }
  { lia. }
  fold s in Hrun, Hlist'.
  set (pred := last bs1 s) in *. set (succ := hd s bs2) in *.
  set (h' := unlink h pred succ) in *.
  set (l' := RangeList.mk s (wrap (RangeList.m_freeBlocks l - 1))
               (wrap (RangeList.m_freeBytes l - FreedBlock.Size h b))) in *.
  set (bitmap' := if RangeList.IsEmpty l'
                  then Z.land (SegregatedRangeLists.m_bitmap lists) (not32 (2 ^ c))
                  else SegregatedRangeLists.m_bitmap lists).
  set (lists' := SegregatedRangeLists.set_bitmap
                   (SegregatedRangeLists.set_rangeList lists c l') bitmap').
  set (blocks' := fun i => if i =? c then bs1 ++ bs2 else blocks i).
  exists bs1, bs2, pred, succ, lists'. fold h'.
  assert (Hpred : In pred (records lists blocks c)).
  { unfold records, sentinel. fold l s. rewrite Ebs.
    pose proof (last_In bs1 s) as Hp. fold pred in Hp. in_solve. }
  assert (Hsucc : In succ (records lists blocks c)).
  { unfold records, sentinel. fold l s. rewrite Ebs.
    pose proof (hd_In bs2 s) as Hp. fold succ in Hp. in_solve. }
  assert (Rpred : is_size_t pred).
  { pose proof (rec_range _ _ Hrec c Hc') as H. rewrite Forall_forall in H. auto. }
  assert (Rsucc : is_size_t succ).
  { pose proof (rec_range _ _ Hrec c Hc') as H. rewrite Forall_forall in H. auto. }
  assert (Sps : sep pred succ) by (apply (records_sep lists blocks c c); assumption).
  assert (Hsent : forall i, sentinel lists' i = sentinel lists i).
  { intros i. unfold sentinel, lists', SegregatedRangeLists.set_bitmap,
      SegregatedRangeLists.set_rangeList. cbn [SegregatedRangeLists.m_rangeLists].
    destruct (Z.eqb_spec i c) as [-> | Hne]; reflexivity. }
  assert (Hl' : forall i, SegregatedRangeLists.m_rangeLists lists' i
                          = if i =? c then l' else SegregatedRangeLists.m_rangeLists lists i)
    by reflexivity.
  assert (Hsize : forall i z, 0 <= i < 32 -> In z (records lists blocks i) ->
                    FreedBlock.Size h' z = FreedBlock.Size h z).
  { intros i z Hi Hz. apply unlink_size; try assumption.
    - apply (records_sep lists blocks i c); assumption.
    - apply (records_sep lists blocks i c); assumption. }
  assert (Hrecs' : forall i z, 0 <= i < 32 -> In z (records lists' blocks' i) ->
                     In z (records lists blocks i)).
  { intros i z Hi Hz. unfold records in *. rewrite Hsent in Hz. unfold blocks' in Hz.
    destruct (Z.eqb_spec i c) as [-> | Hne]; [ | auto].
    rewrite Ebs. in_solve. }
  assert (Hw1 : wrap (RangeList.m_freeBlocks l - 1) = Z.of_nat (length (bs1 ++ bs2)))
    by (rewrite wrap_small; unfold is_size_t in *; lia).
  assert (Hw2 : wrap (RangeList.m_freeBytes l - FreedBlock.Size h b)
                = total_size h (bs1 ++ bs2))
    by (rewrite wrap_small; unfold is_size_t in *; lia).
  assert (Hempty : RangeList.IsEmpty l' = match bs1 ++ bs2 with [] => true | _ => false end).
  { unfold RangeList.IsEmpty. cbn [RangeList.m_freeBlocks l']. rewrite Hw1.
    destruct (bs1 ++ bs2); [reflexivity | ]. cbn [length]. apply Z.eqb_neq. lia. }
  assert (Hpb : pred <> b /\ succ <> b).
  { change (pairwise_apart ((s :: bs1) ++ b :: bs2)) in Hwithin.
    apply pairwise_apart_app_inv in Hwithin. destruct Hwithin as (_ & H2 & H12).
    cbn [pairwise_apart] in H2. destruct H2 as [H2 _]. rewrite Forall_forall in H2.
    split.
    - apply apart_neq. apply H12; [apply last_In | simpl; auto].
    - pose proof (hd_In bs2 s) as Hhd. fold succ in Hhd. apply in_app_or in Hhd.
      destruct Hhd as [Hhd | [Hhd | []]].
      + intros E. apply H2 in Hhd. apply apart_neq in Hhd. congruence.
      + rewrite <- Hhd. apply apart_neq. apply H12; simpl; auto. }
  split; [exact Ebs | ]. split; [exact Hpred | ]. split; [exact Hsucc | ].
  split; [ | split; [exact Hsent | split; [ | split; [ | split; [ | exact Hpb]]]]].
  - unfold SegregatedRangeLists.Remove. cbv zeta. rewrite Eclass.
    rewrite rangeList_in_range by assumption. cbn [bind]. fold l.
    rewrite Hrun. cbn [bind]. fold l'. unfold lists', bitmap'.
    destruct (RangeList.IsEmpty l'); [ | reflexivity].
    rewrite BIT_in_range by assumption. reflexivity.
  - constructor.
    + unfold lists', SegregatedRangeLists.set_bitmap. cbn [SegregatedRangeLists.m_bitmap].
      unfold bitmap'. destruct (RangeList.IsEmpty l'); [ | apply Hok].
      apply land_size_t. apply Hok.
    + intros i Hi. change (is_list h' (sentinel lists' i) (blocks' i)).
      rewrite Hsent. unfold blocks'.
      destruct (Z.eqb_spec i c) as [-> | Hne]; [exact Hlist' | ].
      apply seg_frame with (h := h); [ | | apply (ok_list _ _ _ _ Hok i Hi)].
      * intros z Hz. apply unlink_next_other; try assumption.
        -- apply apart_neq. apply (rec_across _ _ Hrec i c); assumption.
        -- apply (records_sep lists blocks i c); assumption.
        -- apply (records_sep lists blocks i c); assumption.
      * intros z Hz.
        assert (Hz' : In z (records lists blocks i)) by (unfold records; in_solve).
        apply unlink_prev_other; try assumption.
        -- apply apart_neq. apply (rec_across _ _ Hrec i c); assumption.
        -- apply (records_sep lists blocks i c); assumption.
        -- apply (records_sep lists blocks i c); assumption.
    + intros i Hi. change (~ In (sentinel lists' i) (blocks' i)).
      rewrite Hsent. unfold blocks'.
      destruct (Z.eqb_spec i c) as [-> | Hne]; [ | apply (ok_sentinel _ _ _ _ Hok i Hi)].
      intros Hs. apply (ok_sentinel _ _ _ _ Hok c Hc'). rewrite Ebs.
      apply in_app_or in Hs. apply in_or_app. simpl. tauto.
    + intros i Hi. unfold blocks'.
      destruct (Z.eqb_spec i c) as [-> | Hne]; [ | apply (ok_fuel _ _ _ _ Hok i Hi)].
      pose proof (ok_fuel _ _ _ _ Hok c Hc') as Hf. rewrite Ebs in Hf.
      rewrite length_app in *. cbn [length] in Hf. lia.
    + intros i Hi. unfold blocks'.
      destruct (Z.eqb_spec i c) as [-> | Hne]; [ | apply (ok_nonnull _ _ _ _ Hok i Hi)].
      intros Hs. apply (ok_nonnull _ _ _ _ Hok c Hc'). rewrite Ebs.
      apply in_app_or in Hs. apply in_or_app. simpl. tauto.
    + intros i z Hi Hz.
      assert (Hz' : In z (blocks i)).
      { unfold blocks' in Hz. destruct (Z.eqb_spec i c) as [-> | Hne]; [ | exact Hz].
        rewrite Ebs. apply in_app_or in Hz. apply in_or_app. simpl. tauto. }
      rewrite (Hsize i z Hi) by (unfold records; simpl; auto).
      apply (ok_class _ _ _ _ Hok i z Hi Hz').
    + intros i Hi. rewrite Hl'. unfold blocks'.
      destruct (Z.eqb_spec i c) as [-> | Hne]; [ | apply (ok_blocks _ _ _ _ Hok i Hi)].
      cbn [RangeList.m_freeBlocks l']. exact Hw1.
    + intros i Hi. rewrite Hl'.
      rewrite (total_size_frame h h').
      * unfold blocks'.
        destruct (Z.eqb_spec i c) as [-> | Hne]; [ | apply (ok_bytes _ _ _ _ Hok i Hi)].
        cbn [RangeList.m_freeBytes l']. exact Hw2.
      * intros z Hz. apply (Hsize i z Hi). apply (Hrecs' i z Hi).
        unfold records. simpl. auto.
    + intros i Hi. unfold lists', SegregatedRangeLists.set_bitmap.
      cbn [SegregatedRangeLists.m_bitmap]. unfold bitmap', blocks'. rewrite Hempty.
      pose proof (ok_bit _ _ _ _ Hok i Hi) as Hbit.
      destruct (bs1 ++ bs2) as [ | x rest] eqn:Erest.
      * destruct (clear_bit_spec (SegregatedRangeLists.m_bitmap lists) c) as [_ Hclear];
          [apply Hok | assumption | ].
        rewrite Hclear by lia.
        destruct (Z.eqb_spec i c) as [-> | Hne].
        -- rewrite andb_false_r. split; [discriminate | congruence].
        -- rewrite andb_true_r. exact Hbit.
      * destruct (Z.eqb_spec i c) as [-> | Hne]; [ | exact Hbit].
        split; [discriminate | intros _]. apply Hbit. rewrite Ebs.
        destruct bs1; discriminate.
  - constructor.
    + intros i Hi. apply Forall_forall. intros z Hz.
      pose proof (rec_range _ _ Hrec i Hi) as H. rewrite Forall_forall in H. auto.
    + intros i Hi. unfold records. rewrite Hsent. unfold blocks'.
      destruct (Z.eqb_spec i c) as [-> | Hne]; [ | apply (rec_within _ _ Hrec i Hi)].
      change (pairwise_apart ((sentinel lists c :: bs1) ++ bs2)).
      apply (pairwise_apart_remove _ _ b). exact Hwithin.
    + intros i j u v Hi Hj Hne Hu Hv.
      apply (rec_across _ _ Hrec i j); auto.
    + intros i Hi. rewrite Hl'.
      destruct (Z.eqb_spec i c) as [-> | Hne]; [ | apply (rec_counters _ _ Hrec i Hi)].
      cbn [RangeList.m_freeBlocks RangeList.m_freeBytes l']. split; apply wrap_range.
  - apply unlink_size; try assumption.
    + apply (records_sep lists blocks c c); try assumption.
      unfold records. simpl. auto.
    + apply (records_sep lists blocks c c); try assumption.
      unfold records. simpl. auto.
Qed.

(** X12.  [SegregatedRangeLists::Remove] keeps the lists well formed.  On
    well-formed lists of non-overlapping records, removing a block that is
    in one of the lists returns; the block has left the list of its class,
    all other lists have the blocks they had, counters and bitmap agree
    with the lists again (the bit of the class is cleared exactly when its
    list became empty), and the size field of the block is as it was. *)
Theorem SegregatedRangeLists_Remove_keeps_lists
    (fuel : nat) (lists : SegregatedRangeLists.t) (h : memory) (blocks : Z -> list ptr)
    (c : Z) (b : ptr) :
  lists_ok fuel lists h blocks ->
  records_ok lists blocks ->
  0 <= c < 32 -> In b (blocks c) ->
  exists bs1 bs2 lists' h',
    blocks c = bs1 ++ b :: bs2
    /\ SegregatedRangeLists.Remove lists h b = Ok (lists', h')
    /\ lists_ok fuel lists' h' (fun i => if i =? c then bs1 ++ bs2 else blocks i)
    /\ records_ok lists' (fun i => if i =? c then bs1 ++ bs2 else blocks i)
    /\ FreedBlock.Size h' b = FreedBlock.Size h b.
Proof.
  intros Hok Hrec Hc Hin.
  destruct (Seg_Remove_run fuel lists h blocks c b Hok Hrec Hc Hin)
    as (bs1 & bs2 & pred & succ & lists' & Ebs & _ & _ & Hrun & _ & Hok' & Hrec' & Hsz & _).
  exists bs1, bs2, lists', (unlink h pred succ).
  split; [exact Ebs | split; [exact Hrun | split; [exact Hok' | split; [exact Hrec' | ]]]].
  exact Hsz.
Qed.

(** The second free block of [Scenario.two_freed] is removed from the
    list of class 7, which keeps the first. *)
Lemma SegregatedRangeLists_Remove_keeps_lists_witness :
  let st := Scenario.value Scenario.blank Scenario.two_freed in
  let lists := Impl.m_segregatedRangeLists st in
  let b := Scenario.pool_at + 256 in
  exists bs1 bs2 lists' h',
    two_freed_blocks 7 = bs1 ++ b :: bs2
    /\ SegregatedRangeLists.Remove lists (Impl.heap st) b = Ok (lists', h')
    /\ lists_ok Scenario.fuel lists' h'
         (fun i => if i =? 7 then bs1 ++ bs2 else two_freed_blocks i)
    /\ records_ok lists' (fun i => if i =? 7 then bs1 ++ bs2 else two_freed_blocks i)
    /\ FreedBlock.Size h' b = FreedBlock.Size (Impl.heap st) b.
Proof.
  cbv zeta.
  set (st := Scenario.value Scenario.blank Scenario.two_freed).
  set (lists := Impl.m_segregatedRangeLists st).
  set (b := Scenario.pool_at + 256).
  assert (Hok : lists_ok Scenario.fuel lists (Impl.heap st) two_freed_blocks)
    by (apply lists_ok_b_sound; vm_compute; reflexivity).
  assert (Hrec : records_ok lists two_freed_blocks)
    by (apply records_ok_b_sound; vm_compute; reflexivity).
  assert (Hc : 0 <= 7 < 32) by lia.
  assert (Hin : In b (two_freed_blocks 7)) by (right; left; reflexivity).
  exact (SegregatedRangeLists_Remove_keeps_lists Scenario.fuel lists (Impl.heap st)
           two_freed_blocks 7 b Hok Hrec Hc Hin).
Defined.

(* ================================================================== *)
(** * SegregatedRangeLists::Reset and the totals *)

(** One iteration of the loop of [Reset]. *)
Definition Reset_step (acc : SegregatedRangeLists.t * memory) (i : Z)
  : SegregatedRangeLists.t * memory :=
  let '(l, h) := RangeList.Reset (SegregatedRangeLists.m_rangeLists (fst acc) i) (snd acc) in
  (SegregatedRangeLists.set_rangeList (fst acc) i l, h).

(** The list of class [i] is empty: counters zero, sentinel linked to itself. *)
Definition emptied (lists0 : SegregatedRangeLists.t)
    (acc : SegregatedRangeLists.t * memory) (i : Z) : Prop :=
  SegregatedRangeLists.m_rangeLists (fst acc) i = RangeList.mk (sentinel lists0 i) 0 0
  /\ FreedBlock.next (snd acc) (sentinel lists0 i) = sentinel lists0 i
  /\ FreedBlock.prev (snd acc) (sentinel lists0 i) = sentinel lists0 i.

Lemma Reset_step_spec lists0 acc i :
  (forall j, sentinel (fst acc) j = sentinel lists0 j) ->
  is_size_t (sentinel lists0 i) ->
  (forall j, sentinel (fst (Reset_step acc i)) j = sentinel lists0 j)
  /\ SegregatedRangeLists.m_bitmap (fst (Reset_step acc i))
     = SegregatedRangeLists.m_bitmap (fst acc)
  /\ emptied lists0 (Reset_step acc i) i
  /\ (forall j, j <> i -> apart (sentinel lists0 i) (sentinel lists0 j) ->
        emptied lists0 acc j -> emptied lists0 (Reset_step acc i) j).
Proof.
  intros Hsent Hrange.
  unfold Reset_step, RangeList.Reset, emptied, SegregatedRangeLists.set_rangeList.
  cbn [fst snd SegregatedRangeLists.m_rangeLists SegregatedRangeLists.m_bitmap].
  change (RangeList.m_sentinel (SegregatedRangeLists.m_rangeLists (fst acc) i))
    with (sentinel (fst acc) i).
  rewrite (Hsent i). set (s := sentinel lists0 i) in *.
  split; [ | split; [reflexivity | split]].
  - intros j. unfold sentinel. cbn [SegregatedRangeLists.m_rangeLists].
    destruct (Z.eqb_spec j i) as [-> | Hne]; [reflexivity | apply Hsent].
  - split; [now rewrite Z.eqb_refl | split].
    + unfold_fields. rewrite load_store_same. now apply wrap_small.
    + unfold_fields. rewrite load_store_other by lia. rewrite load_store_same.
      now apply wrap_small.
  - intros j Hne Hap (H1 & H2 & H3). split; [ | split].
    + destruct (Z.eqb_spec j i); [contradiction | exact H1].
    + transitivity (FreedBlock.next (snd acc) (sentinel lists0 j)); [ | exact H2].
      unfold_fields. now do 2 rewrite load_store_other by sep_lia.
    + transitivity (FreedBlock.prev (snd acc) (sentinel lists0 j)); [ | exact H3].
      unfold_fields. now do 2 rewrite load_store_other by sep_lia.
Qed.

Lemma Reset_fold lists0 : forall classes acc done,
  (forall j, sentinel (fst acc) j = sentinel lists0 j) ->
  (forall i, In i (done ++ classes) -> is_size_t (sentinel lists0 i)) ->
  (forall i j, In i (done ++ classes) -> In j (done ++ classes) -> i <> j ->
     apart (sentinel lists0 i) (sentinel lists0 j)) ->
  (forall i, In i done -> emptied lists0 acc i) ->
  let acc' := fold_left Reset_step classes acc in
  (forall j, sentinel (fst acc') j = sentinel lists0 j)
  /\ SegregatedRangeLists.m_bitmap (fst acc') = SegregatedRangeLists.m_bitmap (fst acc)
  /\ (forall i, In i (done ++ classes) -> emptied lists0 acc' i).
Proof.
  induction classes as [ | c classes IH]; intros acc done Hsent Hrange Hapart Hdone.
  - cbn [fold_left]. rewrite app_nil_r in *. auto.
  - cbn [fold_left].
    destruct (Reset_step_spec lists0 acc c Hsent) as (Hsent' & Hbitmap & Hc & Hframe).
    { apply Hrange. apply in_or_app. simpl. auto. }
    assert (Eapp : done ++ c :: classes = (done ++ [c]) ++ classes)
      by (rewrite <- app_assoc; reflexivity).
    rewrite Eapp in *.
    destruct (IH (Reset_step acc c) (done ++ [c])) as (H1 & H2 & H3); try assumption.
    + intros i Hi. apply in_app_or in Hi. destruct Hi as [Hi | [<- | []]]; [ | exact Hc].
      destruct (Z.eq_dec i c) as [-> | Hne]; [exact Hc | ].
      apply Hframe; [exact Hne | | now apply Hdone].
      apply Hapart; [ | | congruence].
      * apply in_or_app. left. apply in_or_app. simpl. auto.
      * apply in_or_app. left. apply in_or_app. auto.
    + split; [exact H1 | split; [congruence | exact H3]].
Qed.

Lemma Reset_spec lists h :
  (forall i, 0 <= i < 32 -> is_size_t (sentinel lists i)) ->
  (forall i j, 0 <= i < 32 -> 0 <= j < 32 -> i <> j ->
     apart (sentinel lists i) (sentinel lists j)) ->
  let r := SegregatedRangeLists.Reset lists h in
  (forall j, sentinel (fst r) j = sentinel lists j)
  /\ SegregatedRangeLists.m_bitmap (fst r) = 0
  /\ (forall i, 0 <= i < 32 -> emptied lists r i).
Proof.
  intros Hrange Hapart.
  assert (Hin : forall i, In i SegregatedRangeLists.indices -> 0 <= i < 32).
  { intros i Hi. change SegregatedRangeLists.indices with
      [0; 1; 2; 3; 4; 5; 6; 7; 8; 9; 10; 11; 12; 13; 14; 15; 16; 17; 18; 19; 20; 21; 22;
       23; 24; 25; 26; 27; 28; 29; 30; 31] in Hi.
    cbn [In] in Hi. lia. }
  destruct (Reset_fold lists SegregatedRangeLists.indices
              (SegregatedRangeLists.set_bitmap lists 0, h) [])
    as (H1 & H2 & H3).
  - intros j. reflexivity.
  - intros i Hi. cbn [app] in Hi. auto.
  - intros i j Hi Hj. cbn [app] in Hi, Hj. auto.
  - intros i [].
  - cbv zeta. split; [exact H1 | split; [exact H2 | ]].
    intros i Hi. apply H3. cbn [app]. now apply class_cases.
Qed.

(** The totals over all classes, as the loops of [FreeBlocks] and
    [FreeBytes] accumulate them. *)
Fixpoint sum_over (f : Z -> Z) (classes : list Z) : Z :=
  match classes with
  | [] => 0
  | i :: classes' => f i + sum_over f classes'
  end.

Lemma fold_wrap_sum (f : Z -> Z) : forall classes acc,
  is_size_t acc ->
  fold_left (fun a i => wrap (a + f i)) classes acc = wrap (acc + sum_over f classes).
Proof.
  induction classes as [ | i classes IH]; intros acc Hacc; cbn [fold_left sum_over].
  - rewrite Z.add_0_r. symmetry. now apply wrap_small.
  - rewrite IH by apply wrap_range. rewrite wrap_add_l. f_equal. lia.
Qed.

Lemma fold_wrap_sum_0 (f : Z -> Z) classes :
  fold_left (fun a i => wrap (a + f i)) classes 0 = wrap (sum_over f classes).
Proof. rewrite fold_wrap_sum by (unfold is_size_t; lia). now rewrite Z.add_0_l. Qed.

Lemma sum_over_ext (f g : Z -> Z) classes :
  (forall i, In i classes -> f i = g i) -> sum_over f classes = sum_over g classes.
Proof.
  induction classes as [ | i classes IH]; intros H; cbn [sum_over]; [reflexivity | ].
  rewrite H by (simpl; auto). rewrite IH; [reflexivity | ].
  intros j Hj. apply H. simpl. auto.
Qed.

Lemma sum_over_zero classes : sum_over (fun _ => 0) classes = 0.
Proof. induction classes as [ | i classes IH]; cbn [sum_over]; lia. Qed.

Lemma Seg_totals fuel lists h blocks :
  lists_ok fuel lists h blocks ->
  SegregatedRangeLists.FreeBlocks lists
  = wrap (sum_over (fun i => Z.of_nat (length (blocks i))) SegregatedRangeLists.indices)
  /\ SegregatedRangeLists.FreeBytes lists
     = wrap (sum_over (fun i => total_size h (blocks i)) SegregatedRangeLists.indices).
Proof.
  intros Hok.
  assert (Hin : forall i, In i SegregatedRangeLists.indices -> 0 <= i < 32).
  { intros i Hi. change SegregatedRangeLists.indices with
      [0; 1; 2; 3; 4; 5; 6; 7; 8; 9; 10; 11; 12; 13; 14; 15; 16; 17; 18; 19; 20; 21; 22;
       23; 24; 25; 26; 27; 28; 29; 30; 31] in Hi.
    cbn [In] in Hi. lia. }
  unfold SegregatedRangeLists.FreeBlocks, SegregatedRangeLists.FreeBytes,
    RangeList.FreeBlocks, RangeList.FreeBytes.
  rewrite !fold_wrap_sum_0. split; f_equal; apply sum_over_ext; intros i Hi.
  - apply (ok_blocks _ _ _ _ Hok i). auto.
  - apply (ok_bytes _ _ _ _ Hok i). auto.
Qed.

(** X13.  [SegregatedRangeLists::Reset] empties all lists.  When the 32
    sentinels are non-overlapping records at 32-bit addresses, then after
    [Reset], whatever the lists and the memory were before, every list is
    the empty cycle through its sentinel with both counters zero, the
    bitmap is zero, the sentinels are where they were, the totals are
    zero, and [Validate] accepts the lists. *)
Theorem SegregatedRangeLists_Reset_empties
    (fuel : nat) (lists : SegregatedRangeLists.t) (h : memory) (id : Z) :
  (0 < fuel)%nat ->
  (forall i, 0 <= i < 32 -> is_size_t (sentinel lists i)) ->
  (forall i j, 0 <= i < 32 -> 0 <= j < 32 -> i <> j ->
     apart (sentinel lists i) (sentinel lists j)) ->
  let lists' := fst (SegregatedRangeLists.Reset lists h) in
  let h' := snd (SegregatedRangeLists.Reset lists h) in
  lists_ok fuel lists' h' (fun _ => [])
  /\ records_ok lists' (fun _ => [])
  /\ (forall i, sentinel lists' i = sentinel lists i)
  /\ SegregatedRangeLists.m_bitmap lists' = 0
  /\ SegregatedRangeLists.FreeBlocks lists' = 0
  /\ SegregatedRangeLists.FreeBytes lists' = 0
  /\ SegregatedRangeLists.Validate fuel lists' h' id = Ok tt.
Proof.
  intros Hfuel Hrange Hapart.
  destruct (Reset_spec lists h Hrange Hapart) as (Hsent & Hbitmap & Hempty).
  revert Hsent Hbitmap Hempty. unfold emptied.
  generalize (SegregatedRangeLists.Reset lists h). intros [lists' h'].
  cbn [fst snd]. intros Hsent Hbitmap Hempty.
  assert (Hl : forall i, 0 <= i < 32 ->
                 SegregatedRangeLists.m_rangeLists lists' i
                 = RangeList.mk (sentinel lists i) 0 0)
    by (intros i Hi; apply (Hempty i Hi)).
  assert (Hok : lists_ok fuel lists' h' (fun _ => [])).
  { constructor.
    - rewrite Hbitmap. unfold is_size_t. lia.
    - intros i Hi. rewrite Hl by assumption. cbn [RangeList.m_sentinel].
      destruct (Hempty i Hi) as (_ & Hn & Hp). split; assumption.
    - intros i Hi [].
    - intros i Hi. exact Hfuel.
    - intros i Hi [].
    - intros i b Hi [].
    - intros i Hi. rewrite Hl by assumption. reflexivity.
    - intros i Hi. rewrite Hl by assumption. reflexivity.
    - intros i Hi. rewrite Hbitmap, Z.bits_0. split; [discriminate | congruence]. }
  destruct (Seg_totals fuel lists' h' (fun _ => []) Hok) as [Hblocks Hbytes].
  cbn [length total_size Z.of_nat] in Hblocks, Hbytes.
  rewrite sum_over_zero in Hblocks, Hbytes.
  split; [exact Hok | ]. split; [ | split; [exact Hsent | split; [exact Hbitmap | ]]].
  - constructor.
    + intros i Hi. unfold records. rewrite Hsent.
      constructor; [now apply Hrange | constructor].
    + intros i Hi. unfold records. cbn [pairwise_apart]. auto.
    + intros i j u v Hi Hj Hne Hu Hv. unfold records in Hu, Hv. rewrite Hsent in Hu, Hv.
      destruct Hu as [<- | []]. destruct Hv as [<- | []]. now apply Hapart.
    + intros i Hi. rewrite Hl by assumption.
      cbn [RangeList.m_freeBlocks RangeList.m_freeBytes]. unfold is_size_t. lia.
  - split; [exact Hblocks | split; [exact Hbytes | ]].
    apply (Seg_Validate_loop_accepts fuel lists' h' id (fun _ => []) Hok).
    + intros i b Hi [].
    + intros i Hi. change SegregatedRangeLists.indices with
        [0; 1; 2; 3; 4; 5; 6; 7; 8; 9; 10; 11; 12; 13; 14; 15; 16; 17; 18; 19; 20; 21; 22;
         23; 24; 25; 26; 27; 28; 29; 30; 31] in Hi.
      cbn [In] in Hi. lia.
Qed.

(** [Reset] on the lists of [Scenario.two_freed], whose class 7 holds two
    blocks. *)
Lemma SegregatedRangeLists_Reset_empties_witness :
  let st := Scenario.value Scenario.blank Scenario.two_freed in
  let lists := Impl.m_segregatedRangeLists st in
  let lists' := fst (SegregatedRangeLists.Reset lists (Impl.heap st)) in
  let h' := snd (SegregatedRangeLists.Reset lists (Impl.heap st)) in
  lists_ok Scenario.fuel lists' h' (fun _ => [])
  /\ records_ok lists' (fun _ => [])
  /\ (forall i, sentinel lists' i = sentinel lists i)
  /\ SegregatedRangeLists.m_bitmap lists' = 0
  /\ SegregatedRangeLists.FreeBlocks lists' = 0
  /\ SegregatedRangeLists.FreeBytes lists' = 0
  /\ SegregatedRangeLists.Validate Scenario.fuel lists' h' BoundaryTagManager.s_headerId
     = Ok tt.
Proof.
  cbv zeta.
  set (st := Scenario.value Scenario.blank Scenario.two_freed).
  set (lists := Impl.m_segregatedRangeLists st).
  assert (Hrec : records_ok lists two_freed_blocks)
    by (apply records_ok_b_sound; vm_compute; reflexivity).
  assert (Hfuel : (0 < Scenario.fuel)%nat) by (apply Nat.ltb_lt; vm_compute; reflexivity).
  assert (Hrange : forall i, 0 <= i < 32 -> is_size_t (sentinel lists i)).
  { intros i Hi. pose proof (rec_range _ _ Hrec i Hi) as H.
    rewrite Forall_forall in H. apply H. unfold records. simpl. auto. }
  assert (Hapart : forall i j, 0 <= i < 32 -> 0 <= j < 32 -> i <> j ->
                     apart (sentinel lists i) (sentinel lists j)).
  { intros i j Hi Hj Hne. apply (rec_across _ _ Hrec i j); try assumption.
    - unfold records. simpl. auto.
    - unfold records. simpl. auto. }
  exact (SegregatedRangeLists_Reset_empties Scenario.fuel lists (Impl.heap st)
           BoundaryTagManager.s_headerId Hfuel Hrange Hapart).
Defined.

(** X14.  [FreeBlocks] and [FreeBytes] of well-formed lists are the number
    of blocks in the 32 lists and the sum of their size fields, modulo
    [2^32]. *)
Theorem SegregatedRangeLists_totals
    (fuel : nat) (lists : SegregatedRangeLists.t) (h : memory) (blocks : Z -> list ptr) :
  lists_ok fuel lists h blocks ->
  SegregatedRangeLists.FreeBlocks lists
  = wrap (sum_over (fun i => Z.of_nat (length (blocks i))) SegregatedRangeLists.indices)
  /\ SegregatedRangeLists.FreeBytes lists
     = wrap (sum_over (fun i => total_size h (blocks i)) SegregatedRangeLists.indices).
Proof. apply Seg_totals. Qed.

Lemma SegregatedRangeLists_totals_witness :
  let st := Scenario.value Scenario.blank Scenario.two_freed in
  let lists := Impl.m_segregatedRangeLists st in
  SegregatedRangeLists.FreeBlocks lists
  = wrap (sum_over (fun i => Z.of_nat (length (two_freed_blocks i)))
            SegregatedRangeLists.indices)
  /\ SegregatedRangeLists.FreeBytes lists
     = wrap (sum_over (fun i => total_size (Impl.heap st) (two_freed_blocks i))
               SegregatedRangeLists.indices).
Proof.
  cbv zeta.
  exact (SegregatedRangeLists_totals Scenario.fuel _ _ two_freed_blocks two_freed_lists_ok).
Defined.

(* ================================================================== *)
(** * Impl::Reset *)

Lemma Reset_lists_ok fuel lists h :
  (0 < fuel)%nat ->
  (forall i, 0 <= i < 32 -> is_size_t (sentinel lists i)) ->
  (forall i j, 0 <= i < 32 -> 0 <= j < 32 -> i <> j ->
     apart (sentinel lists i) (sentinel lists j)) ->
  lists_ok fuel (fst (SegregatedRangeLists.Reset lists h))
    (snd (SegregatedRangeLists.Reset lists h)) (fun _ => []).
Proof.
  intros Hfuel Hrange Hapart.
  destruct (Reset_spec lists h Hrange Hapart) as (Hsent & Hbitmap & Hempty).
  revert Hsent Hbitmap Hempty. unfold emptied.
  generalize (SegregatedRangeLists.Reset lists h). intros [lists' h'].
  cbn [fst snd]. intros Hsent Hbitmap Hempty.
  assert (Hl : forall i, 0 <= i < 32 ->
                 SegregatedRangeLists.m_rangeLists lists' i
                 = RangeList.mk (sentinel lists i) 0 0)
    by (intros i Hi; apply (Hempty i Hi)).
  constructor.
  - rewrite Hbitmap. unfold is_size_t. lia.
  - intros i Hi. rewrite Hl by assumption. cbn [RangeList.m_sentinel].
    destruct (Hempty i Hi) as (_ & Hn & Hp). split; assumption.
  - intros i Hi [].
  - intros i Hi. exact Hfuel.
  - intros i Hi [].
  - intros i b Hi [].
  - intros i Hi. rewrite Hl by assumption. reflexivity.
  - intros i Hi. rewrite Hl by assumption. reflexivity.
  - intros i Hi. rewrite Hbitmap, Z.bits_0. split; [discriminate | congruence].
Qed.

Lemma indices_range i : In i SegregatedRangeLists.indices -> 0 <= i < 32.
Proof.
  intros Hi. change SegregatedRangeLists.indices with
    [0; 1; 2; 3; 4; 5; 6; 7; 8; 9; 10; 11; 12; 13; 14; 15; 16; 17; 18; 19; 20; 21; 22;
     23; 24; 25; 26; 27; 28; 29; 30; 31] in Hi.
  cbn [In] in Hi. lia.
Qed.

(** The statements of [Reset] in terms of the result of
    [SegregatedRangeLists::Reset]. *)
Lemma Reset_body_eq this :
  Impl.Reset_body this
  = Impl.mk (snd (SegregatedRangeLists.Reset (Impl.m_segregatedRangeLists this)
                    (Impl.heap this)))
      (Pool.pool_free_all (Impl.m_pool this))
      (fst (SegregatedRangeLists.Reset (Impl.m_segregatedRangeLists this) (Impl.heap this)))
      (Impl.m_boundaryTagManager this) (Stats.OnReset (Impl.m_stats this)).
Proof.
  unfold Impl.Reset_body.
  destruct (SegregatedRangeLists.Reset _ _) as [lists' h']. reflexivity.
Qed.

(** After the statements of [Reset], the lists are valid and the tallies
    of the lists and of the statistics are zero. *)
Lemma Reset_body_lists fuel this :
  (0 < fuel)%nat ->
  (forall i, 0 <= i < 32 -> is_size_t (sentinel (Impl.m_segregatedRangeLists this) i)) ->
  (forall i j, 0 <= i < 32 -> 0 <= j < 32 -> i <> j ->
     apart (sentinel (Impl.m_segregatedRangeLists this) i)
           (sentinel (Impl.m_segregatedRangeLists this) j)) ->
  let this' := Impl.Reset_body this in
  SegregatedRangeLists.Validate fuel (Impl.m_segregatedRangeLists this') (Impl.heap this')
    BoundaryTagManager.s_headerId = Ok tt
  /\ Stats.Validate (Impl.m_stats this') = Ok tt
  /\ SegregatedRangeLists.FreeBlocks (Impl.m_segregatedRangeLists this') = 0
  /\ SegregatedRangeLists.FreeBytes (Impl.m_segregatedRangeLists this') = 0
  /\ Stats.FreeBlocks (Impl.m_stats this') = 0
  /\ Stats.FreeBytes (Impl.m_stats this') = 0
  /\ Impl.m_boundaryTagManager this' = Impl.m_boundaryTagManager this
  /\ Impl.m_pool this' = Pool.pool_free_all (Impl.m_pool this).
Proof.
  intros Hfuel Hrange Hapart. cbv zeta.
  pose proof (Reset_lists_ok fuel (Impl.m_segregatedRangeLists this) (Impl.heap this)
                Hfuel Hrange Hapart) as Hok.
  rewrite Reset_body_eq.
  revert Hok. generalize (SegregatedRangeLists.Reset (Impl.m_segregatedRangeLists this)
                            (Impl.heap this)).
  intros [lists' h']. cbn [fst snd]. intros Hok.
  cbn [Impl.m_segregatedRangeLists Impl.heap Impl.m_stats Impl.m_boundaryTagManager
       Impl.m_pool].
  destruct (Seg_totals fuel lists' h' (fun _ => []) Hok) as [Hblocks Hbytes].
  cbn [length total_size Z.of_nat] in Hblocks, Hbytes.
  rewrite sum_over_zero in Hblocks, Hbytes.
  change (wrap 0) with 0 in Hblocks, Hbytes.
  split; [ | split; [reflexivity | split; [exact Hblocks | split; [exact Hbytes | ]]]].
  - apply (Seg_Validate_loop_accepts fuel lists' h' _ (fun _ => []) Hok).
    + intros i b Hi [].
    + apply indices_range.
  - split; [reflexivity | split; [reflexivity | split; reflexivity]].
Qed.

(** X15.  [Impl::Reset] succeeds exactly when the boundary-tag tallies
    are zero.  With the 32 sentinels non-overlapping records at 32-bit
    addresses: if the BoundaryTagManager counts no free block and no free
    byte, [Reset] returns, all three tallies are zero and the pool is empty,
    whatever the lists, the statistics and the memory were before; if it
    counts any, the [Validate] that ends [Reset] fails its assertion. *)
Theorem Reset_succeeds_without_tags (fuel : nat) (this : Impl.t) :
  (0 < fuel)%nat ->
  (forall i, 0 <= i < 32 -> is_size_t (sentinel (Impl.m_segregatedRangeLists this) i)) ->
  (forall i j, 0 <= i < 32 -> 0 <= j < 32 -> i <> j ->
     apart (sentinel (Impl.m_segregatedRangeLists this) i)
           (sentinel (Impl.m_segregatedRangeLists this) j)) ->
  let tags := Impl.m_boundaryTagManager this in
  (BoundaryTagManager.FreeBlocks tags = 0 /\ BoundaryTagManager.FreeBytes tags = 0 ->
   Impl.Reset fuel this = Ok (Impl.Reset_body this)
   /\ Scenario.tallies (Impl.Reset_body this) = ((0, 0), (0, 0), (0, 0))
   /\ Pool.pos (Impl.m_pool (Impl.Reset_body this)) = 0)
  /\ (BoundaryTagManager.FreeBlocks tags <> 0 \/ BoundaryTagManager.FreeBytes tags <> 0 ->
      Impl.Reset fuel this = Err AssertFailed).
Proof.
  intros Hfuel Hrange Hapart tags.
  destruct (Reset_body_lists fuel this Hfuel Hrange Hapart)
    as (Hvalid & Hstats & Hblocks & Hbytes & Hsb & Hsy & Htags & Hpool).
  unfold Impl.Reset. cbv zeta.
  revert Hvalid Hstats Hblocks Hbytes Hsb Hsy Htags Hpool.
  generalize (Impl.Reset_body this). intros this'.
  intros Hvalid Hstats Hblocks Hbytes Hsb Hsy Htags Hpool.
  split.
  - intros [Htb Hty].
    split; [ | split].
    + assert (Hv : Impl.Validate fuel this' = Ok tt).
      { apply Impl_Validate_spec. rewrite Hblocks, Hbytes, Hsb, Hsy, Htags.
        fold tags. rewrite Htb, Hty.
        split; [exact Hvalid | split; [exact Hstats | ]].
        split; [reflexivity | split; [reflexivity | split; reflexivity]]. }
      rewrite Hv. reflexivity.
    + unfold Scenario.tallies. rewrite Hblocks, Hbytes, Hsb, Hsy, Htags.
      fold tags. rewrite Htb, Hty. reflexivity.
    + rewrite Hpool. reflexivity.
  - intros Hne. unfold Impl.Validate, AssertEqual. sanity.
    rewrite Hvalid, Hstats. cbn [bind]. rewrite Hblocks, Hbytes, Hsb, Hsy, Htags.
    fold tags. change (0 =? 0) with true. cbn [andb].
    destruct (Z.eqb_spec 0 (BoundaryTagManager.FreeBlocks tags)) as [E | E];
      [ | reflexivity].
    cbn [debug_assert bind].
    destruct (Z.eqb_spec 0 (BoundaryTagManager.FreeBytes tags)) as [E' | E'];
      [ | reflexivity].
    exfalso. destruct Hne as [Hne | Hne]; congruence.
Qed.

(** A second [Reset] of the fresh allocator [Scenario.create]. *)
Lemma Reset_succeeds_without_tags_witness :
  let st := Scenario.value Scenario.blank Scenario.create in
  Impl.Reset Scenario.fuel st = Ok (Impl.Reset_body st)
  /\ Scenario.tallies (Impl.Reset_body st) = ((0, 0), (0, 0), (0, 0))
  /\ Pool.pos (Impl.m_pool (Impl.Reset_body st)) = 0.
Proof.
  cbv zeta.
  set (st := Scenario.value Scenario.blank Scenario.create).
  assert (Hrec : records_ok (Impl.m_segregatedRangeLists st) (fun _ => []))
    by (apply records_ok_b_sound; vm_compute; reflexivity).
  assert (Hfuel : (0 < Scenario.fuel)%nat) by (apply Nat.ltb_lt; vm_compute; reflexivity).
  assert (Hrange : forall i, 0 <= i < 32 ->
                     is_size_t (sentinel (Impl.m_segregatedRangeLists st) i)).
  { intros i Hi. pose proof (rec_range _ _ Hrec i Hi) as H.
    rewrite Forall_forall in H. apply H. unfold records. left. reflexivity. }
  assert (Hapart : forall i j, 0 <= i < 32 -> 0 <= j < 32 -> i <> j ->
                     apart (sentinel (Impl.m_segregatedRangeLists st) i)
                           (sentinel (Impl.m_segregatedRangeLists st) j)).
  { intros i j Hi Hj Hne. apply (rec_across _ _ Hrec i j); try assumption.
    - unfold records. left. reflexivity.
    - unfold records. left. reflexivity. }
  assert (Htags : BoundaryTagManager.FreeBlocks (Impl.m_boundaryTagManager st) = 0
                  /\ BoundaryTagManager.FreeBytes (Impl.m_boundaryTagManager st) = 0)
    by (split; vm_compute; reflexivity).
  exact (proj1 (Reset_succeeds_without_tags Scenario.fuel st Hfuel Hrange Hapart) Htags).
Defined.

(** X16.  The constructor yields a valid, empty allocator.  Whatever the
    memory it runs in and the indeterminate initial statistics, when the
    [m_rangeLists] array lies within the 32-bit address space, [Impl(poolSize)]
    returns; the result passes [Validate], all three tallies are zero, the
    pool is new, and the sentinel of class [i] is the first member of
    [m_rangeLists[i]]. *)
Theorem construct_gives_valid_allocator
    (fuel : nat) (h : memory) (at_base lists_at : ptr) (stats0 : Stats.t) (poolSize : Z) :
  (0 < fuel)%nat ->
  0 <= lists_at ->
  lists_at + 32 * Impl.sizeof_RangeList <= 2 ^ 32 ->
  exists this,
    Impl.construct fuel h at_base lists_at stats0 poolSize = Ok this
    /\ Impl.Validate fuel this = Ok tt
    /\ Scenario.tallies this = ((0, 0), (0, 0), (0, 0))
    /\ Impl.m_pool this = Pool.mk at_base 0 poolSize
    /\ forall i, 0 <= i < 32 ->
         sentinel (Impl.m_segregatedRangeLists this) i
         = lists_at + i * Impl.sizeof_RangeList.
Proof.
  intros Hfuel Hlo Hhi. unfold Impl.construct. cbv zeta.
  set (lists0 := SegregatedRangeLists.mk
                   (fun i => RangeList.mk (lists_at + i * Impl.sizeof_RangeList) 0 0) 0).
  assert (Hrange0 : forall i, 0 <= i < 32 -> is_size_t (sentinel lists0 i)).
  { intros i Hi. unfold sentinel, lists0, is_size_t, Impl.sizeof_RangeList in *.
    cbn [SegregatedRangeLists.m_rangeLists RangeList.m_sentinel]. lia. }
  assert (Hapart0 : forall i j, 0 <= i < 32 -> 0 <= j < 32 -> i <> j ->
                      apart (sentinel lists0 i) (sentinel lists0 j)).
  { intros i j Hi Hj Hne.
    unfold sentinel, lists0, apart, sizeof_FreedBlock, Impl.sizeof_RangeList in *.
    cbn [SegregatedRangeLists.m_rangeLists RangeList.m_sentinel]. lia. }
  destruct (Reset_spec lists0 h Hrange0 Hapart0) as (Hsent1 & _ & _).
  revert Hsent1. generalize (SegregatedRangeLists.Reset lists0 h).
  intros [lists1 h1]. cbn [fst snd]. intros Hsent1.
  set (this1 := Impl.mk h1 (Pool.pool_create at_base poolSize) lists1
                  BoundaryTagManager.construct stats0).
  assert (Hrange1 : forall i, 0 <= i < 32 ->
                      is_size_t (sentinel (Impl.m_segregatedRangeLists this1) i)).
  { intros i Hi. cbn [Impl.m_segregatedRangeLists this1]. rewrite Hsent1. auto. }
  assert (Hapart1 : forall i j, 0 <= i < 32 -> 0 <= j < 32 -> i <> j ->
                      apart (sentinel (Impl.m_segregatedRangeLists this1) i)
                            (sentinel (Impl.m_segregatedRangeLists this1) j)).
  { intros i j Hi Hj Hne. cbn [Impl.m_segregatedRangeLists this1]. rewrite !Hsent1. auto. }
  destruct (Reset_body_lists fuel this1 Hfuel Hrange1 Hapart1)
    as (Hvalid & Hstats & Hblocks & Hbytes & Hsb & Hsy & Htags & Hpool).
  assert (Hsent2 : forall i, sentinel (Impl.m_segregatedRangeLists (Impl.Reset_body this1)) i
                             = sentinel lists0 i).
  { intros i. rewrite Reset_body_eq. cbn [Impl.m_segregatedRangeLists].
    destruct (Reset_spec (Impl.m_segregatedRangeLists this1) (Impl.heap this1)
                Hrange1 Hapart1) as (H & _ & _).
    rewrite H. cbn [Impl.m_segregatedRangeLists this1]. apply Hsent1. }
  unfold Impl.Reset. cbv zeta.
  revert Hvalid Hstats Hblocks Hbytes Hsb Hsy Htags Hpool Hsent2.
  generalize (Impl.Reset_body this1). intros this.
  intros Hvalid Hstats Hblocks Hbytes Hsb Hsy Htags Hpool Hsent2.
  assert (Hv : Impl.Validate fuel this = Ok tt).
  { apply Impl_Validate_spec. rewrite Hblocks, Hbytes, Hsb, Hsy, Htags.
    split; [exact Hvalid | split; [exact Hstats | ]].
    split; [reflexivity | split; [reflexivity | split; reflexivity]]. }
  exists this. rewrite Hv. cbn [bind].
  split; [reflexivity | split; [reflexivity | split; [ | split]]].
  - unfold Scenario.tallies. rewrite Hblocks, Hbytes, Hsb, Hsy, Htags. reflexivity.
  - rewrite Hpool. reflexivity.
  - intros i Hi. rewrite Hsent2. reflexivity.
Qed.

(** The allocator of [Scenario.create]. *)
Lemma construct_gives_valid_allocator_witness :
  exists this,
    Scenario.create = Ok this
    /\ Impl.Validate Scenario.fuel this = Ok tt
    /\ Scenario.tallies this = ((0, 0), (0, 0), (0, 0))
    /\ Impl.m_pool this = Pool.mk Scenario.pool_at 0 4096
    /\ forall i, 0 <= i < 32 ->
         sentinel (Impl.m_segregatedRangeLists this) i
         = Scenario.lists_at + i * Impl.sizeof_RangeList.
Proof.
  assert (Hfuel : (0 < Scenario.fuel)%nat) by (apply Nat.ltb_lt; vm_compute; reflexivity).
  assert (Hlo : 0 <= Scenario.lists_at) by (apply Z.leb_le; vm_compute; reflexivity).
  assert (Hhi : Scenario.lists_at + 32 * Impl.sizeof_RangeList <= 2 ^ 32)
    by (apply Z.leb_le; vm_compute; reflexivity).
  exact (construct_gives_valid_allocator Scenario.fuel (fun _ => 0) Scenario.pool_at
           Scenario.lists_at (Stats.mk 0 0 0 0 0 0 0 0) 4096 Hfuel Hlo Hhi).
Defined.

(* ================================================================== *)
(** * Size classes *)

(** X17.  The size classes.  Class [i > 0] contains the sizes in
    [(2^(i-1), 2^i]], as the comment on [SizeClass] says.  A size above
    [2^31] therefore has class 32, which is not an index of the 32 lists:
    [Insert] and [Remove] of a block with such a size field index past
    the end of [m_rangeLists]. *)
Theorem SizeClass_ranges :
  (forall s i, is_size_t s -> 0 < i ->
     (SegregatedRangeLists.SizeClass s = i <-> 2 ^ (i - 1) < s <= 2 ^ i))
  /\ (forall fuel lists h b,
        2 ^ 31 < FreedBlock.Size h b ->
        SegregatedRangeLists.SizeClass (FreedBlock.Size h b)
        = SegregatedRangeLists.numRangeLists
        /\ SegregatedRangeLists.Insert fuel lists h b = Err OutOfBounds
        /\ SegregatedRangeLists.Remove lists h b = Err OutOfBounds).
Proof.
  assert (Hclass : forall s i, is_size_t s -> 0 < i ->
            (SegregatedRangeLists.SizeClass s = i <-> 2 ^ (i - 1) < s <= 2 ^ i)).
  { intros s i Hs Hi. unfold SegregatedRangeLists.SizeClass, ceil_log2.
    rewrite wrap_small by assumption. split.
    - intros E. destruct (Z_le_gt_dec s 1) as [Hle | Hgt].
      + rewrite Z.log2_up_eqn0 in E by assumption. lia.
      + pose proof (Z.log2_up_spec s) as Hspec. rewrite E in Hspec.
        rewrite <- Z.sub_1_r in Hspec. apply Hspec. lia.
    - intros Hr. apply Z.log2_up_unique; [lia | ]. rewrite <- Z.sub_1_r. exact Hr. }
  split; [exact Hclass | ].
  intros fuel lists h b Hbig.
  assert (Hs : is_size_t (FreedBlock.Size h b)) by apply load_range.
  assert (E : SegregatedRangeLists.SizeClass (FreedBlock.Size h b) = 32).
  { apply Hclass; [assumption | lia | ]. unfold is_size_t in Hs.
    change (32 - 1) with 31. lia. }
  split; [exact E | ].
  unfold SegregatedRangeLists.Insert, SegregatedRangeLists.Remove. cbv zeta.
  rewrite E. split; reflexivity.
Qed.

(** A size field of [2^31 + 16]. *)
Lemma SizeClass_ranges_witness :
  let h := store (fun _ => 0) (FreedBlock.m_size_at Scenario.pool_at) (2 ^ 31 + 16) in
  SegregatedRangeLists.SizeClass (FreedBlock.Size h Scenario.pool_at) = 32
  /\ SegregatedRangeLists.Insert Scenario.fuel
       (Impl.m_segregatedRangeLists Scenario.blank) h Scenario.pool_at = Err OutOfBounds.
Proof.
  cbv zeta.
  set (h := store (fun _ => 0) (FreedBlock.m_size_at Scenario.pool_at) (2 ^ 31 + 16)).
  assert (Hbig : 2 ^ 31 < FreedBlock.Size h Scenario.pool_at)
    by (apply Z.ltb_lt; vm_compute; reflexivity).
  destruct (proj2 SizeClass_ranges Scenario.fuel
              (Impl.m_segregatedRangeLists Scenario.blank) h Scenario.pool_at Hbig)
    as (H1 & H2 & _).
  split; [exact H1 | exact H2].
Defined.

(* ================================================================== *)
(** * The allocator's invariant *)

(** ** What the writes leave alone *)

Lemma construct_other h p id size a :
  a <> p -> a <> p + 12 -> a <> p + 16 ->
  load (FreedBlock.construct h p id size) a = load h a.
Proof.
  intros. unfold FreedBlock.construct. unfold_fields.
  now rewrite !load_store_other by lia.
Qed.

Lemma destroy_other h p a :
  a <> p -> a <> p + 4 -> a <> p + 8 -> a <> p + 12 -> a <> p + 16 ->
  load (FreedBlock.destroy h p) a = load h a.
Proof.
  intros. unfold FreedBlock.destroy. unfold_fields.
  now rewrite !load_store_other by lia.
Qed.

Lemma link_other h b pred succ a :
  a <> b + 4 -> a <> b + 8 -> a <> pred + 8 -> a <> succ + 4 ->
  load (link h b pred succ) a = load h a.
Proof.
  intros. unfold link. unfold_fields. now rewrite !load_store_other by lia.
Qed.

Lemma unlink_other h pred succ a :
  a <> pred + 8 -> a <> succ + 4 ->
  load (unlink h pred succ) a = load h a.
Proof.
  intros. unfold unlink. unfold_fields. now rewrite !load_store_other by lia.
Qed.

(** The two memories agree on the cells of [[lo, hi)]. *)
Definition same_on (h h' : memory) (lo hi : Z) : Prop :=
  forall a, lo <= a < hi -> load h' a = load h a.

Lemma same_on_fields h h' b :
  same_on h h' b (b + sizeof_FreedBlock) ->
  FreedBlock.m_magic h' b = FreedBlock.m_magic h b
  /\ FreedBlock.prev h' b = FreedBlock.prev h b
  /\ FreedBlock.next h' b = FreedBlock.next h b
  /\ FreedBlock.Size h' b = FreedBlock.Size h b
  /\ FreedBlock.m_id h' b = FreedBlock.m_id h b.
Proof.
  unfold same_on, sizeof_FreedBlock. intros H. unfold_fields.
  repeat split; apply H; lia.
Qed.

(** ** Free blocks *)

(** The block at [b] carries both tags: a header at [b] and a footer in
    its last [sizeof(FreedBlock)] bytes, each with the magic, its id and
    the size; the two do not overlap. *)
Record tagged (h : memory) (b : ptr) : Prop := {
  tg_range : 0 <= b /\ b + FreedBlock.Size h b <= 2 ^ 32;
  tg_size : 2 * sizeof_FreedBlock <= FreedBlock.Size h b
            /\ FreedBlock.Size h b mod 16 = 0;
  tg_header : FreedBlock.m_magic h b = FreedBlock.s_magic
              /\ FreedBlock.m_id h b = BoundaryTagManager.s_headerId;
  tg_footer : FreedBlock.m_magic h (b + FreedBlock.Size h b - sizeof_FreedBlock)
              = FreedBlock.s_magic
              /\ FreedBlock.Size h (b + FreedBlock.Size h b - sizeof_FreedBlock)
                 = FreedBlock.Size h b
              /\ FreedBlock.m_id h (b + FreedBlock.Size h b - sizeof_FreedBlock)
                 = BoundaryTagManager.s_footerId
}.

Lemma tagged_Footer_eq h b :
  tagged h b -> BoundaryTagManager.Footer h b = b + FreedBlock.Size h b - sizeof_FreedBlock.
Proof.
  intros [Hr Hs _ _]. unfold BoundaryTagManager.Footer.
  apply wrap_small. unfold is_size_t, sizeof_FreedBlock in *. lia.
Qed.

Lemma tagged_header_valid h b :
  tagged h b -> FreedBlock.Validate h b BoundaryTagManager.s_headerId = Ok tt.
Proof.
  intros [Hr Hs Hh Hf]. apply FreedBlock_Validate_intro; try tauto.
  unfold sizeof_FreedBlock in *. lia.
Qed.

Lemma tagged_valid this h b :
  tagged h b ->
  BoundaryTagManager.m_freeBlocks this <> 0 ->
  FreedBlock.Size h b <= BoundaryTagManager.m_freeBytes this ->
  BoundaryTagManager.Validate this h b = Ok tt.
Proof.
  intros Ht Hblocks Hbytes. unfold BoundaryTagManager.Validate. sanity.
  rewrite (tagged_Footer_eq h b Ht), (tagged_header_valid h b Ht).
  destruct Ht as [Hr Hs Hh Hf].
  rewrite FreedBlock_Validate_intro; try tauto;
    try (destruct Hf as (_ & -> & _); unfold sizeof_FreedBlock in *; lia).
  destruct (Z.eqb_spec (BoundaryTagManager.m_freeBlocks this) 0); [contradiction | ].
  destruct (Z.geb_spec (BoundaryTagManager.m_freeBytes this) (FreedBlock.Size h b));
    [reflexivity | lia].
Qed.

(** The two memories agree on the extent of the block at [u], apart from
    the two link fields of its record. *)
Definition tags_same (h h' : memory) (u : ptr) : Prop :=
  forall a, u <= a < u + FreedBlock.Size h u -> a <> u + 4 -> a <> u + 8 ->
            load h' a = load h a.

Lemma tagged_frame h h' u : tagged h u -> tags_same h h' u -> tagged h' u.
Proof.
  intros [Hr Hs Hh Hf] Hsame. unfold tags_same in Hsame.
  assert (Hsz : 0 <= FreedBlock.Size h u) by apply load_range.
  assert (E : FreedBlock.Size h' u = FreedBlock.Size h u).
  { unfold_fields. apply Hsame; unfold sizeof_FreedBlock in *; lia. }
  unfold_fields. unfold sizeof_FreedBlock in *.
  constructor; unfold_fields; unfold sizeof_FreedBlock; rewrite ?E;
    rewrite ?Hsame by lia; assumption.
Qed.

(** ** The totals *)

Definition free_count (blocks : Z -> list ptr) : Z :=
  sum_over (fun i => Z.of_nat (length (blocks i))) SegregatedRangeLists.indices.

Definition free_bytes (h : memory) (blocks : Z -> list ptr) : Z :=
  sum_over (fun i => total_size h (blocks i)) SegregatedRangeLists.indices.

Lemma sum_over_nonneg f classes :
  (forall i, In i classes -> 0 <= f i) -> 0 <= sum_over f classes.
Proof.
  induction classes as [ | i classes IH]; intros H; cbn [sum_over]; [lia | ].
  assert (0 <= f i) by (apply H; simpl; auto).
  assert (0 <= sum_over f classes) by (apply IH; intros j Hj; apply H; simpl; auto).
  lia.
Qed.

Lemma sum_over_update f g c : forall classes,
  NoDup classes -> In c classes ->
  (forall i, i <> c -> g i = f i) ->
  sum_over g classes = sum_over f classes + (g c - f c).
Proof.
  induction classes as [ | i classes IH]; intros Hnd Hin Hsame; [contradiction | ].
  cbn [sum_over]. apply NoDup_cons_iff in Hnd. destruct Hnd as [Hi Hnd].
  destruct (Z.eq_dec i c) as [-> | Hne].
  - rewrite (sum_over_ext g f classes); [lia | ].
    intros j Hj. apply Hsame. intros ->. contradiction.
  - destruct Hin as [E | Hin]; [contradiction | ].
    rewrite IH by assumption. rewrite (Hsame i Hne). lia.
Qed.

Lemma sum_over_le f c classes :
  (forall i, In i classes -> 0 <= f i) -> In c classes -> f c <= sum_over f classes.
Proof.
  induction classes as [ | i classes IH]; intros Hpos Hin; [contradiction | ].
  cbn [sum_over].
  assert (0 <= f i) by (apply Hpos; simpl; auto).
  assert (0 <= sum_over f classes)
    by (apply sum_over_nonneg; intros j Hj; apply Hpos; simpl; auto).
  destruct Hin as [-> | Hin]; [lia | ].
  assert (f c <= sum_over f classes)
    by (apply IH; [intros j Hj; apply Hpos; simpl; auto | exact Hin]).
  lia.
Qed.

Lemma indices_NoDup : NoDup SegregatedRangeLists.indices.
Proof.
  change SegregatedRangeLists.indices with
    [0; 1; 2; 3; 4; 5; 6; 7; 8; 9; 10; 11; 12; 13; 14; 15; 16; 17; 18; 19; 20; 21; 22;
     23; 24; 25; 26; 27; 28; 29; 30; 31].
  repeat (apply NoDup_cons; [cbn [In]; lia | ]). apply NoDup_nil.
Qed.

Lemma free_count_update blocks blocks' c :
  0 <= c < 32 ->
  (forall i, i <> c -> blocks' i = blocks i) ->
  free_count blocks'
  = free_count blocks + (Z.of_nat (length (blocks' c)) - Z.of_nat (length (blocks c))).
Proof.
  intros Hc Hsame. unfold free_count.
  apply (sum_over_update (fun i => Z.of_nat (length (blocks i)))
           (fun i => Z.of_nat (length (blocks' i))) c).
  - apply indices_NoDup.
  - now apply class_cases.
  - intros i Hi. now rewrite Hsame.
Qed.

Lemma free_bytes_update h blocks blocks' c :
  0 <= c < 32 ->
  (forall i, i <> c -> blocks' i = blocks i) ->
  free_bytes h blocks'
  = free_bytes h blocks + (total_size h (blocks' c) - total_size h (blocks c)).
Proof.
  intros Hc Hsame. unfold free_bytes.
  apply (sum_over_update (fun i => total_size h (blocks i))
           (fun i => total_size h (blocks' i)) c).
  - apply indices_NoDup.
  - now apply class_cases.
  - intros i Hi. now rewrite Hsame.
Qed.

Lemma free_bytes_frame h h' blocks :
  (forall i b, 0 <= i < 32 -> In b (blocks i) ->
     FreedBlock.Size h' b = FreedBlock.Size h b) ->
  free_bytes h' blocks = free_bytes h blocks.
Proof.
  intros H. unfold free_bytes. apply sum_over_ext. intros i Hi.
  apply total_size_frame. intros b Hb. apply (H i); [now apply indices_range | exact Hb].
Qed.

Lemma total_size_In h b bs : In b bs -> FreedBlock.Size h b <= total_size h bs.
Proof.
  induction bs as [ | a bs IH]; intros Hin; [contradiction | ].
  cbn [total_size]. pose proof (total_size_nonneg h bs).
  assert (0 <= FreedBlock.Size h a) by apply load_range.
  destruct Hin as [-> | Hin]; [lia | ]. apply IH in Hin. lia.
Qed.

Lemma free_bytes_In h blocks c b :
  0 <= c < 32 -> In b (blocks c) -> FreedBlock.Size h b <= free_bytes h blocks.
Proof.
  intros Hc Hin. pose proof (total_size_In h b (blocks c) Hin).
  assert (total_size h (blocks c) <= free_bytes h blocks).
  { unfold free_bytes.
    apply (sum_over_le (fun i => total_size h (blocks i)) c).
    - intros i _. apply total_size_nonneg.
    - now apply class_cases. }
  lia.
Qed.

Lemma free_count_In blocks c (b : ptr) :
  0 <= c < 32 -> In b (blocks c) -> 1 <= free_count blocks.
Proof.
  intros Hc Hin.
  assert (Z.of_nat (length (blocks c)) <= free_count blocks).
  { unfold free_count.
    apply (sum_over_le (fun i => Z.of_nat (length (blocks i))) c).
    - intros i _. lia.
    - now apply class_cases. }
  destruct (blocks c); [contradiction | ]. cbn [length] in *. lia.
Qed.

(** ** Well-formed allocators *)

(** The free blocks [blocks i] of every class [i] are in the lists,
    tagged, pairwise disjoint and disjoint from the sentinels, and the
    three tallies count them. *)
Record heap_ok (fuel : nat) (this : Impl.t) (blocks : Z -> list ptr) : Prop := {
  hp_lists : lists_ok fuel (Impl.m_segregatedRangeLists this) (Impl.heap this) blocks;
  hp_records : records_ok (Impl.m_segregatedRangeLists this) blocks;
  hp_tagged : forall i b, 0 <= i < 32 -> In b (blocks i) -> tagged (Impl.heap this) b;
  hp_disjoint : forall i j u v,
    0 <= i < 32 -> 0 <= j < 32 -> In u (blocks i) -> In v (blocks j) -> u <> v ->
    u + FreedBlock.Size (Impl.heap this) u <= v
    \/ v + FreedBlock.Size (Impl.heap this) v <= u;
  hp_sentinels : forall i j u,
    0 <= i < 32 -> 0 <= j < 32 -> In u (blocks i) ->
    sentinel (Impl.m_segregatedRangeLists this) j + sizeof_FreedBlock <= u
    \/ u + FreedBlock.Size (Impl.heap this) u
       <= sentinel (Impl.m_segregatedRangeLists this) j;
  hp_bound : free_count blocks < 2 ^ 32 /\ free_bytes (Impl.heap this) blocks < 2 ^ 32;
  hp_tags :
    BoundaryTagManager.m_freeBlocks (Impl.m_boundaryTagManager this) = free_count blocks
    /\ BoundaryTagManager.m_freeBytes (Impl.m_boundaryTagManager this)
       = free_bytes (Impl.heap this) blocks;
  hp_stats :
    Stats.m_currentFreeBlocks (Impl.m_stats this) = free_count blocks
    /\ Stats.m_currentFreeBytes (Impl.m_stats this) = free_bytes (Impl.heap this) blocks
}.

Lemma free_count_nonneg blocks : 0 <= free_count blocks.
Proof. unfold free_count. apply sum_over_nonneg. intros i _. lia. Qed.

Lemma free_bytes_nonneg h blocks : 0 <= free_bytes h blocks.
Proof. unfold free_bytes. apply sum_over_nonneg. intros i _. apply total_size_nonneg. Qed.

Lemma heap_ok_totals fuel this blocks :
  heap_ok fuel this blocks ->
  SegregatedRangeLists.FreeBlocks (Impl.m_segregatedRangeLists this) = free_count blocks
  /\ SegregatedRangeLists.FreeBytes (Impl.m_segregatedRangeLists this)
     = free_bytes (Impl.heap this) blocks.
Proof.
  intros Hok. destruct (Seg_totals _ _ _ _ (hp_lists _ _ _ Hok)) as [H1 H2].
  pose proof (hp_bound _ _ _ Hok) as [B1 B2].
  pose proof (free_count_nonneg blocks). pose proof (free_bytes_nonneg (Impl.heap this) blocks).
  fold (free_count blocks) in H1. fold (free_bytes (Impl.heap this) blocks) in H2.
  rewrite H1, H2. split; apply wrap_small; unfold is_size_t; lia.
Qed.

Lemma heap_ok_Validate fuel this blocks :
  heap_ok fuel this blocks ->
  Stats.Validate (Impl.m_stats this) = Ok tt ->
  Impl.Validate fuel this = Ok tt.
Proof.
  intros Hok Hstats. apply Impl_Validate_spec.
  destruct (heap_ok_totals fuel this blocks Hok) as [H1 H2].
  destruct (hp_tags _ _ _ Hok) as [T1 T2]. destruct (hp_stats _ _ _ Hok) as [S1 S2].
  unfold Stats.FreeBlocks, Stats.FreeBytes, BoundaryTagManager.FreeBlocks,
    BoundaryTagManager.FreeBytes.
  rewrite H1, H2, T1, T2, S1, S2.
  split; [ | split; [exact Hstats | ]].
  - apply (Seg_Validate_loop_accepts fuel _ _ _ blocks (hp_lists _ _ _ Hok)).
    + intros i b Hi Hb. apply tagged_header_valid. apply (hp_tagged _ _ _ Hok i b Hi Hb).
    + apply indices_range.
  - split; [reflexivity | split; [reflexivity | split; reflexivity]].
Qed.

Lemma heap_record_outside fuel this blocks i j u v :
  heap_ok fuel this blocks -> 0 <= i < 32 -> 0 <= j < 32 ->
  In u (blocks i) -> In v (records (Impl.m_segregatedRangeLists this) blocks j) -> v <> u ->
  v + sizeof_FreedBlock <= u \/ u + FreedBlock.Size (Impl.heap this) u <= v.
Proof.
  intros Hok Hi Hj Hu Hv Hne. destruct Hv as [<- | Hv].
  - apply (hp_sentinels _ _ _ Hok i j u Hi Hj Hu).
  - destruct (hp_disjoint _ _ _ Hok i j u v Hi Hj Hu Hv) as [H | H]; [congruence | auto | ].
    left. pose proof (tg_size _ _ (hp_tagged _ _ _ Hok j v Hj Hv)) as [Hs _].
    unfold sizeof_FreedBlock in *. lia.
Qed.

Lemma lists_ok_frame fuel lists h h' blocks :
  lists_ok fuel lists h blocks ->
  (forall i u, 0 <= i < 32 -> In u (records lists blocks i) ->
     same_on h h' u (u + sizeof_FreedBlock)) ->
  lists_ok fuel lists h' blocks.
Proof.
  intros Hok Hsame.
  assert (Hfields : forall i u, 0 <= i < 32 -> In u (records lists blocks i) ->
            FreedBlock.prev h' u = FreedBlock.prev h u
            /\ FreedBlock.next h' u = FreedBlock.next h u
            /\ FreedBlock.Size h' u = FreedBlock.Size h u).
  { intros i u Hi Hu. destruct (same_on_fields h h' u (Hsame i u Hi Hu)) as (_ & ? & ? & ? & _).
    auto. }
  constructor.
  - apply Hok.
  - intros i Hi. apply seg_frame with (h := h); [ | | apply (ok_list _ _ _ _ Hok i Hi)].
    + intros z Hz. apply (Hfields i z Hi). exact Hz.
    + intros z Hz. apply (Hfields i z Hi). unfold records, sentinel.
      apply in_app_or in Hz. destruct Hz as [Hz | [<- | []]]; simpl; auto.
  - apply Hok.
  - apply Hok.
  - apply Hok.
  - intros i b Hi Hb. destruct (Hfields i b Hi) as (_ & _ & ->); [right; exact Hb | ].
    apply (ok_class _ _ _ _ Hok i b Hi Hb).
  - apply Hok.
  - intros i Hi. rewrite (total_size_frame h h'); [apply (ok_bytes _ _ _ _ Hok i Hi) | ].
    intros z Hz. apply (Hfields i z Hi). right. exact Hz.
  - apply Hok.
Qed.

(** The counters of [Stats] that the freelist handlers leave alone. *)
Definition same_totals (s s' : Stats.t) : Prop :=
  Stats.m_totalAllocatedBlocks s' = Stats.m_totalAllocatedBlocks s
  /\ Stats.m_totalAllocatedBytes s' = Stats.m_totalAllocatedBytes s
  /\ Stats.m_totalDeallocatedBlocks s' = Stats.m_totalDeallocatedBlocks s
  /\ Stats.m_totalDeallocatedBytes s' = Stats.m_totalDeallocatedBytes s
  /\ Stats.m_currentExtantBlocks s' = Stats.m_currentExtantBlocks s
  /\ Stats.m_currentExtantBytes s' = Stats.m_currentExtantBytes s.

Lemma same_totals_Validate s s' :
  same_totals s s' -> Stats.Validate s' = Stats.Validate s.
Proof.
  intros (H1 & H2 & H3 & H4 & H5 & H6). unfold Stats.Validate.
  now rewrite H1, H2, H3, H4, H5, H6.
Qed.

(** No cell of a link field of a record of the lists. *)
Definition no_link_cell (lists : SegregatedRangeLists.t) (blocks : Z -> list ptr) (a : Z)
  : Prop :=
  forall j v, 0 <= j < 32 -> In v (records lists blocks j) -> a <> v + 4 /\ a <> v + 8.

(** [RemoveFromFreelist] on a well-formed allocator. *)
Lemma RemoveFromFreelist_run fuel this blocks c b :
  heap_ok fuel this blocks -> 0 <= c < 32 -> In b (blocks c) ->
  exists bs1 bs2 this',
    blocks c = bs1 ++ b :: bs2
    /\ Impl.RemoveFromFreelist this b = Ok this'
    /\ heap_ok fuel this' (fun i => if i =? c then bs1 ++ bs2 else blocks i)
    /\ Impl.m_pool this' = Impl.m_pool this
    /\ same_totals (Impl.m_stats this) (Impl.m_stats this')
    /\ (forall i, sentinel (Impl.m_segregatedRangeLists this') i
                  = sentinel (Impl.m_segregatedRangeLists this) i)
    /\ (forall a, a < b \/ b + FreedBlock.Size (Impl.heap this) b <= a ->
                  no_link_cell (Impl.m_segregatedRangeLists this) blocks a ->
                  load (Impl.heap this') a = load (Impl.heap this) a)
    /\ free_count (fun i => if i =? c then bs1 ++ bs2 else blocks i) = free_count blocks - 1
    /\ free_bytes (Impl.heap this') (fun i => if i =? c then bs1 ++ bs2 else blocks i)
       = free_bytes (Impl.heap this) blocks - FreedBlock.Size (Impl.heap this) b.
Proof.
  intros Hok Hc Hin.
  set (h := Impl.heap this) in *. set (lists := Impl.m_segregatedRangeLists this) in *.
  set (sz := FreedBlock.Size h b).
  pose proof (hp_tagged _ _ _ Hok c b Hc Hin) as Htag. fold h in Htag.
  pose proof (tg_range _ _ Htag) as Hrange. pose proof (tg_size _ _ Htag) as Hsize.
  fold sz in Hrange, Hsize.
  pose proof (hp_bound _ _ _ Hok) as [Bc Bb]. fold h in Bb.
  pose proof (hp_tags _ _ _ Hok) as [Tc Tb]. fold h in Tb.
  pose proof (hp_stats _ _ _ Hok) as [Sc Sb]. fold h in Sb.
  pose proof (free_count_In blocks c b Hc Hin) as Hcount.
  pose proof (free_bytes_In h blocks c b Hc Hin) as Hbytes. fold sz in Hbytes.
  destruct (Seg_Remove_run fuel lists h blocks c b (hp_lists _ _ _ Hok) (hp_records _ _ _ Hok)
              Hc Hin)
    as (bs1 & bs2 & pred & succ & lists' & Ebs & Hpred & Hsucc & Hrun & Hsent & Hlists'
        & Hrec' & Hsize_b & Hpb & Hsb).
  set (h1 := unlink h pred succ) in *.
  set (blocks' := fun i => if i =? c then bs1 ++ bs2 else blocks i) in *.
  set (f := b + sz - sizeof_FreedBlock).
  set (h2 := FreedBlock.destroy (FreedBlock.destroy h1 b) f).
  set (stats' := Stats.mk (Stats.m_totalAllocatedBlocks (Impl.m_stats this))
                   (Stats.m_totalAllocatedBytes (Impl.m_stats this))
                   (Stats.m_totalDeallocatedBlocks (Impl.m_stats this))
                   (Stats.m_totalDeallocatedBytes (Impl.m_stats this))
                   (Stats.m_currentExtantBlocks (Impl.m_stats this))
                   (Stats.m_currentExtantBytes (Impl.m_stats this))
                   (free_count blocks - 1) (free_bytes h blocks - sz)).
  set (tags' := BoundaryTagManager.mk (free_count blocks - 1) (free_bytes h blocks - sz)).
  exists bs1, bs2, (Impl.mk h2 (Impl.m_pool this) lists' tags' stats').
  change (fun i : Z => if i =? c then bs1 ++ bs2 else blocks i) with blocks'.
  (* records other than [b] lie outside its extent *)
  assert (Hout : forall j v, 0 <= j < 32 -> In v (records lists blocks j) -> v <> b ->
            v + sizeof_FreedBlock <= b \/ b + sz <= v).
  { intros j v Hj Hv Hne. apply (heap_record_outside fuel this blocks c j b v); assumption. }
  assert (Hpred_out := Hout c pred Hc Hpred Hpb).
  assert (Hsucc_out := Hout c succ Hc Hsucc Hsb).
  (* the remaining records *)
  assert (Hrecs' : forall i v, 0 <= i < 32 -> In v (records lists' blocks' i) ->
                     In v (records lists blocks i) /\ v <> b).
  { intros i v Hi Hv. unfold records in Hv. rewrite Hsent in Hv. fold lists in Hv.
    pose proof (rec_within _ _ (hp_records _ _ _ Hok) c Hc) as Hw.
    unfold records in Hw. fold lists in Hw. rewrite Ebs in Hw.
    change (pairwise_apart ((sentinel lists c :: bs1) ++ b :: bs2)) in Hw.
    apply pairwise_apart_app_inv in Hw. destruct Hw as (_ & H2 & H12).
    cbn [pairwise_apart] in H2. destruct H2 as [H2 _]. rewrite Forall_forall in H2.
    unfold blocks' in Hv. unfold records.
    destruct (Z.eqb_spec i c) as [-> | Hne].
    - rewrite Ebs. destruct Hv as [<- | Hv].
      + split; [simpl; auto | ]. apply apart_neq. apply H12; simpl; auto.
      + apply in_app_or in Hv. destruct Hv as [Hv | Hv].
        * split; [right; apply in_or_app; auto | ].
          apply apart_neq. apply H12; simpl; auto.
        * split; [right; apply in_or_app; simpl; auto | ].
          intros E. apply H2 in Hv. apply apart_neq in Hv. congruence.
    - split; [exact Hv | ]. intros E. subst v.
      assert (A : apart b b).
      { apply (rec_across _ _ (hp_records _ _ _ Hok) i c); try assumption.
        unfold records. right. exact Hin. }
      now apply apart_neq in A. }
  assert (Hblocks' : forall i v, 0 <= i < 32 -> In v (blocks' i) ->
                       In v (blocks i) /\ v <> b).
  { intros i v Hi Hv.
    destruct (Hrecs' i v Hi) as [Hr Hne]; [right; exact Hv | ].
    split; [ | exact Hne]. unfold blocks' in Hv.
    destruct (Z.eqb_spec i c) as [-> | Hnc]; [ | exact Hv].
    rewrite Ebs. apply in_app_or in Hv. apply in_or_app. simpl. tauto. }
  (* the memory *)
  assert (H21 : forall a, a < b \/ b + sz <= a -> load h2 a = load h1 a).
  { intros a Ha. unfold h2, f.
    rewrite !destroy_other by (unfold sizeof_FreedBlock in *; lia). reflexivity. }
  assert (H10 : forall a, a <> pred + 8 -> a <> succ + 4 -> load h1 a = load h a).
  { intros a H1 H2. unfold h1. now apply unlink_other. }
  assert (Htag1 : tagged h1 b).
  { apply (tagged_frame h h1 b Htag). intros a Ha H4 H8. fold sz in Ha.
    apply H10; unfold sizeof_FreedBlock in *; lia. }
  assert (Hsame21 : forall i v, 0 <= i < 32 -> In v (records lists' blocks' i) ->
                      same_on h1 h2 v (v + sizeof_FreedBlock)).
  { intros i v Hi Hv a Ha. destruct (Hrecs' i v Hi Hv) as [Hr Hne].
    apply H21. destruct (Hout i v Hi Hr Hne); unfold sizeof_FreedBlock in *; lia. }
  assert (Hsizes : forall i v, 0 <= i < 32 -> In v (blocks i) -> v <> b ->
                     FreedBlock.Size h2 v = FreedBlock.Size h v).
  { intros i v Hi Hv Hne. unfold_fields.
    assert (Hr : In v (records lists blocks i)) by (right; exact Hv).
    destruct (Hout i v Hi Hr Hne).
    - rewrite H21 by (unfold sizeof_FreedBlock in *; lia).
      apply H10.
      + destruct (Z.eq_dec pred v) as [-> | Hpv]; [lia | ].
        pose proof (heap_record_outside fuel this blocks i c v pred Hok Hi Hc Hv Hpred Hpv).
        pose proof (tg_size _ _ (hp_tagged _ _ _ Hok i v Hi Hv)).
        unfold sizeof_FreedBlock in *. fold h in H0, H1. lia.
      + destruct (Z.eq_dec succ v) as [-> | Hpv]; [lia | ].
        pose proof (heap_record_outside fuel this blocks i c v succ Hok Hi Hc Hv Hsucc Hpv).
        pose proof (tg_size _ _ (hp_tagged _ _ _ Hok i v Hi Hv)).
        unfold sizeof_FreedBlock in *. fold h in H0, H1. lia.
    - rewrite H21 by (unfold sizeof_FreedBlock in *; lia).
      apply H10.
      + destruct (Z.eq_dec pred v) as [-> | Hpv]; [lia | ].
        pose proof (heap_record_outside fuel this blocks i c v pred Hok Hi Hc Hv Hpred Hpv).
        pose proof (tg_size _ _ (hp_tagged _ _ _ Hok i v Hi Hv)).
        unfold sizeof_FreedBlock in *. fold h in H0, H1. lia.
      + destruct (Z.eq_dec succ v) as [-> | Hpv]; [lia | ].
        pose proof (heap_record_outside fuel this blocks i c v succ Hok Hi Hc Hv Hsucc Hpv).
        pose proof (tg_size _ _ (hp_tagged _ _ _ Hok i v Hi Hv)).
        unfold sizeof_FreedBlock in *. fold h in H0, H1. lia. }
  assert (Hcount' : free_count blocks' = free_count blocks - 1).
  { rewrite (free_count_update blocks blocks' c Hc).
    - unfold blocks'. rewrite Z.eqb_refl, Ebs, !length_app. cbn [length]. lia.
    - intros i Hi. unfold blocks'. destruct (Z.eqb_spec i c); [contradiction | reflexivity]. }
  assert (Hbytes' : free_bytes h2 blocks' = free_bytes h blocks - sz).
  { rewrite (free_bytes_frame h h2 blocks').
    - rewrite (free_bytes_update h blocks blocks' c Hc).
      + unfold blocks'. rewrite Z.eqb_refl, Ebs, !total_size_app. cbn [total_size].
        fold sz. lia.
      + intros i Hi. unfold blocks'.
        destruct (Z.eqb_spec i c); [contradiction | reflexivity].
    - intros i v Hi Hv. destruct (Hblocks' i v Hi Hv) as [Hv' Hne].
      now apply (Hsizes i). }
  split; [exact Ebs | ]. split; [ | split; [ | split; [reflexivity | split; [ | split]]]].
  - (* the run *)
    unfold Impl.RemoveFromFreelist, Stats.OnRemoveFromFreelist. sanity.
    fold h lists sz. rewrite Sc, Sb.
    destruct (Z.eqb_spec (free_count blocks) 0); [lia | ].
    destruct (Z.geb_spec (free_bytes h blocks) sz); [ | lia].
    cbn [negb debug_assert bind]. rewrite Hrun. cbn [bind].
    unfold BoundaryTagManager.RemoveTags.
    rewrite (tagged_valid _ h1 b Htag1) by (rewrite ?Tc, ?Tb, ?Hsize_b; fold sz; lia).
    cbn [bind]. rewrite (tagged_Footer_eq h1 b Htag1), Hsize_b, Tc, Tb. fold sz f.
    destruct (Z.eqb_spec (free_count blocks) 0); [lia | ].
    destruct (Z.geb_spec (free_bytes h blocks) sz); [ | lia].
    cbn [negb debug_assert bind].
    rewrite !wrap_small by (unfold is_size_t, sizeof_FreedBlock in *; lia). reflexivity.
  - (* the invariant *)
    constructor; cbn [Impl.heap Impl.m_segregatedRangeLists Impl.m_boundaryTagManager
                      Impl.m_stats].
    + apply (lists_ok_frame fuel lists' h1 h2 blocks' Hlists' Hsame21).
    + exact Hrec'.
    + intros i v Hi Hv. destruct (Hblocks' i v Hi Hv) as [Hv' Hne].
      pose proof (hp_tagged _ _ _ Hok i v Hi Hv') as Htv. fold h in Htv.
      assert (Hr : In v (records lists blocks i)) by (right; exact Hv').
      apply (tagged_frame h h2 v Htv). intros a Ha H4 H8.
      pose proof (tg_size _ _ Htv) as [Hsv _].
      assert (Ho : b + sz <= v \/ v + FreedBlock.Size h v <= b).
      { destruct (hp_disjoint _ _ _ Hok c i b v Hc Hi Hin Hv') as [H | H];
          [congruence | fold h in H; auto | fold h in H; auto]. }
      rewrite H21 by lia. apply H10.
      * destruct (Z.eq_dec pred v) as [-> | Hpv]; [lia | ].
        pose proof (heap_record_outside fuel this blocks i c v pred Hok Hi Hc Hv' Hpred Hpv)
          as Hpo. fold h in Hpo. unfold sizeof_FreedBlock in *. lia.
      * destruct (Z.eq_dec succ v) as [-> | Hpv]; [lia | ].
        pose proof (heap_record_outside fuel this blocks i c v succ Hok Hi Hc Hv' Hsucc Hpv)
          as Hpo. fold h in Hpo. unfold sizeof_FreedBlock in *. lia.
    + intros i j u v Hi Hj Hu Hv Hne.
      destruct (Hblocks' i u Hi Hu) as [Hu' Hub]. destruct (Hblocks' j v Hj Hv) as [Hv' Hvb].
      rewrite (Hsizes i u Hi Hu' Hub), (Hsizes j v Hj Hv' Hvb).
      apply (hp_disjoint _ _ _ Hok i j u v); assumption.
    + intros i j u Hi Hj Hu. destruct (Hblocks' i u Hi Hu) as [Hu' Hub].
      rewrite (Hsizes i u Hi Hu' Hub), Hsent.
      apply (hp_sentinels _ _ _ Hok i j u); assumption.
    + rewrite Hcount', Hbytes'. unfold sizeof_FreedBlock in *. lia.
    + rewrite Hcount', Hbytes'. split; reflexivity.
    + rewrite Hcount', Hbytes'. split; reflexivity.
  - repeat split.
  - exact Hsent.
  - split; [ | split; [exact Hcount' | exact Hbytes']].
    cbn [Impl.heap]. intros a Ha Hno. fold h lists sz in Ha, Hno |- *.
    rewrite H21 by exact Ha. apply H10.
    + apply (Hno c pred Hc Hpred).
    + apply (Hno c succ Hc Hsucc).
Qed.

Lemma tagged_memory_other h p size a :
  2 * sizeof_FreedBlock <= size ->
  a < p \/ p + size <= a ->
  load (tagged_memory h p size) a = load h a.
Proof.
  intros Hsize Ha. unfold tagged_memory.
  rewrite !construct_other by (unfold sizeof_FreedBlock in *; lia). reflexivity.
Qed.

Lemma tagged_memory_tagged h p size :
  is_size_t p -> 2 * sizeof_FreedBlock <= size -> size mod 16 = 0 -> p + size <= 2 ^ 32 ->
  size < 2 ^ 32 ->
  FreedBlock.Size (tagged_memory h p size) p = size /\ tagged (tagged_memory h p size) p.
Proof.
  intros Hp Hsize Hmod Hend Hlt.
  assert (Hb : 0 <= BoundaryTagManager.m_freeBytes (BoundaryTagManager.mk 0 0)
               /\ BoundaryTagManager.m_freeBytes (BoundaryTagManager.mk 0 0) + size < 2 ^ 32)
    by (cbn [BoundaryTagManager.m_freeBytes]; lia).
  destruct (tagged_header (BoundaryTagManager.mk 0 0) h p size Hsize Hb) as (Hm & Hs & Hi).
  destruct (tagged_footer (BoundaryTagManager.mk 0 0) h p size Hsize Hb) as (Fm & Fs & Fi).
  split; [exact Hs | ].
  constructor; rewrite ?Hs; auto. unfold is_size_t in Hp. lia.
Qed.

(** [AddToFreelist] on a well-formed allocator, for a block that overlaps
    neither a free block nor a sentinel. *)
Lemma AddToFreelist_run fuel this blocks p size :
  let c := SegregatedRangeLists.SizeClass size in
  heap_ok fuel this blocks ->
  0 < p -> p + size <= 2 ^ 32 ->
  2 * sizeof_FreedBlock <= size -> size mod 16 = 0 ->
  c < 32 ->
  (forall i u, 0 <= i < 32 -> In u (blocks i) ->
     p + size <= u \/ u + FreedBlock.Size (Impl.heap this) u <= p) ->
  (forall j, 0 <= j < 32 ->
     sentinel (Impl.m_segregatedRangeLists this) j + sizeof_FreedBlock <= p
     \/ p + size <= sentinel (Impl.m_segregatedRangeLists this) j) ->
  (S (length (blocks c)) < fuel)%nat ->
  free_count blocks + 1 < 2 ^ 32 ->
  free_bytes (Impl.heap this) blocks + size < 2 ^ 32 ->
  exists bs1 bs2 this',
    blocks c = bs1 ++ bs2
    /\ Impl.AddToFreelist fuel this p size = Ok this'
    /\ heap_ok fuel this' (fun i => if i =? c then bs1 ++ p :: bs2 else blocks i)
    /\ FreedBlock.Size (Impl.heap this') p = size
    /\ Impl.m_pool this' = Impl.m_pool this
    /\ same_totals (Impl.m_stats this) (Impl.m_stats this')
    /\ (forall i, sentinel (Impl.m_segregatedRangeLists this') i
                  = sentinel (Impl.m_segregatedRangeLists this) i)
    /\ (forall a, a < p \/ p + size <= a ->
                  no_link_cell (Impl.m_segregatedRangeLists this) blocks a ->
                  load (Impl.heap this') a = load (Impl.heap this) a)
    /\ free_count (fun i => if i =? c then bs1 ++ p :: bs2 else blocks i)
       = free_count blocks + 1
    /\ free_bytes (Impl.heap this') (fun i => if i =? c then bs1 ++ p :: bs2 else blocks i)
       = free_bytes (Impl.heap this) blocks + size.
Proof.
  intros c Hok Hp0 Hend Hsize Hmod Hclass Hfree Hfree_s Hfuel Hcount Hbytes.
  set (h := Impl.heap this) in *. set (lists := Impl.m_segregatedRangeLists this) in *.
  set (tags := Impl.m_boundaryTagManager this).
  assert (Hc : 0 <= c < 32) by (split; [apply SizeClass_nonneg | exact Hclass]).
  assert (Hp : is_size_t p) by (unfold is_size_t, sizeof_FreedBlock in *; lia).
  pose proof (hp_bound _ _ _ Hok) as [Bc Bb]. fold h in Bb.
  pose proof (hp_tags _ _ _ Hok) as [Tc Tb]. fold h tags in Tc, Tb.
  pose proof (hp_stats _ _ _ Hok) as [Sc Sb]. fold h in Sb.
  pose proof (free_count_nonneg blocks) as Nc.
  pose proof (free_bytes_nonneg h blocks) as Nb.
  set (h1 := tagged_memory h p size).
  assert (Hlt : size < 2 ^ 32) by lia.
  destruct (tagged_memory_tagged h p size Hp Hsize Hmod Hend Hlt) as [Esize Htag1].
  fold h1 in Esize, Htag1.
  assert (Hw : BoundaryTagManager.WriteTags tags h p size
               = Ok (p, tagged_counters tags size, h1)).
  { apply WriteTags_run; try assumption; rewrite ?Tc, ?Tb; lia. }
  assert (H10 : forall a, a < p \/ p + size <= a -> load h1 a = load h a).
  { intros a Ha. now apply tagged_memory_other. }
  (* the old records lie outside the new block *)
  assert (Hout : forall j v, 0 <= j < 32 -> In v (records lists blocks j) ->
            v + sizeof_FreedBlock <= p \/ p + size <= v).
  { intros j v Hj [<- | Hv]; [now apply Hfree_s | ].
    pose proof (tg_size _ _ (hp_tagged _ _ _ Hok j v Hj Hv)) as [Hs _]. fold h in Hs.
    destruct (Hfree j v Hj Hv); unfold sizeof_FreedBlock in *; lia. }
  assert (Hlists1 : lists_ok fuel lists h1 blocks).
  { apply (lists_ok_frame fuel lists h h1 blocks (hp_lists _ _ _ Hok)).
    intros j v Hj Hv a Ha. apply H10. destruct (Hout j v Hj Hv); lia. }
  assert (Hsizes1 : forall i v, 0 <= i < 32 -> In v (blocks i) ->
                      FreedBlock.Size h1 v = FreedBlock.Size h v).
  { intros i v Hi Hv. unfold_fields. apply H10.
    assert (Hr : In v (records lists blocks i)) by (right; exact Hv).
    destruct (Hout i v Hi Hr); unfold sizeof_FreedBlock in *; lia. }
  pose proof (Seg_Insert_run fuel lists h1 blocks p) as Hins. cbv zeta in Hins.
  rewrite Esize in Hins. fold c in Hins.
  destruct Hins
    as (bs1 & bs2 & pred & succ & lists' & Ebs & Hpred & Hsucc & Hrun & Hsent & Hlists'
        & Hrec' & Hsize_p); try assumption.
  { apply (hp_records _ _ _ Hok). }
  { lia. }
  { intros i u Hi Hu. unfold apart. destruct (Hout i u Hi Hu); unfold sizeof_FreedBlock in *; lia. }
  { assert (Z.of_nat (length (blocks c)) <= free_count blocks).
    { unfold free_count. apply (sum_over_le (fun i => Z.of_nat (length (blocks i))) c).
      - intros i _. lia.
      - now apply class_cases. }
    lia. }
  { assert (total_size h (blocks c) <= free_bytes h blocks).
    { unfold free_bytes. apply (sum_over_le (fun i => total_size h (blocks i)) c).
      - intros i _. apply total_size_nonneg.
      - now apply class_cases. }
    rewrite (total_size_frame h h1); [lia | ].
    intros z Hz. now apply (Hsizes1 c). }
  set (h2 := link h1 p pred succ) in *.
  set (blocks' := fun i => if i =? c then bs1 ++ p :: bs2 else blocks i) in *.
  set (stats' := Stats.OnAddToFreelist (Impl.m_stats this) size).
  exists bs1, bs2, (Impl.mk h2 (Impl.m_pool this) lists' (tagged_counters tags size) stats').
  change (fun i : Z => if i =? c then bs1 ++ p :: bs2 else blocks i) with blocks'.
  assert (Hpred_out := Hout c pred Hc Hpred).
  assert (Hsucc_out := Hout c succ Hc Hsucc).
  assert (H21 : forall a, a <> p + 4 -> a <> p + 8 -> a <> pred + 8 -> a <> succ + 4 ->
                  load h2 a = load h1 a).
  { intros a H1 H2 H3 H4. unfold h2. now apply link_other. }
  assert (Hblocks' : forall i v, 0 <= i < 32 -> In v (blocks' i) ->
                       p = v \/ In v (blocks i)).
  { intros i v Hi Hv. unfold blocks' in Hv.
    destruct (Z.eqb_spec i c) as [-> | Hne]; [ | auto].
    rewrite Ebs. apply in_app_or in Hv. destruct Hv as [Hv | [Hv | Hv]]; auto.
    - right. apply in_or_app. auto.
    - right. apply in_or_app. auto. }
  assert (Htag2 : tagged h2 p).
  { apply (tagged_frame h1 h2 p Htag1). intros a Ha H4 H8. rewrite Esize in Ha.
    apply H21; unfold sizeof_FreedBlock in *; lia. }
  assert (Hold : forall i v, 0 <= i < 32 -> In v (blocks i) ->
                   tags_same h h2 v).
  { intros i v Hi Hv a Ha H4 H8.
    assert (Hr : In v (records lists blocks i)) by (right; exact Hv).
    pose proof (tg_size _ _ (hp_tagged _ _ _ Hok i v Hi Hv)) as [Hs _]. fold h in Hs.
    assert (Ho : p + size <= v \/ v + FreedBlock.Size h v <= p) by now apply (Hfree i).
    rewrite H21.
    - apply H10. lia.
    - unfold sizeof_FreedBlock in *. lia.
    - unfold sizeof_FreedBlock in *. lia.
    - destruct (Z.eq_dec pred v) as [-> | Hpv]; [lia | ].
      pose proof (heap_record_outside fuel this blocks i c v pred Hok Hi Hc Hv Hpred Hpv)
        as Hpo. fold h in Hpo. unfold sizeof_FreedBlock in *. lia.
    - destruct (Z.eq_dec succ v) as [-> | Hpv]; [lia | ].
      pose proof (heap_record_outside fuel this blocks i c v succ Hok Hi Hc Hv Hsucc Hpv)
        as Hpo. fold h in Hpo. unfold sizeof_FreedBlock in *. lia. }
  assert (Hsizes2 : forall i v, 0 <= i < 32 -> In v (blocks i) ->
                      FreedBlock.Size h2 v = FreedBlock.Size h v).
  { intros i v Hi Hv. unfold_fields.
    pose proof (tg_size _ _ (hp_tagged _ _ _ Hok i v Hi Hv)) as [Hs _]. fold h in Hs.
    apply (Hold i v Hi Hv); unfold_fields; unfold sizeof_FreedBlock in *; lia. }
  assert (Hcount' : free_count blocks' = free_count blocks + 1).
  { rewrite (free_count_update blocks blocks' c Hc).
    - unfold blocks'. rewrite Z.eqb_refl, Ebs, !length_app. cbn [length]. lia.
    - intros i Hi. unfold blocks'. destruct (Z.eqb_spec i c); [contradiction | reflexivity]. }
  assert (Hbytes' : free_bytes h2 blocks' = free_bytes h blocks + size).
  { rewrite (free_bytes_update h2 blocks blocks' c Hc).
    - rewrite (free_bytes_frame h h2 blocks) by exact Hsizes2.
      unfold blocks'. rewrite Z.eqb_refl, Ebs, !total_size_app. cbn [total_size].
      rewrite Hsize_p. lia.
    - intros i Hi. unfold blocks'.
      destruct (Z.eqb_spec i c); [contradiction | reflexivity]. }
  split; [exact Ebs | ].
  split; [ | split; [ | split; [exact Hsize_p | split; [reflexivity | split; [ | split]]]]].
  - (* the run *)
    unfold Impl.AddToFreelist. fold h lists tags. rewrite Hw. cbn [bind].
    rewrite Hrun. reflexivity.
  - (* the invariant *)
    constructor; cbn [Impl.heap Impl.m_segregatedRangeLists Impl.m_boundaryTagManager
                      Impl.m_stats].
    + exact Hlists'.
    + exact Hrec'.
    + intros i v Hi Hv. destruct (Hblocks' i v Hi Hv) as [<- | Hv']; [exact Htag2 | ].
      apply (tagged_frame h h2 v).
      * apply (hp_tagged _ _ _ Hok i v Hi Hv').
      * now apply (Hold i).
    + intros i j u v Hi Hj Hu Hv Hne.
      destruct (Hblocks' i u Hi Hu) as [<- | Hu'];
        destruct (Hblocks' j v Hj Hv) as [<- | Hv'].
      * congruence.
      * rewrite Hsize_p, (Hsizes2 j v Hj Hv'). now apply (Hfree j).
      * rewrite Hsize_p, (Hsizes2 i u Hi Hu').
        destruct (Hfree i u Hi Hu'); auto.
      * rewrite (Hsizes2 i u Hi Hu'), (Hsizes2 j v Hj Hv').
        apply (hp_disjoint _ _ _ Hok i j u v); assumption.
    + intros i j u Hi Hj Hu. rewrite Hsent.
      destruct (Hblocks' i u Hi Hu) as [<- | Hu'].
      * rewrite Hsize_p. now apply Hfree_s.
      * rewrite (Hsizes2 i u Hi Hu'). apply (hp_sentinels _ _ _ Hok i j u); assumption.
    + rewrite Hcount', Hbytes'. lia.
    + rewrite Hcount', Hbytes'. unfold tagged_counters.
      cbn [BoundaryTagManager.m_freeBlocks BoundaryTagManager.m_freeBytes].
      rewrite Tc, Tb. split; reflexivity.
    + rewrite Hcount', Hbytes'. unfold stats', Stats.OnAddToFreelist.
      cbn [Stats.m_currentFreeBlocks Stats.m_currentFreeBytes]. rewrite Sc, Sb.
      split; apply wrap_small; unfold is_size_t, sizeof_FreedBlock in *; lia.
  - repeat split.
  - exact Hsent.
  - split; [ | split; [exact Hcount' | exact Hbytes']].
    cbn [Impl.heap]. intros a Ha Hno.
    rewrite H21.
    + now apply H10.
    + unfold sizeof_FreedBlock in *. lia.
    + unfold sizeof_FreedBlock in *. lia.
    + apply (Hno c pred Hc Hpred).
    + apply (Hno c succ Hc Hsucc).
Qed.

(** ** A checker for [heap_ok] *)

Definition tagged_b (h : memory) (b : ptr) : bool :=
  let size := FreedBlock.Size h b in
  let footer := b + size - sizeof_FreedBlock in
  (0 <=? b) && (b + size <=? 2 ^ 32)
  && (2 * sizeof_FreedBlock <=? size) && (size mod 16 =? 0)
  && (FreedBlock.m_magic h b =? FreedBlock.s_magic)
  && (FreedBlock.m_id h b =? BoundaryTagManager.s_headerId)
  && (FreedBlock.m_magic h footer =? FreedBlock.s_magic)
  && (FreedBlock.Size h footer =? size)
  && (FreedBlock.m_id h footer =? BoundaryTagManager.s_footerId).

(** The blocks of all classes. *)
Definition all_blocks (blocks : Z -> list ptr) : list ptr :=
  flat_map blocks SegregatedRangeLists.indices.

(** The extent [[p, p + size)] overlaps neither a free block nor a sentinel. *)
Definition clear_b (this : Impl.t) (blocks : Z -> list ptr) (p size : Z) : bool :=
  forallb (fun u => (p + size <=? u) || (u + FreedBlock.Size (Impl.heap this) u <=? p))
    (all_blocks blocks)
  && forallb (fun j => (sentinel (Impl.m_segregatedRangeLists this) j + sizeof_FreedBlock <=? p)
                       || (p + size <=? sentinel (Impl.m_segregatedRangeLists this) j))
       SegregatedRangeLists.indices.

Definition heap_ok_b (fuel : nat) (this : Impl.t) (blocks : Z -> list ptr) : bool :=
  let h := Impl.heap this in
  let lists := Impl.m_segregatedRangeLists this in
  lists_ok_b fuel lists h blocks
  && records_ok_b lists blocks
  && forallb (tagged_b h) (all_blocks blocks)
  && forallb (fun u => forallb (fun v => (u =? v) || (u + FreedBlock.Size h u <=? v)
                                         || (v + FreedBlock.Size h v <=? u))
                         (all_blocks blocks))
       (all_blocks blocks)
  && forallb (fun u => forallb (fun j => (sentinel lists j + sizeof_FreedBlock <=? u)
                                         || (u + FreedBlock.Size h u <=? sentinel lists j))
                         SegregatedRangeLists.indices)
       (all_blocks blocks)
  && (free_count blocks <? 2 ^ 32) && (free_bytes h blocks <? 2 ^ 32)
  && (BoundaryTagManager.m_freeBlocks (Impl.m_boundaryTagManager this) =? free_count blocks)
  && (BoundaryTagManager.m_freeBytes (Impl.m_boundaryTagManager this) =? free_bytes h blocks)
  && (Stats.m_currentFreeBlocks (Impl.m_stats this) =? free_count blocks)
  && (Stats.m_currentFreeBytes (Impl.m_stats this) =? free_bytes h blocks).

Lemma all_blocks_In blocks i u : 0 <= i < 32 -> In u (blocks i) -> In u (all_blocks blocks).
Proof.
  intros Hi Hu. unfold all_blocks. apply in_flat_map. exists i.
  split; [now apply class_cases | exact Hu].
Qed.

Lemma tagged_b_sound h b : tagged_b h b = true -> tagged h b.
Proof.
  unfold tagged_b. cbv zeta. intros H.
  do 8 (apply andb_true_iff in H; destruct H as [H ?]).
  constructor; lia.
Qed.

Lemma clear_b_sound this blocks p size :
  clear_b this blocks p size = true ->
  (forall i u, 0 <= i < 32 -> In u (blocks i) ->
     p + size <= u \/ u + FreedBlock.Size (Impl.heap this) u <= p)
  /\ (forall j, 0 <= j < 32 ->
        sentinel (Impl.m_segregatedRangeLists this) j + sizeof_FreedBlock <= p
        \/ p + size <= sentinel (Impl.m_segregatedRangeLists this) j).
Proof.
  unfold clear_b. intros H. apply andb_true_iff in H. destruct H as [H1 H2].
  rewrite forallb_forall in H1, H2. split.
  - intros i u Hi Hu. specialize (H1 u (all_blocks_In blocks i u Hi Hu)).
    apply orb_true_iff in H1. lia.
  - intros j Hj. specialize (H2 j (class_cases j Hj)). apply orb_true_iff in H2. lia.
Qed.

Lemma heap_ok_b_sound fuel this blocks :
  heap_ok_b fuel this blocks = true -> heap_ok fuel this blocks.
Proof.
  unfold heap_ok_b. cbv zeta. intros H.
  do 10 (apply andb_true_iff in H; destruct H as [H ?]).
  rewrite forallb_forall in *.
  constructor.
  - now apply lists_ok_b_sound.
  - now apply records_ok_b_sound.
  - intros i b Hi Hb. apply tagged_b_sound.
    match goal with Hf : forall x, In x _ -> tagged_b _ x = true |- _ => apply Hf end.
    now apply (all_blocks_In blocks i).
  - intros i j u v Hi Hj Hu Hv Hne.
    match goal with
    | Hf : forall x, In x _ -> forallb (fun v => (x =? v) || _ || _) _ = true |- _ =>
        specialize (Hf u (all_blocks_In blocks i u Hi Hu)); rewrite forallb_forall in Hf;
        specialize (Hf v (all_blocks_In blocks j v Hj Hv))
    end.
    match goal with Hf : _ || _ || _ = true |- _ =>
      apply orb_true_iff in Hf; destruct Hf as [Hf | Hf];
        [apply orb_true_iff in Hf; destruct Hf as [Hf | Hf] | ] end; lia.
  - intros i j u Hi Hj Hu.
    match goal with
    | Hf : forall x, In x _ -> forallb (fun j => _ || _) SegregatedRangeLists.indices = true
      |- _ =>
        specialize (Hf u (all_blocks_In blocks i u Hi Hu)); rewrite forallb_forall in Hf;
        specialize (Hf j (class_cases j Hj)); apply orb_true_iff in Hf
    end.
    lia.
  - lia.
  - lia.
  - lia.
Qed.

(** X18.  [Impl::Validate] accepts a well-formed allocator: when the free
    blocks are in the lists of their classes, carry both tags, overlap
    neither each other nor a sentinel, the three tallies count them, and
    the statistics are consistent, no assertion of [Validate] fails. *)
Theorem Validate_accepts_well_formed
    (fuel : nat) (this : Impl.t) (blocks : Z -> list ptr) :
  heap_ok fuel this blocks ->
  Stats.Validate (Impl.m_stats this) = Ok tt ->
  Impl.Validate fuel this = Ok tt.
Proof. intros Hok Hstats. now apply (heap_ok_Validate fuel this blocks). Qed.

Lemma Validate_accepts_well_formed_witness :
  Impl.Validate Scenario.fuel (Scenario.value Scenario.blank Scenario.two_freed) = Ok tt.
Proof.
  set (st := Scenario.value Scenario.blank Scenario.two_freed).
  assert (Hok : heap_ok Scenario.fuel st two_freed_blocks)
    by (apply heap_ok_b_sound; vm_compute; reflexivity).
  assert (Hstats : Stats.Validate (Impl.m_stats st) = Ok tt) by (vm_compute; reflexivity).
  exact (Validate_accepts_well_formed Scenario.fuel st two_freed_blocks Hok Hstats).
Defined.

(** The three tallies of a well-formed allocator. *)
Lemma heap_ok_tallies fuel this blocks :
  heap_ok fuel this blocks ->
  Scenario.tallies this
  = ((free_count blocks, free_bytes (Impl.heap this) blocks),
     (free_count blocks, free_bytes (Impl.heap this) blocks),
     (free_count blocks, free_bytes (Impl.heap this) blocks)).
Proof.
  intros Hok. destruct (heap_ok_totals fuel this blocks Hok) as [L1 L2].
  destruct (hp_tags _ _ _ Hok) as [T1 T2]. destruct (hp_stats _ _ _ Hok) as [S1 S2].
  unfold Scenario.tallies, Stats.FreeBlocks, Stats.FreeBytes, BoundaryTagManager.FreeBlocks,
    BoundaryTagManager.FreeBytes.
  now rewrite L1, L2, T1, T2, S1, S2.
Qed.

(** X19.  [RemoveFromFreelist] keeps the allocator well formed.  For a
    block that is in the list of class [c] of a well-formed allocator, it
    returns; the allocator is well formed with the block taken out of that
    list and all three tallies lowered by one block and its size; the pool
    and the other statistics are unchanged; and memory is unchanged outside
    the block and the link fields of the records of the lists. *)
Theorem RemoveFromFreelist_keeps_well_formed
    (fuel : nat) (this : Impl.t) (blocks : Z -> list ptr) (c : Z) (b : ptr) :
  heap_ok fuel this blocks -> 0 <= c < 32 -> In b (blocks c) ->
  exists bs1 bs2 this',
    blocks c = bs1 ++ b :: bs2
    /\ Impl.RemoveFromFreelist this b = Ok this'
    /\ heap_ok fuel this' (fun i => if i =? c then bs1 ++ bs2 else blocks i)
    /\ Scenario.tallies this'
       = (let n := free_count blocks - 1 in
          let m := free_bytes (Impl.heap this) blocks
                   - FreedBlock.Size (Impl.heap this) b in
          ((n, m), (n, m), (n, m)))
    /\ Impl.m_pool this' = Impl.m_pool this
    /\ same_totals (Impl.m_stats this) (Impl.m_stats this')
    /\ (forall a, a < b \/ b + FreedBlock.Size (Impl.heap this) b <= a ->
                  no_link_cell (Impl.m_segregatedRangeLists this) blocks a ->
                  load (Impl.heap this') a = load (Impl.heap this) a).
Proof.
  intros Hok Hc Hin.
  destruct (RemoveFromFreelist_run fuel this blocks c b Hok Hc Hin)
    as (bs1 & bs2 & this' & Ebs & Hrun & Hok' & Hpool & Hstats & _ & Hframe & Hcount
        & Hbytes).
  exists bs1, bs2, this'.
  split; [exact Ebs | ]. split; [exact Hrun | ]. split; [exact Hok' | ].
  split; [ | split; [exact Hpool | split; [exact Hstats | exact Hframe]]].
  rewrite (heap_ok_tallies fuel this' _ Hok'), Hcount, Hbytes. reflexivity.
Qed.

(** The second free block of [Scenario.two_freed] leaves the freelist. *)
Lemma RemoveFromFreelist_keeps_well_formed_witness :
  let st := Scenario.value Scenario.blank Scenario.two_freed in
  let b := Scenario.pool_at + 256 in
  exists bs1 bs2 this',
    two_freed_blocks 7 = bs1 ++ b :: bs2
    /\ Impl.RemoveFromFreelist st b = Ok this'
    /\ heap_ok Scenario.fuel this' (fun i => if i =? 7 then bs1 ++ bs2 else two_freed_blocks i)
    /\ Scenario.tallies this'
       = (let n := free_count two_freed_blocks - 1 in
          let m := free_bytes (Impl.heap st) two_freed_blocks
                   - FreedBlock.Size (Impl.heap st) b in
          ((n, m), (n, m), (n, m)))
    /\ Impl.m_pool this' = Impl.m_pool st
    /\ same_totals (Impl.m_stats st) (Impl.m_stats this')
    /\ (forall a, a < b \/ b + FreedBlock.Size (Impl.heap st) b <= a ->
                  no_link_cell (Impl.m_segregatedRangeLists st) two_freed_blocks a ->
                  load (Impl.heap this') a = load (Impl.heap st) a).
Proof.
  cbv zeta.
  set (st := Scenario.value Scenario.blank Scenario.two_freed).
  assert (Hok : heap_ok Scenario.fuel st two_freed_blocks)
    by (apply heap_ok_b_sound; vm_compute; reflexivity).
  assert (Hc : 0 <= 7 < 32) by lia.
  assert (Hin : In (Scenario.pool_at + 256) (two_freed_blocks 7))
    by (right; left; reflexivity).
  exact (RemoveFromFreelist_keeps_well_formed Scenario.fuel st two_freed_blocks 7
           (Scenario.pool_at + 256) Hok Hc Hin).
Defined.

(** X20.  [AddToFreelist] keeps the allocator well formed.  For a block
    of at least two records (size a multiple of 16, of a class below 32)
    that overlaps neither a free block nor a sentinel, when the tallies do
    not overflow, it returns; the allocator is well formed with the block
    in the list of [SizeClass(size)] and all three tallies raised by one
    block and [size]; the pool and the other statistics are unchanged; and
    memory is unchanged outside the block and the link fields of the
    records of the lists. *)
Theorem AddToFreelist_keeps_well_formed
    (fuel : nat) (this : Impl.t) (blocks : Z -> list ptr) (p size : Z) :
  let c := SegregatedRangeLists.SizeClass size in
  heap_ok fuel this blocks ->
  0 < p -> p + size <= 2 ^ 32 ->
  2 * sizeof_FreedBlock <= size -> size mod 16 = 0 ->
  c < 32 ->
  (forall i u, 0 <= i < 32 -> In u (blocks i) ->
     p + size <= u \/ u + FreedBlock.Size (Impl.heap this) u <= p) ->
  (forall j, 0 <= j < 32 ->
     sentinel (Impl.m_segregatedRangeLists this) j + sizeof_FreedBlock <= p
     \/ p + size <= sentinel (Impl.m_segregatedRangeLists this) j) ->
  (S (length (blocks c)) < fuel)%nat ->
  free_count blocks + 1 < 2 ^ 32 ->
  free_bytes (Impl.heap this) blocks + size < 2 ^ 32 ->
  exists bs1 bs2 this',
    blocks c = bs1 ++ bs2
    /\ Impl.AddToFreelist fuel this p size = Ok this'
    /\ heap_ok fuel this' (fun i => if i =? c then bs1 ++ p :: bs2 else blocks i)
    /\ FreedBlock.Size (Impl.heap this') p = size
    /\ Scenario.tallies this'
       = (let n := free_count blocks + 1 in
          let m := free_bytes (Impl.heap this) blocks + size in
          ((n, m), (n, m), (n, m)))
    /\ Impl.m_pool this' = Impl.m_pool this
    /\ same_totals (Impl.m_stats this) (Impl.m_stats this')
    /\ (forall a, a < p \/ p + size <= a ->
                  no_link_cell (Impl.m_segregatedRangeLists this) blocks a ->
                  load (Impl.heap this') a = load (Impl.heap this) a).
Proof.
  intros c Hok Hp0 Hend Hsize Hmod Hclass Hfree Hfree_s Hfuel Hcount Hbytes.
  destruct (AddToFreelist_run fuel this blocks p size Hok Hp0 Hend Hsize Hmod Hclass
              Hfree Hfree_s Hfuel Hcount Hbytes)
    as (bs1 & bs2 & this' & Ebs & Hrun & Hok' & Hsz & Hpool & Hstats & _ & Hframe & Hcount'
        & Hbytes').
  exists bs1, bs2, this'. fold c in Hok', Hcount', Hbytes', Ebs.
  split; [exact Ebs | ]. split; [exact Hrun | ]. split; [exact Hok' | ].
  split; [exact Hsz | ].
  split; [ | split; [exact Hpool | split; [exact Hstats | exact Hframe]]].
  rewrite (heap_ok_tallies fuel this' _ Hok'), Hcount', Hbytes'. reflexivity.
Qed.

(** The live block between the two free blocks of [Scenario.two_freed]
    joins their list. *)
Lemma AddToFreelist_keeps_well_formed_witness :
  let st := Scenario.value Scenario.blank Scenario.two_freed in
  let p := Scenario.pool_at + 128 in
  let c := SegregatedRangeLists.SizeClass 128 in
  exists bs1 bs2 this',
    two_freed_blocks c = bs1 ++ bs2
    /\ Impl.AddToFreelist Scenario.fuel st p 128 = Ok this'
    /\ heap_ok Scenario.fuel this'
         (fun i => if i =? c then bs1 ++ p :: bs2 else two_freed_blocks i)
    /\ FreedBlock.Size (Impl.heap this') p = 128
    /\ Scenario.tallies this'
       = (let n := free_count two_freed_blocks + 1 in
          let m := free_bytes (Impl.heap st) two_freed_blocks + 128 in
          ((n, m), (n, m), (n, m)))
    /\ Impl.m_pool this' = Impl.m_pool st
    /\ same_totals (Impl.m_stats st) (Impl.m_stats this')
    /\ (forall a, a < p \/ p + 128 <= a ->
                  no_link_cell (Impl.m_segregatedRangeLists st) two_freed_blocks a ->
                  load (Impl.heap this') a = load (Impl.heap st) a).
Proof.
  cbv zeta.
  set (st := Scenario.value Scenario.blank Scenario.two_freed).
  set (p := Scenario.pool_at + 128).
  assert (Hok : heap_ok Scenario.fuel st two_freed_blocks)
    by (apply heap_ok_b_sound; vm_compute; reflexivity).
  assert (Hp0 : 0 < p) by (apply Z.ltb_lt; vm_compute; reflexivity).
  assert (Hend : p + 128 <= 2 ^ 32) by (apply Z.leb_le; vm_compute; reflexivity).
  assert (Hsize : 2 * sizeof_FreedBlock <= 128) by (unfold sizeof_FreedBlock; lia).
  assert (Hmod : 128 mod 16 = 0) by reflexivity.
  assert (Hclass : SegregatedRangeLists.SizeClass 128 < 32) by (vm_compute; reflexivity).
  destruct (clear_b_sound st two_freed_blocks p 128) as [Hfree Hfree_s];
    [vm_compute; reflexivity | ].
  assert (Hfuel : (S (length (two_freed_blocks (SegregatedRangeLists.SizeClass 128)))
                   < Scenario.fuel)%nat)
    by (apply Nat.ltb_lt; vm_compute; reflexivity).
  assert (Hcount : free_count two_freed_blocks + 1 < 2 ^ 32)
    by (apply Z.ltb_lt; vm_compute; reflexivity).
  assert (Hbytes : free_bytes (Impl.heap st) two_freed_blocks + 128 < 2 ^ 32)
    by (apply Z.ltb_lt; vm_compute; reflexivity).
  exact (AddToFreelist_keeps_well_formed Scenario.fuel st two_freed_blocks p 128
           Hok Hp0 Hend Hsize Hmod Hclass Hfree Hfree_s Hfuel Hcount Hbytes).
Defined.

(* ================================================================== *)
(** * Coalesce *)

(** The extent [[p, p + size)] overlaps neither a free block nor a sentinel. *)
Definition clear (this : Impl.t) (blocks : Z -> list ptr) (p size : Z) : Prop :=
  (forall i u, 0 <= i < 32 -> In u (blocks i) ->
     p + size <= u \/ u + FreedBlock.Size (Impl.heap this) u <= p)
  /\ (forall j, 0 <= j < 32 ->
        sentinel (Impl.m_segregatedRangeLists this) j + sizeof_FreedBlock <= p
        \/ p + size <= sentinel (Impl.m_segregatedRangeLists this) j).

(** What lies before the address [p]: the beginning of the pool or bytes
    that are no footer ([None]), or the free block [u] that ends at [p]. *)
Definition preceding_is (this : Impl.t) (blocks : Z -> list ptr) (p : Z)
    (pre : option ptr) : Prop :=
  match pre with
  | None =>
      p = Pool.base (Impl.m_pool this)
      \/ FreedBlock.IsFreedBlock (Impl.heap this) (wrap (p - sizeof_FreedBlock))
           BoundaryTagManager.s_footerId = false
  | Some u =>
      p <> Pool.base (Impl.m_pool this)
      /\ (exists i, 0 <= i < 32 /\ In u (blocks i))
      /\ u + FreedBlock.Size (Impl.heap this) u = p
  end.

(** What lies at the address [q]: the end of the pool or a record that is
    no header and part of no free block or sentinel ([None]), or the free
    block [q]. *)
Definition following_is (this : Impl.t) (blocks : Z -> list ptr) (q : Z)
    (fol : option ptr) : Prop :=
  match fol with
  | None =>
      q = wrap (Pool.base (Impl.m_pool this) + Pool.pos (Impl.m_pool this))
      \/ (FreedBlock.IsFreedBlock (Impl.heap this) q BoundaryTagManager.s_headerId = false
          /\ forall j v, 0 <= j < 32 ->
               In v (records (Impl.m_segregatedRangeLists this) blocks j) ->
               v + sizeof_FreedBlock <= q \/ q + sizeof_FreedBlock <= v)
  | Some v =>
      q <> wrap (Pool.base (Impl.m_pool this) + Pool.pos (Impl.m_pool this))
      /\ v = q /\ exists i, 0 <= i < 32 /\ In v (blocks i)
  end.

Lemma tagged_IsFreedBlock h b :
  tagged h b ->
  FreedBlock.IsFreedBlock h b BoundaryTagManager.s_headerId = true
  /\ FreedBlock.IsFreedBlock h (b + FreedBlock.Size h b - sizeof_FreedBlock)
       BoundaryTagManager.s_footerId = true.
Proof.
  intros [_ _ [H1 H2] (F1 & _ & F3)]. unfold FreedBlock.IsFreedBlock.
  now rewrite H1, H2, F1, F3, !Z.eqb_refl.
Qed.

(** The header cells of a free block are no link fields of a record. *)
Lemma header_cells_no_link fuel this blocks i u a :
  heap_ok fuel this blocks -> 0 <= i < 32 -> In u (blocks i) ->
  a = u \/ a = u + 12 \/ a = u + 16 ->
  no_link_cell (Impl.m_segregatedRangeLists this) blocks a.
Proof.
  intros Hok Hi Hu Ha j v Hj Hv.
  pose proof (tg_size _ _ (hp_tagged _ _ _ Hok i u Hi Hu)) as [Hs _].
  destruct (Z.eq_dec v u) as [-> | Hne]; [lia | ].
  pose proof (heap_record_outside fuel this blocks i j u v Hok Hi Hj Hu Hv Hne).
  unfold sizeof_FreedBlock in *. lia.
Qed.

Lemma heap_ok_positive fuel this blocks i u :
  heap_ok fuel this blocks -> 0 <= i < 32 -> In u (blocks i) -> 0 < u.
Proof.
  intros Hok Hi Hu.
  pose proof (tg_range _ _ (hp_tagged _ _ _ Hok i u Hi Hu)) as [H0 _].
  assert (u <> 0) by (intros ->; now apply (ok_nonnull _ _ _ _ (hp_lists _ _ _ Hok) i Hi)).
  lia.
Qed.

(** What lies at the address [q], as far as the probe of [Coalesce] can
    tell: the end of the pool, or bytes that are no header and whose two
    cells the probe reads (the magic at [q], the id at [q + 16]) are no
    link fields of a record of the lists ([None]); or the free block [q]. *)
Definition following_at (this : Impl.t) (blocks : Z -> list ptr) (q : Z)
    (fol : option ptr) : Prop :=
  match fol with
  | None =>
      q = wrap (Pool.base (Impl.m_pool this) + Pool.pos (Impl.m_pool this))
      \/ (FreedBlock.IsFreedBlock (Impl.heap this) q BoundaryTagManager.s_headerId = false
          /\ no_link_cell (Impl.m_segregatedRangeLists this) blocks q
          /\ no_link_cell (Impl.m_segregatedRangeLists this) blocks (q + 16))
  | Some v =>
      q <> wrap (Pool.base (Impl.m_pool this) + Pool.pos (Impl.m_pool this))
      /\ v = q /\ exists i, 0 <= i < 32 /\ In v (blocks i)
  end.

Lemma following_is_at this blocks q fol :
  following_is this blocks q fol -> following_at this blocks q fol.
Proof.
  destruct fol as [v | ]; cbn [following_is following_at]; [auto | ].
  intros [H | [H Hout]]; [left; exact H | right].
  split; [exact H | ].
  split; intros j v Hj Hv; destruct (Hout j v Hj Hv); unfold sizeof_FreedBlock in *; lia.
Qed.

(** 1 for a neighbour that is merged, 0 for none. *)
Definition merged (neighbour : option ptr) : Z :=
  match neighbour with
  | Some _ => 1
  | None => 0
  end.

Lemma merged_range neighbour : 0 <= merged neighbour <= 1.
Proof. destruct neighbour; cbn [merged]; lia. Qed.

(** The first half of [Coalesce] on a well-formed allocator. *)
Lemma Coalesce_preceding_run fuel this blocks p size pre :
  heap_ok fuel this blocks ->
  0 < p -> 0 < size -> p + size <= 2 ^ 32 ->
  clear this blocks p size ->
  preceding_is this blocks p pre ->
  let p' := match pre with Some u => u | None => p end in
  let size' := p + size - p' in
  exists this' blocks',
    Impl.Coalesce_preceding this p size = Ok (p', size', this')
    /\ heap_ok fuel this' blocks'
    /\ clear this' blocks' p' size'
    /\ 0 < p' <= p
    /\ (forall i u, 0 <= i < 32 -> In u (blocks' i) -> In u (blocks i) /\ u <> p')
    /\ (forall i u, 0 <= i < 32 -> In u (blocks i) -> u <> p' -> In u (blocks' i))
    /\ (forall i, 0 <= i < 32 -> (length (blocks' i) <= length (blocks i))%nat)
    /\ free_count blocks' = free_count blocks - merged pre
    /\ free_bytes (Impl.heap this') blocks' + size'
       = free_bytes (Impl.heap this) blocks + size
    /\ Impl.m_pool this' = Impl.m_pool this
    /\ same_totals (Impl.m_stats this) (Impl.m_stats this')
    /\ (forall i, sentinel (Impl.m_segregatedRangeLists this') i
                  = sentinel (Impl.m_segregatedRangeLists this) i)
    /\ (forall a, a < p' \/ p <= a ->
                  no_link_cell (Impl.m_segregatedRangeLists this) blocks a ->
                  load (Impl.heap this') a = load (Impl.heap this) a)
    /\ (forall i u, 0 <= i < 32 -> In u (blocks' i) ->
          FreedBlock.Size (Impl.heap this') u = FreedBlock.Size (Impl.heap this) u).
Proof.
  intros Hok Hp0 Hsize Hend Hclear Hpre.
  destruct pre as [u | ]; cbv zeta; cbn [merged].
  - (* the free block [u] ends at [p] *)
    destruct Hpre as (Hbase & (c & Hc & Hu) & Eend).
    set (h := Impl.heap this) in *.
    pose proof (hp_tagged _ _ _ Hok c u Hc Hu) as Htag. fold h in Htag.
    pose proof (tg_range _ _ Htag) as [Hu0 _]. pose proof (tg_size _ _ Htag) as [Hs Hm].
    pose proof (heap_ok_positive fuel this blocks c u Hok Hc Hu) as Hupos.
    pose proof (hp_tags _ _ _ Hok) as [Tc Tb]. fold h in Tb.
    pose proof (free_count_In blocks c u Hc Hu) as Hcount.
    pose proof (free_bytes_In h blocks c u Hc Hu) as Hbytes.
    destruct (tagged_IsFreedBlock h u Htag) as [_ Hfoot].
    destruct (tg_footer _ _ Htag) as (F1 & F2 & F3).
    set (su := FreedBlock.Size h u) in *.
    assert (Efooter : wrap (p - sizeof_FreedBlock) = u + su - sizeof_FreedBlock).
    { rewrite <- Eend. apply wrap_small. unfold is_size_t, sizeof_FreedBlock in *. lia. }
    assert (Eprec : BoundaryTagManager.PrecedingBlock (Impl.m_boundaryTagManager this) h p
                      (Pool.base (Impl.m_pool this)) = Ok u).
    { unfold BoundaryTagManager.PrecedingBlock.
      destruct (Z.eqb_spec p (Pool.base (Impl.m_pool this))); [contradiction | ].
      rewrite Efooter, Hfoot. cbn [negb].
      rewrite FreedBlock_Validate_intro;
        try (rewrite ?F2; unfold sizeof_FreedBlock in *; auto; lia).
      cbn [bind]. rewrite F2.
      replace (wrap (p - su)) with u
        by (symmetry; rewrite <- Eend; replace (u + su - su) with u by lia;
            apply wrap_small; unfold is_size_t, sizeof_FreedBlock in *; lia).
      rewrite (tagged_valid _ h u Htag) by (rewrite ?Tc, ?Tb; fold su; lia).
      reflexivity. }
    destruct (RemoveFromFreelist_run fuel this blocks c u Hok Hc Hu)
      as (bs1 & bs2 & this' & Ebs & Hrun & Hok' & Hpool & Hstats & Hsent & Hframe & Hcount'
          & Hbytes').
    fold h su in Hframe, Hbytes'.
    set (blocks' := fun i => if i =? c then bs1 ++ bs2 else blocks i) in *.
    exists this', blocks'.
    assert (Hsub : forall i v, 0 <= i < 32 -> In v (blocks' i) -> In v (blocks i) /\ v <> u).
    { intros i v Hi Hv.
      pose proof (rec_within _ _ (hp_records _ _ _ Hok) c Hc) as Hw.
      unfold records in Hw. rewrite Ebs in Hw.
      change (pairwise_apart ((sentinel (Impl.m_segregatedRangeLists this) c :: bs1)
                              ++ u :: bs2)) in Hw.
      apply pairwise_apart_app_inv in Hw. destruct Hw as (_ & H2 & H12).
      cbn [pairwise_apart] in H2. destruct H2 as [H2 _]. rewrite Forall_forall in H2.
      unfold blocks' in Hv. destruct (Z.eqb_spec i c) as [-> | Hne].
      - rewrite Ebs. apply in_app_or in Hv. destruct Hv as [Hv | Hv].
        + split; [apply in_or_app; auto | ].
          apply apart_neq. apply H12; simpl; auto.
        + split; [apply in_or_app; simpl; auto | ].
          intros E. apply H2 in Hv. apply apart_neq in Hv. congruence.
      - split; [exact Hv | ]. intros ->.
        assert (A : apart u u).
        { apply (rec_across _ _ (hp_records _ _ _ Hok) i c); try assumption.
          - right. exact Hv.
          - right. exact Hu. }
        now apply apart_neq in A. }
    assert (Hsizes : forall i v, 0 <= i < 32 -> In v (blocks' i) ->
                       FreedBlock.Size (Impl.heap this') v = FreedBlock.Size h v).
    { intros i v Hi Hv. destruct (Hsub i v Hi Hv) as [Hv' Hne].
      pose proof (tg_size _ _ (hp_tagged _ _ _ Hok i v Hi Hv')) as [Hsv _]. fold h in Hsv.
      assert (Ho : u + su <= v \/ v + FreedBlock.Size h v <= u).
      { destruct (hp_disjoint _ _ _ Hok c i u v Hc Hi Hu Hv') as [H | H];
          [congruence | fold h su in H; auto | fold h in H; auto]. }
      unfold FreedBlock.Size at 1. unfold FreedBlock.m_size, FreedBlock.m_size_at.
      rewrite Hframe; [reflexivity | | ].
      - unfold sizeof_FreedBlock in *. lia.
      - apply (header_cells_no_link fuel this blocks i v); auto. }
    split; [ | split; [exact Hok' | split; [ | split; [unfold sizeof_FreedBlock in *; lia
      | split; [exact Hsub | ]]]]].
    + unfold Impl.Coalesce_preceding. fold h. rewrite Eprec. cbn [bind].
      destruct (Z.eqb_spec u 0); [lia | ]. cbn [negb]. rewrite Hrun. cbn [bind].
      fold su. f_equal. f_equal. f_equal.
      * rewrite <- Eend. replace (u + su - su) with u by lia.
        apply wrap_small. unfold is_size_t, sizeof_FreedBlock in *. lia.
      * rewrite <- Eend. replace (u + su + size - u) with (size + su) by lia.
        apply wrap_small. unfold is_size_t, sizeof_FreedBlock in *. lia.
    + destruct Hclear as [Hcb Hcs]. split.
      * intros i v Hi Hv. destruct (Hsub i v Hi Hv) as [Hv' Hne].
        rewrite (Hsizes i v Hi Hv). replace (u + (p + size - u)) with (p + size) by lia.
        destruct (Hcb i v Hi Hv') as [H | H]; [auto | fold h in H].
        pose proof (tg_size _ _ (hp_tagged _ _ _ Hok i v Hi Hv')) as [Hsv _]. fold h in Hsv.
        destruct (hp_disjoint _ _ _ Hok c i u v Hc Hi Hu Hv') as [H' | H'];
          [congruence | fold h su in H'; unfold sizeof_FreedBlock in *; lia
          | fold h in H'; auto].
      * intros j Hj. rewrite Hsent.
        replace (u + (p + size - u)) with (p + size) by lia.
        destruct (Hcs j Hj); [ | auto].
        destruct (hp_sentinels _ _ _ Hok c j u Hc Hj Hu) as [H' | H'];
          [auto | fold h su in H'; unfold sizeof_FreedBlock in *; lia].
    + split; [ | split; [ | split; [ | split; [ | split; [exact Hpool | split;
        [exact Hstats | split; [exact Hsent | ]]]]]]].
      * intros i v Hi Hv Hne. unfold blocks'.
        destruct (Z.eqb_spec i c) as [-> | Hnc]; [ | exact Hv].
        rewrite Ebs in Hv. apply in_app_or in Hv. apply in_or_app.
        destruct Hv as [Hv | [Hv | Hv]]; [auto | congruence | auto].
      * intros i Hi. unfold blocks'.
        destruct (Z.eqb_spec i c) as [-> | Hnc]; [ | lia].
        rewrite Ebs, !length_app. cbn [length]. lia.
      * lia.
      * rewrite Hbytes'. lia.
      * split; [ | exact Hsizes].
        intros a Ha Hno. apply Hframe; [lia | exact Hno].
  - (* nothing to merge with *)
    exists this, blocks.
    assert (Eprec : BoundaryTagManager.PrecedingBlock (Impl.m_boundaryTagManager this)
                      (Impl.heap this) p (Pool.base (Impl.m_pool this)) = Ok 0).
    { unfold BoundaryTagManager.PrecedingBlock.
      destruct (Z.eqb_spec p (Pool.base (Impl.m_pool this))) as [E | E]; [reflexivity | ].
      destruct Hpre as [Hpre | Hpre]; [contradiction | ]. now rewrite Hpre. }
    replace (p + size - p) with size by lia.
    split; [ | split; [exact Hok | split; [exact Hclear | split; [lia | split]]]].
    + unfold Impl.Coalesce_preceding. rewrite Eprec. reflexivity.
    + intros i u Hi Hu. split; [exact Hu | ]. intros ->.
      destruct Hclear as [Hcb _]. destruct (Hcb i p Hi Hu) as [H | H].
      * lia.
      * pose proof (tg_size _ _ (hp_tagged _ _ _ Hok i p Hi Hu)) as [Hs _].
        unfold sizeof_FreedBlock in *. lia.
    + split; [auto | split; [intros; lia | split; [lia | split; [lia | ]]]].
      split; [reflexivity | split; [repeat split | split; [reflexivity | ]]].
      split; reflexivity.
Qed.

(** The second half of [Coalesce] on a well-formed allocator. *)
Lemma Coalesce_following_run fuel this blocks p size fol :
  heap_ok fuel this blocks ->
  0 < p -> 0 < size -> p + size < 2 ^ 32 ->
  clear this blocks p size ->
  following_at this blocks (p + size) fol ->
  let size' := size + match fol with
                      | Some v => FreedBlock.Size (Impl.heap this) v
                      | None => 0
                      end in
  exists this' blocks',
    Impl.Coalesce_following this p size = Ok (p, size', this')
    /\ heap_ok fuel this' blocks'
    /\ clear this' blocks' p size'
    /\ p + size' <= 2 ^ 32
    /\ (forall i u, 0 <= i < 32 -> In u (blocks' i) -> In u (blocks i) /\ Some u <> fol)
    /\ (forall i u, 0 <= i < 32 -> In u (blocks i) -> Some u <> fol -> In u (blocks' i))
    /\ (forall i, 0 <= i < 32 -> (length (blocks' i) <= length (blocks i))%nat)
    /\ free_count blocks' = free_count blocks - merged fol
    /\ free_bytes (Impl.heap this') blocks' + size'
       = free_bytes (Impl.heap this) blocks + size
    /\ Impl.m_pool this' = Impl.m_pool this
    /\ same_totals (Impl.m_stats this) (Impl.m_stats this')
    /\ (forall i, sentinel (Impl.m_segregatedRangeLists this') i
                  = sentinel (Impl.m_segregatedRangeLists this) i).
Proof.
  intros Hok Hp0 Hsize Hend Hclear Hfol.
  assert (Ewrap : wrap (p + size) = p + size)
    by (apply wrap_small; unfold is_size_t; lia).
  destruct fol as [v | ]; cbv zeta; cbn [merged].
  - (* the free block at [p + size] *)
    destruct Hfol as (Hpool_end & -> & (c & Hc & Hv)).
    set (q := p + size) in *.
    set (h := Impl.heap this) in *.
    pose proof (hp_tagged _ _ _ Hok c q Hc Hv) as Htag. fold h in Htag.
    pose proof (tg_range _ _ Htag) as [_ Hqend]. pose proof (tg_size _ _ Htag) as [Hs Hm].
    pose proof (hp_tags _ _ _ Hok) as [Tc Tb]. fold h in Tb.
    pose proof (free_count_In blocks c q Hc Hv) as Hcount.
    pose proof (free_bytes_In h blocks c q Hc Hv) as Hbytes.
    destruct (tagged_IsFreedBlock h q Htag) as [Hhead _].
    set (sq := FreedBlock.Size h q) in *.
    assert (Efol : BoundaryTagManager.FollowingBlock (Impl.m_boundaryTagManager this) h p size
                     (wrap (Pool.base (Impl.m_pool this) + Pool.pos (Impl.m_pool this)))
                   = Ok q).
    { unfold BoundaryTagManager.FollowingBlock. fold q. rewrite Ewrap.
      destruct (Z.eqb_spec q (wrap (Pool.base (Impl.m_pool this)
                                    + Pool.pos (Impl.m_pool this)))); [contradiction | ].
      rewrite Hhead. cbn [negb].
      rewrite (tagged_valid _ h q Htag) by (rewrite ?Tc, ?Tb; fold sq; lia).
      reflexivity. }
    destruct (RemoveFromFreelist_run fuel this blocks c q Hok Hc Hv)
      as (bs1 & bs2 & this' & Ebs & Hrun & Hok' & Hpool & Hstats & Hsent & Hframe & Hcount'
          & Hbytes').
    fold h sq in Hframe, Hbytes'.
    set (blocks' := fun i => if i =? c then bs1 ++ bs2 else blocks i) in *.
    exists this', blocks'.
    assert (Hsub : forall i v, 0 <= i < 32 -> In v (blocks' i) -> In v (blocks i) /\ v <> q).
    { intros i v Hi Hv'.
      pose proof (rec_within _ _ (hp_records _ _ _ Hok) c Hc) as Hw.
      unfold records in Hw. rewrite Ebs in Hw.
      change (pairwise_apart ((sentinel (Impl.m_segregatedRangeLists this) c :: bs1)
                              ++ q :: bs2)) in Hw.
      apply pairwise_apart_app_inv in Hw. destruct Hw as (_ & H2 & H12).
      cbn [pairwise_apart] in H2. destruct H2 as [H2 _]. rewrite Forall_forall in H2.
      unfold blocks' in Hv'. destruct (Z.eqb_spec i c) as [-> | Hne].
      - rewrite Ebs. apply in_app_or in Hv'. destruct Hv' as [Hv' | Hv'].
        + split; [apply in_or_app; auto | ].
          apply apart_neq. apply H12; simpl; auto.
        + split; [apply in_or_app; simpl; auto | ].
          intros E. apply H2 in Hv'. apply apart_neq in Hv'. congruence.
      - split; [exact Hv' | ]. intros ->.
        assert (A : apart q q).
        { apply (rec_across _ _ (hp_records _ _ _ Hok) i c); try assumption.
          - right. exact Hv'.
          - right. exact Hv. }
        now apply apart_neq in A. }
    assert (Hsizes : forall i v, 0 <= i < 32 -> In v (blocks' i) ->
                       FreedBlock.Size (Impl.heap this') v = FreedBlock.Size h v).
    { intros i v Hi Hv'. destruct (Hsub i v Hi Hv') as [Hv0 Hne].
      pose proof (tg_size _ _ (hp_tagged _ _ _ Hok i v Hi Hv0)) as [Hsv _]. fold h in Hsv.
      assert (Ho : q + sq <= v \/ v + FreedBlock.Size h v <= q).
      { destruct (hp_disjoint _ _ _ Hok c i q v Hc Hi Hv Hv0) as [H | H];
          [congruence | fold h sq in H; auto | fold h in H; auto]. }
      unfold FreedBlock.Size at 1. unfold FreedBlock.m_size, FreedBlock.m_size_at.
      rewrite Hframe; [reflexivity | | ].
      - unfold sizeof_FreedBlock in *. lia.
      - apply (header_cells_no_link fuel this blocks i v); auto. }
    split; [ | split; [exact Hok' | split; [ | split; [lia | split]]]].
    + unfold Impl.Coalesce_following. fold h. rewrite Efol. cbn [bind].
      destruct (Z.eqb_spec q 0); [lia | ]. cbn [negb]. rewrite Hrun. cbn [bind].
      fold sq. f_equal. f_equal. f_equal.
      apply wrap_small. unfold is_size_t, sizeof_FreedBlock in *. lia.
    + destruct Hclear as [Hcb Hcs]. split.
      * intros i v Hi Hv'. destruct (Hsub i v Hi Hv') as [Hv0 Hne].
        rewrite (Hsizes i v Hi Hv').
        pose proof (tg_size _ _ (hp_tagged _ _ _ Hok i v Hi Hv0)) as [Hsv _]. fold h in Hsv.
        destruct (Hcb i v Hi Hv0) as [H | H]; fold h in H.
        -- destruct (hp_disjoint _ _ _ Hok c i q v Hc Hi Hv Hv0) as [H' | H'];
             [congruence | fold h sq in H'; lia
             | fold h in H'; unfold sizeof_FreedBlock in *; lia].
        -- auto.
      * intros j Hj. rewrite Hsent.
        destruct (Hcs j Hj) as [H | H]; [auto | ].
        destruct (hp_sentinels _ _ _ Hok c j q Hc Hj Hv) as [H' | H'];
          [unfold sizeof_FreedBlock in *; lia | fold h sq in H'; lia].
    + intros i v Hi Hv'. destruct (Hsub i v Hi Hv') as [Hv0 Hne].
      split; [exact Hv0 | congruence].
    + split; [ | split; [ | split; [ | split; [ | split; [exact Hpool | split;
        [exact Hstats | exact Hsent]]]]]].
      * intros i v Hi Hv' Hne. unfold blocks'.
        destruct (Z.eqb_spec i c) as [-> | Hnc]; [ | exact Hv'].
        rewrite Ebs in Hv'. apply in_app_or in Hv'. apply in_or_app.
        destruct Hv' as [Hv' | [Hv' | Hv']]; [auto | congruence | auto].
      * intros i Hi. unfold blocks'.
        destruct (Z.eqb_spec i c) as [-> | Hnc]; [ | lia].
        rewrite Ebs, !length_app. cbn [length]. lia.
      * lia.
      * rewrite Hbytes'. lia.
  - (* nothing to merge with *)
    exists this, blocks.
    assert (Efol : BoundaryTagManager.FollowingBlock (Impl.m_boundaryTagManager this)
                     (Impl.heap this) p size
                     (wrap (Pool.base (Impl.m_pool this) + Pool.pos (Impl.m_pool this)))
                   = Ok 0).
    { unfold BoundaryTagManager.FollowingBlock. rewrite Ewrap.
      destruct (Z.eqb_spec (p + size)
                  (wrap (Pool.base (Impl.m_pool this) + Pool.pos (Impl.m_pool this))))
        as [E | E]; [reflexivity | ].
      destruct Hfol as [Hfol | [Hfol _]]; [contradiction | ]. now rewrite Hfol. }
    rewrite Z.add_0_r.
    split; [ | split; [exact Hok | split; [exact Hclear | split; [lia | split]]]].
    + unfold Impl.Coalesce_following. rewrite Efol. reflexivity.
    + intros i u Hi Hu. split; [exact Hu | discriminate].
    + split; [auto | split; [intros; lia | split; [lia | split; [lia | ]]]].
      split; [reflexivity | split; [repeat split | reflexivity]].
Qed.

Lemma records_subset lists lists' blocks blocks' :
  (forall i, sentinel lists' i = sentinel lists i) ->
  (forall i u, 0 <= i < 32 -> In u (blocks' i) -> In u (blocks i)) ->
  forall j v, 0 <= j < 32 -> In v (records lists' blocks' j) -> In v (records lists blocks j).
Proof.
  intros Hsent Hsub j v Hj [<- | Hv]; unfold records.
  - left. symmetry. apply Hsent.
  - right. now apply Hsub.
Qed.

(** [Coalesce] on a well-formed allocator: the block grows over the free
    blocks next to it, which leave the lists. *)
Lemma Coalesce_run fuel this blocks p size pre fol :
  heap_ok fuel this blocks ->
  0 < p -> 0 < size -> p + size < 2 ^ 32 ->
  clear this blocks p size ->
  preceding_is this blocks p pre ->
  following_at this blocks (p + size) fol ->
  let p' := match pre with Some u => u | None => p end in
  let size' := p + size - p'
               + match fol with
                 | Some v => FreedBlock.Size (Impl.heap this) v
                 | None => 0
                 end in
  exists this' blocks',
    Impl.Coalesce this p size = Ok (p', size', this')
    /\ heap_ok fuel this' blocks'
    /\ clear this' blocks' p' size'
    /\ 0 < p' <= p /\ p' + size' <= 2 ^ 32
    /\ (forall i u, 0 <= i < 32 -> In u (blocks' i) ->
          In u (blocks i) /\ Some u <> pre /\ Some u <> fol)
    /\ (forall i u, 0 <= i < 32 -> In u (blocks i) -> Some u <> pre -> Some u <> fol ->
          In u (blocks' i))
    /\ (forall i, 0 <= i < 32 -> (length (blocks' i) <= length (blocks i))%nat)
    /\ free_count blocks' = free_count blocks - (merged pre + merged fol)
    /\ free_bytes (Impl.heap this') blocks' + size'
       = free_bytes (Impl.heap this) blocks + size
    /\ Impl.m_pool this' = Impl.m_pool this
    /\ same_totals (Impl.m_stats this) (Impl.m_stats this')
    /\ (forall i, sentinel (Impl.m_segregatedRangeLists this') i
                  = sentinel (Impl.m_segregatedRangeLists this) i).
Proof.
  intros Hok Hp0 Hsize Hend Hclear Hpre Hfol. cbv zeta.
  destruct (Coalesce_preceding_run fuel this blocks p size pre Hok Hp0 Hsize
              ltac:(lia) Hclear Hpre)
    as (this1 & blocks1 & Hrun1 & Hok1 & Hclear1 & Hp1 & Hsub1 & Hsup1 & Hlen1 & Hcount1
        & Hbytes1 & Hpool1 & Hstats1 & Hsent1 & Hframe1 & Hsizes1).
  set (p1 := match pre with Some u => u | None => p end) in *.
  set (size1 := p + size - p1) in *.
  assert (Eq : p1 + size1 = p + size) by (unfold size1; lia).
  assert (Hfol1 : following_at this1 blocks1 (p1 + size1) fol).
  { rewrite Eq. destruct fol as [v | ]; cbn [following_at] in *.
    - destruct Hfol as (Hne & -> & (i & Hi & Hv)). rewrite Hpool1.
      split; [exact Hne | split; [reflexivity | ]]. exists i. split; [exact Hi | ].
      apply Hsup1; [exact Hi | exact Hv | lia].
    - rewrite Hpool1.
      destruct Hfol as [Hfol | (Hfol & Hq & Hq16)]; [left; exact Hfol | right].
      assert (Hrecs : forall j v, 0 <= j < 32 ->
                In v (records (Impl.m_segregatedRangeLists this1) blocks1 j) ->
                In v (records (Impl.m_segregatedRangeLists this) blocks j)).
      { apply (records_subset _ _ blocks blocks1 Hsent1).
        intros i u Hi Hu. now apply (Hsub1 i u Hi). }
      split; [ | split].
      + rewrite <- Hfol. unfold FreedBlock.IsFreedBlock, FreedBlock.m_id, FreedBlock.m_magic,
          FreedBlock.m_id_at, FreedBlock.m_magic_at.
        rewrite !Hframe1; [reflexivity | | | | ]; try lia; assumption.
      + intros j v Hj Hv. apply (Hq j v Hj). now apply Hrecs.
      + intros j v Hj Hv. apply (Hq16 j v Hj). now apply Hrecs. }
  destruct (Coalesce_following_run fuel this1 blocks1 p1 size1 fol Hok1 ltac:(lia)
              ltac:(unfold size1; lia) ltac:(lia) Hclear1 Hfol1)
    as (this2 & blocks2 & Hrun2 & Hok2 & Hclear2 & Hend2 & Hsub2 & Hsup2 & Hlen2 & Hcount2
        & Hbytes2 & Hpool2 & Hstats2 & Hsent2).
  assert (Esize : match fol with
                  | Some v => FreedBlock.Size (Impl.heap this1) v
                  | None => 0
                  end
                  = match fol with
                    | Some v => FreedBlock.Size (Impl.heap this) v
                    | None => 0
                    end).
  { destruct fol as [v | ]; [ | reflexivity].
    cbn [following_is] in Hfol1. destruct Hfol1 as (_ & _ & (i & Hi & Hv)).
    now apply (Hsizes1 i). }
  rewrite Esize in *.
  exists this2, blocks2.
  split; [ | split; [exact Hok2 | split; [exact Hclear2 | split; [exact Hp1 | split;
    [exact Hend2 | split; [ | split; [ | split; [ | split; [lia | split; [lia | split;
    [congruence | split]]]]]]]]]]].
  - unfold Impl.Coalesce. rewrite Hrun1. cbn [bind]. exact Hrun2.
  - intros i u Hi Hu. destruct (Hsub2 i u Hi Hu) as [Hu1 Hnf].
    destruct (Hsub1 i u Hi Hu1) as [Hu0 Hnp].
    split; [exact Hu0 | split; [ | exact Hnf]].
    unfold p1 in Hnp. destruct pre; [congruence | discriminate].
  - intros i u Hi Hu Hnp Hnf. apply Hsup2; [exact Hi | | exact Hnf].
    apply Hsup1; [exact Hi | exact Hu | ].
    unfold p1. destruct pre as [w | ]; [congruence | ].
    intros ->. destruct Hclear as [Hcb _]. destruct (Hcb i p Hi Hu) as [H | H]; [lia | ].
    pose proof (tg_size _ _ (hp_tagged _ _ _ Hok i p Hi Hu)) as [Hs _].
    unfold sizeof_FreedBlock in *. lia.
  - intros i Hi. specialize (Hlen1 i Hi). specialize (Hlen2 i Hi). lia.
  - destruct Hstats1 as (A1 & A2 & A3 & A4 & A5 & A6).
    destruct Hstats2 as (B1 & B2 & B3 & B4 & B5 & B6).
    unfold same_totals. repeat split; congruence.
  - intros i. now rewrite Hsent2, Hsent1.
Qed.

(* ================================================================== *)
(** * Deallocate on a well-formed allocator *)

Lemma Stats_OnDeallocate_run this size :
  stats_in_range this -> is_size_t size ->
  Stats.Validate this = Ok tt ->
  Stats.m_currentExtantBlocks this <> 0 ->
  size <= Stats.m_currentExtantBytes this ->
  exists this',
    Stats.OnDeallocate this size = Ok this'
    /\ Stats.Validate this' = Ok tt
    /\ Stats.m_currentFreeBlocks this' = Stats.m_currentFreeBlocks this
    /\ Stats.m_currentFreeBytes this' = Stats.m_currentFreeBytes this.
Proof.
  intros Hrange Hsize Hvalid Hblocks Hbytes.
  assert (Hrun : exists this', Stats.OnDeallocate this size = Ok this'
                   /\ Stats.m_currentFreeBlocks this' = Stats.m_currentFreeBlocks this
                   /\ Stats.m_currentFreeBytes this' = Stats.m_currentFreeBytes this).
  { pose proof Hrange as (R1 & R2 & R3 & R4 & R5 & R6 & _).
    pose proof Hvalid as Hv. apply Stats_Validate_spec in Hv.
    destruct Hv as (H1 & H2 & H3 & H4).
    unfold Stats.OnDeallocate. sanity.
    assert (E1 : (wrap (Stats.m_totalDeallocatedBlocks this + 1)
                  <=? Stats.m_totalAllocatedBlocks this) = true).
    { apply Z.leb_le. rewrite H3 in Hblocks. wrap_lia. }
    rewrite E1, Z.leb_refl. cbn [debug_assert bind].
    destruct (Z.eqb_spec (Stats.m_currentExtantBlocks this) 0); [contradiction | ].
    destruct (Z.geb_spec (Stats.m_currentExtantBytes this) size); [ | lia].
    cbn [negb debug_assert bind]. eexists. split; [reflexivity | split; reflexivity]. }
  destruct Hrun as (this' & Hrun & F1 & F2). exists this'.
  split; [exact Hrun | split; [ | split; assumption]].
  now apply (Stats_OnDeallocate_valid this size this').
Qed.

(** Replacing the statistics by ones with the same free counters. *)
Lemma heap_ok_stats fuel this blocks stats :
  heap_ok fuel this blocks ->
  Stats.m_currentFreeBlocks stats = Stats.m_currentFreeBlocks (Impl.m_stats this) ->
  Stats.m_currentFreeBytes stats = Stats.m_currentFreeBytes (Impl.m_stats this) ->
  heap_ok fuel (Impl.mk (Impl.heap this) (Impl.m_pool this) (Impl.m_segregatedRangeLists this)
                  (Impl.m_boundaryTagManager this) stats) blocks.
Proof.
  intros [H1 H2 H3 H4 H5 H6 H7 H8] E1 E2.
  constructor; cbn [Impl.heap Impl.m_segregatedRangeLists Impl.m_boundaryTagManager
                    Impl.m_stats]; try assumption.
  rewrite E1, E2. exact H8.
Qed.

Lemma mod16_add a b : a mod 16 = 0 -> b mod 16 = 0 -> (a + b) mod 16 = 0.
Proof. intros Ha Hb. rewrite Z.add_mod, Ha, Hb by lia. reflexivity. Qed.

Lemma SizeClass_le_31 size :
  is_size_t size -> size <= 2 ^ 31 -> SegregatedRangeLists.SizeClass size <= 31.
Proof.
  intros Hr Hle. unfold SegregatedRangeLists.SizeClass, ceil_log2.
  rewrite wrap_small by assumption.
  change 31 with (Z.log2_up (2 ^ 31)). now apply Z.log2_up_le_mono.
Qed.

(** X21.  [Coalesce] merges a block with the free blocks next to it.  On
    a well-formed allocator, for a block that overlaps no free block and no
    sentinel: when the bytes before it are the footer of the free block
    [u] that ends there, the block grows down to [u]; when the bytes after
    it are the header of a free block [v], it grows up over [v]; at the
    pool's ends, or where the bytes are no tag, it stays.  The merged free
    blocks, and only they, leave the lists; the allocator stays well
    formed, the grown block overlaps nothing that is left, and the bytes of
    the free blocks and of the block add up as before. *)
Theorem Coalesce_merges_neighbours
    (fuel : nat) (this : Impl.t) (blocks : Z -> list ptr) (p size : Z)
    (pre fol : option ptr) :
  heap_ok fuel this blocks ->
  0 < p -> 0 < size -> p + size < 2 ^ 32 ->
  clear this blocks p size ->
  preceding_is this blocks p pre ->
  following_is this blocks (p + size) fol ->
  let p' := match pre with Some u => u | None => p end in
  let size' := p + size - p'
               + match fol with
                 | Some v => FreedBlock.Size (Impl.heap this) v
                 | None => 0
                 end in
  exists this' blocks',
    Impl.Coalesce this p size = Ok (p', size', this')
    /\ heap_ok fuel this' blocks'
    /\ clear this' blocks' p' size'
    /\ (forall i u, 0 <= i < 32 ->
          (In u (blocks' i) <-> In u (blocks i) /\ Some u <> pre /\ Some u <> fol))
    /\ free_bytes (Impl.heap this') blocks' + size'
       = free_bytes (Impl.heap this) blocks + size
    /\ Impl.m_pool this' = Impl.m_pool this.
Proof.
  intros Hok Hp0 Hsize Hend Hclear Hpre Hfol.
  destruct (Coalesce_run fuel this blocks p size pre fol Hok Hp0 Hsize Hend Hclear Hpre
              (following_is_at _ _ _ _ Hfol))
    as (this' & blocks' & Hrun & Hok' & Hclear' & _ & _ & Hsub & Hsup & _ & _ & Hbytes
        & Hpool & _).
  exists this', blocks'. cbv zeta.
  split; [exact Hrun | split; [exact Hok' | split; [exact Hclear' | split;
    [ | split; [exact Hbytes | exact Hpool]]]]].
  intros i u Hi. split.
  - apply (Hsub i u Hi).
  - intros (H1 & H2 & H3). now apply (Hsup i u Hi).
Qed.

(** [Deallocate] on a well-formed allocator. *)
Lemma Deallocate_run
    (fuel : nat) (this : Impl.t) (blocks : Z -> list ptr) (p size : Z)
    (pre fol : option ptr) :
  heap_ok fuel this blocks ->
  stats_in_range (Impl.m_stats this) ->
  Stats.Validate (Impl.m_stats this) = Ok tt ->
  Stats.m_currentExtantBlocks (Impl.m_stats this) <> 0 ->
  size <= Stats.m_currentExtantBytes (Impl.m_stats this) ->
  p mod minAlignment = 0 ->
  2 * sizeof_FreedBlock <= size -> size mod 16 = 0 ->
  Pool.pool_contains (Impl.m_pool this) p = true ->
  Pool.pool_contains (Impl.m_pool this) (p + size - 1) = true ->
  0 < p -> p + size < 2 ^ 32 ->
  clear this blocks p size ->
  preceding_is this blocks p pre ->
  following_at this blocks (p + size) fol ->
  (forall i, 0 <= i < 32 -> (S (length (blocks i)) < fuel)%nat) ->
  free_count blocks + 1 < 2 ^ 32 ->
  free_bytes (Impl.heap this) blocks + size <= 2 ^ 31 ->
  let p' := match pre with Some u => u | None => p end in
  let size' := p + size - p'
               + match fol with
                 | Some v => FreedBlock.Size (Impl.heap this) v
                 | None => 0
                 end in
  exists this' blocks',
    Impl.Deallocate fuel this p size = Ok this'
    /\ heap_ok fuel this' blocks'
    /\ Impl.Validate fuel this' = Ok tt
    /\ FreedBlock.Size (Impl.heap this') p' = size'
    /\ (forall i u, 0 <= i < 32 ->
          (In u (blocks' i) <->
           (i = SegregatedRangeLists.SizeClass size' /\ u = p')
           \/ (In u (blocks i) /\ Some u <> pre /\ Some u <> fol)))
    /\ free_bytes (Impl.heap this') blocks' = free_bytes (Impl.heap this) blocks + size
    /\ Impl.m_pool this' = Impl.m_pool this
    /\ free_count blocks' = free_count blocks + 1 - (merged pre + merged fol)
    /\ Stats.Validate (Impl.m_stats this') = Ok tt.
Proof.
  intros Hok Hrange Hvalid Hextant Hextant_b Halign Hsize Hmod Hin1 Hin2 Hp0 Hend Hclear
    Hpre Hfol Hfuel Hcount Hbytes. cbv zeta.
  assert (Hsz : is_size_t size) by (unfold is_size_t, sizeof_FreedBlock in *; lia).
  destruct (Stats_OnDeallocate_run _ size Hrange Hsz Hvalid Hextant Hextant_b)
    as (stats1 & Hstats1 & Hvalid1 & F1 & F2).
  set (this1 := Impl.mk (Impl.heap this) (Impl.m_pool this) (Impl.m_segregatedRangeLists this)
                  (Impl.m_boundaryTagManager this) stats1).
  pose proof (heap_ok_stats fuel this blocks stats1 Hok F1 F2) as Hok1. fold this1 in Hok1.
  destruct (Coalesce_run fuel this1 blocks p size pre fol Hok1 Hp0 ltac:(unfold
              sizeof_FreedBlock in *; lia) Hend Hclear Hpre Hfol)
    as (this2 & blocks2 & Hrun2 & Hok2 & Hclear2 & Hp2 & Hend2 & Hsub2 & Hsup2 & Hlen2
        & Hcount2 & Hbytes2 & Hpool2 & Hstats2 & Hsent2).
  change (Impl.heap this1) with (Impl.heap this) in *.
  change (Impl.m_pool this1) with (Impl.m_pool this) in *.
  set (p' := match pre with Some u => u | None => p end) in *.
  set (size' := p + size - p'
                + match fol with
                  | Some v => FreedBlock.Size (Impl.heap this) v
                  | None => 0
                  end) in *.
  (* the grown block *)
  assert (Hpre_size : p + size - p' = size
                      \/ exists u i, 0 <= i < 32 /\ In u (blocks i)
                           /\ p + size - p' = size + FreedBlock.Size (Impl.heap this) u).
  { unfold p'. destruct pre as [u | ]; [right | left; lia].
    destruct Hpre as (_ & (i & Hi & Hu) & E). exists u, i.
    split; [exact Hi | split; [exact Hu | lia]]. }
  assert (Hfol_size : match fol with
                      | Some v => FreedBlock.Size (Impl.heap this) v
                      | None => 0
                      end = 0
                      \/ exists v i, 0 <= i < 32 /\ In v (blocks i)
                           /\ match fol with
                              | Some v => FreedBlock.Size (Impl.heap this) v
                              | None => 0
                              end = FreedBlock.Size (Impl.heap this) v).
  { destruct fol as [v | ]; [right | left; reflexivity].
    destruct Hfol as (_ & _ & (i & Hi & Hv)). exists v, i. auto. }
  assert (Hsize' : 2 * sizeof_FreedBlock <= size' /\ size' mod 16 = 0).
  { assert (Hfree_size : forall u i, 0 <= i < 32 -> In u (blocks i) ->
              0 <= FreedBlock.Size (Impl.heap this) u
              /\ FreedBlock.Size (Impl.heap this) u mod 16 = 0).
    { intros u i Hi Hu. pose proof (tg_size _ _ (hp_tagged _ _ _ Hok i u Hi Hu)) as [H1 H2].
      unfold sizeof_FreedBlock in *. split; [lia | exact H2]. }
    unfold size'.
    destruct Hpre_size as [-> | (u & i & Hi & Hu & ->)];
      destruct Hfol_size as [-> | (v & j & Hj & Hv & ->)].
    - rewrite Z.add_0_r. auto.
    - destruct (Hfree_size v j Hj Hv). split; [lia | now apply mod16_add].
    - destruct (Hfree_size u i Hi Hu). rewrite Z.add_0_r.
      split; [lia | now apply mod16_add].
    - destruct (Hfree_size u i Hi Hu). destruct (Hfree_size v j Hj Hv).
      split; [lia | ]. apply mod16_add; [now apply mod16_add | assumption]. }
  destruct Hsize' as [Hsize' Hmod'].
  pose proof (free_bytes_nonneg (Impl.heap this2) blocks2) as Hnonneg.
  assert (Hclass : SegregatedRangeLists.SizeClass size' < 32).
  { assert (SegregatedRangeLists.SizeClass size' <= 31); [ | lia].
    apply SizeClass_le_31; [unfold is_size_t, sizeof_FreedBlock in *; lia | lia]. }
  pose proof (merged_range pre) as Hmp. pose proof (merged_range fol) as Hmf.
  destruct Hclear2 as [Hcb2 Hcs2].
  destruct (AddToFreelist_run fuel this2 blocks2 p' size' Hok2 ltac:(lia) Hend2 Hsize' Hmod'
              Hclass Hcb2 Hcs2)
    as (bs1 & bs2 & this3 & Ebs & Hrun3 & Hok3 & Hsize3 & Hpool3 & Hstats3 & Hsent3 & _
        & Hcount3 & Hbytes3).
  { pose proof (SizeClass_nonneg size').
    specialize (Hfuel (SegregatedRangeLists.SizeClass size') ltac:(lia)).
    specialize (Hlen2 (SegregatedRangeLists.SizeClass size') ltac:(lia)). lia. }
  { lia. }
  { lia. }
  set (c := SegregatedRangeLists.SizeClass size') in *.
  set (blocks3 := fun i => if i =? c then bs1 ++ p' :: bs2 else blocks2 i) in *.
  assert (Hvalid3 : Stats.Validate (Impl.m_stats this3) = Ok tt).
  { rewrite (same_totals_Validate _ _ Hstats3), (same_totals_Validate _ _ Hstats2).
    exact Hvalid1. }
  pose proof (heap_ok_Validate fuel this3 blocks3 Hok3 Hvalid3) as Hv3.
  exists this3, blocks3.
  split; [ | split; [exact Hok3 | split; [exact Hv3 | split; [exact Hsize3 | split;
    [ | split; [transitivity (free_bytes (Impl.heap this2) blocks2 + size');
                [exact Hbytes3 | lia]
               | split; [congruence | split; [ | exact Hvalid3]]]]]]]].
  3: { transitivity (free_count blocks2 + 1); [exact Hcount3 | lia]. }
  - unfold Impl.Deallocate.
    rewrite Halign. change (0 =? 0) with true. cbn [debug_assert bind].
    assert (Hvs : IsValidSize size = true)
      by (apply IsValidSize_spec; unfold sizeof_FreedBlock in *; split; [lia | exact Hmod]).
    rewrite Hvs, Hin1. cbn [debug_assert bind].
    rewrite (wrap_small (p + size - 1)) by (unfold is_size_t, sizeof_FreedBlock in *; lia).
    rewrite Hin2. cbn [debug_assert bind].
    rewrite (heap_ok_Validate fuel this blocks Hok Hvalid). cbn [bind].
    rewrite Hstats1. cbn [bind]. fold this1. rewrite Hrun2. cbn [bind].
    rewrite Hrun3. cbn [bind]. rewrite Hv3. reflexivity.
  - intros i u Hi. unfold blocks3. split.
    + intros Hu. destruct (Z.eqb_spec i c) as [-> | Hne].
      * apply in_app_or in Hu. destruct Hu as [Hu | [<- | Hu]].
        -- right. apply (Hsub2 c u Hi). rewrite Ebs. apply in_or_app. auto.
        -- left. auto.
        -- right. apply (Hsub2 c u Hi). rewrite Ebs. apply in_or_app. auto.
      * right. now apply (Hsub2 i u Hi).
    + intros [[-> ->] | (H1 & H2 & H3)].
      * rewrite Z.eqb_refl. apply in_or_app. simpl. auto.
      * pose proof (Hsup2 i u Hi H1 H2 H3) as Hu.
        destruct (Z.eqb_spec i c) as [-> | Hne]; [ | exact Hu].
        rewrite Ebs in Hu. apply in_app_or in Hu. apply in_or_app. simpl. tauto.
Qed.

(** X22.  [Deallocate] keeps the allocator well formed.  On a well-formed
    allocator whose statistics are 32-bit values, pass [Stats::Validate] and
    count the block (some extant block, at least [size] extant bytes), take
    a 16-aligned block [[p, p + size)] inside the pool, [p] not null and
    [p + size] below [2^32], of a size that is a multiple of 16 and at
    least two records, that overlaps no free block and no sentinel; let the
    fuel exceed the length of every list by at least two, and let there be fewer
    than [2^32 - 1] free blocks and at most [2^31 - size] free bytes.
    Whatever lies next to the block among the following -- before it
    ([preceding_is]): a free block [u] of the lists that ends at [p], or
    the pool's base, or bytes that are no footer; after it
    ([following_at]): a free block of the lists at [p + size], or the end
    of the pool, or bytes that are no header and whose magic and id cells
    are no link fields of a record of the lists -- [Deallocate] returns
    without failing an assertion.  The result is well formed and passes
    [Validate]; the free neighbours have left the lists and one block that
    spans them and the freed block has joined the list of its size class,
    with that size in its header; the free blocks are [1 - n] more for [n]
    merged neighbours, the free bytes have grown by [size], and the pool is
    unchanged. *)
Theorem Deallocate_keeps_well_formed
    (fuel : nat) (this : Impl.t) (blocks : Z -> list ptr) (p size : Z)
    (pre fol : option ptr) :
  heap_ok fuel this blocks ->
  stats_in_range (Impl.m_stats this) ->
  Stats.Validate (Impl.m_stats this) = Ok tt ->
  Stats.m_currentExtantBlocks (Impl.m_stats this) <> 0 ->
  size <= Stats.m_currentExtantBytes (Impl.m_stats this) ->
  p mod minAlignment = 0 ->
  2 * sizeof_FreedBlock <= size -> size mod 16 = 0 ->
  Pool.pool_contains (Impl.m_pool this) p = true ->
  Pool.pool_contains (Impl.m_pool this) (p + size - 1) = true ->
  0 < p -> p + size < 2 ^ 32 ->
  clear this blocks p size ->
  preceding_is this blocks p pre ->
  following_at this blocks (p + size) fol ->
  (forall i, 0 <= i < 32 -> (S (length (blocks i)) < fuel)%nat) ->
  free_count blocks + 1 < 2 ^ 32 ->
  free_bytes (Impl.heap this) blocks + size <= 2 ^ 31 ->
  let p' := match pre with Some u => u | None => p end in
  let size' := p + size - p'
               + match fol with
                 | Some v => FreedBlock.Size (Impl.heap this) v
                 | None => 0
                 end in
  exists this' blocks',
    Impl.Deallocate fuel this p size = Ok this'
    /\ heap_ok fuel this' blocks'
    /\ Impl.Validate fuel this' = Ok tt
    /\ FreedBlock.Size (Impl.heap this') p' = size'
    /\ (forall i u, 0 <= i < 32 ->
          (In u (blocks' i) <->
           (i = SegregatedRangeLists.SizeClass size' /\ u = p')
           \/ (In u (blocks i) /\ Some u <> pre /\ Some u <> fol)))
    /\ free_count blocks' = free_count blocks + 1 - (merged pre + merged fol)
    /\ free_bytes (Impl.heap this') blocks' = free_bytes (Impl.heap this) blocks + size
    /\ Impl.m_pool this' = Impl.m_pool this.
Proof.
  intros Hok Hrange Hvalid Hextant Hextant_b Halign Hsize Hmod Hin1 Hin2 Hp0 Hend Hclear
    Hpre Hfol Hfuel Hcount Hbytes.
  destruct (Deallocate_run fuel this blocks p size pre fol Hok Hrange Hvalid Hextant
              Hextant_b Halign Hsize Hmod Hin1 Hin2 Hp0 Hend Hclear Hpre Hfol Hfuel Hcount
              Hbytes)
    as (this' & blocks' & Hrun & Hok' & Hv & Hsz & Hmem & Hb & Hpool & Hc & _).
  exists this', blocks'. cbv zeta. auto 10.
Qed.

(** In [Scenario.two_freed], the live block at [pool_at + 128] lies
    between the free blocks at [pool_at] and [pool_at + 256]. *)
Lemma two_freed_neighbours :
  let st := Scenario.value Scenario.blank Scenario.two_freed in
  let p := Scenario.pool_at + 128 in
  heap_ok Scenario.fuel st two_freed_blocks
  /\ clear st two_freed_blocks p 128
  /\ preceding_is st two_freed_blocks p (Some Scenario.pool_at)
  /\ following_is st two_freed_blocks (p + 128) (Some (Scenario.pool_at + 256)).
Proof.
  cbv zeta.
  set (st := Scenario.value Scenario.blank Scenario.two_freed).
  split; [apply heap_ok_b_sound; vm_compute; reflexivity | ].
  split; [apply clear_b_sound; vm_compute; reflexivity | ].
  split.
  - cbn [preceding_is]. split; [vm_compute; discriminate | ].
    split; [exists 7; split; [lia | left; reflexivity] | vm_compute; reflexivity].
  - cbn [following_is]. split; [vm_compute; discriminate | ].
    split; [vm_compute; reflexivity | ].
    exists 7. split; [lia | right; left; reflexivity].
Qed.

Lemma Coalesce_merges_neighbours_witness :
  let st := Scenario.value Scenario.blank Scenario.two_freed in
  let p := Scenario.pool_at + 128 in
  let pre := Some Scenario.pool_at in
  let fol := Some (Scenario.pool_at + 256) in
  let p' := Scenario.pool_at in
  let size' := p + 128 - p' + FreedBlock.Size (Impl.heap st) (Scenario.pool_at + 256) in
  exists this' blocks',
    Impl.Coalesce st p 128 = Ok (p', size', this')
    /\ heap_ok Scenario.fuel this' blocks'
    /\ clear this' blocks' p' size'
    /\ (forall i u, 0 <= i < 32 ->
          (In u (blocks' i) <-> In u (two_freed_blocks i) /\ Some u <> pre /\ Some u <> fol))
    /\ free_bytes (Impl.heap this') blocks' + size'
       = free_bytes (Impl.heap st) two_freed_blocks + 128
    /\ Impl.m_pool this' = Impl.m_pool st.
Proof.
  cbv zeta.
  set (st := Scenario.value Scenario.blank Scenario.two_freed).
  set (p := Scenario.pool_at + 128).
  destruct two_freed_neighbours as (Hok & Hclear & Hpre & Hfol). fold st p in Hok, Hclear, Hpre, Hfol.
  assert (Hp0 : 0 < p) by (apply Z.ltb_lt; vm_compute; reflexivity).
  assert (Hsize : 0 < 128) by lia.
  assert (Hend : p + 128 < 2 ^ 32) by (apply Z.ltb_lt; vm_compute; reflexivity).
  exact (Coalesce_merges_neighbours Scenario.fuel st two_freed_blocks p 128
           (Some Scenario.pool_at) (Some (Scenario.pool_at + 256))
           Hok Hp0 Hsize Hend Hclear Hpre Hfol).
Defined.

(** ** Two concrete deallocations *)

(** [Allocate(144) -> a; Allocate(64) -> b; Allocate(64); Deallocate(a, 144);
    Allocate(128) -> a; Deallocate(b, 64)]: the second allocation at [a]
    leaves a rest of 16 bytes that is too small to be tracked, and the
    free block [b] starts right after that rest. *)
Definition rest_absorbed : result Impl.t :=
  s <- Scenario.create ;;
  '(a, s) <- Impl.Allocate Scenario.fuel s 144 ;;
  '(b, s) <- Impl.Allocate Scenario.fuel s 64 ;;
  '(_, s) <- Impl.Allocate Scenario.fuel s 64 ;;
  s <- Impl.Deallocate Scenario.fuel s a 144 ;;
  '(_, s) <- Impl.Allocate Scenario.fuel s 128 ;;
  Impl.Deallocate Scenario.fuel s b 64.

Definition rest_absorbed_blocks (i : Z) : list ptr :=
  if i =? 6 then [Scenario.pool_at + 144] else [].

Definition no_link_cell_b (lists : SegregatedRangeLists.t) (blocks : Z -> list ptr) (a : Z)
  : bool :=
  forallb (fun j => forallb (fun v => negb (a =? v + 4) && negb (a =? v + 8))
                      (records lists blocks j))
    SegregatedRangeLists.indices.

Lemma no_link_cell_b_sound lists blocks a :
  no_link_cell_b lists blocks a = true -> no_link_cell lists blocks a.
Proof.
  unfold no_link_cell_b. intros H j v Hj Hv. rewrite forallb_forall in H.
  specialize (H j (class_cases j Hj)). rewrite forallb_forall in H.
  specialize (H v Hv). apply andb_true_iff in H. destruct H as [H1 H2].
  apply negb_true_iff in H1, H2. apply Z.eqb_neq in H1, H2. auto.
Qed.

(** In [rest_absorbed], the live block of 128 bytes at the pool's base is
    followed by the untracked rest, whose bytes are no header. *)
Lemma rest_absorbed_neighbours :
  let st := Scenario.value Scenario.blank rest_absorbed in
  let p := Scenario.pool_at in
  heap_ok Scenario.fuel st rest_absorbed_blocks
  /\ clear st rest_absorbed_blocks p 128
  /\ preceding_is st rest_absorbed_blocks p None
  /\ following_at st rest_absorbed_blocks (p + 128) None.
Proof.
  cbv zeta.
  set (st := Scenario.value Scenario.blank rest_absorbed).
  split; [apply heap_ok_b_sound; vm_compute; reflexivity | ].
  split; [apply clear_b_sound; vm_compute; reflexivity | ].
  split.
  - cbn [preceding_is]. left. vm_compute. reflexivity.
  - cbn [following_at]. right.
    split; [vm_compute; reflexivity | ].
    split; apply no_link_cell_b_sound; vm_compute; reflexivity.
Qed.

(** Two deallocations: in [Scenario.two_freed], the live block between two
    free blocks, which become one block of 384 bytes; in [rest_absorbed],
    the live block before the untracked rest, which merges with nothing. *)
Lemma Deallocate_keeps_well_formed_witness :
  (let st := Scenario.value Scenario.blank Scenario.two_freed in
   let p := Scenario.pool_at + 128 in
   let pre := Some Scenario.pool_at in
   let fol := Some (Scenario.pool_at + 256) in
   let p' := Scenario.pool_at in
   let size' := p + 128 - p' + FreedBlock.Size (Impl.heap st) (Scenario.pool_at + 256) in
   exists this' blocks',
     Impl.Deallocate Scenario.fuel st p 128 = Ok this'
     /\ heap_ok Scenario.fuel this' blocks'
     /\ Impl.Validate Scenario.fuel this' = Ok tt
     /\ FreedBlock.Size (Impl.heap this') p' = size'
     /\ (forall i u, 0 <= i < 32 ->
           (In u (blocks' i) <->
            (i = SegregatedRangeLists.SizeClass size' /\ u = p')
            \/ (In u (two_freed_blocks i) /\ Some u <> pre /\ Some u <> fol)))
     /\ free_count blocks' = free_count two_freed_blocks + 1 - (1 + 1)
     /\ free_bytes (Impl.heap this') blocks'
        = free_bytes (Impl.heap st) two_freed_blocks + 128
     /\ Impl.m_pool this' = Impl.m_pool st)
  /\
  (let st := Scenario.value Scenario.blank rest_absorbed in
   let p := Scenario.pool_at in
   exists this' blocks',
     Impl.Deallocate Scenario.fuel st p 128 = Ok this'
     /\ heap_ok Scenario.fuel this' blocks'
     /\ Impl.Validate Scenario.fuel this' = Ok tt
     /\ FreedBlock.Size (Impl.heap this') p = p + 128 - p + 0
     /\ (forall i u, 0 <= i < 32 ->
           (In u (blocks' i) <->
            (i = SegregatedRangeLists.SizeClass (p + 128 - p + 0) /\ u = p)
            \/ (In u (rest_absorbed_blocks i) /\ Some u <> None /\ Some u <> None)))
     /\ free_count blocks' = free_count rest_absorbed_blocks + 1 - (0 + 0)
     /\ free_bytes (Impl.heap this') blocks'
        = free_bytes (Impl.heap st) rest_absorbed_blocks + 128
     /\ Impl.m_pool this' = Impl.m_pool st).
Proof.
  assert (Hsize : 2 * sizeof_FreedBlock <= 128) by (unfold sizeof_FreedBlock; lia).
  assert (Hmod : 128 mod 16 = 0) by reflexivity.
  split; cbv zeta.
  - set (st := Scenario.value Scenario.blank Scenario.two_freed).
    set (p := Scenario.pool_at + 128).
    destruct two_freed_neighbours as (Hok & Hclear & Hpre & Hfol).
    fold st p in Hok, Hclear, Hpre, Hfol. apply following_is_at in Hfol.
    assert (Hrange : stats_in_range (Impl.m_stats st))
      by (repeat split; apply Z.leb_le || apply Z.ltb_lt; vm_compute; reflexivity).
    assert (Hvalid : Stats.Validate (Impl.m_stats st) = Ok tt) by (vm_compute; reflexivity).
    assert (Hextant : Stats.m_currentExtantBlocks (Impl.m_stats st) <> 0)
      by (vm_compute; discriminate).
    assert (Hextant_b : 128 <= Stats.m_currentExtantBytes (Impl.m_stats st))
      by (apply Z.leb_le; vm_compute; reflexivity).
    assert (Halign : p mod minAlignment = 0) by (vm_compute; reflexivity).
    assert (Hin1 : Pool.pool_contains (Impl.m_pool st) p = true) by (vm_compute; reflexivity).
    assert (Hin2 : Pool.pool_contains (Impl.m_pool st) (p + 128 - 1) = true)
      by (vm_compute; reflexivity).
    assert (Hp0 : 0 < p) by (apply Z.ltb_lt; vm_compute; reflexivity).
    assert (Hend : p + 128 < 2 ^ 32) by (apply Z.ltb_lt; vm_compute; reflexivity).
    assert (Hfuel : forall i, 0 <= i < 32 ->
                      (S (length (two_freed_blocks i)) < Scenario.fuel)%nat).
    { intros i _. unfold two_freed_blocks, Scenario.fuel.
      destruct (i =? 7); cbn [length]; lia. }
    assert (Hcount : free_count two_freed_blocks + 1 < 2 ^ 32)
      by (apply Z.ltb_lt; vm_compute; reflexivity).
    assert (Hbytes : free_bytes (Impl.heap st) two_freed_blocks + 128 <= 2 ^ 31)
      by (apply Z.leb_le; vm_compute; reflexivity).
    exact (Deallocate_keeps_well_formed Scenario.fuel st two_freed_blocks p 128
             (Some Scenario.pool_at) (Some (Scenario.pool_at + 256))
             Hok Hrange Hvalid Hextant Hextant_b Halign Hsize Hmod Hin1 Hin2 Hp0 Hend Hclear
             Hpre Hfol Hfuel Hcount Hbytes).
  - set (st := Scenario.value Scenario.blank rest_absorbed).
    set (p := Scenario.pool_at).
    destruct rest_absorbed_neighbours as (Hok & Hclear & Hpre & Hfol).
    fold st p in Hok, Hclear, Hpre, Hfol.
    assert (Hrange : stats_in_range (Impl.m_stats st))
      by (repeat split; apply Z.leb_le || apply Z.ltb_lt; vm_compute; reflexivity).
    assert (Hvalid : Stats.Validate (Impl.m_stats st) = Ok tt) by (vm_compute; reflexivity).
    assert (Hextant : Stats.m_currentExtantBlocks (Impl.m_stats st) <> 0)
      by (vm_compute; discriminate).
    assert (Hextant_b : 128 <= Stats.m_currentExtantBytes (Impl.m_stats st))
      by (apply Z.leb_le; vm_compute; reflexivity).
    assert (Halign : p mod minAlignment = 0) by (vm_compute; reflexivity).
    assert (Hin1 : Pool.pool_contains (Impl.m_pool st) p = true) by (vm_compute; reflexivity).
    assert (Hin2 : Pool.pool_contains (Impl.m_pool st) (p + 128 - 1) = true)
      by (vm_compute; reflexivity).
    assert (Hp0 : 0 < p) by (apply Z.ltb_lt; vm_compute; reflexivity).
    assert (Hend : p + 128 < 2 ^ 32) by (apply Z.ltb_lt; vm_compute; reflexivity).
    assert (Hfuel : forall i, 0 <= i < 32 ->
                      (S (length (rest_absorbed_blocks i)) < Scenario.fuel)%nat).
    { intros i _. unfold rest_absorbed_blocks, Scenario.fuel.
      destruct (i =? 6); cbn [length]; lia. }
    assert (Hcount : free_count rest_absorbed_blocks + 1 < 2 ^ 32)
      by (apply Z.ltb_lt; vm_compute; reflexivity).
    assert (Hbytes : free_bytes (Impl.heap st) rest_absorbed_blocks + 128 <= 2 ^ 31)
      by (apply Z.leb_le; vm_compute; reflexivity).
    exact (Deallocate_keeps_well_formed Scenario.fuel st rest_absorbed_blocks p 128
             None None
             Hok Hrange Hvalid Hextant Hextant_b Halign Hsize Hmod Hin1 Hin2 Hp0 Hend Hclear
             Hpre Hfol Hfuel Hcount Hbytes).
Defined.

(* ================================================================== *)
(** * The tallies across Deallocate *)

(** C10.  Every [Deallocate(p, size)] whose preconditions hold returns and
    changes the tallies by [1 - n] blocks and [size] bytes.  The
    preconditions: [p] is 16-aligned, [size] is a multiple of 16 of at
    least two records, and the pool contains [p] and [p + size - 1]; the
    allocator is well formed, its statistics are 32-bit values that pass
    [Stats::Validate] and count the block, the block is not null, ends
    below [2^32] and overlaps no free block and no sentinel; what lies next
    to it is as [preceding_is] and [following_at] describe (a free block of
    the lists, an end of the pool, or bytes that are no tag); the fuel
    exceeds the length of every list by at least two; there are fewer than
    [2^32 - 1] free blocks and at most [2^31 - size] free bytes.  Then
    [Deallocate] returns; it has run the two probes of [Coalesce] for the
    incoming block, and they detect exactly the free blocks next to it;
    and with [n] the number of probes that found a free neighbour, the
    free-block count of each of the three tallies ends [1 - n] above its
    value before the call and the free-byte total ends [size] above it. *)
Theorem Deallocate_changes_tallies
    (fuel : nat) (this : Impl.t) (blocks : Z -> list ptr) (p size : Z)
    (pre fol : option ptr) :
  heap_ok fuel this blocks ->
  stats_in_range (Impl.m_stats this) ->
  Stats.Validate (Impl.m_stats this) = Ok tt ->
  Stats.m_currentExtantBlocks (Impl.m_stats this) <> 0 ->
  size <= Stats.m_currentExtantBytes (Impl.m_stats this) ->
  p mod minAlignment = 0 ->
  2 * sizeof_FreedBlock <= size -> size mod 16 = 0 ->
  Pool.pool_contains (Impl.m_pool this) p = true ->
  Pool.pool_contains (Impl.m_pool this) (p + size - 1) = true ->
  0 < p -> p + size < 2 ^ 32 ->
  clear this blocks p size ->
  preceding_is this blocks p pre ->
  following_at this blocks (p + size) fol ->
  (forall i, 0 <= i < 32 -> (S (length (blocks i)) < fuel)%nat) ->
  free_count blocks + 1 < 2 ^ 32 ->
  free_bytes (Impl.heap this) blocks + size <= 2 ^ 31 ->
  exists (this' : Impl.t) (stats1 : Stats.t) (preceding following p1 size1 : Z)
         (this1 : Impl.t),
    Impl.Deallocate fuel this p size = Ok this'
    /\ Stats.OnDeallocate (Impl.m_stats this) size = Ok stats1
    /\ BoundaryTagManager.PrecedingBlock (Impl.m_boundaryTagManager this) (Impl.heap this) p
         (Pool.base (Impl.m_pool this)) = Ok preceding
    /\ Impl.Coalesce_preceding
         (Impl.mk (Impl.heap this) (Impl.m_pool this) (Impl.m_segregatedRangeLists this)
                  (Impl.m_boundaryTagManager this) stats1) p size
       = Ok (p1, size1, this1)
    /\ BoundaryTagManager.FollowingBlock (Impl.m_boundaryTagManager this1) (Impl.heap this1)
         p size (wrap (Pool.base (Impl.m_pool this) + Pool.pos (Impl.m_pool this)))
       = Ok following
    /\ found preceding + found following = merged pre + merged fol
    /\ let n := found preceding + found following in
       (Stats.FreeBlocks (Impl.m_stats this')
          = Stats.FreeBlocks (Impl.m_stats this) + 1 - n
        /\ Stats.FreeBytes (Impl.m_stats this')
          = Stats.FreeBytes (Impl.m_stats this) + size)
       /\ (SegregatedRangeLists.FreeBlocks (Impl.m_segregatedRangeLists this')
             = SegregatedRangeLists.FreeBlocks (Impl.m_segregatedRangeLists this) + 1 - n
           /\ SegregatedRangeLists.FreeBytes (Impl.m_segregatedRangeLists this')
             = SegregatedRangeLists.FreeBytes (Impl.m_segregatedRangeLists this) + size)
       /\ (BoundaryTagManager.FreeBlocks (Impl.m_boundaryTagManager this')
             = BoundaryTagManager.FreeBlocks (Impl.m_boundaryTagManager this) + 1 - n
           /\ BoundaryTagManager.FreeBytes (Impl.m_boundaryTagManager this')
             = BoundaryTagManager.FreeBytes (Impl.m_boundaryTagManager this) + size).
Proof.
  intros Hok Hrange Hvalid Hextant Hextant_b Halign Hsize Hmod Hin1 Hin2 Hp0 Hend Hclear
    Hpre Hfol Hfuel Hcount Hbytes.
  destruct (Deallocate_run fuel this blocks p size pre fol Hok Hrange Hvalid Hextant
              Hextant_b Halign Hsize Hmod Hin1 Hin2 Hp0 Hend Hclear Hpre Hfol Hfuel Hcount
              Hbytes)
    as (this' & blocks' & Hrun & Hok' & _ & _ & _ & Hb' & _ & Hc' & _).
  destruct (hp_stats _ _ _ Hok) as [Sc Sb]. destruct (hp_stats _ _ _ Hok') as [Sc' Sb'].
  pose proof (free_count_nonneg blocks) as Nc.
  pose proof (free_bytes_nonneg (Impl.heap this) blocks) as Nb.
  assert (Hsz : is_size_t size) by (unfold is_size_t, sizeof_FreedBlock in *; lia).
  assert (Hc0 : is_size_t (Stats.FreeBlocks (Impl.m_stats this)))
    by (unfold Stats.FreeBlocks, is_size_t; rewrite Sc; lia).
  assert (Hb0 : is_size_t (Stats.FreeBytes (Impl.m_stats this)))
    by (unfold Stats.FreeBytes, is_size_t, sizeof_FreedBlock in *; rewrite Sb; lia).
  assert (Hc1 : Stats.FreeBlocks (Impl.m_stats this) + 1 < 2 ^ 32)
    by (unfold Stats.FreeBlocks; rewrite Sc; lia).
  assert (Hb1 : Stats.FreeBytes (Impl.m_stats this) + size < 2 ^ 32)
    by (unfold Stats.FreeBytes; rewrite Sb; lia).
  destruct (Deallocate_tallies_of_run fuel this p size this' Hsz Hc0 Hb0 Hc1 Hb1 Hrun)
    as (stats1 & preceding & following & p1 & size1 & this1 & H1 & H2 & H3 & H4 & Hn).
  exists this', stats1, preceding, following, p1, size1, this1.
  split; [exact Hrun | split; [exact H1 | split; [exact H2 | split; [exact H3 | split;
    [exact H4 | split; [ | exact Hn]]]]]].
  cbv zeta in Hn. destruct Hn as [[Hblocks _] _].
  unfold Stats.FreeBlocks in Hblocks. lia.
Qed.

(** In [Scenario.two_freed] the live block at [pool_at + 128] lies between
    two free blocks: freeing it merges three blocks into one. *)
Lemma Deallocate_changes_tallies_witness :
  let s := Scenario.value Scenario.blank Scenario.two_freed in
  exists s' : Impl.t,
    Impl.Deallocate Scenario.fuel s (Scenario.pool_at + 128) 128 = Ok s'
    /\ Scenario.tallies s = ((2, 256), (2, 256), (2, 256))
    /\ Scenario.tallies s' = ((1, 384), (1, 384), (1, 384))
    /\ exists preceding following : ptr,
         found preceding + found following = 2
         /\ Stats.FreeBlocks (Impl.m_stats s')
            = Stats.FreeBlocks (Impl.m_stats s) + 1 - (found preceding + found following).
Proof.
  cbv zeta.
  set (st := Scenario.value Scenario.blank Scenario.two_freed).
  set (p := Scenario.pool_at + 128).
  destruct two_freed_neighbours as (Hok & Hclear & Hpre & Hfol).
  fold st p in Hok, Hclear, Hpre, Hfol. apply following_is_at in Hfol.
  assert (Hsize : 2 * sizeof_FreedBlock <= 128) by (unfold sizeof_FreedBlock; lia).
  assert (Hmod : 128 mod 16 = 0) by reflexivity.
  assert (Hrange : stats_in_range (Impl.m_stats st))
    by (repeat split; apply Z.leb_le || apply Z.ltb_lt; vm_compute; reflexivity).
  assert (Hvalid : Stats.Validate (Impl.m_stats st) = Ok tt) by (vm_compute; reflexivity).
  assert (Hextant : Stats.m_currentExtantBlocks (Impl.m_stats st) <> 0)
    by (vm_compute; discriminate).
  assert (Hextant_b : 128 <= Stats.m_currentExtantBytes (Impl.m_stats st))
    by (apply Z.leb_le; vm_compute; reflexivity).
  assert (Halign : p mod minAlignment = 0) by (vm_compute; reflexivity).
  assert (Hin1 : Pool.pool_contains (Impl.m_pool st) p = true) by (vm_compute; reflexivity).
  assert (Hin2 : Pool.pool_contains (Impl.m_pool st) (p + 128 - 1) = true)
    by (vm_compute; reflexivity).
  assert (Hp0 : 0 < p) by (apply Z.ltb_lt; vm_compute; reflexivity).
  assert (Hend : p + 128 < 2 ^ 32) by (apply Z.ltb_lt; vm_compute; reflexivity).
  assert (Hfuel : forall i, 0 <= i < 32 ->
                    (S (length (two_freed_blocks i)) < Scenario.fuel)%nat).
  { intros i _. unfold two_freed_blocks, Scenario.fuel.
    destruct (i =? 7); cbn [length]; lia. }
  assert (Hcount : free_count two_freed_blocks + 1 < 2 ^ 32)
    by (apply Z.ltb_lt; vm_compute; reflexivity).
  assert (Hbytes : free_bytes (Impl.heap st) two_freed_blocks + 128 <= 2 ^ 31)
    by (apply Z.leb_le; vm_compute; reflexivity).
  assert (Hbefore : Scenario.tallies st = ((2, 256), (2, 256), (2, 256)))
    by (vm_compute; reflexivity).
  assert (E1 : Stats.FreeBlocks (Impl.m_stats st) = 2) by (vm_compute; reflexivity).
  assert (E2 : Stats.FreeBytes (Impl.m_stats st) = 256) by (vm_compute; reflexivity).
  assert (E3 : SegregatedRangeLists.FreeBlocks (Impl.m_segregatedRangeLists st) = 2)
    by (vm_compute; reflexivity).
  assert (E4 : SegregatedRangeLists.FreeBytes (Impl.m_segregatedRangeLists st) = 256)
    by (vm_compute; reflexivity).
  assert (E5 : BoundaryTagManager.FreeBlocks (Impl.m_boundaryTagManager st) = 2)
    by (vm_compute; reflexivity).
  assert (E6 : BoundaryTagManager.FreeBytes (Impl.m_boundaryTagManager st) = 256)
    by (vm_compute; reflexivity).
  destruct (Deallocate_changes_tallies Scenario.fuel st two_freed_blocks p 128
              (Some Scenario.pool_at) (Some (Scenario.pool_at + 256))
              Hok Hrange Hvalid Hextant Hextant_b Halign Hsize Hmod Hin1 Hin2 Hp0 Hend Hclear
              Hpre Hfol Hfuel Hcount Hbytes)
    as (s' & stats1 & preceding & following & p1 & size1 & this1 & Hrun & _ & _ & _ & _
        & Hfound & Hn).
  cbv zeta in Hn. destruct Hn as ([Hb1 Hb2] & [Hl1 Hl2] & [Ht1 Ht2]).
  exists s'. split; [exact Hrun | split; [exact Hbefore | split]].
  - unfold Scenario.tallies. cbn [merged] in Hfound.
    rewrite Hb1, Hb2, Hl1, Hl2, Ht1, Ht2, E1, E2, E3, E4, E5, E6, Hfound. reflexivity.
  - exists preceding, following. split; [exact Hfound | exact Hb1].
Defined.

(* ================================================================== *)
(** * Split then coalesce *)

Lemma SizeClass_mono a b :
  is_size_t a -> is_size_t b -> a <= b ->
  SegregatedRangeLists.SizeClass a <= SegregatedRangeLists.SizeClass b.
Proof.
  intros Ha Hb Hle. unfold SegregatedRangeLists.SizeClass, ceil_log2.
  rewrite !wrap_small by assumption. now apply Z.log2_up_le_mono.
Qed.

(** [TakeAndSplitFreeBlock] on a well-formed allocator whose [Find] selects
    the free block [p] of size [s + t], with a leftover [t] of at least two
    records: the block leaves the lists and its tail enters them. *)
Lemma TakeAndSplit_run fuel this blocks c p s t :
  heap_ok fuel this blocks ->
  0 <= c < 32 -> In p (blocks c) ->
  FreedBlock.Size (Impl.heap this) p = s + t ->
  0 < s -> 2 * sizeof_FreedBlock <= t -> t mod 16 = 0 ->
  SegregatedRangeLists.Find fuel (Impl.m_segregatedRangeLists this) (Impl.heap this) s
  = Ok p ->
  (forall i, 0 <= i < 32 -> (S (length (blocks i)) < fuel)%nat) ->
  exists this' blocks',
    Impl.TakeAndSplitFreeBlock fuel this s = Ok (p, this')
    /\ heap_ok fuel this' blocks'
    /\ FreedBlock.Size (Impl.heap this') (p + s) = t
    /\ (forall i u, 0 <= i < 32 ->
          (In u (blocks' i) <->
           (i = SegregatedRangeLists.SizeClass t /\ u = p + s)
           \/ (In u (blocks i) /\ u <> p)))
    /\ (forall i u, 0 <= i < 32 -> In u (blocks i) -> u <> p ->
          FreedBlock.Size (Impl.heap this') u = FreedBlock.Size (Impl.heap this) u)
    /\ (forall i, 0 <= i < 32 -> (length (blocks' i) <= S (length (blocks i)))%nat)
    /\ free_count blocks' = free_count blocks
    /\ free_bytes (Impl.heap this') blocks' = free_bytes (Impl.heap this) blocks - s
    /\ Impl.m_pool this' = Impl.m_pool this
    /\ same_totals (Impl.m_stats this) (Impl.m_stats this')
    /\ (forall i, sentinel (Impl.m_segregatedRangeLists this') i
                  = sentinel (Impl.m_segregatedRangeLists this) i)
    /\ (forall a, a < p \/ p + s + t <= a ->
                  no_link_cell (Impl.m_segregatedRangeLists this) blocks a ->
                  load (Impl.heap this') a = load (Impl.heap this) a).
Proof.
  intros Hok Hc Hp Hsize Hs Ht Hmod Hfind Hfuel.
  set (h := Impl.heap this) in *. set (lists := Impl.m_segregatedRangeLists this) in *.
  pose proof (hp_tagged _ _ _ Hok c p Hc Hp) as Htag. fold h in Htag.
  pose proof (tg_range _ _ Htag) as [_ Hpend]. rewrite Hsize in Hpend.
  pose proof (heap_ok_positive fuel this blocks c p Hok Hc Hp) as Hp0.
  pose proof (hp_bound _ _ _ Hok) as [Bc Bb]. fold h in Bb.
  pose proof (free_count_In blocks c p Hc Hp) as Hcount.
  pose proof (free_bytes_In h blocks c p Hc Hp) as Hbytes. rewrite Hsize in Hbytes.
  pose proof (free_count_nonneg blocks) as Nc.
  pose proof (free_bytes_nonneg h blocks) as Nb.
  destruct (RemoveFromFreelist_run fuel this blocks c p Hok Hc Hp)
    as (bs1 & bs2 & this1 & Ebs & Hrun1 & Hok1 & Hpool1 & Hstats1 & Hsent1 & Hframe1
        & Hcount1 & Hbytes1).
  fold h lists in Hframe1, Hbytes1, Hsent1. rewrite Hsize in Hframe1, Hbytes1.
  set (blocks1 := fun i => if i =? c then bs1 ++ bs2 else blocks i) in *.
  assert (Hcount1' : free_count blocks1 = free_count blocks - 1) by exact Hcount1.
  assert (Hbytes1' : free_bytes (Impl.heap this1) blocks1 = free_bytes h blocks - (s + t))
    by exact Hbytes1.
  assert (Hsub : forall i v, 0 <= i < 32 -> In v (blocks1 i) -> In v (blocks i) /\ v <> p).
  { intros i v Hi Hv'.
    pose proof (rec_within _ _ (hp_records _ _ _ Hok) c Hc) as Hw.
    unfold records in Hw. rewrite Ebs in Hw.
    change (pairwise_apart ((sentinel (Impl.m_segregatedRangeLists this) c :: bs1)
                            ++ p :: bs2)) in Hw.
    apply pairwise_apart_app_inv in Hw. destruct Hw as (_ & H2 & H12).
    cbn [pairwise_apart] in H2. destruct H2 as [H2 _]. rewrite Forall_forall in H2.
    unfold blocks1 in Hv'. destruct (Z.eqb_spec i c) as [-> | Hne].
    - rewrite Ebs. apply in_app_or in Hv'. destruct Hv' as [Hv' | Hv'].
      + split; [apply in_or_app; auto | ].
        apply apart_neq. apply H12; simpl; auto.
      + split; [apply in_or_app; simpl; auto | ].
        intros E. apply H2 in Hv'. apply apart_neq in Hv'. congruence.
    - split; [exact Hv' | ]. intros ->.
      assert (A : apart p p).
      { apply (rec_across _ _ (hp_records _ _ _ Hok) i c); try assumption.
        - right. exact Hv'.
        - right. exact Hp. }
      now apply apart_neq in A. }
  assert (Hsup : forall i v, 0 <= i < 32 -> In v (blocks i) -> v <> p -> In v (blocks1 i)).
  { intros i v Hi Hv Hne. unfold blocks1.
    destruct (Z.eqb_spec i c) as [-> | Hnc]; [ | exact Hv].
    rewrite Ebs in Hv. apply in_app_or in Hv. apply in_or_app.
    destruct Hv as [Hv | [Hv | Hv]]; [auto | congruence | auto]. }
  assert (Hout : forall i v, 0 <= i < 32 -> In v (blocks i) -> v <> p ->
                   p + (s + t) <= v \/ v + FreedBlock.Size h v <= p).
  { intros i v Hi Hv Hne.
    destruct (hp_disjoint _ _ _ Hok c i p v Hc Hi Hp Hv) as [H | H];
      [congruence | fold h in H; rewrite Hsize in H; auto | fold h in H; auto]. }
  assert (Hsizes1 : forall i v, 0 <= i < 32 -> In v (blocks i) -> v <> p ->
                      FreedBlock.Size (Impl.heap this1) v = FreedBlock.Size h v).
  { intros i v Hi Hv Hne.
    pose proof (tg_size _ _ (hp_tagged _ _ _ Hok i v Hi Hv)) as [Hsv _]. fold h in Hsv.
    pose proof (Hout i v Hi Hv Hne) as Ho.
    unfold FreedBlock.Size at 1. unfold FreedBlock.m_size, FreedBlock.m_size_at.
    rewrite Hframe1; [reflexivity | | ].
    - unfold sizeof_FreedBlock in *. lia.
    - apply (header_cells_no_link fuel this blocks i v); auto. }
  set (ct := SegregatedRangeLists.SizeClass t).
  assert (Hct : 0 <= ct < 32).
  { split; [apply SizeClass_nonneg | ].
    pose proof (ok_class _ _ _ _ (hp_lists _ _ _ Hok) c p Hc Hp) as Ec.
    fold h in Ec. rewrite Hsize in Ec.
    assert (ct <= c); [ | lia]. rewrite <- Ec. unfold ct.
    apply SizeClass_mono; unfold is_size_t, sizeof_FreedBlock in *; lia. }
  assert (Hlen1 : forall i, 0 <= i < 32 -> (length (blocks1 i) <= length (blocks i))%nat).
  { intros i Hi. unfold blocks1. destruct (Z.eqb_spec i c) as [-> | Hnc]; [ | lia].
    rewrite Ebs, !length_app. cbn [length]. lia. }
  destruct (AddToFreelist_run fuel this1 blocks1 (p + s) t) as
    (bs1' & bs2' & this2 & Ebs' & Hrun2 & Hok2 & Hsize2 & Hpool2 & Hstats2 & Hsent2 & Hframe2
     & Hcount2 & Hbytes2).
  { exact Hok1. }
  { lia. }
  { lia. }
  { exact Ht. }
  { exact Hmod. }
  { fold ct. lia. }
  { intros i u Hi Hu. destruct (Hsub i u Hi Hu) as [Hu0 Hne].
    rewrite (Hsizes1 i u Hi Hu0 Hne).
    destruct (Hout i u Hi Hu0 Hne); [left | right]; lia. }
  { intros j Hj. rewrite Hsent1.
    destruct (hp_sentinels _ _ _ Hok c j p Hc Hj Hp) as [H | H];
      fold h lists in H; [left | right; rewrite Hsize in H]; lia. }
  { fold ct. eapply Nat.le_lt_trans; [ | apply (Hfuel ct Hct)].
    apply le_n_S. apply (Hlen1 ct Hct). }
  { lia. }
  { lia. }
  fold ct in Ebs', Hok2, Hcount2, Hbytes2.
  set (blocks2 := fun i => if i =? ct then bs1' ++ p + s :: bs2' else blocks1 i) in *.
  assert (Hcount2' : free_count blocks2 = free_count blocks1 + 1) by exact Hcount2.
  assert (Hbytes2' : free_bytes (Impl.heap this2) blocks2
                     = free_bytes (Impl.heap this1) blocks1 + t) by exact Hbytes2.
  assert (Hmem : forall i u, 0 <= i < 32 ->
            (In u (blocks2 i) <-> (i = ct /\ u = p + s) \/ (In u (blocks i) /\ u <> p))).
  { intros i u Hi. unfold blocks2. destruct (Z.eqb_spec i ct) as [-> | Hne].
    - split.
      + intros H. apply in_app_or in H. destruct H as [H | [H | H]].
        * right. apply (Hsub ct u Hct). rewrite Ebs'. apply in_or_app. auto.
        * left. auto.
        * right. apply (Hsub ct u Hct). rewrite Ebs'. apply in_or_app. auto.
      + intros [[_ ->] | [H Hne]].
        * apply in_or_app. right. left. reflexivity.
        * apply (Hsup ct u Hct) in H; [ | exact Hne]. rewrite Ebs' in H.
          apply in_app_or in H. apply in_or_app. simpl. tauto.
    - split.
      + intros H. right. apply (Hsub i u Hi H).
      + intros [[E _] | [H Hne']]; [contradiction | ]. now apply Hsup. }
  exists this2, blocks2.
  split; [ | split; [exact Hok2 | split; [exact Hsize2 | split; [exact Hmem | split;
    [ | split; [ | split; [ | split; [ | split; [ | split; [ | split]]]]]]]]]].
  - unfold Impl.TakeAndSplitFreeBlock. fold h lists. rewrite Hfind. cbn [bind].
    destruct (Z.eqb_spec p 0); [lia | ].
    rewrite Hrun1. cbn [bind]. rewrite Hsize.
    replace (s + t - s) with t by lia.
    rewrite (wrap_small t) by (unfold is_size_t, sizeof_FreedBlock in *; lia).
    rewrite (wrap_small (p + s)) by (unfold is_size_t, sizeof_FreedBlock in *; lia).
    assert (Ev : IsValidSize t = true).
    { apply IsValidSize_spec. unfold sizeof_FreedBlock in *. split; [lia | exact Hmod]. }
    rewrite Ev, Hrun2. reflexivity.
  - intros i u Hi Hu Hne.
    pose proof (tg_size _ _ (hp_tagged _ _ _ Hok i u Hi Hu)) as [Hsv _]. fold h in Hsv.
    pose proof (Hout i u Hi Hu Hne) as Ho.
    rewrite <- (Hsizes1 i u Hi Hu Hne).
    unfold FreedBlock.Size. unfold FreedBlock.m_size, FreedBlock.m_size_at.
    apply Hframe2.
    + unfold sizeof_FreedBlock in *. lia.
    + apply (header_cells_no_link fuel this1 blocks1 i u); auto.
  - intros i Hi. unfold blocks2. pose proof (Hlen1 i Hi).
    destruct (Z.eqb_spec i ct) as [-> | Hne]; [ | lia].
    rewrite Ebs' in H. rewrite !length_app in *. cbn [length]. lia.
  - lia.
  - lia.
  - congruence.
  - destruct Hstats1 as (A1 & A2 & A3 & A4 & A5 & A6).
    destruct Hstats2 as (B1 & B2 & B3 & B4 & B5 & B6).
    unfold same_totals. repeat split; congruence.
  - intros i. now rewrite Hsent2, Hsent1.
  - intros a Ha Hno. rewrite Hframe2.
    + apply Hframe1; [lia | exact Hno].
    + lia.
    + intros j v Hj Hv. apply (Hno j v Hj).
      apply (records_subset lists (Impl.m_segregatedRangeLists this1) blocks blocks1);
        auto.
      intros i u Hi Hu. now apply (Hsub i u Hi).
Qed.

Lemma sum_over_mono f g classes :
  (forall i, In i classes -> f i <= g i) -> sum_over f classes <= sum_over g classes.
Proof.
  induction classes as [ | i classes IH]; intros H; cbn [sum_over]; [lia | ].
  assert (f i <= g i) by (apply H; simpl; auto).
  assert (sum_over f classes <= sum_over g classes)
    by (apply IH; intros j Hj; apply H; simpl; auto).
  lia.
Qed.

Lemma length_le_total_size h bs :
  (forall b, In b bs -> 1 <= FreedBlock.Size h b) ->
  Z.of_nat (length bs) <= total_size h bs.
Proof.
  induction bs as [ | a bs IH]; intros H; cbn [length total_size]; [lia | ].
  assert (1 <= FreedBlock.Size h a) by (apply H; simpl; auto).
  assert (Z.of_nat (length bs) <= total_size h bs)
    by (apply IH; intros b Hb; apply H; simpl; auto).
  lia.
Qed.

(** Every free block has at least one byte. *)
Lemma free_count_le_bytes fuel this blocks :
  heap_ok fuel this blocks -> free_count blocks <= free_bytes (Impl.heap this) blocks.
Proof.
  intros Hok. unfold free_count, free_bytes. apply sum_over_mono. intros i Hi.
  apply length_le_total_size. intros b Hb.
  pose proof (tg_size _ _ (hp_tagged _ _ _ Hok i b (indices_range i Hi) Hb)) as [Hs _].
  unfold sizeof_FreedBlock in *. lia.
Qed.

(** No free block ends at [p]: [p] is the pool's base, or the record before
    [p] is no footer and overlaps no sentinel of the lists. *)
Definition nothing_before (this : Impl.t) (p : Z) : Prop :=
  p = Pool.base (Impl.m_pool this)
  \/ (sizeof_FreedBlock <= p
      /\ FreedBlock.IsFreedBlock (Impl.heap this) (p - sizeof_FreedBlock)
           BoundaryTagManager.s_footerId = false
      /\ forall j, 0 <= j < 32 ->
           sentinel (Impl.m_segregatedRangeLists this) j + sizeof_FreedBlock
           <= p - sizeof_FreedBlock
           \/ p <= sentinel (Impl.m_segregatedRangeLists this) j).

(** The statistics after [OnAllocate]. *)
Lemma Stats_OnAllocate_run this size :
  stats_in_range this -> 0 <= size ->
  Stats.m_totalAllocatedBlocks this + 1 < 2 ^ 32 ->
  Stats.m_totalAllocatedBytes this + size < 2 ^ 32 ->
  Stats.Validate this = Ok tt ->
  stats_in_range (Stats.OnAllocate this size)
  /\ Stats.m_currentExtantBlocks (Stats.OnAllocate this size) <> 0
  /\ size <= Stats.m_currentExtantBytes (Stats.OnAllocate this size)
  /\ Stats.m_currentFreeBlocks (Stats.OnAllocate this size) = Stats.m_currentFreeBlocks this
  /\ Stats.m_currentFreeBytes (Stats.OnAllocate this size) = Stats.m_currentFreeBytes this.
Proof.
  intros (R1 & R2 & R3 & R4 & R5 & R6 & R7 & R8) Hsize Hblocks Hbytes Hvalid.
  apply Stats_Validate_spec in Hvalid. destruct Hvalid as (H1 & H2 & H3 & H4).
  unfold Stats.OnAllocate. sanity.
  unfold stats_in_range.
  cbn [Stats.m_totalAllocatedBlocks Stats.m_totalAllocatedBytes
       Stats.m_totalDeallocatedBlocks Stats.m_totalDeallocatedBytes
       Stats.m_currentExtantBlocks Stats.m_currentExtantBytes
       Stats.m_currentFreeBlocks Stats.m_currentFreeBytes].
  rewrite H3, H4.
  split; [ | split; [ | split; [ | split; reflexivity]]].
  - repeat split; try apply wrap_range; unfold is_size_t in *; lia.
  - wrap_lia.
  - wrap_lia.
Qed.

(** C3.  Split then coalesce.  On a well-formed allocator whose statistics
    are 32-bit values that pass [Stats::Validate] and do not overflow on
    one more allocation of [s] bytes, with at most [2^31] free bytes and
    fuel that exceeds the length of every list by at least three, let the list of
    class [c] hold a free block of size [s + t] at the 16-aligned address
    [p], inside the pool, where [s] and [t] are multiples of 16 of at least
    two records each; let [Find(s)] select that block; and let no free
    block end at [p] ([nothing_before]).  Then [Allocate(s)] returns [p]
    and leaves a well-formed allocator whose lists hold the tail [p + s],
    of size [t], in place of the block.  The [Deallocate(p, s)] that
    follows returns and leaves a well-formed allocator whose lists hold
    the blocks they held before the [Allocate]; the block at [p] has size
    [s + t] again; and the free-block count and the free-byte total of all
    three tallies have their values of before the [Allocate]. *)
Theorem split_then_free_restores
    (fuel : nat) (this : Impl.t) (blocks : Z -> list ptr) (c p s t : Z) :
  heap_ok fuel this blocks ->
  stats_in_range (Impl.m_stats this) ->
  Stats.Validate (Impl.m_stats this) = Ok tt ->
  Stats.m_totalAllocatedBlocks (Impl.m_stats this) + 1 < 2 ^ 32 ->
  Stats.m_totalAllocatedBytes (Impl.m_stats this) + s < 2 ^ 32 ->
  (forall i, 0 <= i < 32 -> (S (S (length (blocks i))) < fuel)%nat) ->
  free_bytes (Impl.heap this) blocks <= 2 ^ 31 ->
  2 * sizeof_FreedBlock <= s -> s mod 16 = 0 ->
  2 * sizeof_FreedBlock <= t -> t mod 16 = 0 ->
  0 <= c < 32 -> In p (blocks c) ->
  FreedBlock.Size (Impl.heap this) p = s + t ->
  SegregatedRangeLists.Find fuel (Impl.m_segregatedRangeLists this) (Impl.heap this) s
  = Ok p ->
  p mod minAlignment = 0 ->
  Pool.base (Impl.m_pool this) <= p ->
  p + (s + t) <= Pool.base (Impl.m_pool this) + Pool.pos (Impl.m_pool this) ->
  Pool.base (Impl.m_pool this) + Pool.pos (Impl.m_pool this) <= 2 ^ 32 ->
  nothing_before this p ->
  exists (this1 : Impl.t) (blocks1 : Z -> list ptr)
         (this2 : Impl.t) (blocks2 : Z -> list ptr),
    Impl.Allocate fuel this s = Ok (p, this1)
    /\ heap_ok fuel this1 blocks1
    /\ (forall i u, 0 <= i < 32 ->
          (In u (blocks1 i) <->
           (i = SegregatedRangeLists.SizeClass t /\ u = p + s)
           \/ (In u (blocks i) /\ u <> p)))
    /\ FreedBlock.Size (Impl.heap this1) (p + s) = t
    /\ Impl.Deallocate fuel this1 p s = Ok this2
    /\ heap_ok fuel this2 blocks2
    /\ (forall i u, 0 <= i < 32 -> (In u (blocks2 i) <-> In u (blocks i)))
    /\ FreedBlock.Size (Impl.heap this2) p = s + t
    /\ Scenario.tallies this2 = Scenario.tallies this.
Proof.
  intros Hok Hrange Hvalid Hnb Hny Hfuel Hfree Hs Hsmod Ht Htmod Hc Hp Hsize Hfind Halign
    Hbase Hpos Hpool Hbefore.
  set (h := Impl.heap this) in *. set (lists := Impl.m_segregatedRangeLists this) in *.
  pose proof (hp_tagged _ _ _ Hok c p Hc Hp) as Htag. fold h in Htag.
  pose proof (tg_range _ _ Htag) as [_ Hpend]. rewrite Hsize in Hpend.
  pose proof (heap_ok_positive fuel this blocks c p Hok Hc Hp) as Hp0.
  pose proof (hp_bound _ _ _ Hok) as [Bc Bb]. fold h in Bb.
  pose proof (free_count_nonneg blocks) as Nc.
  pose proof (free_bytes_nonneg h blocks) as Nb.
  pose proof (free_count_le_bytes fuel this blocks Hok) as Hcb. fold h in Hcb.
  pose proof (free_bytes_In h blocks c p Hc Hp) as Hbytes. rewrite Hsize in Hbytes.
  assert (Hfuel1 : forall i, 0 <= i < 32 -> (S (length (blocks i)) < fuel)%nat).
  { intros i Hi. apply Nat.lt_trans with (S (S (length (blocks i)))); [ | exact (Hfuel i Hi)].
    apply Nat.lt_succ_diag_r. }
  destruct (TakeAndSplit_run fuel this blocks c p s t Hok Hc Hp Hsize) as
    (this1 & blocks1 & Hrun1 & Hok1 & Hsize1 & Hmem1 & Hsizes1 & Hlen1 & Hcount1 & Hbytes1
     & Hpool1 & Hstats1 & Hsent1 & Hframe1); try assumption.
  { unfold sizeof_FreedBlock in *. lia. }
  fold h lists in Hsizes1, Hbytes1, Hsent1, Hframe1.
  (* the statistics *)
  pose proof (hp_stats _ _ _ Hok1) as [Sc1 Sb1]. pose proof (hp_bound _ _ _ Hok1) as [Bc1 Bb1].
  pose proof (free_bytes_nonneg (Impl.heap this1) blocks1) as Nb1.
  assert (Hrange1 : stats_in_range (Impl.m_stats this1)).
  { destruct Hrange as (R1 & R2 & R3 & R4 & R5 & R6 & _).
    destruct Hstats1 as (A1 & A2 & A3 & A4 & A5 & A6).
    unfold stats_in_range. rewrite A1, A2, A3, A4, A5, A6, Sc1, Sb1.
    repeat split; try assumption; unfold is_size_t in *; lia. }
  assert (Hvalid1 : Stats.Validate (Impl.m_stats this1) = Ok tt)
    by (rewrite (same_totals_Validate _ _ Hstats1); exact Hvalid).
  assert (Hnb1 : Stats.m_totalAllocatedBlocks (Impl.m_stats this1) + 1 < 2 ^ 32)
    by (destruct Hstats1 as (A1 & _); rewrite A1; exact Hnb).
  assert (Hny1 : Stats.m_totalAllocatedBytes (Impl.m_stats this1) + s < 2 ^ 32)
    by (destruct Hstats1 as (_ & A2 & _); rewrite A2; exact Hny).
  assert (Hs0 : 0 <= s) by (unfold sizeof_FreedBlock in *; lia).
  destruct (Stats_OnAllocate_run (Impl.m_stats this1) s Hrange1 Hs0 Hnb1 Hny1 Hvalid1)
    as (Hrange3 & Hextant3 & Hextant_b3 & F1 & F2).
  pose proof (Stats_OnAllocate_valid (Impl.m_stats this1) s Hrange1
                ltac:(unfold is_size_t, sizeof_FreedBlock in *; lia) Hnb1 Hny1 Hvalid1)
    as Hvalid3.
  set (stats3 := Stats.OnAllocate (Impl.m_stats this1) s) in *.
  pose proof (heap_ok_stats fuel this1 blocks1 stats3 Hok1 F1 F2) as Hok3.
  set (this3 := Impl.mk (Impl.heap this1) (Impl.m_pool this1)
                  (Impl.m_segregatedRangeLists this1) (Impl.m_boundaryTagManager this1)
                  stats3) in *.
  assert (Hrun : Impl.Allocate fuel this s = Ok (p, this3)).
  { unfold Impl.Allocate.
    assert (Ev : IsValidSize s = true).
    { apply IsValidSize_spec. unfold sizeof_FreedBlock in *. split; [lia | exact Hsmod]. }
    rewrite Ev. cbn [debug_assert bind].
    rewrite (heap_ok_Validate fuel this blocks Hok Hvalid). cbn [bind].
    rewrite Hrun1. cbn [bind].
    assert (E0 : (p =? 0) = false) by (apply Z.eqb_neq; lia).
    rewrite E0. cbn [bind]. rewrite E0.
    fold stats3. fold this3.
    rewrite (heap_ok_Validate fuel this3 blocks1 Hok3 Hvalid3). reflexivity. }
  (* the block after the split *)
  assert (Hout : forall i v, 0 <= i < 32 -> In v (blocks i) -> v <> p ->
                   p + (s + t) <= v \/ v + FreedBlock.Size h v <= p).
  { intros i v Hi Hv Hne.
    destruct (hp_disjoint _ _ _ Hok c i p v Hc Hi Hp Hv) as [H | H];
      [congruence | fold h in H; rewrite Hsize in H; auto | fold h in H; auto]. }
  assert (Hclear : clear this3 blocks1 p s).
  { split.
    - intros i u Hi Hu. change (Impl.heap this3) with (Impl.heap this1).
      apply (Hmem1 i u Hi) in Hu. destruct Hu as [[_ ->] | [Hu Hne]]; [left; lia | ].
      rewrite (Hsizes1 i u Hi Hu Hne).
      destruct (Hout i u Hi Hu Hne); [left | right]; unfold sizeof_FreedBlock in *; lia.
    - intros j Hj.
      change (Impl.m_segregatedRangeLists this3) with (Impl.m_segregatedRangeLists this1).
      rewrite Hsent1.
      destruct (hp_sentinels _ _ _ Hok c j p Hc Hj Hp) as [H | H];
        fold h lists in H; [left | right; rewrite Hsize in H];
        unfold sizeof_FreedBlock in *; lia. }
  assert (Hpre : preceding_is this3 blocks1 p None).
  { unfold preceding_is. change (Impl.m_pool this3) with (Impl.m_pool this1).
    change (Impl.heap this3) with (Impl.heap this1). rewrite Hpool1.
    destruct Hbefore as [E | (Hp20 & Hno & Hsen)]; [left; exact E | right].
    rewrite wrap_small by (unfold is_size_t, sizeof_FreedBlock in *; lia).
    unfold FreedBlock.IsFreedBlock in *. unfold FreedBlock.m_magic, FreedBlock.m_id,
      FreedBlock.m_magic_at, FreedBlock.m_id_at in *.
    assert (Hlink : forall a, p - sizeof_FreedBlock <= a < p ->
                      no_link_cell lists blocks a).
    { intros a Ha j v Hj [<- | Hv].
      - destruct (Hsen j Hj) as [H | H]; fold lists in H; unfold sizeof_FreedBlock in *; lia.
      - destruct (Z.eq_dec v p) as [-> | Hne]; [unfold sizeof_FreedBlock in *; lia | ].
        pose proof (tg_size _ _ (hp_tagged _ _ _ Hok j v Hj Hv)) as [Hsv _]. fold h in Hsv.
        destruct (Hout j v Hj Hv Hne); unfold sizeof_FreedBlock in *; lia. }
    rewrite !Hframe1; [exact Hno | | | | ];
      try (apply Hlink); unfold sizeof_FreedBlock in *; lia. }
  assert (Hfol : following_at this3 blocks1 (p + s) (Some (p + s))).
  { unfold following_at. change (Impl.m_pool this3) with (Impl.m_pool this1).
    rewrite Hpool1. split; [ | split; [reflexivity | ]].
    - assert (Hw : wrap (Pool.base (Impl.m_pool this) + Pool.pos (Impl.m_pool this)) = 0
                   \/ p + (s + t)
                      <= wrap (Pool.base (Impl.m_pool this) + Pool.pos (Impl.m_pool this))).
      { destruct (Z.eq_dec (Pool.base (Impl.m_pool this) + Pool.pos (Impl.m_pool this))
                    (2 ^ 32)) as [E | E].
        - left. rewrite E. reflexivity.
        - right. rewrite wrap_small by (unfold is_size_t, sizeof_FreedBlock in *; lia).
          exact Hpos. }
      unfold sizeof_FreedBlock in *. lia.
    - exists (SegregatedRangeLists.SizeClass t). split.
      + split; [apply SizeClass_nonneg | ].
        pose proof (ok_class _ _ _ _ (hp_lists _ _ _ Hok) c p Hc Hp) as Ec.
        fold h in Ec. rewrite Hsize in Ec.
        assert (SegregatedRangeLists.SizeClass t <= c); [ | lia]. rewrite <- Ec.
        apply SizeClass_mono; unfold is_size_t, sizeof_FreedBlock in *; lia.
      + assert (Hct : 0 <= SegregatedRangeLists.SizeClass t < 32).
        { split; [apply SizeClass_nonneg | ].
          pose proof (ok_class _ _ _ _ (hp_lists _ _ _ Hok) c p Hc Hp) as Ec.
          fold h in Ec. rewrite Hsize in Ec.
          assert (SegregatedRangeLists.SizeClass t <= c); [ | lia]. rewrite <- Ec.
          apply SizeClass_mono; unfold is_size_t, sizeof_FreedBlock in *; lia. }
        apply (Hmem1 _ _ Hct). left. split; reflexivity. }
  assert (Hin1 : Pool.pool_contains (Impl.m_pool this3) p = true).
  { change (Impl.m_pool this3) with (Impl.m_pool this1). rewrite Hpool1.
    unfold Pool.pool_contains. apply andb_true_iff. split; [apply Z.leb_le | apply Z.ltb_lt];
      unfold sizeof_FreedBlock in *; lia. }
  assert (Hin2 : Pool.pool_contains (Impl.m_pool this3) (p + s - 1) = true).
  { change (Impl.m_pool this3) with (Impl.m_pool this1). rewrite Hpool1.
    unfold Pool.pool_contains. apply andb_true_iff. split; [apply Z.leb_le | apply Z.ltb_lt];
      unfold sizeof_FreedBlock in *; lia. }
  assert (Hfuel3 : forall i, 0 <= i < 32 -> (S (length (blocks1 i)) < fuel)%nat).
  { intros i Hi. eapply Nat.le_lt_trans; [ | apply (Hfuel i Hi)].
    apply le_n_S. apply (Hlen1 i Hi). }
  assert (Hend : p + s < 2 ^ 32) by (unfold sizeof_FreedBlock in *; lia).
  assert (Hcount3 : free_count blocks1 + 1 < 2 ^ 32) by lia.
  assert (Hbytes3 : free_bytes (Impl.heap this3) blocks1 + s <= 2 ^ 31).
  { change (Impl.heap this3) with (Impl.heap this1). lia. }
  destruct (Deallocate_run fuel this3 blocks1 p s None (Some (p + s)) Hok3 Hrange3 Hvalid3
              Hextant3 Hextant_b3 Halign Hs Hsmod Hin1 Hin2 Hp0 Hend Hclear Hpre Hfol Hfuel3
              Hcount3 Hbytes3)
    as (this4 & blocks4 & Hrun4 & Hok4 & _ & Hsize4 & Hmem4 & Hbytes4 & _ & Hcount4 & _).
  cbn [merged] in Hcount4.
  change (Impl.heap this3) with (Impl.heap this1) in Hsize4, Hbytes4, Hmem4.
  rewrite Hsize1 in Hsize4.
  assert (Hmem4' : forall i u, 0 <= i < 32 ->
            (In u (blocks4 i) <->
             (i = SegregatedRangeLists.SizeClass (s + t) /\ u = p)
             \/ (In u (blocks1 i) /\ Some u <> None /\ Some u <> Some (p + s)))).
  { intros i u Hi. rewrite (Hmem4 i u Hi). rewrite Hsize1.
    replace (p + s - p + t) with (s + t) by lia. reflexivity. }
  exists this3, blocks1, this4, blocks4.
  split; [exact Hrun | split; [exact Hok3 | split; [exact Hmem1 | split; [exact Hsize1 | ]]]].
  split; [exact Hrun4 | split; [exact Hok4 | split; [ | split]]].
  - intros i u Hi. rewrite (Hmem4' i u Hi).
    pose proof (ok_class _ _ _ _ (hp_lists _ _ _ Hok) c p Hc Hp) as Ec.
    fold h in Ec. rewrite Hsize in Ec.
    split.
    + intros [[-> ->] | (Hu & _ & Hne)].
      * rewrite Ec. exact Hp.
      * apply (Hmem1 i u Hi) in Hu. destruct Hu as [[_ ->] | [Hu _]];
          [exfalso; apply Hne; reflexivity | exact Hu].
    + intros Hu. destruct (Z.eq_dec u p) as [-> | Hne].
      * left. split; [ | reflexivity].
        destruct (Z.eq_dec i c) as [-> | Hic]; [symmetry; exact Ec | ].
        assert (A : apart p p).
        { apply (rec_across _ _ (hp_records _ _ _ Hok) i c); try assumption.
          - right. exact Hu.
          - right. exact Hp. }
        now apply apart_neq in A.
      * right. split; [ | split; [discriminate | ]].
        -- apply (Hmem1 i u Hi). right. split; assumption.
        -- intros E. injection E as ->.
           pose proof (tg_size _ _ (hp_tagged _ _ _ Hok i (p + s) Hi Hu)) as [Hsv _].
           fold h in Hsv.
           destruct (Hout i (p + s) Hi Hu Hne); unfold sizeof_FreedBlock in *; lia.
  - rewrite Hsize4. lia.
  - rewrite (heap_ok_tallies fuel this blocks Hok), (heap_ok_tallies fuel this4 blocks4 Hok4).
    fold h.
    replace (free_count blocks4) with (free_count blocks) by lia.
    replace (free_bytes (Impl.heap this4) blocks4) with (free_bytes h blocks) by lia.
    reflexivity.
Qed.

(** [Allocate(64); Allocate(112) -> a; Allocate(64); Deallocate(a, 112)]:
    one tracked free block of 112 bytes between two live blocks. *)
Definition free_112 : result Impl.t :=
  s <- Scenario.create ;;
  '(_, s) <- Impl.Allocate Scenario.fuel s 64 ;;
  '(a, s) <- Impl.Allocate Scenario.fuel s 112 ;;
  '(_, s) <- Impl.Allocate Scenario.fuel s 64 ;;
  Impl.Deallocate Scenario.fuel s a 112.

Definition free_112_blocks (i : Z) : list ptr :=
  if i =? 7 then [Scenario.pool_at + 64] else [].

(** In [free_112], [Allocate(64)] splits the free block of 112 bytes at
    [pool_at + 64] into the allocation and a tail of 48 bytes, and
    [Deallocate] of the allocation merges the two again. *)
Lemma split_then_free_restores_witness :
  let st := Scenario.value Scenario.blank free_112 in
  let p := Scenario.pool_at + 64 in
  exists (this1 : Impl.t) (blocks1 : Z -> list ptr)
         (this2 : Impl.t) (blocks2 : Z -> list ptr),
    Impl.Allocate Scenario.fuel st 64 = Ok (p, this1)
    /\ heap_ok Scenario.fuel this1 blocks1
    /\ (forall i u, 0 <= i < 32 ->
          (In u (blocks1 i) <->
           (i = SegregatedRangeLists.SizeClass 48 /\ u = p + 64)
           \/ (In u (free_112_blocks i) /\ u <> p)))
    /\ FreedBlock.Size (Impl.heap this1) (p + 64) = 48
    /\ Impl.Deallocate Scenario.fuel this1 p 64 = Ok this2
    /\ heap_ok Scenario.fuel this2 blocks2
    /\ (forall i u, 0 <= i < 32 -> (In u (blocks2 i) <-> In u (free_112_blocks i)))
    /\ FreedBlock.Size (Impl.heap this2) p = 64 + 48
    /\ Scenario.tallies this2 = Scenario.tallies st.
Proof.
  cbv zeta.
  set (st := Scenario.value Scenario.blank free_112).
  set (p := Scenario.pool_at + 64).
  assert (Hok : heap_ok Scenario.fuel st free_112_blocks)
    by (apply heap_ok_b_sound; vm_compute; reflexivity).
  assert (Hrange : stats_in_range (Impl.m_stats st))
    by (repeat split; apply Z.leb_le || apply Z.ltb_lt; vm_compute; reflexivity).
  assert (Hvalid : Stats.Validate (Impl.m_stats st) = Ok tt) by (vm_compute; reflexivity).
  assert (Hnb : Stats.m_totalAllocatedBlocks (Impl.m_stats st) + 1 < 2 ^ 32)
    by (apply Z.ltb_lt; vm_compute; reflexivity).
  assert (Hny : Stats.m_totalAllocatedBytes (Impl.m_stats st) + 64 < 2 ^ 32)
    by (apply Z.ltb_lt; vm_compute; reflexivity).
  assert (Hfuel : forall i, 0 <= i < 32 ->
                    (S (S (length (free_112_blocks i))) < Scenario.fuel)%nat).
  { intros i _. unfold free_112_blocks, Scenario.fuel.
    destruct (i =? 7); cbn [length]; lia. }
  assert (Hfree : free_bytes (Impl.heap st) free_112_blocks <= 2 ^ 31)
    by (apply Z.leb_le; vm_compute; reflexivity).
  assert (Hs : 2 * sizeof_FreedBlock <= 64) by (unfold sizeof_FreedBlock; lia).
  assert (Ht : 2 * sizeof_FreedBlock <= 48) by (unfold sizeof_FreedBlock; lia).
  assert (Hsmod : 64 mod 16 = 0) by reflexivity.
  assert (Htmod : 48 mod 16 = 0) by reflexivity.
  assert (Hc : 0 <= 7 < 32) by lia.
  assert (Hp : In p (free_112_blocks 7)) by (left; reflexivity).
  assert (Hsize : FreedBlock.Size (Impl.heap st) p = 64 + 48) by (vm_compute; reflexivity).
  assert (Hfind : SegregatedRangeLists.Find Scenario.fuel (Impl.m_segregatedRangeLists st)
                    (Impl.heap st) 64 = Ok p) by (vm_compute; reflexivity).
  assert (Halign : p mod minAlignment = 0) by (vm_compute; reflexivity).
  assert (Hbase : Pool.base (Impl.m_pool st) <= p) by (apply Z.leb_le; vm_compute; reflexivity).
  assert (Hpos : p + (64 + 48) <= Pool.base (Impl.m_pool st) + Pool.pos (Impl.m_pool st))
    by (apply Z.leb_le; vm_compute; reflexivity).
  assert (Hpool : Pool.base (Impl.m_pool st) + Pool.pos (Impl.m_pool st) <= 2 ^ 32)
    by (apply Z.leb_le; vm_compute; reflexivity).
  assert (Hbefore : nothing_before st p).
  { right. split; [apply Z.leb_le; vm_compute; reflexivity | ].
    split; [vm_compute; reflexivity | ].
    intros j Hj. left. apply Z.leb_le.
    assert (Hall : forallb (fun j => sentinel (Impl.m_segregatedRangeLists st) j
                                     + sizeof_FreedBlock <=? p - sizeof_FreedBlock)
                     SegregatedRangeLists.indices = true) by (vm_compute; reflexivity).
    rewrite forallb_forall in Hall. apply (Hall j (class_cases j Hj)). }
  exact (split_then_free_restores Scenario.fuel st free_112_blocks 7 p 64 48
           Hok Hrange Hvalid Hnb Hny Hfuel Hfree Hs Hsmod Ht Htmod Hc Hp Hsize Hfind Halign
           Hbase Hpos Hpool Hbefore).
Defined.
